(** * Flix-Flow: the ranking and orchestration core, embedded in Rocq

    The development follows [backend/app/ranker.py],
    [backend/app/orchestrator.py] and the three engines under
    [backend/app/engines/].

    Modelling conventions.
    - Numbers are read in two ways. In the engines, the orchestrator and
      the module [Ranker] they call, Python [float] and [int] scores are
      exact rationals ([Q]): rounding, infinities and nan are left out,
      [==] on floats is [Qeq_bool], the literal [0.01] is [1/100]. The
      ranker is embedded a second time, in the module [B64], on binary64
      floats with the operations as Python applies them (rounding to
      nearest, nan, infinities, [ZeroDivisionError]); the properties of
      the ranker whose truth depends on the values of the scores are
      stated there.
    - A recommendation (a string-keyed [dict]) is the record [rec]: the
      fields every engine fills in ([movieId], [tmdbId], [title], [genres],
      [source]) are record fields, the numeric attributes read through a
      key ([predicted_rating], [score], [weighted_rating], ...) live in a
      finite map from key to number, so that a missing key is a [KeyError].
    - A Python [dict] keyed by movie id is an insertion-ordered association
      list; a Python [set] of genres is a [gset string].
    - The iteration order of a Python [set] of integers is not specified by
      the language (in CPython it depends on the hashes and on the insertion
      history); it is a parameter [set_iter] of the merge.
    - [sorted] on floats is a parameter [py_sorted] of the binary64 merge:
      it returns a rearrangement of its input, which is the stable sort
      when no key is nan; with a nan among the keys the comparisons are
      not an order and the result depends on the sorting algorithm.
    - Exceptions are values of [exn] in the [result] monad; the methods of
      the orchestrator also thread the engines, whose only mutable part is
      the cached mean of the statistical engine.
    - The database session is the two tables the engines read; the trained
      SVD model and the vector index are functions given with the
      engines. *)

From Stdlib Require Import ZArith QArith Qabs Qpower Lqa String Ascii List.
From Stdlib Require Import Sorting.Sorted Sorting.Permutation.
From Stdlib Require Import Floats.
From stdpp Require Import base option list gmap sets strings.

Set Warnings "-inexact-float".

Open Scope string_scope.
Open Scope list_scope.
Open Scope Z_scope.

(** ** Python preliminaries *)

Module Py.

Inductive exn : Set :=
| AssertionError
| ValueError
| KeyError
| IndexError
| ZeroDivisionError.

Inductive result (A : Type) : Type :=
| Ok (a : A)
| Raise (e : exn).
Arguments Ok {A} a.
Arguments Raise {A} e.

(** The value a computation returns, if it does not raise. *)
Definition returned {A} (m : result A) : option A :=
  match m with
  | Ok a => Some a
  | Raise _ => None
  end.

Definition bind {A B} (m : result A) (k : A -> result B) : result B :=
  match m with
  | Ok a => k a
  | Raise e => Raise e
  end.

Fixpoint mapM {A B} (f : A -> result B) (l : list A) : result (list B) :=
  match l with
  | [] => Ok []
  | x :: l' => bind (f x) (fun y => bind (mapM f l') (fun ys => Ok (y :: ys)))
  end.

(** Comparisons on numbers. *)
Definition Qltb (x y : Q) : bool := negb (Qle_bool y x).

(** [min(xs)] and [max(xs)] on a non-empty list, leftmost extremum kept;
    the head is passed apart. *)
Definition py_min (x : Q) (xs : list Q) : Q :=
  fold_left (fun m y => if Qltb y m then y else m) xs x.

Definition py_max (x : Q) (xs : list Q) : Q :=
  fold_left (fun m y => if Qltb m y then y else m) xs x.

(** [min(x, y)] of two numbers: [x] unless [y] is smaller. *)
Definition min2 (x y : Q) : Q := if Qltb y x then y else x.

(** [sum(xs)], starting from the integer [0]. *)
Definition py_sum (xs : list Q) : Q := fold_left Qplus xs 0%Q.

(** [l[:n]] for an integer [n] of either sign. *)
Definition slice_to {A} (n : Z) (l : list A) : list A :=
  if 0 <=? n then take (Z.to_nat n) l
  else take (length l - Z.to_nat (- n)) l.

(** [sorted(l, key=..., reverse=True)] and [l.sort(key=..., reverse=True)]:
    a stable sort, [ge a b] telling that the key of [a] is at least the key
    of [b]. Elements with equal keys keep their relative order. *)
Section Sorting.
Context {A : Type} (ge : A -> A -> bool).

Fixpoint insert_desc (x : A) (l : list A) : list A :=
  match l with
  | [] => [x]
  | y :: l' => if ge x y then x :: y :: l' else y :: insert_desc x l'
  end.

Definition sorted_desc (l : list A) : list A := foldr insert_desc [] l.
End Sorting.

(** [s.split(sep)] for a one-character separator. *)
Fixpoint split (sep : ascii) (s : string) : list string :=
  match s with
  | EmptyString => [EmptyString]
  | String c s' =>
      if Ascii.eqb c sep then EmptyString :: split sep s'
      else match split sep s' with
           | [] => [String c EmptyString]
           | w :: ws => String c w :: ws
           end
  end.

(** Insertion-ordered dictionaries keyed by movie id. *)
Section Dict.
Context {V : Type}.

Definition dict := list (Z * V).

Fixpoint dict_get (k : Z) (d : dict) : option V :=
  match d with
  | [] => None
  | (k', v) :: d' => if k =? k' then Some v else dict_get k d'
  end.

(** [d[k] = v]: an existing key keeps its place. *)
Fixpoint dict_set (k : Z) (v : V) (d : dict) : dict :=
  match d with
  | [] => [(k, v)]
  | (k', v') :: d' =>
      if k =? k' then (k, v) :: d' else (k', v') :: dict_set k v d'
  end.

Definition keys (d : dict) : list Z := map fst d.
Definition values (d : dict) : list V := map snd d.
End Dict.
Arguments dict V : clear implicits.

End Py.
Import Py.

Notation "'let*' x ':=' m 'in' k" := (Py.bind m (fun x => k))
  (at level 10, x name, m at level 100, k at level 200).

(** ** Recommendation records *)

Record rec : Type := mk_rec {
  movieId : Z;
  tmdbId : option Z;
  title : string;
  genres : string;
  source : string;
  num : gmap string Q;
}.

(** [rec[key]] for a numeric attribute. *)
Definition item (r : rec) (key : string) : result Q :=
  match num r !! key with
  | Some v => Ok v
  | None => Raise KeyError
  end.

(** [rec[key] = v]. *)
Definition set_item (r : rec) (key : string) (v : Q) : rec :=
  mk_rec (movieId r) (tmdbId r) (title r) (genres r) (source r)
         (<[key := v]> (num r)).

(** ** ranker.py *)

Module Ranker.

(** The loop of lines 34-38. *)
Fixpoint normalize_loop (recommendations : list rec) (score_key : string)
    (min_score max_score : Q) (normalized : dict Q) : result (dict Q) :=
  match recommendations with
  | [] => Ok normalized
  | r :: rest =>
      let movie_id := movieId r in
      let* raw_score := item r score_key in
      let norm_score := ((raw_score - min_score) / (max_score - min_score))%Q in
      normalize_loop rest score_key min_score max_score
                     (dict_set movie_id norm_score normalized)
  end.

Definition normalize_scores (recommendations : list rec) (score_key : string)
  : result (dict Q) :=
  match recommendations with
  | [] => Ok []
  | _ :: _ =>
      let* scores := mapM (fun r => item r score_key) recommendations in
      match scores with
      | [] => Raise ValueError
      | s0 :: ss =>
          let min_score := py_min s0 ss in
          let max_score := py_max s0 ss in
          if Qeq_bool max_score min_score then
            Ok (fold_left (fun d r => dict_set (movieId r) 1%Q d)
                          recommendations [])
          else
            normalize_loop recommendations score_key min_score max_score []
      end
  end.

(** The assertion of line 61. *)
Definition weights_ok (weights : list Q) : bool :=
  Qltb (Qabs (py_sum weights - 1)) (1 # 100).

(** Lines 78-89: the weighted sum over the sources that hold [movie_id]. *)
Definition combined (cn tn sn : dict Q) (cw tw sw : Q) (movie_id : Z) : Q :=
  let score := 0%Q in
  let score := match dict_get movie_id cn with
               | Some v => (score + v * cw)%Q
               | None => score
               end in
  let score := match dict_get movie_id tn with
               | Some v => (score + v * tw)%Q
               | None => score
               end in
  let score := match dict_get movie_id sn with
               | Some v => (score + v * sw)%Q
               | None => score
               end in
  score.

(** Lines 93-100: the entry built from the first matching candidate. *)
Definition details (movie_id : Z) (r : rec) (score : Q) : rec :=
  mk_rec movie_id (tmdbId r) (title r) (genres r) "hybrid_weighted"
         {[ "combined_score" := score ]}.

(** Lines 77-101: one turn of the loop over [all_movie_ids]; the state is
    the pair of dictionaries [combined_scores], [movie_details]. *)
Definition merge_step (collab_recs content_recs stats_recs : list rec)
    (cn tn sn : dict Q) (cw tw sw : Q)
    (st : dict Q * dict rec) (movie_id : Z) : dict Q * dict rec :=
  let '(combined_scores, movie_details) := st in
  let score := combined cn tn sn cw tw sw movie_id in
  let combined_scores := dict_set movie_id score combined_scores in
  match List.find (fun r => movieId r =? movie_id)
                  (collab_recs ++ content_recs ++ stats_recs) with
  | Some r => (combined_scores,
               dict_set movie_id (details movie_id r score) movie_details)
  | None => (combined_scores, movie_details)
  end.

(** [sorted(xs, key=lambda x: x[key], reverse=True)]: the keys are read
    once, then the list is sorted on them. *)
Definition sorted_by_item_desc (key : string) (xs : list rec)
  : result (list rec) :=
  let* keyed := mapM (fun x => let* k := item x key in Ok (k, x)) xs in
  Ok (map snd (sorted_desc (fun a b => Qle_bool (fst b) (fst a)) keyed)).

Section Merge.
(** The order in which a set of movie ids is iterated, as a function of
    the sequence of insertions. *)
Context (set_iter : list Z -> list Z).

Definition merge_and_rank (collab_recs content_recs stats_recs : list rec)
    (weights : list Q) : result (list rec) :=
  if negb (weights_ok weights) then Raise AssertionError else
  match weights with
  | [collab_weight; content_weight; stats_weight] =>
      let* collab_normalized :=
        normalize_scores collab_recs "predicted_rating" in
      let* content_normalized := normalize_scores content_recs "score" in
      let* stats_normalized :=
        normalize_scores stats_recs "weighted_rating" in
      let all_movie_ids :=
        set_iter (keys collab_normalized ++ keys content_normalized
                  ++ keys stats_normalized) in
      let '(combined_scores, movie_details) :=
        fold_left (merge_step collab_recs content_recs stats_recs
                     collab_normalized content_normalized stats_normalized
                     collab_weight content_weight stats_weight)
                  all_movie_ids ([], []) in
      sorted_by_item_desc "combined_score" (values movie_details)
  | _ => Raise ValueError
  end.
End Merge.

(** [set(rec["genres"].split("|"))]. *)
Definition genre_set (r : rec) : gset string :=
  list_to_set (split "|"%char (genres r)).

(** Lines 135-142: the score a candidate competes with in one round. *)
Definition adjusted_score (diversity_factor : Q) (seen_genres : gset string)
    (r : rec) : Q :=
  let genres := genre_set r in
  let score := match num r !! "combined_score" with
               | Some v => v
               | None => 0%Q
               end in
  let new_genres := genres ∖ seen_genres in
  if bool_decide (new_genres ≠ ∅) then
    let boost := (diversity_factor * inject_Z (Z.of_nat (size new_genres))
                  / inject_Z (Z.of_nat (size genres)))%Q in
    (score + boost)%Q
  else score.

(** [enumerate(l)]. *)
Definition enumerate {A} (l : list A) : list (nat * A) :=
  combine (seq 0 (length l)) l.

(** Lines 131-146: the scan for the best candidate of a round. *)
Definition scan_step (diversity_factor : Q) (seen_genres : gset string)
    (best : Q * nat) (ir : nat * rec) : Q * nat :=
  let '(best_score, best_idx) := best in
  let '(i, r) := ir in
  let score := adjusted_score diversity_factor seen_genres r in
  if Qltb best_score score then (score, i) else (best_score, best_idx).

Definition select_best (diversity_factor : Q) (seen_genres : gset string)
    (remaining : list rec) : Q * nat :=
  fold_left (scan_step diversity_factor seen_genres) (enumerate remaining)
            ((-1)%Q, 0%nat).

(** [l.pop(i)] for [0 <= i]. *)
Definition pop {A} (i : nat) (l : list A) : result (A * list A) :=
  match l !! i with
  | Some x => Ok (x, delete i l)
  | None => Raise IndexError
  end.

(** The [while remaining] loop of lines 130-152; [None] when the fuel is
    used up before [remaining] is empty. *)
Fixpoint rerank_loop (fuel : nat) (diversity_factor : Q)
    (result : list rec) (seen_genres : gset string) (remaining : list rec)
  : option (Py.result (list rec)) :=
  match remaining with
  | [] => Some (Ok result)
  | _ :: _ =>
      match fuel with
      | O => None
      | S fuel' =>
          let '(_, best_idx) :=
            select_best diversity_factor seen_genres remaining in
          match pop best_idx remaining with
          | Raise e => Some (Raise e)
          | Ok (chosen, remaining') =>
              let result := result ++ [chosen] in
              let chosen_genres := genre_set chosen in
              rerank_loop fuel' diversity_factor result
                          (seen_genres ∪ chosen_genres) remaining'
          end
      end
  end.

Definition rerank_with_diversity (recommendations : list rec)
    (diversity_factor : Q) : option (result (list rec)) :=
  match recommendations with
  | [] => Some (Ok [])
  | _ :: _ =>
      rerank_loop (length recommendations) diversity_factor [] ∅
                  recommendations
  end.

End Ranker.

(** ** database.py *)

Module Movie.
Record t : Type := mk {
  movieId : Z;
  tmdbId : option Z;
  title : string;
  genres : string;
  avg_rating : Q;
  vote_count : Z;
  release_year : option Z;
}.
End Movie.

Module Rating.
Record t : Type := mk {
  userId : Z;
  movieId : Z;
  rating : Q;
}.
End Rating.

(** What a request reads from outside: the two tables of the database
    session and the year the clock shows ([datetime.now().year]). *)
Record Session : Type := mk_Session {
  movies : list Movie.t;
  ratings : list Rating.t;
  now_year : Z;
}.

(** [sorted(xs, key=..., reverse=True)] for a key computed from the record;
    the key may be a tuple, [geK] compares two keys. *)
Definition sort_desc_on {K} (key : rec -> result K) (geK : K -> K -> bool)
    (xs : list rec) : result (list rec) :=
  let* keyed := mapM (fun x => let* k := key x in Ok (k, x)) xs in
  Ok (map snd (sorted_desc (fun a b => geK (fst a) (fst b)) keyed)).

Definition Qgeb (x y : Q) : bool := Qle_bool y x.

(** ** engines/collaborative.py *)

Module CollaborativeEngine.

(** [model] stands for the trained SVD model: [model u m] is
    [self.model.predict(u, m).est]. *)
Record t : Type := mk { model : Z -> Z -> Q }.

Definition predict_for_user (self : t) (user_id : Z) (db : Session)
    (top_n : Z) : result (list rec) :=
  let rated_movie_ids :=
    map Rating.movieId
        (List.filter (fun r => Rating.userId r =? user_id) (ratings db)) in
  let all_movies := movies db in
  let predictions :=
    map (fun movie =>
           mk_rec (Movie.movieId movie) (Movie.tmdbId movie)
                  (Movie.title movie) (Movie.genres movie)
                  "collaborative_svd"
                  {[ "predicted_rating" :=
                       model self user_id (Movie.movieId movie) ]})
        (List.filter
           (fun movie =>
              negb (bool_decide (Movie.movieId movie ∈ rated_movie_ids)))
           all_movies) in
  let* predictions :=
    sort_desc_on (fun x => item x "predicted_rating") Qgeb predictions in
  Ok (slice_to top_n predictions).

Definition predict_single (self : t) (user_id movie_id : Z) : Q :=
  model self user_id movie_id.

Definition get_hero_movie (self : t) (user_id : Z) (db : Session)
  : result (option rec) :=
  let* recommendations := predict_for_user self user_id db 1 in
  match recommendations with
  | hero :: _ =>
      let* predicted_rating := item hero "predicted_rating" in
      Ok (Some (set_item hero "confidence"
                         (min2 (predicted_rating / 5) 1)))
  | [] => Ok None
  end.

End CollaborativeEngine.

(** ** engines/statistical.py *)

Module StatisticalEngine.

Record t : Type := mk {
  global_mean : option Q;
  min_votes : Z;
}.

Definition init : t := mk None 50.

(** [db.query(func.avg(Movie.avg_rating)).scalar()]. *)
Definition avg_of (xs : list Q) : option Q :=
  match xs with
  | [] => None
  | _ :: _ => Some (py_sum xs / inject_Z (Z.of_nat (length xs)))%Q
  end.

(** Returns the mean and the engine with its cache filled. *)
Definition calculate_global_mean (self : t) (db : Session) : Q * t :=
  match global_mean self with
  | None =>
      let result := avg_of (map Movie.avg_rating (movies db)) in
      let mean := match result with
                  | Some v => if Qeq_bool v 0 then 3%Q else v
                  | None => 3%Q
                  end in
      (mean, mk (Some mean) (min_votes self))
  | Some mean => (mean, self)
  end.

(** In [Q] a division by zero gives 0; the source raises
    [ZeroDivisionError] when [v + m] is zero, which the threshold
    [min_votes = 50] of the engine excludes. *)
Definition weighted_rating (avg_rating : Q) (vote_count : Z) (C : Q) (m : Z)
  : Q :=
  let v := inject_Z vote_count in
  let R := avg_rating in
  let m := inject_Z m in
  ((v / (v + m)) * R + (m / (v + m)) * C)%Q.

Definition get_trending (self : t) (db : Session) (top_n : Z)
    (time_window_days : option Z) : result (list rec) * t :=
  let '(C, self) := calculate_global_mean self db in
  let m := min_votes self in
  let query := List.filter (fun movie => m <=? Movie.vote_count movie) (movies db) in
  let query :=
    match time_window_days with
    | Some days =>
        if days =? 0 then query else
        let current_year := now_year db in
        let years_back := days / 365 in
        let min_year := current_year - years_back in
        List.filter (fun movie => match Movie.release_year movie with
                                  | Some y => min_year <=? y
                                  | None => false
                                  end) query
    | None => query
    end in
  let results :=
    map (fun movie =>
           let wr := weighted_rating (Movie.avg_rating movie)
                                     (Movie.vote_count movie) C m in
           mk_rec (Movie.movieId movie) (Movie.tmdbId movie)
                  (Movie.title movie) (Movie.genres movie)
                  "statistical_bayesian"
                  (<[ "avg_rating" := Movie.avg_rating movie ]>
                   (<[ "vote_count" := inject_Z (Movie.vote_count movie) ]>
                    {[ "weighted_rating" := wr ]})))
        query in
  (let* results :=
     sort_desc_on (fun x => item x "weighted_rating") Qgeb results in
   Ok (slice_to top_n results), self).

(** [contains genres genre] stands for the test
    [Movie.genres.contains(genre)] as the database evaluates it, [lower]
    for [str.lower]. *)
Section Genre.
Context (contains : string -> string -> bool) (lower : string -> string).

Definition get_by_genre (self : t) (db : Session) (genre : string)
    (top_n : Z) : result (list rec) * t :=
  let '(C, self) := calculate_global_mean self db in
  let m := min_votes self in
  let movies :=
    List.filter (fun movie => contains (Movie.genres movie) genre
                              && (m <=? Movie.vote_count movie))
                (movies db) in
  let results :=
    map (fun movie =>
           let wr := weighted_rating (Movie.avg_rating movie)
                                     (Movie.vote_count movie) C m in
           mk_rec (Movie.movieId movie) (Movie.tmdbId movie)
                  (Movie.title movie) (Movie.genres movie)
                  ("statistical_genre_" ++ lower genre)
                  {[ "weighted_rating" := wr ]})
        movies in
  (let* results :=
     sort_desc_on (fun x => item x "weighted_rating") Qgeb results in
   Ok (slice_to top_n results), self).
End Genre.

Definition get_hero_movie (self : t) (db : Session)
  : result (option rec) * t :=
  let '(trending, self) := get_trending self db 1 None in
  (let* trending := trending in
   match trending with
   | hero :: _ =>
       let* weighted_rating := item hero "weighted_rating" in
       Ok (Some (set_item hero "confidence"
                          (min2 (weighted_rating / 5) 1)))
   | [] => Ok None
   end, self).

End StatisticalEngine.

(** ** engines/content.py *)

Module ContentEngine.

(** One entry of the vector index as a query returns it. Index ids are the
    decimal strings of movie ids; they are kept as the integers they
    print. *)
Module Metadata.
Record t : Type := mk {
  movieId : Z;
  tmdbId : option Z;
  title : string;
  genres : string;
  avg_rating : option Q;
  vote_count : option Z;
}.
End Metadata.

Record Neighbour : Type := mk_Neighbour {
  id : Z;
  metadata : Metadata.t;
  distance : Q;
}.

(** The vector index: [collection_get i] is the stored embedding of id
    [i], if any; [collection_query e n] the [n] nearest entries of [e]. *)
Record t : Type := mk {
  collection_get : Z -> option (list Q);
  collection_query : list Q -> Z -> list Neighbour;
}.

Definition find_similar_to_movie (self : t) (movie_id : Z) (top_n : Z)
  : list rec :=
  match collection_get self movie_id with
  | None => []
  | Some embedding =>
      let similar := collection_query self embedding (top_n + 1) in
      let similar_movies :=
        map (fun nb =>
               let metadata := metadata nb in
               mk_rec (Metadata.movieId metadata) (Metadata.tmdbId metadata)
                      (Metadata.title metadata) (Metadata.genres metadata)
                      "content-similarity"
                      (<[ "similarity_score" := (1 - distance nb)%Q ]>
                       (<[ "avg_rating" :=
                             default 0%Q (Metadata.avg_rating metadata) ]>
                        {[ "vote_count" :=
                             inject_Z
                               (default 0 (Metadata.vote_count metadata)) ]})))
            (List.filter (fun nb => negb (id nb =? movie_id)) similar) in
      slice_to top_n similar_movies
  end.

(** Lines 107-119: one similar movie is added to [similar_movies]. *)
Definition aggregate (similar_movies : dict rec) (movie : rec)
  : result (dict rec) :=
  let movie_id := movieId movie in
  match dict_get movie_id similar_movies with
  | Some seen =>
      let* score := item seen "score" in
      let* similarity_score := item movie "similarity_score" in
      let seen := set_item seen "score" (score + similarity_score)%Q in
      let* count := item seen "count" in
      let seen := set_item seen "count" (count + 1)%Q in
      Ok (dict_set movie_id seen similar_movies)
  | None =>
      let* similarity_score := item movie "similarity_score" in
      Ok (dict_set movie_id
            (set_item (set_item movie "score" similarity_score) "count" 1%Q)
            similar_movies)
  end.

Fixpoint aggregate_all (similar_movies : dict rec) (similar : list rec)
  : result (dict rec) :=
  match similar with
  | [] => Ok similar_movies
  | movie :: rest =>
      let* similar_movies := aggregate similar_movies movie in
      aggregate_all similar_movies rest
  end.

(** The loop over the liked movies, lines 104-119. *)
Fixpoint collect (self : t) (liked_movies : list Rating.t)
    (similar_movies : dict rec) : result (dict rec) :=
  match liked_movies with
  | [] => Ok similar_movies
  | rating :: rest =>
      let similar := find_similar_to_movie self (Rating.movieId rating) 10 in
      let* similar_movies := aggregate_all similar_movies similar in
      collect self rest similar_movies
  end.

(** The key [(x["count"], x["score"])] and its order. *)
Definition count_score (x : rec) : result (Q * Q) :=
  let* count := item x "count" in
  let* score := item x "score" in
  Ok (count, score).

Definition pair_geb (a b : Q * Q) : bool :=
  Qltb (fst b) (fst a) || (Qeq_bool (fst a) (fst b) && Qgeb (snd a) (snd b)).

Definition find_similar_to_user_preferences (self : t) (user_id : Z)
    (db : Session) (top_n : Z) : result (list rec) :=
  let liked_movies :=
    List.filter
      (fun r => (Rating.userId r =? user_id) && Qle_bool 4 (Rating.rating r))
      (ratings db) in
  match liked_movies with
  | [] => Ok []
  | _ :: _ =>
      let* similar_movies := collect self liked_movies [] in
      let recommendations := values similar_movies in
      let* recommendations :=
        sort_desc_on count_score pair_geb recommendations in
      Ok (slice_to top_n recommendations)
  end.

Definition get_hero_movie (self : t) (user_id : Z) (db : Session)
  : result (option rec) :=
  let* recommendations := find_similar_to_user_preferences self user_id db 1 in
  match recommendations with
  | hero :: _ =>
      let* similarity_score := item hero "similarity_score" in
      Ok (Some (set_item hero "confidence" similarity_score))
  | [] => Ok None
  end.

End ContentEngine.

(** ** orchestrator.py *)

Module Sec.
Record t : Type := mk {
  title : string;
  description : string;
  movies : list rec;
  source : string;
}.
End Sec.

Module Response.
Record t : Type := mk {
  strategy : string;
  is_new_user : bool;
  hero : option rec;
  sections : list Sec.t;
}.
End Response.

Module RecommendationOrchestrator.

(** The three engines the orchestrator holds; only the statistical one
    changes (its cached mean). *)
Record t : Type := mk {
  collaborative : CollaborativeEngine.t;
  statistical : StatisticalEngine.t;
  content : ContentEngine.t;
}.

Definition with_statistical (self : t) (s : StatisticalEngine.t) : t :=
  mk (collaborative self) s (content self).

(** A method of the orchestrator: it may raise, and it may leave the
    engines changed; an exception ends the method at once. *)
Definition M (A : Type) : Type := t -> result A * t.

Definition ret {A} (a : A) : M A := fun self => (Ok a, self).

Definition bindM {A B} (m : M A) (k : A -> M B) : M B :=
  fun self =>
    match m self with
    | (Ok a, self') => k a self'
    | (Raise e, self') => (Raise e, self')
    end.

Definition lift {A} (r : result A) : M A := fun self => (r, self).

(** Calls on [self.collaborative], [self.statistical], [self.content]. *)
Definition on_collaborative {A} (f : CollaborativeEngine.t -> result A)
  : M A := fun self => (f (collaborative self), self).

Definition on_statistical {A}
    (f : StatisticalEngine.t -> result A * StatisticalEngine.t) : M A :=
  fun self =>
    let '(r, s) := f (statistical self) in (r, with_statistical self s).

Definition on_content {A} (f : ContentEngine.t -> result A) : M A :=
  fun self => (f (content self), self).

Notation "'let!' x ':=' m 'in' k" := (bindM m (fun x => k))
  (at level 10, x name, m at level 100, k at level 200).

Definition is_new_user (user_id : Z) (db : Session) : bool :=
  let rating_count :=
    Z.of_nat (length (List.filter (fun r => Rating.userId r =? user_id)
                                  (ratings db))) in
  rating_count <? 5.

Definition _handle_new_user (db : Session) (top_n : Z)
  : M Response.t :=
  let! trending :=
    on_statistical
      (fun e => StatisticalEngine.get_trending e db top_n None) in
  let! hero :=
    on_statistical (fun e => StatisticalEngine.get_hero_movie e db) in
  ret (Response.mk "statistical" true hero
         [Sec.mk "Trending & Highly Rated"
                 "Popular movies with excellent ratings"
                 trending "statistical"]).

Definition _collaborative_only (user_id : Z) (db : Session) (top_n : Z)
  : M Response.t :=
  let! collab_recs :=
    on_collaborative
      (fun e => CollaborativeEngine.predict_for_user e user_id db top_n) in
  let! hero :=
    on_collaborative
      (fun e => CollaborativeEngine.get_hero_movie e user_id db) in
  ret (Response.mk "collaborative" false hero
         [Sec.mk "Personalized Picks" "Based on your rating history"
                 collab_recs "collaborative"]).

Definition _content_only (user_id : Z) (db : Session) (top_n : Z)
  : M Response.t :=
  let! content_recs :=
    on_content
      (fun e => ContentEngine.find_similar_to_user_preferences
                  e user_id db top_n) in
  let! hero :=
    on_content (fun e => ContentEngine.get_hero_movie e user_id db) in
  ret (Response.mk "content" false hero
         [Sec.mk "Similar to Movies You Loved" "Based on content similarity"
                 content_recs "content"]).

Definition _statistical_only (db : Session) (top_n : Z)
  : M Response.t :=
  let! trending :=
    on_statistical
      (fun e => StatisticalEngine.get_trending e db top_n None) in
  let! hero :=
    on_statistical (fun e => StatisticalEngine.get_hero_movie e db) in
  ret (Response.mk "statistical" false hero
         [Sec.mk "Top Rated Movies"
                 "Highest quality by statistical significance"
                 trending "statistical"]).

(** The weights the hybrid route passes to the merge
    ([weights=[0.5, 0.3, 0.2]]). *)
Definition hybrid_weights : list Q := [1 # 2; 3 # 10; 2 # 10]%Q.

Section Routes.
Context (set_iter : list Z -> list Z).

Definition _hybrid_recommendations (user_id : Z) (db : Session) (top_n : Z)
  : M Response.t :=
  let! collab_recs :=
    on_collaborative
      (fun e => CollaborativeEngine.predict_for_user e user_id db top_n) in
  let! content_recs :=
    on_content
      (fun e => ContentEngine.find_similar_to_user_preferences
                  e user_id db top_n) in
  let! stats_recs :=
    on_statistical
      (fun e => StatisticalEngine.get_trending e db top_n None) in
  let! hybrid_recs :=
    lift (Ranker.merge_and_rank set_iter collab_recs content_recs
                                stats_recs hybrid_weights) in
  let! hero :=
    on_collaborative
      (fun e => CollaborativeEngine.get_hero_movie e user_id db) in
  ret (Response.mk "hybrid" false hero
         [Sec.mk "Personalized for You"
                 "Hybrid recommendations combining all signals"
                 (slice_to top_n hybrid_recs) "hybrid";
          Sec.mk "Similar to Your Favorites" "Based on content you enjoyed"
                 (slice_to top_n content_recs) "content";
          Sec.mk "Trending Now" "Popular and highly rated"
                 (slice_to top_n stats_recs) "statistical"]).

Definition get_recommendations (user_id : Z) (db : Session)
    (strategy : string) (top_n : Z)
  : M Response.t :=
  let is_new := is_new_user user_id db in
  if is_new then _handle_new_user db top_n
  else if String.eqb strategy "collaborative" then
    _collaborative_only user_id db top_n
  else if String.eqb strategy "content" then
    _content_only user_id db top_n
  else if String.eqb strategy "statistical" then
    _statistical_only db top_n
  else _hybrid_recommendations user_id db top_n.

End Routes.

End RecommendationOrchestrator.

(** ** Concrete material for the examples *)

(** One admissible iteration order of a set: the order of first
    insertion. *)
Definition insertion_order (l : list Z) : list Z :=
  rev (nodup Z.eq_dec (rev l)).


(** A small catalogue: three candidate movies and five more that user 7
    has rated; user 8 has rated two. *)
Definition example_movies : list Movie.t :=
  [Movie.mk 1 (Some 101) "Alpha" "Drama" 4%Q 60 (Some 1999);
   Movie.mk 2 (Some 102) "Beta" "Comedy|Romance" (9 # 2) 200 (Some 2005);
   Movie.mk 3 None "Gamma" "Action" 3%Q 10 None;
   Movie.mk 11 None "Rated one" "Drama" 3%Q 1 None;
   Movie.mk 12 None "Rated two" "Drama" 3%Q 1 None;
   Movie.mk 13 None "Rated three" "Drama" 3%Q 1 None;
   Movie.mk 14 None "Rated four" "Drama" 3%Q 1 None;
   Movie.mk 15 None "Rated five" "Drama" 3%Q 1 None].

Definition example_ratings : list Rating.t :=
  [Rating.mk 7 11 5%Q; Rating.mk 7 12 4%Q; Rating.mk 7 13 3%Q;
   Rating.mk 7 14 2%Q; Rating.mk 7 15 1%Q;
   Rating.mk 8 11 5%Q; Rating.mk 8 12 4%Q].

Definition example_db : Session :=
  mk_Session example_movies example_ratings 2024.

(** A model that likes movie 1 best, then movie 2. *)
Definition example_model (user_id movie_id : Z) : Q :=
  if movie_id =? 1 then (9 # 2)%Q
  else if movie_id =? 2 then 4%Q
  else 1%Q.

(** A vector index in which movies 11 and 12 are stored, both close to
    movie 2. *)
Definition example_neighbours (embedding : list Q) (n : Z)
  : list ContentEngine.Neighbour :=
  let beta := ContentEngine.Metadata.mk 2 None "Beta" "Comedy|Romance"
                                        (Some (9 # 2)%Q) (Some 200) in
  let gamma := ContentEngine.Metadata.mk 3 None "Gamma" "Action"
                                         (Some 3%Q) (Some 10) in
  match embedding with
  | [q] =>
      if Qeq_bool q 11 then
        [ContentEngine.mk_Neighbour 2 beta (1 # 10);
         ContentEngine.mk_Neighbour 3 gamma (1 # 2)]
      else [ContentEngine.mk_Neighbour 2 beta (2 # 10)]
  | _ => []
  end.

Definition example_orchestrator : RecommendationOrchestrator.t :=
  RecommendationOrchestrator.mk
    (CollaborativeEngine.mk example_model)
    StatisticalEngine.init
    (ContentEngine.mk
       (fun movie_id => if (movie_id =? 11) || (movie_id =? 12)
                        then Some [inject_Z movie_id] else None)
       example_neighbours).

(** The id of the hero of a response and the ids of its first section. *)
Definition hero_id (resp : Response.t) : option Z :=
  option_map movieId (Response.hero resp).

Definition first_section_ids (resp : Response.t) : list Z :=
  match Response.sections resp with
  | [] => []
  | sec :: _ => map movieId (Sec.movies sec)
  end.

(** What a method run on an orchestrator answers, if it does not raise. *)
Definition answer {A} (m : result A * RecommendationOrchestrator.t)
  : option A :=
  match fst m with
  | Ok a => Some a
  | Raise _ => None
  end.






(** * Binary64 numbers

    Python's [float] is the binary64 format of IEEE 754, which the
    primitive type [float] implements with rounding to nearest, ties to
    even. What follows names what is needed to state and prove facts
    about it from the specification [SpecFloat] of the operations. *)

(** A key that orders the floats: the class (negative infinity, negative,
    zero, positive, positive infinity), then the exponent and the
    mantissa; nan has no key. *)
Definition SFkey (f : spec_float) : option (Z * Z * Z) :=
  match f with
  | S754_nan => None
  | S754_infinity true => Some (-2, 0, 0)
  | S754_finite true m e => Some (-1, - e, Z.neg m)
  | S754_zero _ => Some (0, 0, 0)
  | S754_finite false m e => Some (1, e, Z.pos m)
  | S754_infinity false => Some (2, 0, 0)
  end.

Definition lex_lt (a b : Z * Z * Z) : Prop :=
  let '(a1, a2, a3) := a in
  let '(b1, b2, b3) := b in
  a1 < b1 \/ (a1 = b1 /\ (a2 < b2 \/ (a2 = b2 /\ a3 < b3))).

Definition lex_cmp (a b : Z * Z * Z) : comparison :=
  let '(a1, a2, a3) := a in
  let '(b1, b2, b3) := b in
  match a1 ?= b1 with
  | Eq => match a2 ?= b2 with
          | Eq => a3 ?= b3
          | c => c
          end
  | c => c
  end.

Definition lex_le (a b : Z * Z * Z) : Prop := lex_lt a b \/ a = b.

Definition fkey (x : float) : option (Z * Z * Z) := SFkey (Prim2SF x).

Definition pow2 (e : Z) : Q := (2 ^ e)%Q.

(** [x] lies in the binade below [2 ^ g]. *)
Definition mag (g : Z) (x : Q) : Prop := (pow2 (g - 1) <= x < pow2 g)%Q.

(** What a shift record says of the number that was shifted: its integer
    part, and where its fraction lies with respect to one half. *)
Definition located (mrs : shr_record) (x : Q) : Prop :=
  let m := inject_Z (shr_m mrs) in
  match shr_r mrs, shr_s mrs with
  | false, false => (x == m)%Q
  | false, true => (m < x < m + (1 # 2))%Q
  | true, false => (x == m + (1 # 2))%Q
  | true, true => (m + (1 # 2) < x < m + 1)%Q
  end.

(** [q] is [x] rounded to the nearest integer, ties to even. *)
Definition rne_spec (q : Z) (x : Q) : Prop :=
  (inject_Z q - (1 # 2) <= x <= inject_Z q + (1 # 2))%Q
  /\ ((x == inject_Z q + (1 # 2))%Q -> Z.even q = true)
  /\ ((x == inject_Z q - (1 # 2))%Q -> Z.even q = true).

(** The exponent of the last digit kept for a number of the binade below
    [2 ^ e]: 53 digits, none below [2 ^ -1074]. *)
Definition fexp64 (e : Z) : Z := Z.max (e - 53) (-1074).

(** The float of sign [s] for the rounded mantissa [q] at exponent [E]:
    zero, a finite float, or an infinity on overflow. *)
Definition finalize (s : bool) (q E : Z) : spec_float :=
  match q with
  | Z0 => S754_zero s
  | Zpos m =>
      if q =? 2 ^ 53 then
        if E + 1 <=? 971 then S754_finite s (2 ^ 52)%positive (E + 1)
        else S754_infinity s
      else if E <=? 971 then S754_finite s m E else S754_infinity s
  | Zneg _ => S754_nan
  end.

(** [f] is the rounding of the positive number [X], with the sign [s]. *)
Definition rounds_to_pos (s : bool) (X : Q) (f : spec_float) : Prop :=
  exists g q, mag g X /\ rne_spec q (X * pow2 (- fexp64 g))
              /\ f = finalize s q (fexp64 g).

(** [f] is the rounding of the number [V]. *)
Definition rounds_to (V : Q) (f : spec_float) : Prop :=
  ((V == 0)%Q /\ exists s, f = S754_zero s)
  \/ ((0 < V)%Q /\ rounds_to_pos false V f)
  \/ ((V < 0)%Q /\ rounds_to_pos true (- V) f).

(** The number a finite float stands for. *)
Definition SFval (f : spec_float) : Q :=
  match f with
  | S754_finite s m e =>
      ((if s then - inject_Z (Z.pos m) else inject_Z (Z.pos m)) * pow2 e)%Q
  | _ => 0%Q
  end.

Definition SFfinite (f : spec_float) : bool :=
  match f with
  | S754_zero _ | S754_finite _ _ _ => true
  | _ => false
  end.

(** The numbers with the two infinities: what a float other than nan
    stands for, and the exact results of the operations on them, [None]
    where the operation gives nan. *)
Inductive xreal : Type := NegInf | Fin (q : Q) | PosInf.

Definition xle (a b : xreal) : Prop :=
  match a, b with
  | NegInf, _ => True
  | _, PosInf => True
  | Fin p, Fin q => (p <= q)%Q
  | _, _ => False
  end.

Definition xeq (a b : xreal) : Prop :=
  match a, b with
  | NegInf, NegInf | PosInf, PosInf => True
  | Fin p, Fin q => (p == q)%Q
  | _, _ => False
  end.

Definition SFx (f : spec_float) : option xreal :=
  match f with
  | S754_nan => None
  | S754_infinity s => Some (if s then NegInf else PosInf)
  | _ => Some (Fin (SFval f))
  end.

Definition xrounds (v : xreal) (f : spec_float) : Prop :=
  match v with
  | NegInf => f = S754_infinity true
  | Fin q => rounds_to q f
  | PosInf => f = S754_infinity false
  end.

Definition xopp (a : xreal) : xreal :=
  match a with
  | NegInf => PosInf
  | Fin q => Fin (- q)
  | PosInf => NegInf
  end.

Definition xadd (a b : xreal) : option xreal :=
  match a, b with
  | Fin p, Fin q => Some (Fin (p + q))
  | PosInf, NegInf | NegInf, PosInf => None
  | PosInf, _ | _, PosInf => Some PosInf
  | NegInf, _ | _, NegInf => Some NegInf
  end.

Definition xsub (a b : xreal) : option xreal := xadd a (xopp b).

(** An infinity times (or divided by) a finite number. *)
Definition xscale (a : xreal) (q : Q) : option xreal :=
  match (q ?= 0)%Q with
  | Eq => None
  | Gt => Some a
  | Lt => Some (xopp a)
  end.

Definition xmul (a b : xreal) : option xreal :=
  match a, b with
  | Fin p, Fin q => Some (Fin (p * q))
  | Fin p, _ => xscale b p
  | _, Fin q => xscale a q
  | PosInf, PosInf | NegInf, NegInf => Some PosInf
  | _, _ => Some NegInf
  end.

(** The divisor is not zero. *)
Definition xdiv (a b : xreal) : option xreal :=
  match a, b with
  | Fin p, Fin q => Some (Fin (p / q))
  | Fin _, _ => Some (Fin 0)
  | _, Fin q => xscale a q
  | _, _ => None
  end.

(** What a primitive float stands for, [None] for nan. *)
Definition fx (a : float) : option xreal := SFx (Prim2SF a).

(** A float that is a number: neither nan nor an infinity. *)
Definition finite64 (a : float) : Prop := exists q, fx a = Some (Fin q).

(** [float(z)], the conversion Python applies to an [int] operand of a
    float operation: the nearest float. *)
Definition of_Z (z : Z) : float :=
  SF2Prim (binary_normalize prec emax z 0 false).

(** * The ranker on binary64 floats

    The same functions of [ranker.py] as in [Ranker] above, with the
    scores as binary64 floats: [<], [==], [+], [-], [*] are the
    operations of IEEE 754, [/] raises [ZeroDivisionError] on a zero
    divisor, [min], [max] and [sum] run through their list from the left
    as the interpreter does. *)

Module B64.

(** [a / b] on floats. *)
Definition py_div (a b : float) : result float :=
  if (b =? 0)%float then Raise ZeroDivisionError else Ok (a / b)%float.

(** [min(xs)] and [max(xs)] on a non-empty list. *)
Definition py_min (x : float) (xs : list float) : float :=
  fold_left (fun m y => if (y <? m)%float then y else m) xs x.

Definition py_max (x : float) (xs : list float) : float :=
  fold_left (fun m y => if (m <? y)%float then y else m) xs x.

(** [sum(xs)]: the additions are made from left to right, each one
    rounded, starting from the integer [0] (as CPython does up to version
    3.11; later versions compensate the rounding errors). *)
Definition py_sum (xs : list float) : float := fold_left PrimFloat.add xs 0%float.

Record rec : Type := mk_rec {
  movieId : Z;
  tmdbId : option Z;
  title : string;
  genres : string;
  source : string;
  num : gmap string float;
}.

Definition item (r : rec) (key : string) : result float :=
  match num r !! key with
  | Some v => Ok v
  | None => Raise KeyError
  end.

Module Ranker.

Fixpoint normalize_loop (recommendations : list rec) (score_key : string)
    (min_score max_score : float) (normalized : dict float)
  : result (dict float) :=
  match recommendations with
  | [] => Ok normalized
  | r :: rest =>
      let movie_id := movieId r in
      let* raw_score := item r score_key in
      let* norm_score :=
        py_div (raw_score - min_score)%float (max_score - min_score)%float in
      normalize_loop rest score_key min_score max_score
                     (dict_set movie_id norm_score normalized)
  end.

Definition normalize_scores (recommendations : list rec) (score_key : string)
  : result (dict float) :=
  match recommendations with
  | [] => Ok []
  | _ :: _ =>
      let* scores := mapM (fun r => item r score_key) recommendations in
      match scores with
      | [] => Raise ValueError
      | s0 :: ss =>
          let min_score := py_min s0 ss in
          let max_score := py_max s0 ss in
          if (max_score =? min_score)%float then
            Ok (fold_left (fun d r => dict_set (movieId r) 1%float d)
                          recommendations [])
          else
            normalize_loop recommendations score_key min_score max_score []
      end
  end.

Definition weights_ok (weights : list float) : bool :=
  (abs (py_sum weights - 1) <? 0.01)%float.

Definition combined (cn tn sn : dict float) (cw tw sw : float) (movie_id : Z)
  : float :=
  let score := 0%float in
  let score := match dict_get movie_id cn with
               | Some v => (score + v * cw)%float
               | None => score
               end in
  let score := match dict_get movie_id tn with
               | Some v => (score + v * tw)%float
               | None => score
               end in
  let score := match dict_get movie_id sn with
               | Some v => (score + v * sw)%float
               | None => score
               end in
  score.

Definition details (movie_id : Z) (r : rec) (score : float) : rec :=
  mk_rec movie_id (tmdbId r) (title r) (genres r) "hybrid_weighted"
         {[ "combined_score" := score ]}.

Definition merge_step (collab_recs content_recs stats_recs : list rec)
    (cn tn sn : dict float) (cw tw sw : float)
    (st : dict float * dict rec) (movie_id : Z) : dict float * dict rec :=
  let '(combined_scores, movie_details) := st in
  let score := combined cn tn sn cw tw sw movie_id in
  let combined_scores := dict_set movie_id score combined_scores in
  match List.find (fun r => movieId r =? movie_id)
                  (collab_recs ++ content_recs ++ stats_recs) with
  | Some r => (combined_scores,
               dict_set movie_id (details movie_id r score) movie_details)
  | None => (combined_scores, movie_details)
  end.

Section Merge.
(** The order in which a set of movie ids is iterated, and the list that
    [sorted(..., reverse=True)] returns for a list of entries paired with
    their keys. *)
Context (set_iter : list Z -> list Z).
Context (py_sorted : list (float * rec) -> list (float * rec)).

Definition sorted_by_item_desc (key : string) (xs : list rec)
  : result (list rec) :=
  let* keyed := mapM (fun x => let* k := item x key in Ok (k, x)) xs in
  Ok (map snd (py_sorted keyed)).

Definition merge_and_rank (collab_recs content_recs stats_recs : list rec)
    (weights : list float) : result (list rec) :=
  if negb (weights_ok weights) then Raise AssertionError else
  match weights with
  | [collab_weight; content_weight; stats_weight] =>
      let* collab_normalized :=
        normalize_scores collab_recs "predicted_rating" in
      let* content_normalized := normalize_scores content_recs "score" in
      let* stats_normalized :=
        normalize_scores stats_recs "weighted_rating" in
      let all_movie_ids :=
        set_iter (keys collab_normalized ++ keys content_normalized
                  ++ keys stats_normalized) in
      let '(combined_scores, movie_details) :=
        fold_left (merge_step collab_recs content_recs stats_recs
                     collab_normalized content_normalized stats_normalized
                     collab_weight content_weight stats_weight)
                  all_movie_ids ([], []) in
      sorted_by_item_desc "combined_score" (values movie_details)
  | _ => Raise ValueError
  end.
End Merge.

(** [set(rec["genres"].split("|"))]. *)
Definition genre_set (r : rec) : gset string :=
  list_to_set (split "|"%char (genres r)).

(** Lines 135-142: the score a candidate competes with in one round. *)
Definition adjusted_score (diversity_factor : float)
    (seen_genres : gset string) (r : rec) : result float :=
  let genres := genre_set r in
  let score := match num r !! "combined_score" with
               | Some v => v
               | None => 0%float
               end in
  let new_genres := genres ∖ seen_genres in
  if bool_decide (new_genres ≠ ∅) then
    let* boost :=
      py_div (diversity_factor * of_Z (Z.of_nat (size new_genres)))%float
             (of_Z (Z.of_nat (size genres))) in
    Ok (score + boost)%float
  else Ok score.

(** [enumerate(l)]. *)
Definition enumerate {A} (l : list A) : list (nat * A) :=
  combine (seq 0 (length l)) l.

(** [l.pop(i)] for [0 <= i]. *)
Definition pop {A} (i : nat) (l : list A) : result (A * list A) :=
  match l !! i with
  | Some x => Ok (x, delete i l)
  | None => Raise IndexError
  end.

(** Lines 131-146: the scan for the best candidate of a round. *)
Definition scan_step (diversity_factor : float) (seen_genres : gset string)
    (best : float * nat) (ir : nat * rec) : result (float * nat) :=
  let '(best_score, best_idx) := best in
  let '(i, r) := ir in
  let* score := adjusted_score diversity_factor seen_genres r in
  Ok (if (best_score <? score)%float then (score, i)
      else (best_score, best_idx)).

Fixpoint scan (diversity_factor : float) (seen_genres : gset string)
    (l : list (nat * rec)) (best : float * nat) : result (float * nat) :=
  match l with
  | [] => Ok best
  | ir :: l' =>
      let* best := scan_step diversity_factor seen_genres best ir in
      scan diversity_factor seen_genres l' best
  end.

Definition select_best (diversity_factor : float) (seen_genres : gset string)
    (remaining : list rec) : result (float * nat) :=
  scan diversity_factor seen_genres (enumerate remaining)
       ((-1)%float, 0%nat).

(** The [while remaining] loop of lines 130-152; [None] when the fuel is
    used up before [remaining] is empty. *)
Fixpoint rerank_loop (fuel : nat) (diversity_factor : float)
    (result : list rec) (seen_genres : gset string) (remaining : list rec)
  : option (Py.result (list rec)) :=
  match remaining with
  | [] => Some (Ok result)
  | _ :: _ =>
      match fuel with
      | O => None
      | S fuel' =>
          match select_best diversity_factor seen_genres remaining with
          | Raise e => Some (Raise e)
          | Ok (_, best_idx) =>
              match pop best_idx remaining with
              | Raise e => Some (Raise e)
              | Ok (chosen, remaining') =>
                  let result := result ++ [chosen] in
                  let chosen_genres := genre_set chosen in
                  rerank_loop fuel' diversity_factor result
                              (seen_genres ∪ chosen_genres) remaining'
              end
          end
      end
  end.

Definition rerank_with_diversity (recommendations : list rec)
    (diversity_factor : float) : option (result (list rec)) :=
  match recommendations with
  | [] => Some (Ok [])
  | _ :: _ =>
      rerank_loop (length recommendations) diversity_factor [] ∅
                  recommendations
  end.

End Ranker.
End B64.

(** * Vocabulary of the properties *)

Definition has_key (key : string) (r : rec) : Prop := is_Some (num r !! key).

(** The number stored under [key], [0] when there is none. *)
Definition raw (key : string) (r : rec) : Q := default 0%Q (num r !! key).

(** Filling a dictionary from a list of records, the way the loops of
    [normalize_scores] do. *)
Definition fill {V : Type} (g : rec -> V) (recs : list rec) (d : dict V)
  : dict V :=
  fold_left (fun d r => dict_set (movieId r) (g r) d) recs d.

(** What [normalize_scores] returns on candidates that all carry the key:
    the dictionary filled with [1] when the extreme scores coincide, and
    with the min-max value otherwise. *)
Definition unit_or_scaled (key : string) (recs : list rec) : rec -> Q :=
  match map (raw key) recs with
  | [] => fun _ => 1%Q
  | s0 :: ss =>
      if Qeq_bool (py_max s0 ss) (py_min s0 ss) then fun _ => 1%Q
      else fun r => ((raw key r - py_min s0 ss)
                     / (py_max s0 ss - py_min s0 ss))%Q
  end.

(** The three normalized maps of a merge. *)
Definition normalized_of (key : string) (recs : list rec) : dict Q :=
  fill (unit_or_scaled key recs) recs [].

(** The share of one source in the combined score of a movie: its
    normalized score times its weight, zero when the source does not hold
    the movie. *)
Definition contribution (d : dict Q) (w : Q) (movie_id : Z) : Q :=
  match dict_get movie_id d with
  | Some v => (v * w)%Q
  | None => 0%Q
  end.

(** The combined score the merge gives to a movie. *)
Definition total (collab_recs content_recs stats_recs : list rec)
    (cw tw sw : Q) (movie_id : Z) : Q :=
  (contribution (normalized_of "predicted_rating" collab_recs) cw movie_id
   + contribution (normalized_of "score" content_recs) tw movie_id
   + contribution (normalized_of "weighted_rating" stats_recs) sw movie_id)%Q.

(** What is asked of the iteration order of a set: every inserted id
    comes once, and nothing else comes. *)
Definition set_iter_ok (set_iter : list Z -> list Z) : Prop :=
  forall l, NoDup (set_iter l) /\ forall x, In x (set_iter l) <-> In x l.

(** The first candidate with a given id, scanning a list from its head. *)
Definition first_match (recs : list rec) (movie_id : Z) : option rec :=
  List.find (fun r => movieId r =? movie_id) recs.

(** The entries the loop of lines 77-101 leaves in [movie_details]. *)
Definition merged_entries (collab_recs content_recs stats_recs : list rec)
    (cn tn sn : dict Q) (cw tw sw : Q) (ids : list Z) : list (Z * rec) :=
  flat_map
    (fun id =>
       match first_match (collab_recs ++ content_recs ++ stats_recs) id with
       | Some r => [(id, Ranker.details id r
                           (Ranker.combined cn tn sn cw tw sw id))]
       | None => []
       end) ids.

(** A list of numbers that never goes up. *)
Definition non_increasing (l : list Q) : Prop :=
  StronglySorted (fun a b => (b <= a)%Q) l.

(** The base score of a candidate: [rec.get("combined_score", 0)]. *)
Definition base_score (r : rec) : Q := raw "combined_score" r.

(** The order of the pairs (count, score): first component first. *)
Definition pair_ge (a b : Q * Q) : Prop :=
  (fst b < fst a)%Q \/ ((fst a == fst b)%Q /\ (snd b <= snd a)%Q).

(** A record of the content engine once aggregated. *)
Definition aggregated (r : rec) : Prop :=
  has_key "score" r /\ has_key "count" r /\ has_key "similarity_score" r.

Definition Qsum (l : list Q) : Q := fold_right Qplus 0%Q l.

(** A record without the attribute [key]. *)
Definition lacks_key (key : string) (r : rec) : Prop := num r !! key = None.

(** The list a stable sort on [key] leaves, greatest key first. *)
Definition ranked_on (key : string) (xs : list rec) : list rec :=
  map snd (sorted_desc (fun a b => Qgeb (fst a) (fst b))
                       (map (fun x => (raw key x, x)) xs)).

(** The ids of the movies a user has rated. *)
Definition rated_movie_ids (user_id : Z) (db : Session) : list Z :=
  map Rating.movieId
      (List.filter (fun r => Rating.userId r =? user_id) (ratings db)).

(** The test of the optional time window of [get_trending]: a window of
    0 days is no window, a movie without a year passes no window. *)
Definition in_window (db : Session) (time_window_days : option Z)
    (movie : Movie.t) : bool :=
  match time_window_days with
  | Some days =>
      if days =? 0 then true
      else match Movie.release_year movie with
           | Some y => now_year db - days / 365 <=? y
           | None => false
           end
  | None => true
  end.

(** The movies [get_trending] ranks. *)
Definition trending_candidates (m : Z) (db : Session)
    (time_window_days : option Z) : list Movie.t :=
  List.filter (fun movie => (m <=? Movie.vote_count movie)
                            && in_window db time_window_days movie)
              (movies db).

(** A vector index in which every entry is stored under the id of its
    movie, as the indexing script stores it. *)
Definition index_consistent (self : ContentEngine.t) : Prop :=
  forall embedding n nb,
    In nb (ContentEngine.collection_query self embedding n) ->
    ContentEngine.Metadata.movieId (ContentEngine.metadata nb)
    = ContentEngine.id nb.

(** The ratings of a user that count as likes. *)
Definition liked_movies (user_id : Z) (db : Session) : list Rating.t :=
  List.filter
    (fun r => (Rating.userId r =? user_id) && Qle_bool 4 (Rating.rating r))
    (ratings db).

(** The movies found similar to the liked ones, in the order in which the
    loop over the liked movies meets them. *)
Definition similar_pool (self : ContentEngine.t) (liked : list Rating.t)
  : list rec :=
  flat_map (fun rating => ContentEngine.find_similar_to_movie
                            self (Rating.movieId rating) 10) liked.

(** The entries of a list that are about one movie. *)
Definition occurrences (movie_id : Z) (pool : list rec) : list rec :=
  List.filter (fun r => movieId r =? movie_id) pool.

(** What the aggregation holds for a movie once [pool] has been met: the
    record of the first meeting, with the number of meetings and the sum
    of their similarity scores. *)
Definition summarizes (pool : list rec) (v : rec) : Prop :=
  let met := occurrences (movieId v) pool in
  exists first,
    hd_error met = Some first
    /\ tmdbId v = tmdbId first /\ title v = title first
    /\ genres v = genres first /\ source v = source first
    /\ num v !! "similarity_score" = num first !! "similarity_score"
    /\ (raw "count" v == inject_Z (Z.of_nat (length met)))%Q
    /\ (raw "score" v == Qsum (map (raw "similarity_score") met))%Q.

(** The invariant of the aggregation loop. *)
Definition aggregation (pool : list rec) (d : dict rec) : Prop :=
  NoDup (keys d)
  /\ forall movie_id,
       match dict_get movie_id d with
       | Some v => movieId v = movie_id /\ aggregated v /\ summarizes pool v
       | None => occurrences movie_id pool = []
       end.

(** A stable sort of any list on a numeric key, greatest first. *)
Definition sorted_on {X : Type} (k : X -> Q) (xs : list X) : list X :=
  map snd (sorted_desc (fun a b => Qgeb (fst a) (fst b))
                       (map (fun x => (k x, x)) xs)).

(** The engine call that gives the hero of a request. *)
Definition hero_of_route (self : RecommendationOrchestrator.t) (user_id : Z)
    (db : Session) (strategy : string) : result (option rec) :=
  let statistical_hero :=
    fst (StatisticalEngine.get_hero_movie
           (RecommendationOrchestrator.statistical self) db) in
  let collaborative_hero :=
    CollaborativeEngine.get_hero_movie
      (RecommendationOrchestrator.collaborative self) user_id db in
  if RecommendationOrchestrator.is_new_user user_id db then statistical_hero
  else if String.eqb strategy "collaborative" then collaborative_hero
  else if String.eqb strategy "content" then
    ContentEngine.get_hero_movie (RecommendationOrchestrator.content self)
                                 user_id db
  else if String.eqb strategy "statistical" then statistical_hero
  else collaborative_hero.

(** ** Vocabulary of the properties on binary64 *)

Definition has_key64 (key : string) (r : B64.rec) : Prop :=
  is_Some (B64.num r !! key).

Definition lacks_key64 (key : string) (r : B64.rec) : Prop :=
  B64.num r !! key = None.

(** The number stored under [key], [0.0] when there is none. *)
Definition raw64 (key : string) (r : B64.rec) : float :=
  default 0%float (B64.num r !! key).

Definition fill64 {V : Type} (g : B64.rec -> V) (recs : list B64.rec)
    (d : dict V) : dict V :=
  fold_left (fun d r => dict_set (B64.movieId r) (g r) d) recs d.

(** What [normalize_scores] stores for a candidate of [recs]. *)
Definition unit_or_scaled64 (key : string) (recs : list B64.rec)
  : B64.rec -> float :=
  match map (raw64 key) recs with
  | [] => fun _ => 1%float
  | s0 :: ss =>
      if (B64.py_max s0 ss =? B64.py_min s0 ss)%float then fun _ => 1%float
      else fun r => ((raw64 key r - B64.py_min s0 ss)
                     / (B64.py_max s0 ss - B64.py_min s0 ss))%float
  end.

Definition normalized_of64 (key : string) (recs : list B64.rec) : dict float :=
  fill64 (unit_or_scaled64 key recs) recs [].

(** A float between 0.0 and 1.0. *)
Definition in_unit (v : float) : Prop :=
  (0 <=? v)%float = true /\ (v <=? 1)%float = true.

Definition unit_valued64 (d : dict float) : Prop :=
  forall id v, dict_get id d = Some v -> in_unit v.

(** Raw scores that are finite numbers and whose range, greatest minus
    least, is a finite number too. *)
Definition in_range64 (key : string) (recs : list B64.rec) : Prop :=
  Forall finite64 (map (raw64 key) recs)
  /\ forall s0 ss, map (raw64 key) recs = s0 :: ss ->
                   finite64 (B64.py_max s0 ss - B64.py_min s0 ss)%float.

(** A list of floats that never goes up. *)
Definition non_increasing64 (l : list float) : Prop :=
  StronglySorted (fun a b => (b <=? a)%float = true) l.

Definition no_nan (l : list float) : Prop :=
  Forall (fun v => is_nan v = false) l.

Definition first_match64 (recs : list B64.rec) (movie_id : Z)
  : option B64.rec :=
  List.find (fun r => B64.movieId r =? movie_id) recs.

Definition merged_entries64 (collab_recs content_recs stats_recs : list B64.rec)
    (cn tn sn : dict float) (cw tw sw : float) (ids : list Z)
  : list (Z * B64.rec) :=
  flat_map
    (fun id =>
       match first_match64 (collab_recs ++ content_recs ++ stats_recs) id with
       | Some r => [(id, B64.Ranker.details id r
                           (B64.Ranker.combined cn tn sn cw tw sw id))]
       | None => []
       end) ids.

(** A stable sort, greatest key first. *)
Definition stable_sort (l : list (float * B64.rec))
  : list (float * B64.rec) :=
  sorted_desc (fun a b => (fst b <=? fst a)%float) l.

(** What is asked of [sorted]: it rearranges its input, and on keys
    without nan, which [<] orders totally, it is the stable sort. *)
Definition py_sorted_ok
    (py_sorted : list (float * B64.rec) -> list (float * B64.rec)) : Prop :=
  forall l,
    Permutation (py_sorted l) l
    /\ (no_nan (map fst l) -> py_sorted l = stable_sort l).

Definition base_score64 (r : B64.rec) : float := raw64 "combined_score" r.

(** The adjusted score of a candidate in a round of the rerank. *)
Definition adjusted64 (diversity_factor : float) (seen_genres : gset string)
    (r : B64.rec) : float :=
  let genres := B64.Ranker.genre_set r in
  let new_genres := genres ∖ seen_genres in
  if bool_decide (new_genres ≠ ∅) then
    (base_score64 r
     + diversity_factor * of_Z (Z.of_nat (size new_genres))
       / of_Z (Z.of_nat (size genres)))%float
  else base_score64 r.

(** A source taken apart from the position it is passed at. *)
Record weighted_source64 : Type := mk_source64 {
  candidates64 : list (B64.rec * float);
  weight64 : float;
}.

Definition present64 (key : string) (s : weighted_source64) : list B64.rec :=
  map (fun c => B64.mk_rec (B64.movieId (fst c)) (B64.tmdbId (fst c))
                           (B64.title (fst c)) (B64.genres (fst c))
                           (B64.source (fst c))
                           (<[ key := snd c ]> (B64.num (fst c))))
      (candidates64 s).

Definition merge_sources64 (set_iter : list Z -> list Z)
    (py_sorted : list (float * B64.rec) -> list (float * B64.rec))
    (s1 s2 s3 : weighted_source64) : result (list B64.rec) :=
  B64.Ranker.merge_and_rank set_iter py_sorted
    (present64 "predicted_rating" s1) (present64 "score" s2)
    (present64 "weighted_rating" s3) [weight64 s1; weight64 s2; weight64 s3].

(** A candidate with one numeric attribute, and one with none. *)
Definition cand (id : Z) (genres key : string) (v : float) : B64.rec :=
  B64.mk_rec id None "" genres "example" {[ key := v ]}.

Definition bare (id : Z) (genres : string) : B64.rec :=
  B64.mk_rec id None "" genres "example" ∅.

Definition ranking64 (l : list B64.rec) : list (Z * option float) :=
  map (fun r => (B64.movieId r, B64.num r !! "combined_score")) l.

Ltac has_keys64 :=
  repeat (apply Forall_cons; split; [eexists; vm_compute; reflexivity|]);
  apply Forall_nil_2.

(** Three sources that all hold the movies 1, 2 and 3, and whose weights
    0.2, 0.6, 0.2 pass the check. *)
Definition source_a : weighted_source64 :=
  mk_source64 [(bare 1 "Drama", 3); (bare 2 "Drama", 2);
               (bare 3 "Drama", 1)]%float 0.2.
Definition source_b : weighted_source64 :=
  mk_source64 [(bare 1 "Drama", 2); (bare 2 "Drama", 2);
               (bare 3 "Drama", 1)]%float 0.6.
Definition source_c : weighted_source64 :=
  mk_source64 [(bare 1 "Drama", 2); (bare 2 "Drama", 3);
               (bare 3 "Drama", 1)]%float 0.2.

(** Two sources that both give full marks to their only movie, and an
    empty one. *)
Definition source_one64 : weighted_source64 :=
  mk_source64 [(bare 1 "Drama", 5%float)] 0.5.
Definition source_nine64 : weighted_source64 :=
  mk_source64 [(bare 9 "Comedy", 5%float)] 0.5.
Definition source_none64 : weighted_source64 := mk_source64 [] 0.

(** * Properties *)

(** ** The error monad and the Python helpers *)

Lemma item_has_key key r : has_key key r -> item r key = Ok (raw key r).
Proof. intros [v Hv]. unfold item, raw. now rewrite Hv. Qed.

Lemma mapM_Ok {A B} (f : A -> result B) (g : A -> B) (l : list A) :
  Forall (fun x => f x = Ok (g x)) l -> mapM f l = Ok (map g l).
Proof.
  induction 1 as [|x l Hx _ IH]; simpl; [reflexivity|].
  now rewrite Hx, IH.
Qed.

Lemma mapM_item key (l : list rec) :
  Forall (has_key key) l -> mapM (fun r => item r key) l = Ok (map (raw key) l).
Proof.
  intros H. apply mapM_Ok. eapply Forall_impl; [exact H|].
  intros r Hr. now apply item_has_key.
Qed.

Lemma Qltb_true x y : Qltb x y = true <-> (x < y)%Q.
Proof.
  unfold Qltb. rewrite negb_true_iff, <- not_true_iff_false, Qle_bool_iff.
  split; [apply Qnot_le_lt | apply Qlt_not_le].
Qed.

Lemma Qltb_false x y : Qltb x y = false <-> (y <= x)%Q.
Proof. unfold Qltb. now rewrite negb_false_iff, Qle_bool_iff. Qed.

(** ** Dictionaries *)

Section DictFacts.
Context {V : Type}.
Implicit Types (d : dict V) (k : Z) (v : V).

Lemma dict_get_set_eq k v d : dict_get k (dict_set k v d) = Some v.
Proof.
  induction d as [|[k' v'] d IH]; simpl.
  - now rewrite Z.eqb_refl.
  - destruct (k =? k') eqn:E; simpl; rewrite ?Z.eqb_refl, ?E; auto.
Qed.

Lemma dict_get_set_ne k k' v d :
  k <> k' -> dict_get k' (dict_set k v d) = dict_get k' d.
Proof.
  intros Hne. induction d as [|[k0 v0] d IH]; simpl.
  - destruct (k' =? k) eqn:E; [apply Z.eqb_eq in E; congruence | reflexivity].
  - destruct (k =? k0) eqn:E; simpl.
    + apply Z.eqb_eq in E; subst k0.
      destruct (k' =? k) eqn:E'; [apply Z.eqb_eq in E'; congruence | reflexivity].
    + now rewrite IH.
Qed.

Lemma In_keys_set k k' v d :
  In k' (keys (dict_set k v d)) <-> k' = k \/ In k' (keys d).
Proof.
  unfold keys. induction d as [|[k0 v0] d IH]; simpl.
  - intuition.
  - destruct (k =? k0) eqn:E; simpl.
    + apply Z.eqb_eq in E; subst k0. intuition.
    + rewrite IH. intuition.
Qed.

Lemma NoDup_keys_set k v d : NoDup (keys d) -> NoDup (keys (dict_set k v d)).
Proof.
  unfold keys. induction d as [|[k0 v0] d IH]; simpl; intros Hnd.
  - constructor; [apply not_elem_of_nil | constructor].
  - apply NoDup_cons in Hnd as [Hk0 Hnd].
    destruct (k =? k0) eqn:E; simpl.
    + apply Z.eqb_eq in E; subst k0. now apply NoDup_cons.
    + apply NoDup_cons. split; [|auto].
      rewrite list_elem_of_In. change (map fst ?x) with (keys x).
      rewrite In_keys_set. rewrite list_elem_of_In in Hk0.
      apply Z.eqb_neq in E. intros [->|H]; [congruence | auto].
Qed.

Lemma dict_get_In_values k v d : dict_get k d = Some v -> In v (values d).
Proof.
  unfold values. induction d as [|[k0 v0] d IH]; simpl; [discriminate|].
  destruct (k =? k0); [intros [= ->]; auto | auto].
Qed.

Lemma fill_keys g recs : forall d k,
  In k (keys (fill g recs d)) <-> In k (keys d) \/ In k (map movieId recs).
Proof.
  unfold fill. induction recs as [|r recs IH]; intros d k; simpl.
  - tauto.
  - rewrite IH, In_keys_set. intuition.
Qed.

End DictFacts.

(** ** The normalizer *)

Lemma normalize_loop_fill key lo hi recs : forall d,
  Forall (has_key key) recs ->
  Ranker.normalize_loop recs key lo hi d
  = Ok (fill (fun r => ((raw key r - lo) / (hi - lo))%Q) recs d).
Proof.
  induction recs as [|r recs IH]; intros d Hk; simpl; [reflexivity|].
  apply Forall_cons in Hk as [Hr Hk].
  rewrite (item_has_key _ _ Hr). simpl. now apply IH.
Qed.

Lemma normalize_scores_fill key recs :
  Forall (has_key key) recs ->
  Ranker.normalize_scores recs key = Ok (fill (unit_or_scaled key recs) recs []).
Proof.
  intros Hk. unfold Ranker.normalize_scores, unit_or_scaled.
  destruct recs as [|r recs]; [reflexivity|].
  rewrite (mapM_item _ _ Hk). cbn [Py.bind map].
  destruct (Qeq_bool _ _); [reflexivity|].
  now rewrite normalize_loop_fill.
Qed.

(** ** Sorting *)

Section SortingFacts.
Context {A : Type} (ge : A -> A -> bool).
Hypothesis ge_total : forall a b, ge a b = false -> ge b a = true.
Hypothesis ge_trans :
  forall a b c, ge a b = true -> ge b c = true -> ge a c = true.

Lemma insert_desc_perm x l : Permutation (insert_desc ge x l) (x :: l).
Proof.
  induction l as [|y l IH]; simpl; [reflexivity|].
  destruct (ge x y); [reflexivity|].
  rewrite IH. apply perm_swap.
Qed.

Lemma sorted_desc_perm l : Permutation (sorted_desc ge l) l.
Proof.
  induction l as [|x l IH]; simpl; [reflexivity|].
  rewrite insert_desc_perm. now constructor.
Qed.

Lemma insert_desc_sorted x l :
  StronglySorted (fun a b => ge a b = true) l ->
  StronglySorted (fun a b => ge a b = true) (insert_desc ge x l).
Proof.
  induction 1 as [|y l Hs IH Hy]; simpl.
  - repeat constructor.
  - destruct (ge x y) eqn:E.
    + constructor; [now constructor|].
      constructor; [assumption|].
      eapply Forall_impl; [exact Hy|]. intros z Hz. eauto.
    + constructor; [assumption|].
      rewrite List.Forall_forall. intros z Hz.
      apply (Permutation_in _ (insert_desc_perm x l)) in Hz.
      destruct Hz as [<-|Hz]; [now apply ge_total|].
      rewrite List.Forall_forall in Hy. now apply Hy.
Qed.

Lemma sorted_desc_sorted l :
  StronglySorted (fun a b => ge a b = true) (sorted_desc ge l).
Proof.
  induction l as [|x l IH]; simpl; [constructor|].
  now apply insert_desc_sorted.
Qed.
End SortingFacts.

Lemma StronglySorted_map {A B} (f : A -> B) (R : B -> B -> Prop) l :
  StronglySorted (fun a b => R (f a) (f b)) l -> StronglySorted R (map f l).
Proof.
  induction 1 as [|x l Hs IH Hx]; simpl; constructor; [assumption|].
  rewrite List.Forall_forall in Hx. rewrite List.Forall_forall. intros y Hy.
  apply in_map_iff in Hy as (z & <- & Hz). now apply Hx.
Qed.

Lemma StronglySorted_weaken {A} (R R' : A -> A -> Prop) l :
  (forall a b, R a b -> R' a b) -> StronglySorted R l -> StronglySorted R' l.
Proof.
  intros HR. induction 1 as [|x l Hs IH Hx]; constructor; [assumption|].
  eapply Forall_impl; [exact Hx|]. auto.
Qed.

(** Sorting on a key that every record carries: the outcome is a
    rearrangement of the input in which the key never goes up. *)
Lemma sort_desc_on_Ok {K} (key : rec -> result K) (k : rec -> K)
    (geK : K -> K -> bool) (xs : list rec) :
  Forall (fun x => key x = Ok (k x)) xs ->
  sort_desc_on key geK xs
  = Ok (map snd (sorted_desc (fun a b => geK (fst a) (fst b))
                             (map (fun x => (k x, x)) xs))).
Proof.
  intros Hk. unfold sort_desc_on.
  rewrite (mapM_Ok _ (fun x => (k x, x))); [reflexivity|].
  eapply Forall_impl; [exact Hk|]. intros x Hx. simpl. now rewrite Hx.
Qed.

Lemma keyed_sorted_facts {K} (k : rec -> K) (geK : K -> K -> bool) xs :
  (forall a b, geK a b = false -> geK b a = true) ->
  (forall a b c, geK a b = true -> geK b c = true -> geK a c = true) ->
  let out := map snd (sorted_desc (fun a b => geK (fst a) (fst b))
                                  (map (fun x => (k x, x)) xs)) in
  Permutation out xs
  /\ StronglySorted (fun a b => geK (k a) (k b) = true) out.
Proof.
  intros Htot Htrans. cbn zeta.
  set (ge := fun a b : K * rec => geK (fst a) (fst b)).
  set (keyed := map (fun x => (k x, x)) xs).
  assert (Hperm : Permutation (sorted_desc ge keyed) keyed)
    by apply sorted_desc_perm.
  split.
  - rewrite Hperm. unfold keyed. rewrite map_map. simpl. now rewrite map_id.
  - assert (Hfst : Forall (fun p => fst p = k (snd p)) (sorted_desc ge keyed)).
    { rewrite Hperm. unfold keyed. rewrite List.Forall_forall. intros p Hp.
      apply in_map_iff in Hp as (x & <- & _). reflexivity. }
    assert (Hs : StronglySorted (fun a b => ge a b = true)
                                (sorted_desc ge keyed)).
    { apply sorted_desc_sorted; unfold ge; eauto. }
    revert Hfst Hs. generalize (sorted_desc ge keyed). clear.
    induction l as [|p l IH]; intros Hfst Hs; simpl; [constructor|].
    apply Forall_cons in Hfst as [Hp Hfst].
    apply StronglySorted_inv in Hs as [Hs Hall].
    constructor; [auto|].
    rewrite List.Forall_forall in Hall, Hfst.
    rewrite List.Forall_forall. intros y Hy.
    apply in_map_iff in Hy as (q & <- & Hq).
    specialize (Hall _ Hq). specialize (Hfst _ Hq).
    unfold ge in Hall. now rewrite Hp, Hfst in Hall.
Qed.

Lemma sorted_by_item_desc_Ok key xs :
  Forall (has_key key) xs ->
  exists out,
    Ranker.sorted_by_item_desc key xs = Ok out
    /\ Permutation out xs
    /\ non_increasing (map (raw key) out).
Proof.
  intros Hk. unfold Ranker.sorted_by_item_desc.
  rewrite (mapM_Ok _ (fun x => (raw key x, x))).
  2:{ eapply Forall_impl; [exact Hk|]. intros x Hx. simpl.
      now rewrite (item_has_key _ _ Hx). }
  eexists. split; [reflexivity|].
  destruct (keyed_sorted_facts (raw key) Qgeb xs) as [Hperm Hs].
  - unfold Qgeb. intros a b H.
    apply Qle_bool_iff. apply not_true_iff_false in H.
    rewrite Qle_bool_iff in H. lra.
  - unfold Qgeb. intros a b c. rewrite !Qle_bool_iff. lra.
  - split; [exact Hperm|].
    apply StronglySorted_map.
    eapply StronglySorted_weaken; [|exact Hs].
    unfold Qgeb. intros a b. now rewrite Qle_bool_iff.
Qed.

(** ** The merge *)

Lemma first_match_is_Some recs id :
  In id (map movieId recs) -> is_Some (first_match recs id).
Proof.
  unfold first_match. induction recs as [|x recs IH]; simpl; [tauto|].
  destruct (movieId x =? id) eqn:E; [eauto|].
  apply Z.eqb_neq in E. intros [H|H]; [congruence | auto].
Qed.

Section MergeFacts.
Context (collab_recs content_recs stats_recs : list rec).
Context (cn tn sn : dict Q) (cw tw sw : Q).

Local Abbreviation all_recs := (collab_recs ++ content_recs ++ stats_recs).
Local Abbreviation step :=
  (Ranker.merge_step collab_recs content_recs stats_recs cn tn sn cw tw sw).
Local Abbreviation entries :=
  (merged_entries collab_recs content_recs stats_recs cn tn sn cw tw sw).

Lemma dict_set_fresh {V} (k : Z) (v : V) (d : dict V) :
  ~ In k (keys d) -> dict_set k v d = d ++ [(k, v)].
Proof.
  unfold keys. induction d as [|[k' v'] d IH]; simpl; [reflexivity|].
  intros Hk. destruct (k =? k') eqn:E.
  - apply Z.eqb_eq in E. subst. tauto.
  - rewrite IH by tauto. reflexivity.
Qed.

Lemma merge_loop ids : forall st,
  NoDup ids ->
  (forall id, In id ids -> ~ In id (keys (snd st))) ->
  snd (fold_left step ids st) = snd st ++ entries ids.
Proof.
  induction ids as [|id ids IH]; intros [cs md] Hnd Hfresh; simpl.
  - now rewrite app_nil_r.
  - apply NoDup_cons in Hnd as [Hid Hnd]. rewrite list_elem_of_In in Hid.
    simpl in Hfresh. unfold first_match.
    destruct (List.find _ _) as [r|] eqn:E.
    + rewrite IH; [|assumption|].
      * simpl. rewrite dict_set_fresh by (apply Hfresh; now left).
        now rewrite <- app_assoc.
      * intros x Hx. simpl. rewrite In_keys_set.
        intros [->|H]; [tauto|]. eapply Hfresh; eauto.
    + rewrite IH; [reflexivity | assumption |].
      intros x Hx. simpl. apply Hfresh. now right.
Qed.

Lemma merged_entries_all ids :
  (forall id, In id ids -> In id (map movieId all_recs)) ->
  map (fun e => movieId (snd e)) (entries ids) = ids
  /\ forall e, In e (entries ids) ->
               In (fst e) ids /\
               exists r, first_match all_recs (fst e) = Some r
                         /\ snd e = Ranker.details (fst e) r
                              (Ranker.combined cn tn sn cw tw sw (fst e)).
Proof.
  unfold merged_entries. induction ids as [|id ids IH]; intros Hin; simpl.
  - split; [reflexivity | tauto].
  - destruct IH as [IH1 IH2]; [intros; apply Hin; now right|].
    destruct (first_match_is_Some all_recs id) as [r Hr];
      [apply Hin; now left|].
    rewrite Hr. simpl. split; [now rewrite IH1|].
    intros e [<-|He]; simpl.
    + split; [now left | eauto].
    + destruct (IH2 _ He) as [H1 H2]. split; [now right | assumption].
Qed.
End MergeFacts.

Lemma combined_sum cn tn sn cw tw sw id :
  (Ranker.combined cn tn sn cw tw sw id
   == contribution cn cw id + contribution tn tw id + contribution sn sw id)%Q.
Proof.
  unfold Ranker.combined, contribution.
  destruct (dict_get id cn), (dict_get id tn), (dict_get id sn); ring.
Qed.

Lemma details_combined_score id r s :
  num (Ranker.details id r s) !! "combined_score" = Some s.
Proof. unfold Ranker.details. simpl. apply lookup_singleton_eq. Qed.

Lemma normalized_of_keys key recs id :
  In id (keys (normalized_of key recs)) <-> In id (map movieId recs).
Proof. unfold normalized_of. rewrite fill_keys. simpl. tauto. Qed.

Section MergeResult.
Context (set_iter : list Z -> list Z) (Hiter : set_iter_ok set_iter).
Context (collab_recs content_recs stats_recs : list rec).
Context (cw tw sw : Q).
Hypothesis Hc : Forall (has_key "predicted_rating") collab_recs.
Hypothesis Ht : Forall (has_key "score") content_recs.
Hypothesis Hs : Forall (has_key "weighted_rating") stats_recs.
Hypothesis Hw : Ranker.weights_ok [cw; tw; sw] = true.

Let cn := normalized_of "predicted_rating" collab_recs.
Let tn := normalized_of "score" content_recs.
Let sn := normalized_of "weighted_rating" stats_recs.
Let ids := set_iter (keys cn ++ keys tn ++ keys sn).
Let all_recs := collab_recs ++ content_recs ++ stats_recs.

Lemma merge_ids_matched id : In id ids -> In id (map movieId all_recs).
Proof.
  unfold ids, all_recs. destruct (Hiter (keys cn ++ keys tn ++ keys sn)) as [_ H].
  rewrite H, !in_app_iff, !map_app, !in_app_iff.
  unfold cn, tn, sn. rewrite !normalized_of_keys. tauto.
Qed.

Lemma merge_and_rank_Ok :
  exists ranked,
    Ranker.merge_and_rank set_iter collab_recs content_recs stats_recs
                          [cw; tw; sw] = Ok ranked
    /\ Permutation ranked
         (values (merged_entries collab_recs content_recs stats_recs
                                 cn tn sn cw tw sw ids))
    /\ non_increasing (map (raw "combined_score") ranked).
Proof.
  unfold Ranker.merge_and_rank. rewrite Hw. cbn [negb].
  rewrite (normalize_scores_fill _ _ Hc), (normalize_scores_fill _ _ Ht),
          (normalize_scores_fill _ _ Hs).
  cbn [Py.bind].
  fold (normalized_of "predicted_rating" collab_recs).
  fold (normalized_of "score" content_recs).
  fold (normalized_of "weighted_rating" stats_recs).
  fold cn tn sn. fold ids.
  pose proof (merge_loop collab_recs content_recs stats_recs
                         cn tn sn cw tw sw ids ([], [])) as Hloop.
  match goal with
  | |- context [fold_left ?f ids ?a] =>
      destruct (fold_left f ids a) as [cs md]
  end.
  simpl in Hloop. rewrite Hloop.
  2:{ apply Hiter. }
  2:{ simpl. tauto. }
  apply sorted_by_item_desc_Ok.
  destruct (merged_entries_all collab_recs content_recs stats_recs
                               cn tn sn cw tw sw ids merge_ids_matched)
    as [_ Hall].
  rewrite List.Forall_forall. intros x Hx.
  apply in_map_iff in Hx as (e & <- & He).
  destruct (Hall _ He) as (_ & r & _ & ->).
  unfold has_key. rewrite details_combined_score. eauto.
Qed.

(** The ranked list holds one entry per iterated id, each built from the
    first matching candidate and the combined score of its id. *)
Lemma merge_and_rank_entries :
  exists ranked,
    Ranker.merge_and_rank set_iter collab_recs content_recs stats_recs
                          [cw; tw; sw] = Ok ranked
    /\ Permutation (map movieId ranked) ids
    /\ (forall r, In r ranked ->
          exists src,
            first_match all_recs (movieId r) = Some src
            /\ r = Ranker.details (movieId r) src
                     (Ranker.combined cn tn sn cw tw sw (movieId r)))
    /\ non_increasing (map (raw "combined_score") ranked).
Proof.
  destruct merge_and_rank_Ok as (ranked & Hm & Hperm & Hsorted).
  destruct (merged_entries_all collab_recs content_recs stats_recs
                               cn tn sn cw tw sw ids merge_ids_matched)
    as [Hids Hall].
  exists ranked. split; [assumption|]. split; [|split; [|assumption]].
  - rewrite Hperm. unfold values. rewrite map_map. now rewrite Hids.
  - intros r Hr. apply (Permutation_in _ Hperm) in Hr.
    apply in_map_iff in Hr as (e & <- & He).
    destruct (Hall _ He) as (_ & src & Hsrc & Hsnd).
    rewrite Hsnd. simpl. eauto.
Qed.
End MergeResult.

Lemma insertion_order_ok : set_iter_ok insertion_order.
Proof.
  intros l. unfold insertion_order. split.
  - apply NoDup_ListNoDup, List.NoDup_rev, List.NoDup_nodup.
  - intros x. now rewrite <- in_rev, nodup_In, <- in_rev.
Qed.


(** ** Bounds on the combined score *)

(** ** The engines always answer *)

Lemma slice_to_take {A} (n : Z) (l : list A) :
  exists k, slice_to n l = take k l.
Proof. unfold slice_to. destruct (0 <=? n); eauto. Qed.

Lemma Forall_slice_to {A} (P : A -> Prop) n l :
  Forall P l -> Forall P (slice_to n l).
Proof.
  intros H. destruct (slice_to_take n l) as [k ->]. now apply Forall_take.
Qed.

Lemma sort_desc_on_perm {K} (key : rec -> result K) (k : rec -> K)
    (geK : K -> K -> bool) (xs : list rec) :
  Forall (fun x => key x = Ok (k x)) xs ->
  exists out, sort_desc_on key geK xs = Ok out /\ Permutation out xs.
Proof.
  intros Hk. rewrite (sort_desc_on_Ok key k geK xs Hk).
  eexists. split; [reflexivity|].
  rewrite sorted_desc_perm, map_map. simpl. now rewrite map_id.
Qed.

Lemma sort_desc_on_sorted {K} (key : rec -> result K) (k : rec -> K)
    (geK : K -> K -> bool) (xs : list rec) :
  Forall (fun x => key x = Ok (k x)) xs ->
  (forall a b, geK a b = false -> geK b a = true) ->
  (forall a b c, geK a b = true -> geK b c = true -> geK a c = true) ->
  exists out,
    sort_desc_on key geK xs = Ok out
    /\ Permutation out xs
    /\ StronglySorted (fun a b => geK (k a) (k b) = true) out.
Proof.
  intros Hk Htot Htrans. rewrite (sort_desc_on_Ok key k geK xs Hk).
  eexists. split; [reflexivity|]. now apply keyed_sorted_facts.
Qed.

Lemma Qgeb_total a b : Qgeb a b = false -> Qgeb b a = true.
Proof.
  unfold Qgeb. intros H. apply Qle_bool_iff.
  apply not_true_iff_false in H. rewrite Qle_bool_iff in H. lra.
Qed.

Lemma Qgeb_trans a b c : Qgeb a b = true -> Qgeb b c = true -> Qgeb a c = true.
Proof. unfold Qgeb. rewrite !Qle_bool_iff. lra. Qed.

Lemma sort_desc_on_item_sorted key xs :
  Forall (has_key key) xs ->
  exists out,
    sort_desc_on (fun x => item x key) Qgeb xs = Ok out
    /\ Permutation out xs
    /\ non_increasing (map (raw key) out).
Proof.
  intros Hk.
  assert (Hkey : Forall (fun x => item x key = Ok (raw key x)) xs).
  { eapply Forall_impl; [exact Hk|]. intros x Hx. now apply item_has_key. }
  destruct (sort_desc_on_sorted (fun x => item x key) (raw key) Qgeb xs
              Hkey Qgeb_total Qgeb_trans)
    as (out & Hout & Hperm & Hs).
  exists out. split; [assumption|]. split; [assumption|].
  apply StronglySorted_map. eapply StronglySorted_weaken; [|exact Hs].
  unfold Qgeb. intros a b. now rewrite Qle_bool_iff.
Qed.

Lemma pair_geb_iff a b : ContentEngine.pair_geb a b = true <-> pair_ge a b.
Proof.
  unfold ContentEngine.pair_geb, pair_ge, Qgeb.
  rewrite orb_true_iff, andb_true_iff, Qltb_true, Qeq_bool_iff, Qle_bool_iff.
  tauto.
Qed.

Lemma pair_geb_total a b :
  ContentEngine.pair_geb a b = false -> ContentEngine.pair_geb b a = true.
Proof.
  intros H. apply not_true_iff_false in H.
  rewrite pair_geb_iff in *. unfold pair_ge in *.
  destruct (Qlt_le_dec (fst a) (fst b)); [now left|].
  destruct (Qlt_le_dec (fst b) (fst a)); [tauto|].
  right. split; [lra|].
  destruct (Qlt_le_dec (snd b) (snd a)); [|assumption].
  exfalso. apply H. right. split; lra.
Qed.

Lemma pair_geb_trans a b c :
  ContentEngine.pair_geb a b = true -> ContentEngine.pair_geb b c = true ->
  ContentEngine.pair_geb a c = true.
Proof.
  rewrite !pair_geb_iff. unfold pair_ge.
  intros [H1|[H1 H1']] [H2|[H2 H2']].
  - left; lra.
  - left; lra.
  - left; lra.
  - right; split; lra.
Qed.

Lemma has_key_set_item_eq key r v : has_key key (set_item r key v).
Proof. unfold has_key, set_item. simpl. rewrite lookup_insert_eq. eauto. Qed.

Lemma has_key_set_item key key' r v :
  has_key key r -> has_key key (set_item r key' v).
Proof.
  unfold has_key, set_item. simpl. intros H.
  destruct (decide (key' = key)) as [->|Hne].
  - rewrite lookup_insert_eq. eauto.
  - now rewrite lookup_insert_ne.
Qed.

Lemma Forall_perm {A} (P : A -> Prop) l l' :
  Permutation l l' -> Forall P l' -> Forall P l.
Proof. intros Hp H. now rewrite Hp. Qed.

Lemma slice_to_nil {A} (n : Z) : slice_to n (@nil A) = [].
Proof. destruct (slice_to_take n (@nil A)) as [k ->]. now destruct k. Qed.

Lemma slice_to_one {A} (l : list A) :
  slice_to 1 l = match l with [] => [] | x :: _ => [x] end.
Proof. now destruct l. Qed.

(** Each engine ranks its candidates and returns the first [top_n]. *)
Lemma predict_for_user_ranked self user_id db :
  exists ranked,
    Forall (has_key "predicted_rating") ranked
    /\ non_increasing (map (raw "predicted_rating") ranked)
    /\ forall top_n,
         CollaborativeEngine.predict_for_user self user_id db top_n
         = Ok (slice_to top_n ranked).
Proof.
  unfold CollaborativeEngine.predict_for_user.
  match goal with
  | |- context [sort_desc_on _ _ ?xs] =>
      assert (Hk : Forall (has_key "predicted_rating") xs)
  end.
  { rewrite List.Forall_forall. intros r Hr.
    apply in_map_iff in Hr as (m & <- & _).
    unfold has_key. simpl. rewrite lookup_singleton_eq. eauto. }
  destruct (sort_desc_on_item_sorted _ _ Hk) as (out & -> & Hperm & Hs).
  cbn [Py.bind]. exists out.
  split; [eapply Forall_perm; eauto | split; [assumption | reflexivity]].
Qed.

Lemma get_trending_ranked self db window :
  exists ranked,
    Forall (has_key "weighted_rating") ranked
    /\ non_increasing (map (raw "weighted_rating") ranked)
    /\ forall top_n,
         StatisticalEngine.get_trending self db top_n window
         = (Ok (slice_to top_n ranked),
            snd (StatisticalEngine.calculate_global_mean self db)).
Proof.
  unfold StatisticalEngine.get_trending.
  destruct (StatisticalEngine.calculate_global_mean self db) as [C self'].
  match goal with
  | |- context [sort_desc_on _ _ ?xs] =>
      assert (Hk : Forall (has_key "weighted_rating") xs)
  end.
  { rewrite List.Forall_forall. intros r Hr.
    apply in_map_iff in Hr as (m & <- & _).
    unfold has_key. simpl.
    rewrite lookup_insert_ne, lookup_insert_ne, lookup_singleton_eq by done.
    eauto. }
  destruct (sort_desc_on_item_sorted _ _ Hk) as (out & -> & Hperm & Hs).
  cbn [Py.bind snd]. exists out.
  split; [eapply Forall_perm; eauto | split; [assumption | reflexivity]].
Qed.

Lemma Forall_values_dict_set {V} (P : V -> Prop) k v (d : dict V) :
  P v -> Forall P (values d) -> Forall P (values (dict_set k v d)).
Proof.
  intros Hv. unfold values. induction d as [|[k' v'] d IH]; simpl; intros Hd.
  - now constructor.
  - apply Forall_cons in Hd as [Hv' Hd].
    destruct (k =? k'); simpl; constructor; auto.
Qed.

Lemma find_similar_to_movie_keys self movie_id top_n :
  Forall (has_key "similarity_score")
         (ContentEngine.find_similar_to_movie self movie_id top_n).
Proof.
  unfold ContentEngine.find_similar_to_movie.
  destruct (ContentEngine.collection_get self movie_id); [|constructor].
  apply Forall_slice_to. rewrite List.Forall_forall. intros r Hr.
  apply in_map_iff in Hr as (nb & <- & _).
  unfold has_key. simpl. rewrite lookup_insert_eq. eauto.
Qed.

Lemma aggregate_Ok d movie :
  Forall aggregated (values d) -> has_key "similarity_score" movie ->
  exists d', ContentEngine.aggregate d movie = Ok d'
             /\ Forall aggregated (values d').
Proof.
  intros Hd Hm. unfold ContentEngine.aggregate.
  rewrite (item_has_key _ _ Hm).
  destruct (dict_get (movieId movie) d) as [seen|] eqn:E.
  - assert (Hseen : aggregated seen).
    { rewrite List.Forall_forall in Hd. eapply Hd, dict_get_In_values, E. }
    destruct Hseen as (Hscore & Hcount & Hsim).
    rewrite (item_has_key _ _ Hscore). cbn [Py.bind].
    rewrite (item_has_key "count" (set_item seen "score" _))
      by now apply has_key_set_item.
    cbn [Py.bind]. eexists. split; [reflexivity|].
    apply Forall_values_dict_set; [|assumption].
    repeat split.
    + apply has_key_set_item, has_key_set_item_eq.
    + apply has_key_set_item_eq.
    + now apply has_key_set_item, has_key_set_item.
  - cbn [Py.bind]. eexists. split; [reflexivity|].
    apply Forall_values_dict_set; [|assumption].
    repeat split.
    + apply has_key_set_item, has_key_set_item_eq.
    + apply has_key_set_item_eq.
    + now apply has_key_set_item, has_key_set_item.
Qed.

Lemma aggregate_all_Ok similar : forall d,
  Forall aggregated (values d) ->
  Forall (has_key "similarity_score") similar ->
  exists d', ContentEngine.aggregate_all d similar = Ok d'
             /\ Forall aggregated (values d').
Proof.
  induction similar as [|movie rest IH]; intros d Hd Hs; simpl; [eauto|].
  apply Forall_cons in Hs as [Hm Hs].
  destruct (aggregate_Ok d movie Hd Hm) as (d1 & -> & Hd1). cbn [Py.bind].
  now apply IH.
Qed.

Lemma collect_Ok self liked : forall d,
  Forall aggregated (values d) ->
  exists d', ContentEngine.collect self liked d = Ok d'
             /\ Forall aggregated (values d').
Proof.
  induction liked as [|rating rest IH]; intros d Hd; simpl; [eauto|].
  destruct (aggregate_all_Ok _ d Hd
              (find_similar_to_movie_keys self (Rating.movieId rating) 10))
    as (d1 & -> & Hd1).
  cbn [Py.bind]. now apply IH.
Qed.

Lemma find_similar_to_user_preferences_ranked self user_id db :
  exists ranked,
    Forall aggregated ranked
    /\ StronglySorted
         (fun a b => pair_ge (raw "count" a, raw "score" a)
                             (raw "count" b, raw "score" b)) ranked
    /\ forall top_n,
         ContentEngine.find_similar_to_user_preferences self user_id db top_n
         = Ok (slice_to top_n ranked).
Proof.
  unfold ContentEngine.find_similar_to_user_preferences.
  destruct (List.filter _ (ratings db)) as [|r0 liked].
  { exists []. split; [constructor|]. split; [constructor|].
    intros n. now rewrite slice_to_nil. }
  destruct (collect_Ok self (r0 :: liked) []) as (d & -> & Hd); [constructor|].
  cbn [Py.bind].
  assert (Hkey : Forall (fun x => ContentEngine.count_score x
                                  = Ok (raw "count" x, raw "score" x))
                        (values d)).
  { eapply Forall_impl; [exact Hd|]. intros x (Hscore & Hcount & _).
    unfold ContentEngine.count_score.
    now rewrite (item_has_key _ _ Hcount), (item_has_key _ _ Hscore). }
  destruct (sort_desc_on_sorted ContentEngine.count_score
              (fun x => (raw "count" x, raw "score" x))
              ContentEngine.pair_geb (values d) Hkey
              pair_geb_total pair_geb_trans)
    as (out & -> & Hperm & Hs).
  cbn [Py.bind]. exists out. split; [eapply Forall_perm; eauto|].
  split; [|reflexivity].
  eapply StronglySorted_weaken; [|exact Hs].
  intros a b. apply pair_geb_iff.
Qed.

Lemma aggregated_score l : Forall aggregated l -> Forall (has_key "score") l.
Proof. intros H. eapply Forall_impl; [exact H|]. now intros x (? & _). Qed.

(** ** Hero selection *)

Lemma min2_spec x y :
  ((x <= y)%Q -> min2 x y = x) /\ ((y < x)%Q -> min2 x y = y).
Proof.
  unfold min2. destruct (Qltb y x) eqn:E.
  - apply Qltb_true in E. split; [intros; lra | reflexivity].
  - apply Qltb_false in E. split; [reflexivity | intros; lra].
Qed.

(** C9. Each engine ranks its candidates ([ranked]) and hands out the
    first [top_n] of them. When the ranking is non-empty the hero is its
    first candidate, with the confidence min(predicted_rating/5, 1) for
    the collaborative engine, min(weighted_rating/5, 1) for the
    statistical engine and the similarity score itself for the content
    engine; when the ranking is empty the hero is [None], returned and not
    raised. *)
Theorem hero_is_top_candidate (collab : CollaborativeEngine.t)
    (stat : StatisticalEngine.t) (cont : ContentEngine.t)
    (user_id : Z) (db : Session) :
  (exists ranked,
     non_increasing (map (raw "predicted_rating") ranked)
     /\ (forall top_n,
          CollaborativeEngine.predict_for_user collab user_id db top_n
          = Ok (slice_to top_n ranked))
     /\ match ranked with
        | [] => CollaborativeEngine.get_hero_movie collab user_id db = Ok None
        | top :: _ =>
            exists predicted_rating,
              num top !! "predicted_rating" = Some predicted_rating
              /\ CollaborativeEngine.get_hero_movie collab user_id db
                 = Ok (Some (set_item top "confidence"
                                      (min2 (predicted_rating / 5) 1)))
        end)
  /\ (exists ranked stat',
        non_increasing (map (raw "weighted_rating") ranked)
        /\ (forall top_n,
             StatisticalEngine.get_trending stat db top_n None
             = (Ok (slice_to top_n ranked), stat'))
        /\ match ranked with
           | [] => StatisticalEngine.get_hero_movie stat db = (Ok None, stat')
           | top :: _ =>
               exists weighted_rating,
                 num top !! "weighted_rating" = Some weighted_rating
                 /\ StatisticalEngine.get_hero_movie stat db
                    = (Ok (Some (set_item top "confidence"
                                          (min2 (weighted_rating / 5) 1))),
                       stat')
           end)
  /\ (exists ranked,
        StronglySorted
          (fun a b => pair_ge (raw "count" a, raw "score" a)
                              (raw "count" b, raw "score" b)) ranked
        /\ (forall top_n,
             ContentEngine.find_similar_to_user_preferences
               cont user_id db top_n
             = Ok (slice_to top_n ranked))
        /\ match ranked with
           | [] => ContentEngine.get_hero_movie cont user_id db = Ok None
           | top :: _ =>
               exists similarity_score,
                 num top !! "similarity_score" = Some similarity_score
                 /\ ContentEngine.get_hero_movie cont user_id db
                    = Ok (Some (set_item top "confidence" similarity_score))
           end)
  /\ (forall x y : Q,
        ((x <= y)%Q -> min2 x y = x) /\ ((y < x)%Q -> min2 x y = y)).
Proof.
  split; [|split; [|split; [|apply min2_spec]]].
  - destruct (predict_for_user_ranked collab user_id db)
      as (ranked & Hk & Hs & Hn).
    exists ranked. split; [assumption|]. split; [assumption|].
    unfold CollaborativeEngine.get_hero_movie. rewrite Hn, slice_to_one.
    destruct ranked as [|top rest]; [reflexivity|].
    apply Forall_cons in Hk as [[v Hv] _]. exists v. split; [assumption|].
    cbn [Py.bind]. unfold item. now rewrite Hv.
  - destruct (get_trending_ranked stat db None) as (ranked & Hk & Hs & Hn).
    exists ranked, (snd (StatisticalEngine.calculate_global_mean stat db)).
    split; [assumption|]. split; [assumption|].
    unfold StatisticalEngine.get_hero_movie. rewrite Hn, slice_to_one.
    destruct ranked as [|top rest]; [reflexivity|].
    apply Forall_cons in Hk as [[v Hv] _]. exists v. split; [assumption|].
    cbn [Py.bind]. unfold item. now rewrite Hv.
  - destruct (find_similar_to_user_preferences_ranked cont user_id db)
      as (ranked & Hk & Hs & Hn).
    exists ranked. split; [assumption|]. split; [assumption|].
    unfold ContentEngine.get_hero_movie. rewrite Hn, slice_to_one.
    destruct ranked as [|top rest]; [reflexivity|].
    apply Forall_cons in Hk as [(_ & _ & [v Hv]) _].
    exists v. split; [assumption|].
    cbn [Py.bind]. unfold item. now rewrite Hv.
Qed.

(** ** The router *)

Lemma collaborative_hero_Ok self user_id db :
  exists hero, CollaborativeEngine.get_hero_movie self user_id db = Ok hero.
Proof.
  destruct (predict_for_user_ranked self user_id db) as (ranked & Hk & _ & Hn).
  unfold CollaborativeEngine.get_hero_movie. rewrite Hn, slice_to_one.
  destruct ranked as [|top rest]; [eauto|].
  apply Forall_cons in Hk as [Hk _]. cbn [Py.bind].
  rewrite (item_has_key _ _ Hk). eauto.
Qed.

Lemma statistical_hero_Ok self db :
  exists hero,
    StatisticalEngine.get_hero_movie self db
    = (Ok hero, snd (StatisticalEngine.calculate_global_mean self db)).
Proof.
  destruct (get_trending_ranked self db None) as (ranked & Hk & _ & Hn).
  unfold StatisticalEngine.get_hero_movie. rewrite Hn, slice_to_one.
  destruct ranked as [|top rest]; [eauto|].
  apply Forall_cons in Hk as [Hk _]. cbn [Py.bind].
  rewrite (item_has_key _ _ Hk). eauto.
Qed.

Lemma content_hero_Ok self user_id db :
  exists hero, ContentEngine.get_hero_movie self user_id db = Ok hero.
Proof.
  destruct (find_similar_to_user_preferences_ranked self user_id db)
    as (ranked & Hk & _ & Hn).
  unfold ContentEngine.get_hero_movie. rewrite Hn, slice_to_one.
  destruct ranked as [|top rest]; [eauto|].
  apply Forall_cons in Hk as [(_ & _ & Hk) _]. cbn [Py.bind].
  rewrite (item_has_key _ _ Hk). eauto.
Qed.

Import RecommendationOrchestrator.

Lemma handle_new_user_Ok self db top_n :
  exists resp self',
    _handle_new_user db top_n self = (Ok resp, self')
    /\ Response.strategy resp = "statistical"
        /\ Response.is_new_user resp = true.
Proof.
  unfold _handle_new_user, bindM, on_statistical, ret.
  destruct (get_trending_ranked (statistical self) db None)
    as (ranked & _ & _ & Hn).
  rewrite Hn. cbn [statistical with_statistical].
  destruct (statistical_hero_Ok
              (snd (StatisticalEngine.calculate_global_mean
                      (statistical self) db)) db) as (hero & ->).
  eauto.
Qed.

Lemma collaborative_only_Ok self user_id db top_n :
  exists resp,
    _collaborative_only user_id db top_n self = (Ok resp, self)
    /\ Response.strategy resp = "collaborative"
    /\ Response.is_new_user resp = false.
Proof.
  unfold _collaborative_only, bindM, on_collaborative, ret.
  destruct (predict_for_user_ranked (collaborative self) user_id db)
    as (cr & _ & _ & ->).
  destruct (collaborative_hero_Ok (collaborative self) user_id db)
    as (hero & ->).
  eauto.
Qed.

Lemma content_only_Ok self user_id db top_n :
  exists resp,
    _content_only user_id db top_n self = (Ok resp, self)
    /\ Response.strategy resp = "content"
    /\ Response.is_new_user resp = false.
Proof.
  unfold _content_only, bindM, on_content, ret.
  destruct (find_similar_to_user_preferences_ranked (content self) user_id db)
    as (tr & _ & _ & ->).
  destruct (content_hero_Ok (content self) user_id db) as (hero & ->).
  eauto.
Qed.

Lemma statistical_only_Ok self db top_n :
  exists resp self',
    _statistical_only db top_n self = (Ok resp, self')
    /\ Response.strategy resp = "statistical"
    /\ Response.is_new_user resp = false.
Proof.
  unfold _statistical_only, bindM, on_statistical, ret.
  destruct (get_trending_ranked (statistical self) db None)
    as (ranked & _ & _ & Hn).
  rewrite Hn. cbn [statistical with_statistical].
  destruct (statistical_hero_Ok
              (snd (StatisticalEngine.calculate_global_mean
                      (statistical self) db)) db) as (hero & ->).
  eauto.
Qed.

(** C5. With fewer than 5 ratings the router returns the cold-start
    result, whose strategy is "statistical" and whose is_new_user is true,
    whatever strategy string was asked for. Otherwise the strings
    "collaborative", "content" and "statistical" lead to the route of
    that single source (and to a response that names it), and every
    other string, "hybrid" included, leads to the hybrid route. *)
Theorem router_routes (set_iter : list Z -> list Z)
    (self : RecommendationOrchestrator.t) (user_id : Z) (db : Session)
    (requested : string) (top_n : Z) :
  let rating_count :=
    Z.of_nat (length (List.filter (fun r => Rating.userId r =? user_id)
                                  (ratings db))) in
  let answered :=
    get_recommendations set_iter user_id db requested top_n self in
  (rating_count < 5 ->
   answered = _handle_new_user db top_n self
   /\ exists resp self',
        answered = (Ok resp, self')
        /\ Response.strategy resp = "statistical"
        /\ Response.is_new_user resp = true)
  /\ (5 <= rating_count ->
      (requested = "collaborative" ->
       answered = _collaborative_only user_id db top_n self
       /\ exists resp,
            answered = (Ok resp, self)
            /\ Response.strategy resp = "collaborative"
            /\ Response.is_new_user resp = false)
      /\ (requested = "content" ->
          answered = _content_only user_id db top_n self
          /\ exists resp,
               answered = (Ok resp, self)
               /\ Response.strategy resp = "content"
               /\ Response.is_new_user resp = false)
      /\ (requested = "statistical" ->
          answered = _statistical_only db top_n self
          /\ exists resp self',
               answered = (Ok resp, self')
               /\ Response.strategy resp = "statistical"
               /\ Response.is_new_user resp = false)
      /\ (requested <> "collaborative" -> requested <> "content" ->
          requested <> "statistical" ->
          answered = _hybrid_recommendations set_iter user_id db top_n self)).
Proof.
  cbn zeta. unfold get_recommendations, RecommendationOrchestrator.is_new_user.
  split.
  - intros Hlt. apply Z.ltb_lt in Hlt. rewrite Hlt.
    split; [reflexivity | apply handle_new_user_Ok].
  - intros Hge. apply Z.ltb_ge in Hge. rewrite Hge.
    split; [|split; [|split]].
    + intros ->. split; [reflexivity | apply collaborative_only_Ok].
    + intros ->. split; [reflexivity | apply content_only_Ok].
    + intros ->. split; [reflexivity | apply statistical_only_Ok].
    + intros H1 H2 H3.
      apply String.eqb_neq in H1, H2, H3. now rewrite H1, H2, H3.
Qed.

Lemma router_routes_witness :
  exists resp self',
    get_recommendations insertion_order 8 example_db "hybrid" 20
                        example_orchestrator = (Ok resp, self')
    /\ Response.strategy resp = "statistical"
    /\ Response.is_new_user resp = true.
Proof.
  apply (proj1 (router_routes insertion_order example_orchestrator 8
                              example_db "hybrid" 20)).
  vm_compute. reflexivity.
Defined.

(** Scenario C: user 8 has two ratings and asks for "hybrid"; the answer
    is the cold-start one. *)
Example scenario_C :
  option_map (fun resp => (Response.strategy resp, Response.is_new_user resp))
    (answer (get_recommendations insertion_order 8 example_db "hybrid" 20
                                 example_orchestrator))
  = Some ("statistical", true).
Proof. vm_compute. reflexivity. Qed.

(** ** The hybrid route and its weights *)

Lemma hybrid_weights_ok : Ranker.weights_ok hybrid_weights = true.
Proof. reflexivity. Qed.

Lemma hybrid_Ok set_iter self user_id db top_n :
  set_iter_ok set_iter ->
  exists resp self',
    _hybrid_recommendations set_iter user_id db top_n self = (Ok resp, self')
    /\ CollaborativeEngine.get_hero_movie (collaborative self) user_id db
       = Ok (Response.hero resp)
    /\ Response.strategy resp = "hybrid"
    /\ Response.is_new_user resp = false.
Proof.
  intros Hiter.
  unfold _hybrid_recommendations, bindM, on_collaborative, on_content,
    on_statistical, lift, ret.
  destruct (predict_for_user_ranked (collaborative self) user_id db)
    as (cr & Hc & _ & ->).
  destruct (find_similar_to_user_preferences_ranked (content self) user_id db)
    as (tr & Ht & _ & ->).
  destruct (get_trending_ranked (statistical self) db None)
    as (sr & Hs & _ & ->).
  unfold hybrid_weights.
  destruct (merge_and_rank_Ok set_iter Hiter
              (slice_to top_n cr) (slice_to top_n tr) (slice_to top_n sr)
              (1 # 2) (3 # 10) (2 # 10)) as (ranked & -> & _);
    auto using Forall_slice_to, aggregated_score, hybrid_weights_ok.
  cbn [collaborative with_statistical].
  destruct (collaborative_hero_Ok (collaborative self) user_id db)
    as (hero & ->).
  eexists _, _. split; [reflexivity|]. simpl. auto.
Qed.

(** C10. On the hybrid route the hero of the response is the first
    candidate of the ranking of the collaborative engine (the ranking
    [predict_for_user] cuts at [top_n], in non-increasing order of
    predicted rating), with the confidence min(predicted_rating / 5, 1)
    added to it, and no hero when that ranking is empty; it is not the
    first entry of the merged ranking: on the example catalogue the hero
    is movie 1 while the merged section starts with movie 2. *)
Theorem hybrid_hero_is_collaborative_top :
  (forall set_iter self user_id db top_n,
     set_iter_ok set_iter ->
     exists resp self' ranked,
       _hybrid_recommendations set_iter user_id db top_n self
       = (Ok resp, self')
       /\ (forall n,
             CollaborativeEngine.predict_for_user (collaborative self)
                                                  user_id db n
             = Ok (slice_to n ranked))
       /\ non_increasing (map (raw "predicted_rating") ranked)
       /\ Response.hero resp
          = match ranked with
            | [] => None
            | top :: _ =>
                Some (set_item top "confidence"
                               (min2 (raw "predicted_rating" top / 5) 1))
            end)
  /\ option_map (fun resp => (hero_id resp, first_section_ids resp))
       (answer (_hybrid_recommendations insertion_order 7 example_db 20
                                        example_orchestrator))
     = Some (Some 1, [2; 1; 3]).
Proof.
  split.
  - intros set_iter self user_id db top_n Hiter.
    destruct (hybrid_Ok set_iter self user_id db top_n Hiter)
      as (resp & self' & H1 & H2 & _).
    destruct (predict_for_user_ranked (collaborative self) user_id db)
      as (ranked & Hk & Hs & Hn).
    exists resp, self', ranked.
    split; [assumption|]. split; [assumption|]. split; [assumption|].
    unfold CollaborativeEngine.get_hero_movie in H2.
    rewrite Hn, slice_to_one in H2.
    destruct ranked as [|top rest]; cbn [Py.bind] in H2.
    + now injection H2 as <-.
    + apply Forall_cons in Hk as [[v Hv] _].
      unfold item in H2. rewrite Hv in H2. cbn [Py.bind] in H2.
      injection H2 as <-. unfold raw. now rewrite Hv.
  - vm_compute. reflexivity.
Qed.

Lemma hybrid_hero_is_collaborative_top_witness :
  exists resp self' ranked,
    _hybrid_recommendations insertion_order 7 example_db 5
                            example_orchestrator = (Ok resp, self')
    /\ (forall n,
          CollaborativeEngine.predict_for_user
            (collaborative example_orchestrator) 7 example_db n
          = Ok (slice_to n ranked))
    /\ non_increasing (map (raw "predicted_rating") ranked)
    /\ Response.hero resp
       = match ranked with
         | [] => None
         | top :: _ =>
             Some (set_item top "confidence"
                            (min2 (raw "predicted_rating" top / 5) 1))
         end.
Proof.
  apply (proj1 hybrid_hero_is_collaborative_top insertion_order
               example_orchestrator 7 example_db 5 insertion_order_ok).
Defined.

(** ** The diversity reranker *)


(** What the scan of one round leaves in [(best_score, best_idx)], from
    the start [(b, i0)] at position [s]: either nothing beat [b], or the
    leftmost candidate of greatest adjusted score was kept. *)
Lemma scan_spec df seen l : forall s b i0,
  let adj := Ranker.adjusted_score df seen in
  let out := fold_left (Ranker.scan_step df seen)
                       (combine (seq s (length l)) l) (b, i0) in
  (out = (b, i0) /\ forall r, In r l -> (adj r <= b)%Q)
  \/ (exists k r,
        snd out = (s + k)%nat /\ l !! k = Some r /\ fst out = adj r
        /\ (b < adj r)%Q
        /\ (forall r', In r' l -> (adj r' <= adj r)%Q)
        /\ (forall j r', (j < k)%nat -> l !! j = Some r' ->
                         (adj r' < adj r)%Q)).
Proof.
  cbn zeta. induction l as [|x l IH]; intros s b i0.
  - left. simpl. split; [reflexivity | tauto].
  - cbn [length seq combine fold_left].
    assert (Hstep : Ranker.scan_step df seen (b, i0) (s, x)
                    = if Qltb b (Ranker.adjusted_score df seen x)
                      then (Ranker.adjusted_score df seen x, s)
                      else (b, i0)) by reflexivity.
    rewrite Hstep. clear Hstep.
    destruct (Qltb b (Ranker.adjusted_score df seen x)) eqn:E.
    + apply Qltb_true in E.
      destruct (IH (S s) (Ranker.adjusted_score df seen x) s)
        as [[Hout Hall]|(k & r & Hk & Hr & Hfst & Hlt & Hmax & Hleft)].
      * right. exists 0%nat, x. rewrite Hout. simpl.
        rewrite Nat.add_0_r. repeat split; auto.
        -- intros r' [<-|Hin]; [apply Qle_refl | auto].
        -- intros j r' Hj. lia.
      * right. exists (S k), r. rewrite Hk, Hfst.
        split; [lia|]. split; [assumption|]. split; [reflexivity|].
        split; [lra|]. split.
        -- intros r' [<-|Hin]; [lra | auto].
        -- intros [|j] r' Hj Hr'; simpl in Hr'.
           ++ injection Hr' as <-. assumption.
           ++ apply (Hleft j); [lia | assumption].
    + apply Qltb_false in E.
      destruct (IH (S s) b i0)
        as [[Hout Hall]|(k & r & Hk & Hr & Hfst & Hlt & Hmax & Hleft)].
      * left. split; [assumption|]. intros r' [<-|Hin]; auto.
      * right. exists (S k), r. rewrite Hk, Hfst.
        split; [lia|]. split; [assumption|]. split; [reflexivity|].
        split; [assumption|]. split.
        -- intros r' [<-|Hin]; [lra | auto].
        -- intros [|j] r' Hj Hr'; simpl in Hr'.
           ++ injection Hr' as <-. lra.
           ++ apply (Hleft j); [lia | assumption].
Qed.

Lemma select_best_in_range df seen remaining :
  remaining <> [] ->
  is_Some (remaining !! snd (Ranker.select_best df seen remaining)).
Proof.
  intros Hne. unfold Ranker.select_best, Ranker.enumerate.
  destruct (scan_spec df seen remaining 0 (-1)%Q 0)
    as [[-> _]|(k & r & -> & Hr & _)].
  - destruct remaining; [congruence | simpl; eauto].
  - simpl. eauto.
Qed.

Lemma rerank_loop_step fuel df result seen remaining chosen :
  remaining !! snd (Ranker.select_best df seen remaining) = Some chosen ->
  Ranker.rerank_loop (S fuel) df result seen remaining
  = Ranker.rerank_loop fuel df (result ++ [chosen])
      (seen ∪ Ranker.genre_set chosen)
      (delete (snd (Ranker.select_best df seen remaining)) remaining).
Proof.
  intros Hchosen. destruct remaining as [|x l]; [discriminate|].
  cbn [Ranker.rerank_loop].
  destruct (Ranker.select_best df seen (x :: l)) as [bs bi].
  cbn [snd] in *. unfold Ranker.pop. now rewrite Hchosen.
Qed.

Lemma rerank_loop_perm fuel : forall df result seen remaining,
  (length remaining <= fuel)%nat ->
  exists out,
    Ranker.rerank_loop fuel df result seen remaining = Some (Ok out)
    /\ Permutation out (result ++ remaining).
Proof.
  induction fuel as [|fuel IH]; intros df result seen remaining Hlen.
  - destruct remaining; [|simpl in Hlen; lia].
    simpl. exists result. now rewrite app_nil_r.
  - destruct remaining as [|x l] eqn:E.
    { simpl. exists result. now rewrite app_nil_r. }
    rewrite <- E in *.
    destruct (select_best_in_range df seen remaining) as [chosen Hchosen];
      [congruence|].
    rewrite (rerank_loop_step _ _ _ _ _ _ Hchosen).
    destruct (IH df (result ++ [chosen]) (seen ∪ Ranker.genre_set chosen)
                 (delete (snd (Ranker.select_best df seen remaining))
                         remaining)) as (out & Hout & Hperm).
    + rewrite length_delete by eauto. lia.
    + exists out. split; [assumption|].
      rewrite Hperm, <- app_assoc. apply Permutation_app_head.
      simpl. symmetry. now apply delete_Permutation.
Qed.

(** C6. For every input ranking and every diversity factor the reranker
    returns, and what it returns is a permutation of its input: the same
    candidate records, hence the same movieIds, each as many times as in
    the input. *)
Theorem rerank_with_diversity_permutation (recommendations : list rec)
    (diversity_factor : Q) :
  exists out,
    Ranker.rerank_with_diversity recommendations diversity_factor
    = Some (Ok out)
    /\ Permutation out recommendations
    /\ Permutation (map movieId out) (map movieId recommendations).
Proof.
  unfold Ranker.rerank_with_diversity.
  destruct recommendations as [|x l] eqn:E.
  { exists []. repeat split; constructor. }
  rewrite <- E.
  destruct (rerank_loop_perm (length recommendations) diversity_factor []
              ∅ recommendations) as (out & Hout & Hperm); [lia|].
  exists out. split; [assumption|]. simpl in Hperm.
  split; [assumption | now apply Permutation_map].
Qed.

(** ** Metadata and the order of the sources *)

Lemma base_score_details id r v : base_score (Ranker.details id r v) = v.
Proof.
  unfold base_score, raw. now rewrite details_combined_score.
Qed.

Lemma merge_and_rank_summary set_iter collab_recs content_recs stats_recs
    cw tw sw :
  set_iter_ok set_iter ->
  Forall (has_key "predicted_rating") collab_recs ->
  Forall (has_key "score") content_recs ->
  Forall (has_key "weighted_rating") stats_recs ->
  Ranker.weights_ok [cw; tw; sw] = true ->
  exists ranked,
    Ranker.merge_and_rank set_iter collab_recs content_recs stats_recs
                          [cw; tw; sw] = Ok ranked
    /\ NoDup (map movieId ranked)
    /\ (forall id,
          In id (map movieId ranked)
          <-> In id (map movieId (collab_recs ++ content_recs ++ stats_recs)))
    /\ (forall r, In r ranked ->
          (base_score r
           == total collab_recs content_recs stats_recs cw tw sw (movieId r))%Q)
    /\ non_increasing (map base_score ranked)
    /\ (forall r, In r ranked ->
          exists src,
            first_match (collab_recs ++ content_recs ++ stats_recs)
                        (movieId r) = Some src
            /\ title r = title src /\ genres r = genres src
            /\ tmdbId r = tmdbId src).
Proof.
  intros Hiter Hc Ht Hs Hw.
  destruct (merge_and_rank_entries set_iter Hiter _ _ _ _ _ _ Hc Ht Hs Hw)
    as (ranked & Hm & Hperm & Hall & Hsorted).
  match type of Hperm with Permutation _ (set_iter ?l) =>
    destruct (Hiter l) as [Hnd Hmem]
  end.
  exists ranked. split; [assumption|].
  split; [now rewrite Hperm|]. split; [|split; [|split; [assumption|]]].
  - intros id. rewrite !map_app, !in_app_iff.
    rewrite <- (normalized_of_keys "predicted_rating" collab_recs id),
            <- (normalized_of_keys "score" content_recs id),
            <- (normalized_of_keys "weighted_rating" stats_recs id).
    rewrite <- !in_app_iff, <- Hmem.
    split; apply Permutation_in; [assumption | now symmetry].
  - intros r Hr. destruct (Hall _ Hr) as (src & _ & Heq).
    rewrite Heq at 1. rewrite base_score_details. apply combined_sum.
  - intros r Hr. destruct (Hall _ Hr) as (src & Hsrc & Heq).
    exists src. split; [assumption|]. rewrite Heq. simpl. auto.
Qed.

(** *** Reordering the candidates inside a source *)

(** *** Exchanging the sources *)

Lemma raw_set_item key r v : raw key (set_item r key v) = v.
Proof. unfold raw, set_item. simpl. now rewrite lookup_insert_eq. Qed.


(** * Further properties *)

(** ** Failures of the ranker *)

Lemma has_or_lacks key (l : list rec) :
  Forall (has_key key) l \/ Exists (lacks_key key) l.
Proof.
  induction l as [|r l [IH|IH]].
  - left. constructor.
  - destruct (num r !! key) as [v|] eqn:E.
    + left. constructor; [unfold has_key; rewrite E; eauto | assumption].
    + right. now apply Exists_cons_hd.
  - right. now apply Exists_cons_tl.
Qed.

Lemma has_and_lacks key (l : list rec) :
  Forall (has_key key) l -> Exists (lacks_key key) l -> False.
Proof.
  intros Hall Hex. apply List.Exists_exists in Hex as (r & Hr & Hnone).
  rewrite List.Forall_forall in Hall. destruct (Hall r Hr) as [v Hv].
  unfold lacks_key in Hnone. congruence.
Qed.

Lemma mapM_item_lacks key (l : list rec) :
  Exists (lacks_key key) l ->
  mapM (fun r => item r key) l = Raise KeyError.
Proof.
  induction 1 as [r l Hr|r l Hl IH]; cbn [mapM].
  - unfold item. rewrite Hr. reflexivity.
  - rewrite IH. unfold item. now destruct (num r !! key).
Qed.

Lemma normalize_scores_lacks key recs :
  Exists (lacks_key key) recs ->
  Ranker.normalize_scores recs key = Raise KeyError.
Proof.
  intros Hex. unfold Ranker.normalize_scores.
  destruct recs as [|r recs]; [inversion Hex|].
  now rewrite (mapM_item_lacks _ _ Hex).
Qed.

(** X1. On candidates built as the engines build them (with a movieId
    and numeric attributes) the normalizer raises [KeyError] exactly when
    some candidate does not carry the score key, and returns a map
    exactly when every candidate carries it; it raises nothing else. *)
Theorem normalize_scores_missing_key (recommendations : list rec)
    (score_key : string) :
  (Ranker.normalize_scores recommendations score_key = Raise KeyError
   <-> Exists (lacks_key score_key) recommendations)
  /\ ((exists normalized,
         Ranker.normalize_scores recommendations score_key = Ok normalized)
      <-> Forall (has_key score_key) recommendations)
  /\ (forall e, Ranker.normalize_scores recommendations score_key = Raise e ->
                e = KeyError).
Proof.
  destruct (has_or_lacks score_key recommendations) as [Hall|Hex].
  - pose proof (normalize_scores_fill _ _ Hall) as Hn. rewrite Hn.
    split; [|split].
    + split; [discriminate|]. intros Hex. exfalso. eauto using has_and_lacks.
    + split; eauto.
    + discriminate.
  - pose proof (normalize_scores_lacks _ _ Hex) as Hn. rewrite Hn.
    split; [|split].
    + tauto.
    + split; [intros [n Hn']; discriminate|].
      intros Hall. exfalso. eauto using has_and_lacks.
    + congruence.
Qed.

(** ** More on the sort *)

Section SortingStable.
Context {A : Type} (ge : A -> A -> bool).
Hypothesis ge_total : forall a b, ge a b = false -> ge b a = true.
Hypothesis ge_trans :
  forall a b c, ge a b = true -> ge b c = true -> ge a c = true.

Lemma insert_desc_head x l :
  Forall (fun y => ge x y = true) l -> insert_desc ge x l = x :: l.
Proof.
  destruct l as [|y l]; simpl; [reflexivity|].
  intros H. apply Forall_cons in H as [-> _]. reflexivity.
Qed.


Lemma filter_insert_desc (P : A -> bool) x l :
  StronglySorted (fun a b => ge a b = true) l ->
  List.filter P (insert_desc ge x l)
  = if P x then insert_desc ge x (List.filter P l) else List.filter P l.
Proof.
  induction 1 as [|y l Hs IH Hy]; simpl.
  - now destruct (P x).
  - destruct (ge x y) eqn:E.
    + cbn [List.filter]. destruct (P x) eqn:Px; [|reflexivity].
      symmetry. apply insert_desc_head.
      apply List.Forall_forall. intros z Hz.
      assert (Hin : In z (y :: l)).
      { destruct (P y); [destruct Hz as [<-|Hz]; [now left|]|];
          right; now apply filter_In in Hz. }
      destruct Hin as [<-|Hin]; [assumption|].
      rewrite List.Forall_forall in Hy. eauto.
    + cbn [List.filter]. rewrite IH.
      destruct (P y) eqn:Py, (P x) eqn:Px; try reflexivity.
      simpl. now rewrite E.
Qed.

(** The sort is stable: selecting before or after it gives the same
    list. *)
Lemma filter_sorted_desc (P : A -> bool) l :
  List.filter P (sorted_desc ge l) = sorted_desc ge (List.filter P l).
Proof.
  induction l as [|x l IH]; simpl; [reflexivity|].
  rewrite filter_insert_desc by now apply sorted_desc_sorted.
  rewrite IH. now destruct (P x).
Qed.
End SortingStable.

Lemma sorted_desc_map {A B} (geA : A -> A -> bool) (geB : B -> B -> bool)
    (f : A -> B) l :
  (forall a b, geB (f a) (f b) = geA a b) ->
  sorted_desc geB (map f l) = map f (sorted_desc geA l).
Proof.
  intros Hge. induction l as [|x l IH]; simpl; [reflexivity|].
  rewrite IH. generalize (sorted_desc geA l). clear IH.
  induction l0 as [|y l0 IH]; simpl; [reflexivity|].
  rewrite Hge. destruct (geA x y); simpl; [reflexivity|]. now rewrite IH.
Qed.

Lemma filter_map_comm {A B} (f : A -> B) (P : B -> bool) l :
  List.filter P (map f l) = map f (List.filter (fun x => P (f x)) l).
Proof.
  induction l as [|x l IH]; simpl; [reflexivity|].
  rewrite IH. now destruct (P (f x)).
Qed.


(** The list a stable sort on [key] leaves, greatest key first. *)
Lemma ranked_on_eq key xs :
  Forall (has_key key) xs ->
  sort_desc_on (fun x => item x key) Qgeb xs = Ok (ranked_on key xs).
Proof.
  intros Hk. apply sort_desc_on_Ok.
  eapply Forall_impl; [exact Hk|]. intros x Hx. now apply item_has_key.
Qed.

Lemma ranked_on_perm key xs : Permutation (ranked_on key xs) xs.
Proof.
  unfold ranked_on. rewrite sorted_desc_perm, map_map. simpl.
  now rewrite map_id.
Qed.

Lemma ranked_on_sorted key xs :
  non_increasing (map (raw key) (ranked_on key xs)).
Proof.
  destruct (keyed_sorted_facts (raw key) Qgeb xs Qgeb_total Qgeb_trans)
    as [_ Hs].
  apply StronglySorted_map. eapply StronglySorted_weaken; [|exact Hs].
  unfold Qgeb. intros a b. now rewrite Qle_bool_iff.
Qed.




(** ** Ties in the merge *)




(** ** More on the diversity reranker *)






(** ** The statistical engine *)

Lemma inject_Z_nonneg z : 0 <= z -> (0 <= inject_Z z)%Q.
Proof. intros H. unfold Qle. simpl. lia. Qed.

Lemma inject_Z_pos z : 0 < z -> (0 < inject_Z z)%Q.
Proof. intros H. unfold Qlt. simpl. lia. Qed.

(** The two coefficients of the Bayesian average are non-negative and
    sum to 1. *)
Lemma bayes_coefficients v m :
  0 <= v -> 0 <= m -> 0 < v + m ->
  let a := (inject_Z v / (inject_Z v + inject_Z m))%Q in
  let b := (inject_Z m / (inject_Z v + inject_Z m))%Q in
  (0 <= a)%Q /\ (0 <= b)%Q /\ (a + b == 1)%Q.
Proof.
  intros Hv Hm Hvm. cbn zeta.
  pose proof (inject_Z_nonneg v Hv) as Hv'.
  pose proof (inject_Z_nonneg m Hm) as Hm'.
  assert (Hpos : (0 < inject_Z v + inject_Z m)%Q).
  { rewrite <- inject_Z_plus. now apply inject_Z_pos. }
  repeat split.
  - apply Qle_shift_div_l; [assumption | lra].
  - apply Qle_shift_div_l; [assumption | lra].
  - field. lra.
Qed.

Lemma weighted_rating_bounds R v C m lo hi :
  0 <= v -> 0 <= m -> 0 < v + m ->
  (lo <= R <= hi)%Q -> (lo <= C <= hi)%Q ->
  (lo <= StatisticalEngine.weighted_rating R v C m <= hi)%Q.
Proof.
  intros Hv Hm Hvm HR HC. unfold StatisticalEngine.weighted_rating.
  destruct (bayes_coefficients v m Hv Hm Hvm) as (Ha & Hb & Hab).
  cbn zeta in *.
  set (a := (inject_Z v / (inject_Z v + inject_Z m))%Q) in *.
  set (b := (inject_Z m / (inject_Z v + inject_Z m))%Q) in *.
  nra.
Qed.

Lemma calculate_global_mean_again self db db' :
  StatisticalEngine.calculate_global_mean
    (snd (StatisticalEngine.calculate_global_mean self db)) db'
  = StatisticalEngine.calculate_global_mean self db.
Proof.
  unfold StatisticalEngine.calculate_global_mean.
  destruct (StatisticalEngine.global_mean self) as [c|] eqn:E; simpl.
  - now rewrite E.
  - reflexivity.
Qed.

Lemma calculate_global_mean_min_votes self db :
  StatisticalEngine.min_votes
    (snd (StatisticalEngine.calculate_global_mean self db))
  = StatisticalEngine.min_votes self.
Proof.
  unfold StatisticalEngine.calculate_global_mean.
  now destruct (StatisticalEngine.global_mean self).
Qed.

Lemma filter_filter_andb {A} (P Q : A -> bool) l :
  List.filter Q (List.filter P l) = List.filter (fun x => P x && Q x) l.
Proof.
  induction l as [|x l IH]; simpl; [reflexivity|].
  destruct (P x); simpl; [|assumption]. destruct (Q x); now rewrite IH.
Qed.

Lemma length_slice_to {A} (n : Z) (l : list A) :
  0 <= n -> length (slice_to n l) = Nat.min (Z.to_nat n) (length l).
Proof.
  intros Hn. unfold slice_to.
  destruct (0 <=? n) eqn:E; [apply length_take | lia].
Qed.

Lemma In_slice_to {A} (n : Z) (l : list A) x : In x (slice_to n l) -> In x l.
Proof.
  intros Hx.
  assert (Hall : Forall (fun y => In y l) (slice_to n l)).
  { apply Forall_slice_to. now apply List.Forall_forall. }
  rewrite List.Forall_forall in Hall. now apply Hall.
Qed.

(** The ranking of [get_trending], written out. *)
Lemma get_trending_explicit self db window :
  let C := fst (StatisticalEngine.calculate_global_mean self db) in
  let m := StatisticalEngine.min_votes self in
  exists results,
    (forall top_n,
       StatisticalEngine.get_trending self db top_n window
       = (Ok (slice_to top_n (ranked_on "weighted_rating" results)),
          snd (StatisticalEngine.calculate_global_mean self db)))
    /\ map movieId results
       = map Movie.movieId (trending_candidates m db window)
    /\ Forall (fun r =>
                 exists movie,
                   In movie (trending_candidates m db window)
                   /\ movieId r = Movie.movieId movie
                   /\ tmdbId r = Movie.tmdbId movie
                   /\ title r = Movie.title movie
                   /\ genres r = Movie.genres movie
                   /\ source r = "statistical_bayesian"
                   /\ num r !! "avg_rating" = Some (Movie.avg_rating movie)
                   /\ num r !! "vote_count"
                      = Some (inject_Z (Movie.vote_count movie))
                   /\ num r !! "weighted_rating"
                      = Some (StatisticalEngine.weighted_rating
                                (Movie.avg_rating movie)
                                (Movie.vote_count movie) C m))
              results.
Proof.
  cbn zeta. unfold StatisticalEngine.get_trending.
  pose proof (calculate_global_mean_min_votes self db) as Hm.
  destruct (StatisticalEngine.calculate_global_mean self db) as [C self'].
  cbn [fst snd] in *. rewrite Hm.
  assert (Hq : match window with
               | Some days =>
                   if days =? 0
                   then List.filter
                          (fun movie => StatisticalEngine.min_votes self
                                        <=? Movie.vote_count movie) (movies db)
                   else List.filter
                          (fun movie => match Movie.release_year movie with
                                        | Some y =>
                                            now_year db - days / 365 <=? y
                                        | None => false
                                        end)
                          (List.filter
                             (fun movie => StatisticalEngine.min_votes self
                                           <=? Movie.vote_count movie)
                             (movies db))
               | None => List.filter
                           (fun movie => StatisticalEngine.min_votes self
                                         <=? Movie.vote_count movie)
                           (movies db)
               end
               = trending_candidates (StatisticalEngine.min_votes self) db
                                     window).
  { unfold trending_candidates, in_window. destruct window as [days|].
    - destruct (days =? 0).
      + apply List.filter_ext. intros x. now rewrite andb_true_r.
      + now rewrite filter_filter_andb.
    - apply List.filter_ext. intros x. now rewrite andb_true_r. }
  rewrite Hq.
  match goal with
  | |- context [sort_desc_on _ _ ?xs] => exists xs
  end.
  split; [|split].
  - intros top_n. rewrite ranked_on_eq; [reflexivity|].
    rewrite List.Forall_forall. intros r Hr.
    apply in_map_iff in Hr as (movie & <- & _).
    unfold has_key. simpl.
    rewrite lookup_insert_ne, lookup_insert_ne, lookup_singleton_eq by done.
    eauto.
  - rewrite map_map. reflexivity.
  - rewrite List.Forall_forall. intros r Hr.
    apply in_map_iff in Hr as (movie & <- & Hmovie).
    exists movie. simpl.
    rewrite lookup_insert_eq.
    rewrite (lookup_insert_ne _ "avg_rating" "vote_count") by done.
    rewrite lookup_insert_eq.
    rewrite lookup_insert_ne, lookup_insert_ne, lookup_singleton_eq by done.
    auto 10.
Qed.

(** X7. The global mean is computed once: after a first call every later
    call returns the same value and leaves the engine as it is, whatever
    the database then holds, and the threshold of votes never changes. On
    an engine that has nothing cached the first call never yields 0: it
    yields 3 on an empty table or on an average of 0, and the average of
    the table otherwise. *)
Theorem global_mean_is_computed_once (self : StatisticalEngine.t)
    (db : Session) :
  let C := fst (StatisticalEngine.calculate_global_mean self db) in
  let self' := snd (StatisticalEngine.calculate_global_mean self db) in
  (forall db', StatisticalEngine.calculate_global_mean self' db' = (C, self'))
  /\ (forall db' top_n window,
        snd (StatisticalEngine.get_trending self' db' top_n window) = self')
  /\ StatisticalEngine.global_mean self' = Some C
  /\ StatisticalEngine.min_votes self' = StatisticalEngine.min_votes self
  /\ (StatisticalEngine.global_mean self = None ->
      ~ (C == 0)%Q
      /\ (movies db = [] -> C = 3%Q)
      /\ (forall v,
            StatisticalEngine.avg_of (map Movie.avg_rating (movies db))
            = Some v ->
            ~ (v == 0)%Q -> C = v)).
Proof.
  cbn zeta. split; [|split; [|split; [|split]]].
  - intros db'. rewrite calculate_global_mean_again.
    now destruct (StatisticalEngine.calculate_global_mean self db).
  - intros db' top_n window.
    destruct (get_trending_explicit
                (snd (StatisticalEngine.calculate_global_mean self db))
                db' window) as (results & -> & _).
    cbn [snd]. now rewrite calculate_global_mean_again.
  - unfold StatisticalEngine.calculate_global_mean.
    destruct (StatisticalEngine.global_mean self) eqn:E; simpl; congruence.
  - apply calculate_global_mean_min_votes.
  - intros Hnone. unfold StatisticalEngine.calculate_global_mean.
    rewrite Hnone. cbn [fst].
    destruct (StatisticalEngine.avg_of _) as [v|] eqn:Havg.
    + destruct (Qeq_bool v 0) eqn:Hz.
      * apply Qeq_bool_iff in Hz. split; [lra|]. split.
        -- intros Hempty. reflexivity.
        -- intros v' Hv' Hne. injection Hv' as <-. contradiction.
      * apply Qeq_bool_neq in Hz. split; [assumption|]. split.
        -- intros Hempty. rewrite Hempty in Havg. discriminate.
        -- intros v' Hv' _. now injection Hv' as <-.
    + split; [lra|]. split; [reflexivity|]. intros v' Hv'. discriminate.
Qed.

(** X8. [get_trending] ranks exactly the movies that have at least
    [min_votes] votes and pass the time window, each once: a movie below
    the threshold, or outside the window, is never returned. Every entry
    carries the weighted rating of its movie for the cached global mean,
    the ranking never goes up, and for [top_n >= 0] the answer holds
    [top_n] entries, or all of them when there are fewer. *)
Theorem get_trending_selection (self : StatisticalEngine.t) (db : Session)
    (time_window_days : option Z) :
  let C := fst (StatisticalEngine.calculate_global_mean self db) in
  let m := StatisticalEngine.min_votes self in
  let candidates := trending_candidates m db time_window_days in
  exists ranked,
    (forall top_n,
       StatisticalEngine.get_trending self db top_n time_window_days
       = (Ok (slice_to top_n ranked),
          snd (StatisticalEngine.calculate_global_mean self db)))
    /\ Permutation (map movieId ranked) (map Movie.movieId candidates)
    /\ (forall r, In r ranked ->
          exists movie,
            In movie (movies db)
            /\ m <= Movie.vote_count movie
            /\ in_window db time_window_days movie = true
            /\ movieId r = Movie.movieId movie
            /\ title r = Movie.title movie
            /\ genres r = Movie.genres movie
            /\ num r !! "weighted_rating"
               = Some (StatisticalEngine.weighted_rating
                         (Movie.avg_rating movie) (Movie.vote_count movie)
                         C m))
    /\ non_increasing (map (raw "weighted_rating") ranked)
    /\ (forall top_n, 0 <= top_n ->
          length (slice_to top_n ranked)
          = Nat.min (Z.to_nat top_n) (length candidates)).
Proof.
  cbn zeta.
  destruct (get_trending_explicit self db time_window_days)
    as (results & Hcall & Hids & Hall).
  exists (ranked_on "weighted_rating" results).
  pose proof (ranked_on_perm "weighted_rating" results) as Hperm.
  split; [exact Hcall|]. split; [|split; [|split]].
  - rewrite Hperm. now rewrite Hids.
  - intros r Hr. apply (Permutation_in _ Hperm) in Hr.
    rewrite List.Forall_forall in Hall.
    destruct (Hall r Hr)
      as (movie & Hin & Hid & _ & Htitle & Hgenres & _ & _ & _ & Hwr).
    exists movie. unfold trending_candidates in Hin.
    apply filter_In in Hin as [Hin Hq].
    apply andb_true_iff in Hq as [Hv Hw]. apply Z.leb_le in Hv.
    auto 10.
  - apply ranked_on_sorted.
  - intros top_n Hn. rewrite length_slice_to by assumption.
    rewrite (Permutation_length Hperm).
    rewrite <- (length_map movieId), Hids, length_map. reflexivity.
Qed.

(** In the example catalogue two movies have the 50 votes of a fresh
    engine; the mean of the eight averages is 3.3125. *)
Example example_trending :
  option_map
    (map (fun r => (movieId r, option_map Qred (num r !! "weighted_rating"))))
    (returned (fst (StatisticalEngine.get_trending StatisticalEngine.init
                                                   example_db 20 None)))
  = Some [(2, Some (341 # 80)); (1, Some (59 # 16))].
Proof. vm_compute. reflexivity. Qed.

(** ** The collaborative engine *)

(** The ranking of [predict_for_user], written out. *)
Lemma predict_for_user_explicit self user_id db :
  let rated := rated_movie_ids user_id db in
  exists predictions,
    (forall top_n,
       CollaborativeEngine.predict_for_user self user_id db top_n
       = Ok (slice_to top_n (ranked_on "predicted_rating" predictions)))
    /\ map movieId predictions
       = List.filter (fun id => negb (bool_decide (id ∈ rated)))
                     (map Movie.movieId (movies db))
    /\ Forall (fun r =>
                 exists movie,
                   In movie (movies db)
                   /\ ~ In (Movie.movieId movie) rated
                   /\ movieId r = Movie.movieId movie
                   /\ tmdbId r = Movie.tmdbId movie
                   /\ title r = Movie.title movie
                   /\ genres r = Movie.genres movie
                   /\ source r = "collaborative_svd"
                   /\ num r !! "predicted_rating"
                      = Some (CollaborativeEngine.predict_single
                                self user_id (Movie.movieId movie)))
              predictions.
Proof.
  cbn zeta. unfold CollaborativeEngine.predict_for_user.
  fold (rated_movie_ids user_id db).
  match goal with
  | |- context [sort_desc_on _ _ ?xs] => exists xs
  end.
  split; [|split].
  - intros top_n. rewrite ranked_on_eq; [reflexivity|].
    rewrite List.Forall_forall. intros r Hr.
    apply in_map_iff in Hr as (movie & <- & _).
    unfold has_key. simpl. rewrite lookup_singleton_eq. eauto.
  - rewrite map_map. cbn [movieId].
    rewrite (filter_map_comm Movie.movieId
               (fun id => negb (bool_decide
                                  (id ∈ rated_movie_ids user_id db)))).
    reflexivity.
  - rewrite List.Forall_forall. intros r Hr.
    apply in_map_iff in Hr as (movie & <- & Hmovie).
    apply filter_In in Hmovie as [Hin Hnot].
    apply negb_true_iff, bool_decide_eq_false in Hnot.
    rewrite list_elem_of_In in Hnot.
    exists movie. simpl. rewrite lookup_singleton_eq. auto 10.
Qed.

(** X9. The collaborative engine ranks exactly the movies of the
    catalogue that the user has not rated: a rated movie is never
    recommended, whatever [top_n]. Every entry carries the prediction
    [predict_single] gives for its movie, the ranking never goes up, and
    for [top_n >= 0] the answer holds [top_n] entries, or all of them when
    there are fewer. *)
Theorem predict_for_user_skips_rated (self : CollaborativeEngine.t)
    (user_id : Z) (db : Session) :
  let rated := rated_movie_ids user_id db in
  let unrated :=
    List.filter (fun id => negb (bool_decide (id ∈ rated)))
                (map Movie.movieId (movies db)) in
  exists ranked,
    (forall top_n,
       CollaborativeEngine.predict_for_user self user_id db top_n
       = Ok (slice_to top_n ranked))
    /\ Permutation (map movieId ranked) unrated
    /\ (forall top_n r,
          In r (slice_to top_n ranked) ->
          ~ In (movieId r) rated
          /\ In (movieId r) (map Movie.movieId (movies db))
          /\ source r = "collaborative_svd"
          /\ num r !! "predicted_rating"
             = Some (CollaborativeEngine.predict_single
                       self user_id (movieId r)))
    /\ non_increasing (map (raw "predicted_rating") ranked)
    /\ (forall top_n, 0 <= top_n ->
          length (slice_to top_n ranked)
          = Nat.min (Z.to_nat top_n) (length unrated)).
Proof.
  cbn zeta.
  destruct (predict_for_user_explicit self user_id db)
    as (predictions & Hcall & Hids & Hall).
  exists (ranked_on "predicted_rating" predictions).
  pose proof (ranked_on_perm "predicted_rating" predictions) as Hperm.
  split; [exact Hcall|]. split; [|split; [|split]].
  - rewrite Hperm. now rewrite Hids.
  - intros top_n r Hr.
    assert (Hin : In r predictions).
    { apply (Permutation_in _ Hperm). eapply In_slice_to, Hr. }
    rewrite List.Forall_forall in Hall.
    destruct (Hall r Hin)
      as (movie & Hmovie & Hnot & Hid & _ & _ & _ & Hsrc & Hpred).
    rewrite Hid. repeat split; auto. now apply in_map.
  - apply ranked_on_sorted.
  - intros top_n Hn. rewrite length_slice_to by assumption.
    rewrite (Permutation_length Hperm).
    rewrite <- (length_map movieId), Hids. reflexivity.
Qed.

(** User 8 has rated the movies 11 and 12. *)
Example example_predictions :
  option_map
    (map (fun r => (movieId r, option_map Qred (num r !! "predicted_rating"))))
    (returned (CollaborativeEngine.predict_for_user
                 (collaborative example_orchestrator) 8 example_db 4))
  = Some [(1, Some (9 # 2)); (2, Some 4%Q); (3, Some 1%Q); (13, Some 1%Q)].
Proof. vm_compute. reflexivity. Qed.

(** ** Confidence of the heroes *)

Lemma fold_Qplus_bounds lo hi xs : forall acc,
  Forall (fun x => (lo <= x <= hi)%Q) xs ->
  (acc + inject_Z (Z.of_nat (length xs)) * lo
   <= fold_left Qplus xs acc
   <= acc + inject_Z (Z.of_nat (length xs)) * hi)%Q.
Proof.
  induction xs as [|x xs IH]; intros acc Hall.
  - cbn [fold_left length]. change (inject_Z (Z.of_nat 0)) with 0%Q. lra.
  - apply Forall_cons in Hall as [Hx Hall].
    cbn [fold_left length]. specialize (IH (acc + x)%Q Hall).
    rewrite Nat2Z.inj_succ, <- Z.add_1_r, inject_Z_plus.
    change (inject_Z 1) with 1%Q.
    set (n := inject_Z (Z.of_nat (length xs))) in *. nra.
Qed.

Lemma avg_of_bounds lo hi xs v :
  Forall (fun x => (lo <= x <= hi)%Q) xs ->
  StatisticalEngine.avg_of xs = Some v -> (lo <= v <= hi)%Q.
Proof.
  intros Hall Hv. unfold StatisticalEngine.avg_of in Hv.
  destruct xs as [|x l] eqn:E; [discriminate|]. rewrite <- E in *.
  injection Hv as <-.
  pose proof (fold_Qplus_bounds lo hi xs 0 Hall) as Hsum.
  fold (py_sum xs) in Hsum.
  assert (Hn : (0 < inject_Z (Z.of_nat (length xs)))%Q).
  { apply inject_Z_pos. rewrite E. simpl. lia. }
  split.
  - apply Qle_shift_div_l; [assumption | lra].
  - apply Qle_shift_div_r; [assumption | lra].
Qed.

Lemma global_mean_bounds self db lo hi :
  (lo <= 3 <= hi)%Q ->
  Forall (fun movie => (lo <= Movie.avg_rating movie <= hi)%Q) (movies db) ->
  (forall c, StatisticalEngine.global_mean self = Some c ->
             (lo <= c <= hi)%Q) ->
  (lo <= fst (StatisticalEngine.calculate_global_mean self db) <= hi)%Q.
Proof.
  intros H3 Hall Hc. unfold StatisticalEngine.calculate_global_mean.
  destruct (StatisticalEngine.global_mean self) as [c|]; [now apply Hc|].
  cbn [fst].
  destruct (StatisticalEngine.avg_of _) as [v|] eqn:E; [|assumption].
  destruct (Qeq_bool v 0); [assumption|].
  eapply avg_of_bounds; [|exact E].
  rewrite List.Forall_forall in *. intros x Hx.
  apply in_map_iff in Hx as (movie & <- & Hm). now apply Hall.
Qed.

Lemma confidence_bounds x :
  (0 <= x <= 5)%Q -> (0 <= min2 (x / 5) 1 <= 1)%Q.
Proof.
  intros Hx. destruct (min2_spec (x / 5) 1) as [Hle Hgt].
  assert (H5 : (x / 5 <= 1)%Q) by (apply Qle_shift_div_r; lra).
  assert (H0 : (0 <= x / 5)%Q) by (apply Qle_shift_div_l; lra).
  rewrite (Hle H5). lra.
Qed.

Lemma lookup_set_item_eq r key v : num (set_item r key v) !! key = Some v.
Proof. unfold set_item. simpl. apply lookup_insert_eq. Qed.

(** X10. The confidence of a hero is a number of [0, 1] whenever the
    ratings it is computed from are on the scale from 0 to 5. For the
    collaborative hero this asks that the model predicts on that scale,
    and the confidence is a fifth of the prediction of the hero's movie.
    For the statistical hero it asks that the threshold of votes is
    positive, that the averages stored with the movies are on the scale
    and that so is a mean cached earlier. *)
Theorem hero_confidence_in_unit_interval :
  (forall self user_id db hero,
     (forall movie_id,
        (0 <= CollaborativeEngine.predict_single self user_id movie_id
         <= 5)%Q) ->
     CollaborativeEngine.get_hero_movie self user_id db = Ok (Some hero) ->
     exists confidence,
       num hero !! "confidence" = Some confidence
       /\ (0 <= confidence <= 1)%Q
       /\ (confidence
           == CollaborativeEngine.predict_single self user_id (movieId hero)
              / 5)%Q)
  /\ (forall self db hero self',
        0 < StatisticalEngine.min_votes self ->
        Forall (fun movie => (0 <= Movie.avg_rating movie <= 5)%Q)
               (movies db) ->
        (forall c, StatisticalEngine.global_mean self = Some c ->
                   (0 <= c <= 5)%Q) ->
        StatisticalEngine.get_hero_movie self db = (Ok (Some hero), self') ->
        exists confidence,
          num hero !! "confidence" = Some confidence
          /\ (0 <= confidence <= 1)%Q).
Proof.
  split.
  - intros self user_id db hero Hscale Hhero.
    destruct (predict_for_user_explicit self user_id db)
      as (predictions & Hcall & _ & Hall).
    unfold CollaborativeEngine.get_hero_movie in Hhero.
    rewrite Hcall, slice_to_one in Hhero.
    pose proof (ranked_on_perm "predicted_rating" predictions) as Hperm.
    destruct (ranked_on "predicted_rating" predictions) as [|top rest];
      [discriminate|].
    assert (Hin : In top predictions)
      by (apply (Permutation_in _ Hperm); now left).
    rewrite List.Forall_forall in Hall.
    destruct (Hall top Hin) as (movie & _ & _ & Hid & _ & _ & _ & _ & Hpred).
    cbn [Py.bind] in Hhero. unfold item in Hhero. rewrite Hpred in Hhero.
    cbn [Py.bind] in Hhero. injection Hhero as <-.
    eexists. split; [apply lookup_set_item_eq|].
    cbn [set_item movieId]. rewrite Hid.
    specialize (Hscale (Movie.movieId movie)).
    split; [now apply confidence_bounds|].
    destruct (min2_spec
                (CollaborativeEngine.predict_single self user_id
                   (Movie.movieId movie) / 5) 1) as [Hle _].
    rewrite Hle; [reflexivity|]. apply Qle_shift_div_r; lra.
  - intros self db hero self' Hm Hscale Hcache Hhero.
    destruct (get_trending_explicit self db None)
      as (results & Hcall & _ & Hall).
    unfold StatisticalEngine.get_hero_movie in Hhero.
    rewrite Hcall, slice_to_one in Hhero.
    pose proof (ranked_on_perm "weighted_rating" results) as Hperm.
    destruct (ranked_on "weighted_rating" results) as [|top rest];
      [discriminate|].
    assert (Hin : In top results)
      by (apply (Permutation_in _ Hperm); now left).
    rewrite List.Forall_forall in Hall.
    destruct (Hall top Hin)
      as (movie & Hmovie & _ & _ & _ & _ & _ & _ & _ & Hwr).
    cbn [Py.bind] in Hhero. unfold item in Hhero. rewrite Hwr in Hhero.
    cbn [Py.bind] in Hhero. injection Hhero as <- _.
    apply filter_In in Hmovie as [Hmovie Hq].
    apply andb_true_iff in Hq as [Hv _]. apply Z.leb_le in Hv.
    assert (Hbounds :
              (0 <= StatisticalEngine.weighted_rating
                      (Movie.avg_rating movie) (Movie.vote_count movie)
                      (fst (StatisticalEngine.calculate_global_mean self db))
                      (StatisticalEngine.min_votes self) <= 5)%Q).
    { apply weighted_rating_bounds; try lia.
      - rewrite List.Forall_forall in Hscale. now apply Hscale.
      - apply global_mean_bounds; [lra | assumption | assumption]. }
    eexists. split; [apply lookup_set_item_eq|].
    now apply confidence_bounds.
Qed.

Example example_statistical_hero :
  option_map
    (option_map
       (fun r => (movieId r, option_map Qred (num r !! "confidence"))))
    (returned (fst (StatisticalEngine.get_hero_movie StatisticalEngine.init
                                                     example_db)))
  = Some (Some (2, Some (341 # 400))).
Proof. vm_compute. reflexivity. Qed.

(** ** The content engine *)

(** X11. Whatever the index, a movie that is not indexed has no similar
    movies, the answer holds at most [top_n] entries for [top_n >= 0], and
    every entry is made from a neighbour of the stored embedding whose
    index id is not the id asked about: it carries the movieId of the
    neighbour's metadata and the similarity 1 - distance. On an index
    that stores every movie under its own id, the movie asked about is
    therefore never among the movies found similar to it. *)
Theorem find_similar_to_movie_excludes_itself (self : ContentEngine.t)
    (movie_id top_n : Z) :
  let similar := ContentEngine.find_similar_to_movie self movie_id top_n in
  (index_consistent self -> ~ In movie_id (map movieId similar))
  /\ (ContentEngine.collection_get self movie_id = None -> similar = [])
  /\ (0 <= top_n -> (length similar <= Z.to_nat top_n)%nat)
  /\ (forall r, In r similar ->
        exists embedding nb,
          ContentEngine.collection_get self movie_id = Some embedding
          /\ In nb (ContentEngine.collection_query self embedding
                                                    (top_n + 1))
          /\ ContentEngine.id nb <> movie_id
          /\ movieId r
             = ContentEngine.Metadata.movieId (ContentEngine.metadata nb)
          /\ source r = "content-similarity"
          /\ num r !! "similarity_score"
             = Some (1 - ContentEngine.distance nb)%Q).
Proof.
  cbn zeta.
  assert (Hall : forall r,
            In r (ContentEngine.find_similar_to_movie self movie_id top_n) ->
            exists embedding nb,
              ContentEngine.collection_get self movie_id = Some embedding
              /\ In nb (ContentEngine.collection_query self embedding
                                                        (top_n + 1))
              /\ ContentEngine.id nb <> movie_id
              /\ movieId r
                 = ContentEngine.Metadata.movieId (ContentEngine.metadata nb)
              /\ source r = "content-similarity"
              /\ num r !! "similarity_score"
                 = Some (1 - ContentEngine.distance nb)%Q).
  { unfold ContentEngine.find_similar_to_movie.
    destruct (ContentEngine.collection_get self movie_id) as [embedding|];
      [|intros r []].
    intros r Hr. apply In_slice_to in Hr.
    apply in_map_iff in Hr as (nb & <- & Hnb).
    apply filter_In in Hnb as [Hnb Hne].
    apply negb_true_iff, Z.eqb_neq in Hne.
    exists embedding, nb. cbn [movieId source num].
    rewrite lookup_insert_eq. auto 10. }
  split; [|split; [|split]].
  - intros Hindex Hin. apply in_map_iff in Hin as (r & Hid & Hr).
    destruct (Hall r Hr) as (emb & nb & _ & Hnb & Hne & Hid' & _).
    rewrite (Hindex _ _ _ Hnb) in Hid'. congruence.
  - unfold ContentEngine.find_similar_to_movie. now intros ->.
  - intros Hn. unfold ContentEngine.find_similar_to_movie.
    destruct (ContentEngine.collection_get self movie_id); [|simpl; lia].
    rewrite length_slice_to by assumption. lia.
  - exact Hall.
Qed.

Lemma find_similar_to_movie_excludes_itself_witness :
  ~ In 11 (map movieId
             (ContentEngine.find_similar_to_movie
                (content example_orchestrator) 11 10)).
Proof.
  refine (proj1 (find_similar_to_movie_excludes_itself
                   (content example_orchestrator) 11 10) _).
  intros embedding n nb. simpl. unfold example_neighbours.
  destruct embedding as [|q [|q' l]]; try (intros []).
  destruct (Qeq_bool q 11); simpl; intuition (subst; reflexivity).
Defined.

Lemma raw_set_item_ne key key' r v :
  key <> key' -> raw key (set_item r key' v) = raw key r.
Proof.
  intros Hne. unfold raw, set_item. simpl.
  now rewrite lookup_insert_ne by congruence.
Qed.

Lemma lookup_set_item_ne key key' r v :
  key <> key' -> num (set_item r key' v) !! key = num r !! key.
Proof.
  intros Hne. unfold set_item. simpl.
  now rewrite lookup_insert_ne by congruence.
Qed.

Lemma occurrences_app id l l' :
  occurrences id (l ++ l') = occurrences id l ++ occurrences id l'.
Proof. apply List.filter_app. Qed.

Lemma occurrences_nil_iff id l :
  occurrences id l = [] <-> ~ In id (map movieId l).
Proof.
  unfold occurrences. induction l as [|r l IH]; simpl; [tauto|].
  destruct (movieId r =? id) eqn:E.
  - apply Z.eqb_eq in E. split; [discriminate | tauto].
  - apply Z.eqb_neq in E. rewrite IH. tauto.
Qed.

Lemma Qsum_snoc l x : (Qsum (l ++ [x]) == Qsum l + x)%Q.
Proof.
  induction l as [|y l IH]; simpl; [ring|]. rewrite IH. ring.
Qed.

Lemma inject_length_snoc {A} (l : list A) x :
  (inject_Z (Z.of_nat (length (l ++ [x])))
   == inject_Z (Z.of_nat (length l)) + 1)%Q.
Proof.
  rewrite length_app. simpl. rewrite Nat.add_1_r, Nat2Z.inj_succ.
  rewrite <- Z.add_1_r, inject_Z_plus. reflexivity.
Qed.

Lemma dict_get_None {V} (k : Z) (d : dict V) :
  dict_get k d = None <-> ~ In k (keys d).
Proof.
  induction d as [|[k' v] d IH]; simpl; [tauto|].
  destruct (k =? k') eqn:E.
  - apply Z.eqb_eq in E. split; [discriminate|]. intros H. exfalso. auto.
  - apply Z.eqb_neq in E. rewrite IH. split; [|tauto].
    intros H [Heq|Hin]; [congruence | auto].
Qed.

Lemma dict_get_of_In {V} (k : Z) (v : V) (d : dict V) :
  NoDup (keys d) -> In (k, v) d -> dict_get k d = Some v.
Proof.
  induction d as [|[k' v'] d IH]; simpl; [tauto|].
  intros Hnd [Heq|Hin].
  - injection Heq as -> ->. now rewrite Z.eqb_refl.
  - apply NoDup_cons in Hnd as [Hk' Hnd]. rewrite list_elem_of_In in Hk'.
    destruct (k =? k') eqn:E; [|auto].
    apply Z.eqb_eq in E. subst k'. exfalso. apply Hk'.
    change (In k (map fst d)). apply in_map_iff. now exists (k, v).
Qed.

Lemma summarizes_other pool movie v :
  movieId movie <> movieId v ->
  summarizes pool v -> summarizes (pool ++ [movie]) v.
Proof.
  intros Hne. unfold summarizes. cbn zeta.
  rewrite occurrences_app.
  assert (Hnone : occurrences (movieId v) [movie] = []).
  { unfold occurrences. simpl.
    destruct (movieId movie =? movieId v) eqn:E; [|reflexivity].
    apply Z.eqb_eq in E. contradiction. }
  now rewrite Hnone, app_nil_r.
Qed.

(** One turn of the aggregation: one more movie met. *)
Lemma aggregate_step pool d movie :
  aggregation pool d -> has_key "similarity_score" movie ->
  exists d',
    ContentEngine.aggregate d movie = Ok d'
    /\ aggregation (pool ++ [movie]) d'.
Proof.
  intros [Hnd Hinv] Hm. unfold ContentEngine.aggregate.
  rewrite (item_has_key _ _ Hm).
  pose proof (Hinv (movieId movie)) as Hcur.
  assert (Hself : occurrences (movieId movie) [movie] = [movie]).
  { unfold occurrences. simpl. now rewrite Z.eqb_refl. }
  assert (Hothers : forall id,
            id <> movieId movie ->
            match dict_get id d with
            | Some v => movieId v = id /\ aggregated v
                        /\ summarizes (pool ++ [movie]) v
            | None => occurrences id (pool ++ [movie]) = []
            end).
  { intros id Hne. specialize (Hinv id).
    destruct (dict_get id d) as [v|].
    - destruct Hinv as (Hid & Hagg & Hsum). split; [assumption|].
      split; [assumption|]. apply summarizes_other; congruence.
    - rewrite occurrences_app, Hinv. unfold occurrences. simpl.
      destruct (movieId movie =? id) eqn:E; [|reflexivity].
      apply Z.eqb_eq in E. congruence. }
  destruct (dict_get (movieId movie) d) as [seen|] eqn:E.
  - destruct Hcur as (Hid & (Hscore & Hcount & Hsim) & first & Hfirst
                      & Htm & Ht & Hg & Hsrc & Hs & Hc & Hsc).
    rewrite (item_has_key _ _ Hscore). cbn [Py.bind].
    rewrite (item_has_key "count" (set_item seen "score" _))
      by now apply has_key_set_item.
    cbn [Py.bind]. eexists. split; [reflexivity|].
    split; [now apply NoDup_keys_set|].
    intros id. destruct (decide (id = movieId movie)) as [->|Hne].
    + rewrite dict_get_set_eq. split; [exact Hid|]. split.
      { repeat split.
        - apply has_key_set_item, has_key_set_item_eq.
        - apply has_key_set_item_eq.
        - now apply has_key_set_item, has_key_set_item. }
      unfold summarizes. cbn zeta. cbn [set_item movieId].
      rewrite Hid in *. rewrite occurrences_app, Hself.
      exists first. split.
      { destruct (occurrences (movieId movie) pool); [discriminate|].
        exact Hfirst. }
      cbn [tmdbId title genres source].
      split; [assumption|]. split; [assumption|]. split; [assumption|].
      split; [assumption|]. split.
      { rewrite !lookup_set_item_ne by done. assumption. }
      split.
      * fold (set_item seen "score"
                       (raw "score" seen + raw "similarity_score" movie)).
        fold (set_item
                (set_item seen "score"
                          (raw "score" seen + raw "similarity_score" movie))
                "count"
                (raw "count"
                     (set_item seen "score"
                        (raw "score" seen + raw "similarity_score" movie))
                 + 1)).
        rewrite raw_set_item, raw_set_item_ne by done.
        rewrite inject_length_snoc, Hc. reflexivity.
      * fold (set_item seen "score"
                       (raw "score" seen + raw "similarity_score" movie)).
        fold (set_item
                (set_item seen "score"
                          (raw "score" seen + raw "similarity_score" movie))
                "count"
                (raw "count"
                     (set_item seen "score"
                        (raw "score" seen + raw "similarity_score" movie))
                 + 1)).
        rewrite raw_set_item_ne, raw_set_item by done.
        rewrite map_app. cbn [map]. rewrite Qsum_snoc, Hsc. reflexivity.
    + rewrite dict_get_set_ne by congruence. now apply Hothers.
  - cbn [Py.bind]. eexists. split; [reflexivity|].
    split; [now apply NoDup_keys_set|].
    intros id. destruct (decide (id = movieId movie)) as [->|Hne].
    + rewrite dict_get_set_eq. split; [reflexivity|]. split.
      { repeat split.
        - apply has_key_set_item, has_key_set_item_eq.
        - apply has_key_set_item_eq.
        - now apply has_key_set_item, has_key_set_item. }
      unfold summarizes. cbn zeta.
      change (movieId (set_item (set_item movie "score"
                                   (raw "similarity_score" movie))
                                "count" 1)) with (movieId movie).
      rewrite occurrences_app, Hcur, Hself. cbn [app].
      exists movie. split; [reflexivity|].
      split; [reflexivity|]. split; [reflexivity|]. split; [reflexivity|].
      split; [reflexivity|]. split.
      { now rewrite !lookup_set_item_ne by done. }
      split.
      * rewrite raw_set_item. reflexivity.
      * rewrite raw_set_item_ne, raw_set_item by done. simpl. ring.
    + rewrite dict_get_set_ne by congruence. now apply Hothers.
Qed.

Lemma aggregate_all_pool similar : forall pool d,
  aggregation pool d ->
  Forall (has_key "similarity_score") similar ->
  exists d',
    ContentEngine.aggregate_all d similar = Ok d'
    /\ aggregation (pool ++ similar) d'.
Proof.
  induction similar as [|movie rest IH]; intros pool d Hd Hs; simpl.
  - exists d. now rewrite app_nil_r.
  - apply Forall_cons in Hs as [Hm Hs].
    destruct (aggregate_step pool d movie Hd Hm) as (d1 & -> & Hd1).
    cbn [Py.bind].
    destruct (IH (pool ++ [movie]) d1 Hd1 Hs) as (d' & Hd' & Hinv).
    exists d'. split; [assumption|]. now rewrite <- app_assoc in Hinv.
Qed.

Lemma collect_pool self liked : forall pool d,
  aggregation pool d ->
  exists d',
    ContentEngine.collect self liked d = Ok d'
    /\ aggregation (pool ++ similar_pool self liked) d'.
Proof.
  induction liked as [|rating rest IH]; intros pool d Hd; simpl.
  - exists d. now rewrite app_nil_r.
  - destruct (aggregate_all_pool _ pool d Hd
                (find_similar_to_movie_keys self (Rating.movieId rating) 10))
      as (d1 & -> & Hd1).
    cbn [Py.bind].
    destruct (IH _ d1 Hd1) as (d' & Hd' & Hinv).
    exists d'. split; [assumption|]. now rewrite <- app_assoc in Hinv.
Qed.

Lemma aggregation_values pool d :
  aggregation pool d ->
  map movieId (values d) = keys d
  /\ Forall (fun v => aggregated v /\ summarizes pool v) (values d)
  /\ forall id, In id (keys d) <-> In id (map movieId pool).
Proof.
  intros [Hnd Hinv].
  assert (Hentry : forall k v, In (k, v) d ->
                     movieId v = k /\ aggregated v /\ summarizes pool v).
  { intros k v Hin. specialize (Hinv k).
    now rewrite (dict_get_of_In k v d Hnd Hin) in Hinv. }
  split; [|split].
  - unfold values, keys. rewrite map_map. apply map_ext_in.
    intros [k v] Hin. simpl. now apply Hentry.
  - rewrite List.Forall_forall. intros v Hv.
    apply in_map_iff in Hv as ([k v'] & <- & Hin). simpl.
    now apply (Hentry k v').
  - intros id. specialize (Hinv id).
    destruct (dict_get id d) as [v|] eqn:E.
    + destruct Hinv as (Hid & _ & first & Hfirst & _).
      assert (Hk : In id (keys d)).
      { destruct (dict_get_None id d) as [_ H].
        destruct (in_dec Z.eq_dec id (keys d)) as [Hin|Hout]; [assumption|].
        rewrite (H Hout) in E. discriminate. }
      assert (Hp : In id (map movieId pool)).
      { destruct (in_dec Z.eq_dec id (map movieId pool)) as [Hin|Hout];
          [assumption|].
        apply occurrences_nil_iff in Hout.
        rewrite Hid, Hout in Hfirst. discriminate. }
      tauto.
    + apply dict_get_None in E. apply occurrences_nil_iff in Hinv. tauto.
Qed.

(** The ranking of the content engine and the pool it aggregates. *)
Lemma user_preferences_pool self user_id db :
  let pool := similar_pool self (liked_movies user_id db) in
  exists ranked,
    (forall top_n,
       ContentEngine.find_similar_to_user_preferences self user_id db top_n
       = Ok (slice_to top_n ranked))
    /\ Forall aggregated ranked
    /\ NoDup (map movieId ranked)
    /\ (forall id, In id (map movieId ranked) <-> In id (map movieId pool))
    /\ Forall (summarizes pool) ranked.
Proof.
  cbn zeta. unfold ContentEngine.find_similar_to_user_preferences.
  fold (liked_movies user_id db).
  destruct (liked_movies user_id db) as [|r0 liked] eqn:Hliked.
  { exists []. split; [intros n; now rewrite slice_to_nil|].
    split; [constructor|]. split; [constructor|].
    split; [reflexivity | constructor]. }
  destruct (collect_pool self (r0 :: liked) [] []) as (d & -> & Hd).
  { split; [constructor|]. intros id. reflexivity. }
  cbn [Py.bind app] in *.
  destruct (aggregation_values _ _ Hd) as (Hids & Hall & Hkeys).
  assert (Hkey : Forall (fun x => ContentEngine.count_score x
                                  = Ok (raw "count" x, raw "score" x))
                        (values d)).
  { eapply Forall_impl; [exact Hall|]. intros x [(Hscore & Hcount & _) _].
    unfold ContentEngine.count_score.
    now rewrite (item_has_key _ _ Hcount), (item_has_key _ _ Hscore). }
  destruct (sort_desc_on_perm ContentEngine.count_score
              (fun x => (raw "count" x, raw "score" x))
              ContentEngine.pair_geb (values d) Hkey)
    as (out & -> & Hperm).
  cbn [Py.bind]. exists out. split; [reflexivity|].
  split; [|split; [|split]].
  - rewrite Hperm. eapply Forall_impl; [exact Hall|]. now intros x [? _].
  - rewrite Hperm, Hids. apply Hd.
  - intros id. rewrite Hperm, Hids. apply Hkeys.
  - rewrite Hperm. eapply Forall_impl; [exact Hall|]. now intros x [_ ?].
Qed.

(** X12. The content recommendations of a user hold every movie found
    similar to one of the liked movies (those rated 4 or more) exactly
    once, however many liked movies it is similar to. The entry of a
    movie is the record of its first meeting, its [count] is the number
    of meetings and its [score] the sum of their similarity scores.
    Without a liked movie the answer is empty. *)
Theorem user_preferences_aggregate (self : ContentEngine.t) (user_id : Z)
    (db : Session) :
  let pool := similar_pool self (liked_movies user_id db) in
  exists ranked,
    (forall top_n,
       ContentEngine.find_similar_to_user_preferences self user_id db top_n
       = Ok (slice_to top_n ranked))
    /\ NoDup (map movieId ranked)
    /\ (forall id, In id (map movieId ranked) <-> In id (map movieId pool))
    /\ (forall r, In r ranked ->
          let met := occurrences (movieId r) pool in
          exists first,
            hd_error met = Some first
            /\ tmdbId r = tmdbId first /\ title r = title first
            /\ genres r = genres first /\ source r = source first
            /\ num r !! "similarity_score" = num first !! "similarity_score"
            /\ (raw "count" r == inject_Z (Z.of_nat (length met)))%Q
            /\ (raw "score" r
                == Qsum (map (raw "similarity_score") met))%Q)
    /\ (liked_movies user_id db = [] -> ranked = []).
Proof.
  cbn zeta.
  destruct (user_preferences_pool self user_id db)
    as (ranked & Hcall & _ & Hnd & Hids & Hsum).
  exists ranked. split; [exact Hcall|]. split; [exact Hnd|].
  split; [exact Hids|]. split.
  - intros r Hr. rewrite List.Forall_forall in Hsum. exact (Hsum r Hr).
  - intros Hliked. rewrite Hliked in Hids. simpl in Hids.
    destruct ranked as [|r rest]; [reflexivity|].
    exfalso. apply (Hids (movieId r)). now left.
Qed.

(** User 7 likes the movies 11 and 12; movie 2 is similar to both, with
    the similarities 0.9 and 0.8, movie 3 to the first only. *)
Example example_aggregate :
  option_map
    (map (fun r => (movieId r, option_map Qred (num r !! "count"),
                    option_map Qred (num r !! "score"))))
    (returned (ContentEngine.find_similar_to_user_preferences
                 (content example_orchestrator) 7 example_db 20))
  = Some [(2, Some 2%Q, Some (17 # 10)); (3, Some 1%Q, Some (1 # 2))].
Proof. vm_compute. reflexivity. Qed.

(** ** Responses of the orchestrator *)

Lemma get_trending_again self db top_n window :
  StatisticalEngine.get_trending
    (snd (StatisticalEngine.calculate_global_mean self db)) db top_n window
  = StatisticalEngine.get_trending self db top_n window.
Proof.
  unfold StatisticalEngine.get_trending.
  now rewrite calculate_global_mean_again.
Qed.

Lemma statistical_hero_again self db :
  StatisticalEngine.get_hero_movie
    (snd (StatisticalEngine.calculate_global_mean self db)) db
  = StatisticalEngine.get_hero_movie self db.
Proof.
  unfold StatisticalEngine.get_hero_movie. now rewrite get_trending_again.
Qed.

Lemma hd_slice_to {A} (n : Z) (l : list A) :
  1 <= n -> hd_error (slice_to n l) = hd_error l.
Proof.
  intros Hn. unfold slice_to. destruct (0 <=? n) eqn:E; [|lia].
  destruct (Z.to_nat n) as [|k] eqn:Hk; [lia|]. now destruct l.
Qed.

Lemma hd_error_map {A B} (f : A -> B) l :
  hd_error (map f l) = option_map f (hd_error l).
Proof. now destruct l. Qed.

(** The hero of each engine has the id of the first entry of the
    engine's ranking. *)
Lemma collaborative_hero_id self user_id db :
  exists ranked hero,
    (forall top_n, CollaborativeEngine.predict_for_user self user_id db top_n
                   = Ok (slice_to top_n ranked))
    /\ CollaborativeEngine.get_hero_movie self user_id db = Ok hero
    /\ option_map movieId hero = hd_error (map movieId ranked).
Proof.
  destruct (predict_for_user_ranked self user_id db) as (ranked & Hk & _ & Hn).
  unfold CollaborativeEngine.get_hero_movie. rewrite Hn, slice_to_one.
  exists ranked. destruct ranked as [|top rest]; [eauto|].
  apply Forall_cons in Hk as [Hk _]. cbn [Py.bind].
  rewrite (item_has_key _ _ Hk). eauto.
Qed.

Lemma statistical_hero_id self db :
  exists ranked hero,
    (forall top_n, StatisticalEngine.get_trending self db top_n None
                   = (Ok (slice_to top_n ranked),
                      snd (StatisticalEngine.calculate_global_mean self db)))
    /\ StatisticalEngine.get_hero_movie self db
       = (Ok hero, snd (StatisticalEngine.calculate_global_mean self db))
    /\ option_map movieId hero = hd_error (map movieId ranked).
Proof.
  destruct (get_trending_ranked self db None) as (ranked & Hk & _ & Hn).
  unfold StatisticalEngine.get_hero_movie. rewrite Hn, slice_to_one.
  exists ranked. destruct ranked as [|top rest]; [eauto|].
  apply Forall_cons in Hk as [Hk _]. cbn [Py.bind].
  rewrite (item_has_key _ _ Hk). eauto.
Qed.

Lemma content_hero_id self user_id db :
  exists ranked hero,
    (forall top_n,
       ContentEngine.find_similar_to_user_preferences self user_id db top_n
       = Ok (slice_to top_n ranked))
    /\ ContentEngine.get_hero_movie self user_id db = Ok hero
    /\ option_map movieId hero = hd_error (map movieId ranked).
Proof.
  destruct (find_similar_to_user_preferences_ranked self user_id db)
    as (ranked & Hk & _ & Hn).
  unfold ContentEngine.get_hero_movie. rewrite Hn, slice_to_one.
  exists ranked. destruct ranked as [|top rest]; [eauto|].
  apply Forall_cons in Hk as [(_ & _ & Hk) _]. cbn [Py.bind].
  rewrite (item_has_key _ _ Hk). eauto.
Qed.

(** X13. On the four routes that show one source (cold start,
    collaborative, content, statistical) the response holds one section,
    and for [top_n >= 1] the hero is the movie at the head of that
    section: both are absent when the engine has no candidate. *)
Theorem single_source_hero_heads_section
    (self : RecommendationOrchestrator.t) (user_id : Z) (db : Session)
    (top_n : Z) :
  1 <= top_n ->
  let hero_heads (run : result Response.t * RecommendationOrchestrator.t) :=
    exists resp self',
      run = (Ok resp, self')
      /\ length (Response.sections resp) = 1%nat
      /\ hero_id resp = hd_error (first_section_ids resp) in
  hero_heads (_handle_new_user db top_n self)
  /\ hero_heads (_collaborative_only user_id db top_n self)
  /\ hero_heads (_content_only user_id db top_n self)
  /\ hero_heads (_statistical_only db top_n self).
Proof.
  intros Hn. cbn zeta.
  assert (Hstat : forall title description is_new,
            exists resp self',
              bindM (on_statistical
                       (fun e => StatisticalEngine.get_trending
                                   e db top_n None))
                    (fun trending =>
                       bindM (on_statistical
                                (fun e => StatisticalEngine.get_hero_movie
                                            e db))
                             (fun hero =>
                                ret (Response.mk "statistical" is_new hero
                                       [Sec.mk title description trending
                                               "statistical"]))) self
              = (Ok resp, self')
              /\ length (Response.sections resp) = 1%nat
              /\ hero_id resp = hd_error (first_section_ids resp)).
  { intros title description is_new.
    unfold bindM, on_statistical, ret.
    destruct (statistical_hero_id (statistical self) db)
      as (ranked & hero & Htr & Hhero & Hid).
    rewrite Htr. cbn [statistical with_statistical].
    rewrite statistical_hero_again, Hhero.
    eexists _, _. split; [reflexivity|]. split; [reflexivity|].
    unfold hero_id, first_section_ids. cbn.
    now rewrite Hid, !hd_error_map, hd_slice_to. }
  split; [apply Hstat|]. split; [|split; [|apply Hstat]].
  - unfold _collaborative_only, bindM, on_collaborative, ret.
    destruct (collaborative_hero_id (collaborative self) user_id db)
      as (ranked & hero & -> & -> & Hid).
    eexists _, _. split; [reflexivity|]. split; [reflexivity|].
    unfold hero_id, first_section_ids. cbn.
    now rewrite Hid, !hd_error_map, hd_slice_to.
  - unfold _content_only, bindM, on_content, ret.
    destruct (content_hero_id (content self) user_id db)
      as (ranked & hero & -> & -> & Hid).
    eexists _, _. split; [reflexivity|]. split; [reflexivity|].
    unfold hero_id, first_section_ids. cbn.
    now rewrite Hid, !hd_error_map, hd_slice_to.
Qed.

Lemma single_source_hero_heads_section_witness :
  exists resp self',
    _collaborative_only 7 example_db 20 example_orchestrator
    = (Ok resp, self')
    /\ length (Response.sections resp) = 1%nat
    /\ hero_id resp = hd_error (first_section_ids resp).
Proof.
  apply (proj1 (proj2 (single_source_hero_heads_section
                         example_orchestrator 7 example_db 20
                         ltac:(lia)))).
Defined.

Lemma slice_to_idem {A} (n : Z) (l : list A) :
  0 <= n -> slice_to n (slice_to n l) = slice_to n l.
Proof.
  intros Hn. unfold slice_to. destruct (0 <=? n) eqn:E; [|lia].
  rewrite take_take. now rewrite Nat.min_id.
Qed.

Lemma NoDup_map_slice_to {A B} (f : A -> B) (n : Z) (l : list A) :
  NoDup (map f l) -> NoDup (map f (slice_to n l)).
Proof.
  intros Hnd. destruct (slice_to_take n l) as [k ->].
  rewrite <- firstn_map. exact (sublist_NoDup _ _ Hnd (sublist_take _ _)).
Qed.

(** X14. For [top_n >= 0] the hybrid response holds three sections, from
    the sources hybrid, content and statistical in this order. The second
    and the third are the very lists the content engine and the
    statistical engine return for [top_n], which are, with the list of
    the collaborative engine, the lists that were merged; the first is
    the merged ranking cut at [top_n]: it shows no movie twice, only
    movies of the three lists, and its scores never go up. *)
Theorem hybrid_sections (set_iter : list Z -> list Z)
    (self : RecommendationOrchestrator.t) (user_id : Z) (db : Session)
    (top_n : Z) :
  set_iter_ok set_iter -> 0 <= top_n ->
  exists resp self' collab_recs content_recs stats_recs ranked,
    _hybrid_recommendations set_iter user_id db top_n self = (Ok resp, self')
    /\ CollaborativeEngine.predict_for_user (collaborative self) user_id db
                                            top_n = Ok collab_recs
    /\ ContentEngine.find_similar_to_user_preferences (content self) user_id
                                                      db top_n
       = Ok content_recs
    /\ fst (StatisticalEngine.get_trending (statistical self) db top_n None)
       = Ok stats_recs
    /\ Ranker.merge_and_rank set_iter collab_recs content_recs stats_recs
                             hybrid_weights = Ok ranked
    /\ map Sec.source (Response.sections resp)
       = ["hybrid"; "content"; "statistical"]
    /\ map Sec.movies (Response.sections resp)
       = [slice_to top_n ranked; content_recs; stats_recs]
    /\ NoDup (map movieId (slice_to top_n ranked))
    /\ (length (slice_to top_n ranked) <= Z.to_nat top_n)%nat
    /\ (forall r, In r (slice_to top_n ranked) ->
          source r = "hybrid_weighted"
          /\ In (movieId r)
                (map movieId (collab_recs ++ content_recs ++ stats_recs)))
    /\ non_increasing (map base_score ranked).
Proof.
  intros Hiter Hn.
  unfold _hybrid_recommendations, bindM,
    on_collaborative, on_content, on_statistical, lift, ret.
  destruct (predict_for_user_ranked (collaborative self) user_id db)
    as (cr & Hc & _ & Hcr).
  destruct (find_similar_to_user_preferences_ranked (content self) user_id db)
    as (tr & Ht & _ & Htr).
  destruct (get_trending_ranked (statistical self) db None)
    as (sr & Hs & _ & Hsr).
  rewrite Hcr, Htr, Hsr.
  assert (Hc' : Forall (has_key "predicted_rating") (slice_to top_n cr))
    by now apply Forall_slice_to.
  assert (Ht' : Forall (has_key "score") (slice_to top_n tr))
    by now apply Forall_slice_to, aggregated_score.
  assert (Hs' : Forall (has_key "weighted_rating") (slice_to top_n sr))
    by now apply Forall_slice_to.
  destruct (merge_and_rank_summary set_iter _ _ _ _ _ _ Hiter Hc' Ht' Hs'
              hybrid_weights_ok)
    as (ranked & Hm & Hnd & Hids & _ & Hsort & _).
  destruct (merge_and_rank_entries set_iter Hiter _ _ _ _ _ _ Hc' Ht' Hs'
              hybrid_weights_ok)
    as (ranked' & Hm' & _ & Hdetails & _).
  unfold hybrid_weights in *. rewrite Hm in Hm'. injection Hm' as <-.
  rewrite Hm. cbn [collaborative with_statistical].
  destruct (collaborative_hero_Ok (collaborative self) user_id db)
    as (hero & ->).
  eexists _, _, (slice_to top_n cr), (slice_to top_n tr), (slice_to top_n sr),
    ranked.
  split; [reflexivity|]. split; [reflexivity|]. split; [reflexivity|].
  split; [reflexivity|]. split; [exact Hm|]. split; [reflexivity|].
  split; [cbn; now rewrite !slice_to_idem|].
  split; [now apply NoDup_map_slice_to|].
  split; [rewrite length_slice_to by assumption; lia|].
  split; [|assumption].
  intros r Hr. apply In_slice_to in Hr. split.
  - destruct (Hdetails r Hr) as (src & _ & ->). reflexivity.
  - apply Hids. now apply in_map.
Qed.

Lemma hybrid_sections_witness :
  exists resp self',
    _hybrid_recommendations insertion_order 7 example_db 20
                            example_orchestrator = (Ok resp, self')
    /\ map Sec.source (Response.sections resp)
       = ["hybrid"; "content"; "statistical"].
Proof.
  destruct (hybrid_sections insertion_order example_orchestrator 7 example_db
              20 insertion_order_ok ltac:(lia))
    as (resp & self' & c & t & s & ranked & H & _ & _ & _ & _ & Hsrc & _).
  exists resp, self'. split; assumption.
Defined.

(** The page of the statistical engine, run on an orchestrator whose
    statistical engine is the given one or the one that has already
    cached its mean. *)
Lemma statistical_page title description is_new db top_n self :
  let page :=
    bindM (on_statistical
             (fun e => StatisticalEngine.get_trending e db top_n None))
          (fun trending =>
             bindM (on_statistical
                      (fun e => StatisticalEngine.get_hero_movie e db))
                   (fun hero =>
                      ret (Response.mk "statistical" is_new hero
                             [Sec.mk title description trending
                                     "statistical"]))) in
  let cached :=
    snd (StatisticalEngine.calculate_global_mean (statistical self) db) in
  exists resp,
    forall self0,
      statistical self0 = statistical self \/ statistical self0 = cached ->
      page self0 = (Ok resp, with_statistical self0 cached).
Proof.
  cbn zeta.
  destruct (get_trending_ranked (statistical self) db None)
    as (ranked & _ & _ & Htr).
  destruct (statistical_hero_Ok (statistical self) db) as (hero & Hhero).
  eexists. intros self0 Hself0.
  unfold bindM, on_statistical, ret.
  assert (Htr0 : StatisticalEngine.get_trending (statistical self0) db
                                                top_n None
                 = (Ok (slice_to top_n ranked),
                    snd (StatisticalEngine.calculate_global_mean
                           (statistical self) db))).
  { destruct Hself0 as [->| ->]; [apply Htr|].
    rewrite get_trending_again. apply Htr. }
  rewrite Htr0. cbn [statistical with_statistical].
  rewrite statistical_hero_again, Hhero. reflexivity.
Qed.

(** X15. A request repeated on an unchanged database gets the same
    response, and leaves the orchestrator as the first request left it:
    the only thing a request changes is the cached global mean, and the
    first request already used the value it cached. *)
Theorem repeated_request_same_response (set_iter : list Z -> list Z)
    (self : RecommendationOrchestrator.t) (user_id : Z) (db : Session)
    (strategy : string) (top_n : Z) :
  let first :=
    get_recommendations set_iter user_id db strategy top_n self in
  get_recommendations set_iter user_id db strategy top_n (snd first) = first
  /\ collaborative (snd first) = collaborative self
  /\ content (snd first) = content self
  /\ (statistical (snd first) = statistical self
      \/ statistical (snd first)
         = snd (StatisticalEngine.calculate_global_mean
                  (statistical self) db)).
Proof.
  cbn zeta. unfold get_recommendations.
  destruct (is_new_user user_id db).
  { destruct (statistical_page "Trending & Highly Rated"
                "Popular movies with excellent ratings" true db top_n self)
      as (resp & Hpage).
    unfold _handle_new_user.
    rewrite (Hpage self) by now left. cbn [snd].
    rewrite Hpage by (right; reflexivity). cbn. auto. }
  destruct (String.eqb strategy "collaborative").
  { destruct (collaborative_only_Ok self user_id db top_n) as (resp & H & _).
    rewrite H. cbn [snd]. rewrite H. auto. }
  destruct (String.eqb strategy "content").
  { destruct (content_only_Ok self user_id db top_n) as (resp & H & _).
    rewrite H. cbn [snd]. rewrite H. auto. }
  destruct (String.eqb strategy "statistical").
  { destruct (statistical_page "Top Rated Movies"
                "Highest quality by statistical significance" false
                db top_n self) as (resp & Hpage).
    unfold _statistical_only.
    rewrite (Hpage self) by now left. cbn [snd].
    rewrite Hpage by (right; reflexivity). cbn. auto. }
  unfold _hybrid_recommendations, bindM,
    on_collaborative, on_content, on_statistical, lift, ret.
  destruct (CollaborativeEngine.predict_for_user (collaborative self)
              user_id db top_n) as [cr|e] eqn:Hcr.
  2:{ cbn [snd]. rewrite Hcr. auto. }
  destruct (ContentEngine.find_similar_to_user_preferences (content self)
              user_id db top_n) as [tr|e] eqn:Htr.
  2:{ cbn [snd]. rewrite Hcr, Htr. auto. }
  destruct (get_trending_ranked (statistical self) db None)
    as (ranked & _ & _ & Hsr).
  rewrite Hsr. cbn [collaborative content with_statistical].
  destruct (Ranker.merge_and_rank set_iter cr tr (slice_to top_n ranked)
              hybrid_weights) as [merged|e] eqn:Hm.
  2:{ cbn [snd collaborative content statistical with_statistical].
      rewrite Hcr, Htr, get_trending_again, Hsr, Hm. cbn. auto. }
  destruct (CollaborativeEngine.get_hero_movie (collaborative self) user_id db)
    as [hero|e] eqn:Hhero;
    cbn [snd collaborative content statistical with_statistical];
    rewrite Hcr, Htr, get_trending_again, Hsr, Hm;
    cbn [collaborative with_statistical]; rewrite Hhero; cbn; auto.
Qed.

(** ** Trending by genre *)

Lemma ranked_on_map {X} key (k : X -> Q) (f : X -> rec) (xs : list X) :
  (forall x, raw key (f x) = k x) ->
  ranked_on key (map f xs) = map f (sorted_on k xs).
Proof.
  intros Hk. unfold ranked_on, sorted_on.
  rewrite map_map.
  rewrite (map_ext (fun x => (raw key (f x), f x))
                   (fun x => (fun p : Q * X => (fst p, f (snd p))) (k x, x)))
    by (intros x; simpl; now rewrite Hk).
  rewrite <- (map_map (fun x => (k x, x))
                      (fun p : Q * X => (fst p, f (snd p)))).
  rewrite (sorted_desc_map (fun a b : Q * X => Qgeb (fst a) (fst b)))
    by reflexivity.
  rewrite !map_map. reflexivity.
Qed.

Lemma filter_sorted_on {X} (k : X -> Q) (P : X -> bool) (xs : list X) :
  List.filter P (sorted_on k xs) = sorted_on k (List.filter P xs).
Proof.
  unfold sorted_on.
  rewrite filter_map_comm.
  rewrite (filter_sorted_desc (fun a b : Q * X => Qgeb (fst a) (fst b)))
    by (intros *; first [apply Qgeb_total | apply Qgeb_trans]).
  rewrite (filter_map_comm (fun x => (k x, x)) (fun p => P (snd p))).
  reflexivity.
Qed.

(** X16. [get_by_genre] shows the trending ranking restricted to the
    movies whose genres pass the test of the database: the same movies
    in the same order with the same weighted ratings as the entries of
    [get_trending] (without a window) that pass it, under the same cached
    mean and the same threshold of votes. Its entries carry the source
    tag of the genre and, unlike the trending entries, neither the
    average nor the number of votes. *)
Theorem get_by_genre_restricts_trending
    (contains : string -> string -> bool) (lower : string -> string)
    (self : StatisticalEngine.t) (db : Session) (genre : string) :
  exists ranked trending,
    (forall top_n,
       StatisticalEngine.get_by_genre contains lower self db genre top_n
       = (Ok (slice_to top_n ranked),
          snd (StatisticalEngine.calculate_global_mean self db)))
    /\ (forall top_n,
          StatisticalEngine.get_trending self db top_n None
          = (Ok (slice_to top_n trending),
             snd (StatisticalEngine.calculate_global_mean self db)))
    /\ (let passing :=
          List.filter (fun r => contains (genres r) genre) trending in
        map movieId ranked = map movieId passing
        /\ map title ranked = map title passing
        /\ map (raw "weighted_rating") ranked
           = map (raw "weighted_rating") passing)
    /\ Forall (fun r => source r
                        = ("statistical_genre_" ++ lower genre)%string
                        /\ contains (genres r) genre = true
                        /\ num r !! "avg_rating" = None
                        /\ num r !! "vote_count" = None) ranked.
Proof.
  unfold StatisticalEngine.get_by_genre, StatisticalEngine.get_trending.
  pose proof (calculate_global_mean_min_votes self db) as Hm.
  destruct (StatisticalEngine.calculate_global_mean self db) as [C self'].
  cbn [fst snd] in *. rewrite Hm.
  set (m := StatisticalEngine.min_votes self).
  set (wr := fun movie =>
               StatisticalEngine.weighted_rating
                 (Movie.avg_rating movie) (Movie.vote_count movie) C m).
  set (by_genre := fun movie =>
         mk_rec (Movie.movieId movie) (Movie.tmdbId movie)
                (Movie.title movie) (Movie.genres movie)
                ("statistical_genre_" ++ lower genre)
                {[ "weighted_rating" := wr movie ]}).
  set (bayesian := fun movie =>
         mk_rec (Movie.movieId movie) (Movie.tmdbId movie)
                (Movie.title movie) (Movie.genres movie)
                "statistical_bayesian"
                (<[ "avg_rating" := Movie.avg_rating movie ]>
                 (<[ "vote_count" := inject_Z (Movie.vote_count movie) ]>
                  {[ "weighted_rating" := wr movie ]}))).
  set (voted := fun movie => m <=? Movie.vote_count movie).
  set (in_genre := fun movie => contains (Movie.genres movie) genre).
  assert (Hkg : forall movie, raw "weighted_rating" (by_genre movie)
                              = wr movie).
  { intros movie. unfold raw, by_genre. simpl.
    now rewrite lookup_singleton_eq. }
  assert (Hkb : forall movie, raw "weighted_rating" (bayesian movie)
                              = wr movie).
  { intros movie. unfold raw, bayesian. simpl.
    now rewrite lookup_insert_ne, lookup_insert_ne, lookup_singleton_eq
      by done. }
  exists (ranked_on "weighted_rating"
            (map by_genre
                 (List.filter (fun movie => in_genre movie && voted movie)
                              (movies db)))),
         (ranked_on "weighted_rating"
            (map bayesian (List.filter voted (movies db)))).
  split; [|split; [|split]].
  - intros top_n. rewrite ranked_on_eq; [reflexivity|].
    rewrite List.Forall_forall. intros r Hr.
    apply in_map_iff in Hr as (movie & <- & _).
    unfold has_key, by_genre. simpl. rewrite lookup_singleton_eq. eauto.
  - intros top_n. rewrite ranked_on_eq; [reflexivity|].
    rewrite List.Forall_forall. intros r Hr.
    apply in_map_iff in Hr as (movie & <- & _).
    unfold has_key, bayesian. simpl.
    rewrite lookup_insert_ne, lookup_insert_ne, lookup_singleton_eq by done.
    eauto.
  - cbn zeta.
    rewrite (ranked_on_map _ wr by_genre) by exact Hkg.
    rewrite (ranked_on_map _ wr bayesian) by exact Hkb.
    rewrite (filter_map_comm bayesian). cbn [genres bayesian].
    fold in_genre. rewrite filter_sorted_on, filter_filter_andb.
    rewrite (List.filter_ext (fun x => voted x && in_genre x)
                             (fun x => in_genre x && voted x))
      by (intros x; apply andb_comm).
    rewrite !map_map. split; [|split]; apply map_ext; intros movie.
    + reflexivity.
    + reflexivity.
    + now rewrite Hkg, Hkb.
  - rewrite List.Forall_forall. intros r Hr.
    apply (Permutation_in _ (ranked_on_perm _ _)) in Hr.
    apply in_map_iff in Hr as (movie & <- & Hmovie).
    apply filter_In in Hmovie as [_ Hq].
    apply andb_true_iff in Hq as [Hg _].
    unfold by_genre. simpl.
    rewrite !lookup_singleton_ne by done. auto.
Qed.

(** ** Order inside a source *)

(** ** Reranking candidates of one genre *)

(** ** When there is no hero *)

Lemma filter_nil_iff {A} (P : A -> bool) l :
  List.filter P l = [] <-> forall x, In x l -> P x = false.
Proof.
  induction l as [|x l IH]; simpl; [tauto|].
  destruct (P x) eqn:E.
  - split; [discriminate|]. intros H. specialize (H x (or_introl eq_refl)).
    congruence.
  - rewrite IH. split.
    + intros H y [<-|Hy]; auto.
    + intros H y Hy. apply H. now right.
Qed.

Lemma map_nil_iff {A B} (f : A -> B) l : map f l = [] <-> l = [].
Proof. destruct l; simpl; split; congruence. Qed.

Lemma perm_nil_iff {A} (l l' : list A) :
  Permutation l l' -> (l = [] <-> l' = []).
Proof.
  intros Hp. split; intros ->.
  - now apply Permutation_nil.
  - symmetry in Hp. now apply Permutation_nil.
Qed.

(** X19. An engine has no hero exactly when it has no candidate: the
    collaborative engine when the user has rated every movie of the
    catalogue, the statistical engine when no movie has [min_votes]
    votes, the content engine when nothing is found similar to a liked
    movie (in particular when the user has rated nothing 4 or more). In
    each case the hero is [None], not an exception. *)
Theorem hero_absent_without_candidates :
  (forall self user_id db,
     CollaborativeEngine.get_hero_movie self user_id db = Ok None
     <-> forall movie, In movie (movies db) ->
                       In (Movie.movieId movie) (rated_movie_ids user_id db))
  /\ (forall self db,
        fst (StatisticalEngine.get_hero_movie self db) = Ok None
        <-> forall movie, In movie (movies db) ->
                          Movie.vote_count movie
                          < StatisticalEngine.min_votes self)
  /\ (forall self user_id db,
        ContentEngine.get_hero_movie self user_id db = Ok None
        <-> similar_pool self (liked_movies user_id db) = []).
Proof.
  split; [|split].
  - intros self user_id db.
    destruct (predict_for_user_explicit self user_id db)
      as (predictions & Hcall & Hids & Hall).
    pose proof (ranked_on_perm "predicted_rating" predictions) as Hperm.
    assert (Hk : Forall (has_key "predicted_rating")
                        (ranked_on "predicted_rating" predictions)).
    { rewrite Hperm. eapply Forall_impl; [exact Hall|].
      intros r (movie & _ & _ & _ & _ & _ & _ & _ & Hp).
      unfold has_key. rewrite Hp. eauto. }
    transitivity (ranked_on "predicted_rating" predictions = []).
    { unfold CollaborativeEngine.get_hero_movie.
      rewrite Hcall, slice_to_one.
      destruct (ranked_on "predicted_rating" predictions) as [|top rest];
        [tauto|].
      apply Forall_cons in Hk as [Hk _]. cbn [Py.bind].
      rewrite (item_has_key _ _ Hk). cbn [Py.bind].
      split; discriminate. }
    rewrite (perm_nil_iff _ _ Hperm), <- (map_nil_iff movieId), Hids.
    rewrite filter_nil_iff. split.
    + intros H movie Hmovie.
      specialize (H _ (in_map Movie.movieId _ _ Hmovie)).
      apply negb_false_iff, bool_decide_eq_true in H.
      now apply list_elem_of_In.
    + intros H id Hid. apply in_map_iff in Hid as (movie & <- & Hmovie).
      apply negb_false_iff, bool_decide_eq_true, list_elem_of_In. auto.
  - intros self db.
    destruct (get_trending_explicit self db None)
      as (results & Hcall & Hids & Hall).
    pose proof (ranked_on_perm "weighted_rating" results) as Hperm.
    assert (Hk : Forall (has_key "weighted_rating")
                        (ranked_on "weighted_rating" results)).
    { rewrite Hperm. eapply Forall_impl; [exact Hall|].
      intros r (movie & _ & _ & _ & _ & _ & _ & _ & _ & Hp).
      unfold has_key. rewrite Hp. eauto. }
    transitivity (ranked_on "weighted_rating" results = []).
    { unfold StatisticalEngine.get_hero_movie.
      rewrite Hcall, slice_to_one.
      destruct (ranked_on "weighted_rating" results) as [|top rest];
        [simpl; tauto|].
      apply Forall_cons in Hk as [Hk _]. cbn [Py.bind fst].
      rewrite (item_has_key _ _ Hk). cbn [Py.bind].
      split; discriminate. }
    rewrite (perm_nil_iff _ _ Hperm), <- (map_nil_iff movieId), Hids.
    rewrite map_nil_iff. unfold trending_candidates.
    rewrite filter_nil_iff. split.
    + intros H movie Hmovie. specialize (H movie Hmovie).
      simpl in H. rewrite andb_true_r in H. now apply Z.leb_gt.
    + intros H movie Hmovie. simpl. rewrite andb_true_r.
      apply Z.leb_gt. auto.
  - intros self user_id db.
    destruct (user_preferences_pool self user_id db)
      as (ranked & Hcall & Hagg & _ & Hids & _).
    transitivity (ranked = []).
    { unfold ContentEngine.get_hero_movie. rewrite Hcall, slice_to_one.
      destruct ranked as [|top rest]; [tauto|].
      apply Forall_cons in Hagg as [(_ & _ & Hk) _]. cbn [Py.bind].
      rewrite (item_has_key _ _ Hk). cbn [Py.bind]. split; discriminate. }
    split.
    + intros ->.
      destruct (similar_pool self (liked_movies user_id db)) as [|r pool];
        [reflexivity|].
      exfalso. apply (Hids (movieId r)). now left.
    + intros Hpool. rewrite Hpool in Hids.
      destruct ranked as [|r rest]; [reflexivity|].
      exfalso. apply (Hids (movieId r)). now left.
Qed.

(** ** The hero and the size of the page *)

Lemma statistical_page_hero title description is_new db top_n self :
  exists resp self',
    bindM (on_statistical
             (fun e => StatisticalEngine.get_trending e db top_n None))
          (fun trending =>
             bindM (on_statistical
                      (fun e => StatisticalEngine.get_hero_movie e db))
                   (fun hero =>
                      ret (Response.mk "statistical" is_new hero
                             [Sec.mk title description trending
                                     "statistical"]))) self
    = (Ok resp, self')
    /\ fst (StatisticalEngine.get_hero_movie (statistical self) db)
       = Ok (Response.hero resp)
    /\ Response.strategy resp = "statistical"
    /\ self' = with_statistical self
                 (snd (StatisticalEngine.calculate_global_mean
                         (statistical self) db)).
Proof.
  unfold bindM, on_statistical, ret.
  destruct (get_trending_ranked (statistical self) db None)
    as (ranked & _ & _ & ->).
  destruct (statistical_hero_Ok (statistical self) db) as (hero & Hhero).
  cbn [statistical with_statistical].
  rewrite statistical_hero_again, Hhero.
  eexists _, _. split; [reflexivity|]. auto.
Qed.

(** The hero, the strategy and the orchestrator a request leaves do not
    depend on [top_n]. *)
Lemma get_recommendations_hero set_iter self user_id db strategy top_n :
  set_iter_ok set_iter ->
  exists resp self',
    get_recommendations set_iter user_id db strategy top_n self
    = (Ok resp, self')
    /\ hero_of_route self user_id db strategy = Ok (Response.hero resp)
    /\ (Response.strategy resp, self')
       = (if is_new_user user_id db then "statistical"
          else if String.eqb strategy "collaborative" then "collaborative"
          else if String.eqb strategy "content" then "content"
          else if String.eqb strategy "statistical" then "statistical"
          else "hybrid",
          if is_new_user user_id db
             || negb (String.eqb strategy "collaborative"
                      || String.eqb strategy "content")
          then with_statistical self
                 (snd (StatisticalEngine.calculate_global_mean
                         (statistical self) db))
          else self).
Proof.
  intros Hiter. unfold get_recommendations, hero_of_route.
  destruct (is_new_user user_id db).
  { destruct (statistical_page_hero "Trending & Highly Rated"
                "Popular movies with excellent ratings" true db top_n self)
      as (resp & self' & Hrun & Hhero & Hstrategy & ->).
    unfold _handle_new_user. rewrite Hrun. eexists _, _.
    split; [reflexivity|]. split; [assumption|]. now rewrite Hstrategy. }
  destruct (String.eqb strategy "collaborative").
  { unfold _collaborative_only, bindM, on_collaborative, ret.
    destruct (predict_for_user_ranked (collaborative self) user_id db)
      as (cr & _ & _ & ->).
    destruct (collaborative_hero_Ok (collaborative self) user_id db)
      as (hero & ->).
    eexists _, _. split; [reflexivity|]. split; reflexivity. }
  destruct (String.eqb strategy "content").
  { unfold _content_only, bindM, on_content, ret.
    destruct (find_similar_to_user_preferences_ranked (content self)
                user_id db) as (tr & _ & _ & ->).
    destruct (content_hero_Ok (content self) user_id db) as (hero & ->).
    eexists _, _. split; [reflexivity|]. split; reflexivity. }
  destruct (String.eqb strategy "statistical").
  { destruct (statistical_page_hero "Top Rated Movies"
                "Highest quality by statistical significance" false
                db top_n self)
      as (resp & self' & Hrun & Hhero & Hstrategy & ->).
    unfold _statistical_only. rewrite Hrun. eexists _, _.
    split; [reflexivity|]. split; [assumption|]. now rewrite Hstrategy. }
  unfold _hybrid_recommendations, bindM,
    on_collaborative, on_content, on_statistical, lift, ret.
  destruct (predict_for_user_ranked (collaborative self) user_id db)
    as (cr & Hc & _ & ->).
  destruct (find_similar_to_user_preferences_ranked (content self) user_id db)
    as (tr & Ht & _ & ->).
  destruct (get_trending_ranked (statistical self) db None)
    as (sr & Hs & _ & ->).
  destruct (merge_and_rank_Ok set_iter Hiter
              (slice_to top_n cr) (slice_to top_n tr) (slice_to top_n sr)
              (1 # 2) (3 # 10) (2 # 10)) as (ranked & Hm & _);
    auto using Forall_slice_to, aggregated_score, hybrid_weights_ok.
  unfold hybrid_weights. rewrite Hm.
  cbn [collaborative with_statistical].
  destruct (collaborative_hero_Ok (collaborative self) user_id db)
    as (hero & ->).
  eexists _, _. split; [reflexivity|]. split; reflexivity.
Qed.

(** X20. The hero of a response does not depend on [top_n]: two requests
    that differ in [top_n] only get the same hero, under the same
    strategy, and leave the orchestrator in the same state. The hero is
    what the engine of the route gives: the statistical engine for a new
    user and for the strategy "statistical", the content engine for
    "content", the collaborative engine for "collaborative" and for the
    hybrid route. *)
Theorem hero_independent_of_top_n (set_iter : list Z -> list Z)
    (self : RecommendationOrchestrator.t) (user_id : Z) (db : Session)
    (strategy : string) (top_n top_n' : Z) :
  set_iter_ok set_iter ->
  exists resp resp' self',
    get_recommendations set_iter user_id db strategy top_n self
    = (Ok resp, self')
    /\ get_recommendations set_iter user_id db strategy top_n' self
       = (Ok resp', self')
    /\ Response.hero resp = Response.hero resp'
    /\ Response.strategy resp = Response.strategy resp'
    /\ hero_of_route self user_id db strategy = Ok (Response.hero resp).
Proof.
  intros Hiter.
  destruct (get_recommendations_hero set_iter self user_id db strategy top_n
              Hiter) as (resp & self1 & Hrun & Hhero & Hrest).
  destruct (get_recommendations_hero set_iter self user_id db strategy top_n'
              Hiter) as (resp' & self2 & Hrun' & Hhero' & Hrest').
  rewrite <- Hrest in Hrest'. injection Hrest' as Hstrategy ->.
  exists resp, resp', self1.
  split; [assumption|]. split; [assumption|].
  split; [congruence|]. split; [congruence | assumption].
Qed.

Lemma hero_independent_of_top_n_witness :
  exists resp resp' self',
    get_recommendations insertion_order 7 example_db "hybrid" 20
                        example_orchestrator = (Ok resp, self')
    /\ get_recommendations insertion_order 7 example_db "hybrid" 0
                           example_orchestrator = (Ok resp', self')
    /\ Response.hero resp = Response.hero resp'.
Proof.
  destruct (hero_independent_of_top_n insertion_order example_orchestrator 7
              example_db "hybrid" 20 0 insertion_order_ok)
    as (resp & resp' & self' & H1 & H2 & H3 & _).
  exists resp, resp', self'. auto.
Defined.

(** ** The time window of the trending list *)

Lemma in_window_wider db days days' movie :
  0 < days -> days <= days' ->
  in_window db (Some days) movie = true ->
  in_window db (Some days') movie = true.
Proof.
  intros Hpos Hle. unfold in_window.
  destruct (days =? 0) eqn:E; [apply Z.eqb_eq in E; lia|].
  destruct (days' =? 0) eqn:E'; [reflexivity|].
  destruct (Movie.release_year movie) as [y|]; [|discriminate].
  rewrite !Z.leb_le. intros Hy.
  assert (days / 365 <= days' / 365) by (apply Z.div_le_mono; lia). lia.
Qed.

Lemma trending_ids self db window id :
  forall ranked,
    (forall top_n,
       StatisticalEngine.get_trending self db top_n window
       = (Ok (slice_to top_n ranked),
          snd (StatisticalEngine.calculate_global_mean self db))) ->
    (In id (map movieId ranked)
     <-> exists movie,
           In movie (movies db) /\ Movie.movieId movie = id
           /\ StatisticalEngine.min_votes self <= Movie.vote_count movie
           /\ in_window db window movie = true).
Proof.
  intros ranked Hcall.
  destruct (get_trending_explicit self db window)
    as (results & Hcall' & Hids & _).
  assert (Heq : ranked = ranked_on "weighted_rating" results).
  { pose proof (Hcall (Z.of_nat (length ranked
                                 + length (ranked_on "weighted_rating"
                                                     results)))) as H.
    rewrite Hcall' in H. injection H as H.
    unfold slice_to in H.
    destruct (0 <=? _) eqn:E; [|apply Z.leb_gt in E; lia].
    rewrite Nat2Z.id in H.
    rewrite !take_ge in H by lia. congruence. }
  subst ranked.
  rewrite (Permutation_map movieId (ranked_on_perm _ results)), Hids.
  unfold trending_candidates. rewrite in_map_iff. split.
  - intros (movie & Hid & Hin). apply filter_In in Hin as [Hin Hq].
    apply andb_true_iff in Hq as [Hv Hw]. apply Z.leb_le in Hv.
    exists movie. auto.
  - intros (movie & Hin & Hid & Hv & Hw). exists movie.
    split; [assumption|]. apply filter_In. split; [assumption|].
    apply andb_true_iff. split; [now apply Z.leb_le | assumption].
Qed.

(** X21. The time window of [get_trending] counts in whole years: with a
    window of [days > 0] days every movie returned has a release year,
    which is at least the current year minus [days // 365], hence at
    least the current year for a window shorter than 365 days. Widening
    the window never loses a movie, no window at all loses none, and a
    window of 0 days is no window. *)
Theorem get_trending_window (self : StatisticalEngine.t) (db : Session)
    (days days' : Z) :
  0 < days -> days <= days' ->
  exists windowed wider unwindowed,
    let cached := snd (StatisticalEngine.calculate_global_mean self db) in
    (forall top_n,
       StatisticalEngine.get_trending self db top_n (Some days)
       = (Ok (slice_to top_n windowed), cached))
    /\ (forall top_n,
          StatisticalEngine.get_trending self db top_n (Some days')
          = (Ok (slice_to top_n wider), cached))
    /\ (forall top_n,
          StatisticalEngine.get_trending self db top_n None
          = (Ok (slice_to top_n unwindowed), cached))
    /\ (forall top_n,
          StatisticalEngine.get_trending self db top_n (Some 0)
          = StatisticalEngine.get_trending self db top_n None)
    /\ (forall r, In r windowed ->
          exists movie y,
            In movie (movies db)
            /\ Movie.movieId movie = movieId r
            /\ Movie.release_year movie = Some y
            /\ now_year db - days / 365 <= y
            /\ (days < 365 -> now_year db <= y))
    /\ (forall id, In id (map movieId windowed) -> In id (map movieId wider))
    /\ (forall id, In id (map movieId wider) ->
                   In id (map movieId unwindowed)).
Proof.
  intros Hpos Hle.
  destruct (get_trending_ranked self db (Some days)) as (w1 & _ & _ & H1).
  destruct (get_trending_ranked self db (Some days')) as (w2 & _ & _ & H2).
  destruct (get_trending_ranked self db None) as (w0 & _ & _ & H0).
  exists w1, w2, w0. cbn zeta.
  split; [exact H1|]. split; [exact H2|]. split; [exact H0|].
  split; [reflexivity|]. split; [|split].
  - intros r Hr.
    destruct (proj1 (trending_ids self db (Some days) (movieId r) w1 H1)
                    (in_map movieId _ _ Hr))
      as (movie & Hin & Hid & _ & Hw).
    unfold in_window in Hw.
    destruct (days =? 0) eqn:E; [apply Z.eqb_eq in E; lia|].
    destruct (Movie.release_year movie) as [y|] eqn:Hy; [|discriminate].
    apply Z.leb_le in Hw. exists movie, y.
    split; [assumption|]. split; [assumption|]. split; [exact Hy|].
    split; [assumption|]. intros Hshort.
    rewrite Z.div_small in Hw by lia. lia.
  - intros id Hid.
    apply (trending_ids self db (Some days) id w1 H1) in Hid
      as (movie & Hin & Hid & Hv & Hw).
    apply (trending_ids self db (Some days') id w2 H2).
    exists movie. eauto using in_window_wider.
  - intros id Hid.
    apply (trending_ids self db (Some days') id w2 H2) in Hid
      as (movie & Hin & Hid & Hv & Hw).
    apply (trending_ids self db None id w0 H0).
    exists movie. auto.
Qed.

Lemma get_trending_window_witness :
  exists windowed wider,
    (forall top_n,
       fst (StatisticalEngine.get_trending StatisticalEngine.init example_db
                                           top_n (Some 7300))
       = Ok (slice_to top_n windowed))
    /\ (forall top_n,
          fst (StatisticalEngine.get_trending StatisticalEngine.init
                                              example_db top_n (Some 10000))
          = Ok (slice_to top_n wider))
    /\ forall id, In id (map movieId windowed) -> In id (map movieId wider).
Proof.
  destruct (get_trending_window StatisticalEngine.init example_db 7300 10000
              ltac:(lia) ltac:(lia))
    as (w1 & w2 & w0 & H1 & H2 & _ & _ & _ & Hsub & _).
  exists w1, w2. split; [|split; [|exact Hsub]].
  - intros top_n. now rewrite H1.
  - intros top_n. now rewrite H2.
Defined.

(** In 2024 a window of 7300 days reaches back 20 years, to 2004: of the
    two trending movies of the example only the one of 2005 passes; a
    window of 10000 days reaches back 27 years and lets the one of 1999
    pass too. *)
Example example_window :
  (option_map (map movieId)
     (returned (fst (StatisticalEngine.get_trending
                       StatisticalEngine.init example_db 20 (Some 7300)))),
   option_map (map movieId)
     (returned (fst (StatisticalEngine.get_trending
                       StatisticalEngine.init example_db 20 (Some 10000)))))
  = (Some [2], Some [2; 1]).
Proof. vm_compute. reflexivity. Qed.

(** * Binary64 arithmetic *)

(** ** The order of floats through keys *)

Lemma SFcompare_key f1 f2 :
  SFcompare f1 f2
  = match SFkey f1, SFkey f2 with
    | Some k1, Some k2 => Some (lex_cmp k1 k2)
    | _, _ => None
    end.
Proof.
  destruct f1 as [[]|[]| |[] m1 e1], f2 as [[]|[]| |[] m2 e2]; try reflexivity;
    cbn [SFcompare SFkey lex_cmp]; rewrite ?Z.compare_refl; try reflexivity.
  - rewrite Z.compare_opp, (Z.compare_antisym e1 e2).
    destruct (e1 ?= e2) eqn:E; cbn; reflexivity.
Qed.

Lemma lex_cmp_spec a b :
  match lex_cmp a b with
  | Lt => lex_lt a b
  | Eq => a = b
  | Gt => lex_lt b a
  end.
Proof.
  destruct a as [[a1 a2] a3], b as [[b1 b2] b3]. cbn.
  destruct (Z.compare_spec a1 b1); [|lia|lia].
  destruct (Z.compare_spec a2 b2); [|lia|lia].
  destruct (Z.compare_spec a3 b3); [subst; reflexivity|lia|lia].
Qed.

Lemma lex_le_intro a1 a2 a3 b1 b2 b3 :
  a1 < b1 \/ (a1 = b1 /\ (a2 < b2 \/ (a2 = b2 /\ a3 <= b3))) ->
  lex_le (a1, a2, a3) (b1, b2, b3).
Proof.
  intros H. unfold lex_le, lex_lt.
  destruct (Z.eq_dec a3 b3) as [->|]; [|left; lia].
  destruct (Z.eq_dec a2 b2) as [->|]; [|left; lia].
  destruct (Z.eq_dec a1 b1) as [->|]; [now right | left; lia].
Qed.

Lemma lex_lt_irrefl a : ~ lex_lt a a.
Proof. destruct a as [[a1 a2] a3]. cbn. lia. Qed.

Lemma lex_lt_asym a b : lex_lt a b -> ~ lex_lt b a.
Proof. destruct a as [[a1 a2] a3], b as [[b1 b2] b3]. cbn. lia. Qed.

Lemma lex_lt_trans a b c : lex_lt a b -> lex_lt b c -> lex_lt a c.
Proof.
  destruct a as [[a1 a2] a3], b as [[b1 b2] b3], c as [[c1 c2] c3]. cbn. lia.
Qed.

Lemma ltb_key x y :
  (x <? y)%float = true
  <-> exists a b, fkey x = Some a /\ fkey y = Some b /\ lex_lt a b.
Proof.
  rewrite FloatAxioms.ltb_spec. unfold SFltb, fkey. rewrite SFcompare_key.
  destruct (SFkey (Prim2SF x)) as [a|], (SFkey (Prim2SF y)) as [b|];
    try (split; [discriminate | intros (? & ? & ? & ? & _); discriminate]).
  pose proof (lex_cmp_spec a b) as H. destruct (lex_cmp a b); split;
    try discriminate; try reflexivity; try (intros _; eauto; fail).
  - intros (? & ? & [= <-] & [= <-] & Hlt). subst. now apply lex_lt_irrefl in Hlt.
  - intros (? & ? & [= <-] & [= <-] & Hlt). now apply lex_lt_asym in Hlt.
Qed.

Lemma leb_key x y :
  (x <=? y)%float = true
  <-> exists a b, fkey x = Some a /\ fkey y = Some b /\ lex_le a b.
Proof.
  rewrite FloatAxioms.leb_spec. unfold SFleb, fkey. rewrite SFcompare_key.
  destruct (SFkey (Prim2SF x)) as [a|], (SFkey (Prim2SF y)) as [b|];
    try (split; [discriminate | intros (? & ? & ? & ? & _); discriminate]).
  pose proof (lex_cmp_spec a b) as H. unfold lex_le. destruct (lex_cmp a b); split;
    try discriminate; try reflexivity; try (intros _; eauto 6; fail).
  intros (? & ? & [= <-] & [= <-] & [Hlt| ->]).
  - now apply lex_lt_asym in Hlt.
  - now apply lex_lt_irrefl in H.
Qed.

Lemma eqb_key x y :
  (x =? y)%float = true <-> exists a, fkey x = Some a /\ fkey y = Some a.
Proof.
  rewrite FloatAxioms.eqb_spec. unfold SFeqb, fkey. rewrite SFcompare_key.
  destruct (SFkey (Prim2SF x)) as [a|], (SFkey (Prim2SF y)) as [b|];
    try (split; [discriminate | intros (? & ? & ?); discriminate]).
  pose proof (lex_cmp_spec a b) as H. destruct (lex_cmp a b); split;
    try discriminate; try reflexivity; try (intros _; subst; eauto; fail).
  - intros (? & [= <-] & [= <-]). now apply lex_lt_irrefl in H.
  - intros (? & [= <-] & [= <-]). now apply lex_lt_irrefl in H.
Qed.

Lemma is_nan_key x : is_nan x = false <-> exists a, fkey x = Some a.
Proof.
  unfold is_nan. rewrite Bool.negb_false_iff, eqb_key. split.
  - intros (a & H & _). eauto.
  - intros (a & H). eauto.
Qed.

Ltac float_keys :=
  repeat match goal with
  | H : (_ <? _)%float = true |- _ =>
      apply ltb_key in H; destruct H as (? & ? & ? & ? & H)
  | H : (_ <=? _)%float = true |- _ =>
      apply leb_key in H; destruct H as (? & ? & ? & ? & H)
  | H : (_ =? _)%float = true |- _ =>
      apply eqb_key in H; destruct H as (? & ? & H)
  | H : is_nan _ = false |- _ =>
      apply is_nan_key in H; destruct H as (? & H)
  | H : fkey ?x = Some _, H' : fkey ?x = Some _ |- _ =>
      rewrite H in H'; injection H' as <-
  end.

Lemma leb_trans x y z :
  (x <=? y)%float = true -> (y <=? z)%float = true -> (x <=? z)%float = true.
Proof.
  intros H1 H2. float_keys. apply leb_key. eexists _, _.
  split; [eassumption|]. split; [eassumption|].
  destruct H1 as [H1| ->]; [|assumption].
  destruct H2 as [H2| <-]; [|now left]. left. eapply lex_lt_trans; eassumption.
Qed.

Lemma pow2_pos e : (0 < pow2 e)%Q.
Proof. apply Qpower_0_lt. reflexivity. Qed.

Lemma pow2_add a b : (pow2 (a + b) == pow2 a * pow2 b)%Q.
Proof. apply Qpower_plus. discriminate. Qed.

Lemma pow2_0 : (pow2 0 == 1)%Q.
Proof. reflexivity. Qed.

Lemma pow2_1 : (pow2 1 == 2)%Q.
Proof. reflexivity. Qed.

Lemma pow2_succ a : (pow2 (a + 1) == 2 * pow2 a)%Q.
Proof. rewrite pow2_add, pow2_1. ring. Qed.

Lemma pow2_pred a : (pow2 (a - 1) == pow2 a / 2)%Q.
Proof.
  assert (H : (pow2 a == 2 * pow2 (a - 1))%Q).
  { rewrite <- pow2_succ. now replace (a - 1 + 1) with a by lia. }
  rewrite H. field.
Qed.

Lemma pow2_le a b : a <= b -> (pow2 a <= pow2 b)%Q.
Proof. intros H. apply Qpower_le_compat_l; [assumption | discriminate]. Qed.

Lemma pow2_lt a b : a < b -> (pow2 a < pow2 b)%Q.
Proof. intros H. apply Qpower_lt_compat_l; [assumption | reflexivity]. Qed.

Lemma pow2_lt_inv a b : (pow2 a < pow2 b)%Q -> a < b.
Proof.
  intros H. destruct (Z_lt_le_dec a b) as [|Hle]; [assumption|].
  apply pow2_le in Hle. lra.
Qed.

Lemma pow2_Z n : 0 <= n -> (pow2 n == inject_Z (2 ^ n))%Q.
Proof. intros H. unfold pow2. now rewrite Zpower_Qpower. Qed.

Lemma pow2_sub a b : (pow2 (a - b) == pow2 a / pow2 b)%Q.
Proof.
  assert (H : (pow2 a == pow2 (a - b) * pow2 b)%Q).
  { rewrite <- pow2_add. now replace (a - b + b) with a by lia. }
  rewrite H. field. pose proof (pow2_pos b). lra.
Qed.

(** ** Powers of two and binades *)

Lemma mag_le g g' x x' : mag g x -> mag g' x' -> (x <= x')%Q -> g <= g'.
Proof.
  intros [H1 _] [_ H2] Hx.
  assert (pow2 (g - 1) < pow2 g')%Q as H by lra.
  apply pow2_lt_inv in H. lia.
Qed.

Lemma mag_unique g g' x : mag g x -> mag g' x -> g = g'.
Proof.
  intros H1 H2.
  pose proof (mag_le _ _ _ _ H1 H2 (Qle_refl x)).
  pose proof (mag_le _ _ _ _ H2 H1 (Qle_refl x)). lia.
Qed.

Lemma digits2_log2 m : Z.pos (digits2_pos m) = Z.succ (Z.log2 (Z.pos m)).
Proof.
  assert (H : digits2_pos m = Pos.size m)
    by (induction m as [m IH|m IH|]; cbn; congruence).
  rewrite H. destruct m; cbn [Pos.size Z.log2]; lia.
Qed.

Lemma digits2_bounds m :
  2 ^ (Z.pos (digits2_pos m) - 1) <= Z.pos m < 2 ^ Z.pos (digits2_pos m).
Proof.
  rewrite digits2_log2.
  replace (Z.succ (Z.log2 (Z.pos m)) - 1) with (Z.log2 (Z.pos m)) by lia.
  apply Z.log2_spec. lia.
Qed.

Lemma inject_Z_le a b : a <= b -> (inject_Z a <= inject_Z b)%Q.
Proof. intros. now rewrite <- Zle_Qle. Qed.

Lemma inject_Z_lt a b : a < b -> (inject_Z a < inject_Z b)%Q.
Proof. intros. now rewrite <- Zlt_Qlt. Qed.

Lemma inject_Z_lt_inv a b : (inject_Z a < inject_Z b)%Q -> a < b.
Proof. intros. now rewrite Zlt_Qlt. Qed.

Lemma inject_Z_le_inv a b : (inject_Z a <= inject_Z b)%Q -> a <= b.
Proof. intros. now rewrite Zle_Qle. Qed.

Lemma mag_digits m e :
  mag (Z.pos (digits2_pos m) + e) (inject_Z (Z.pos m) * pow2 e).
Proof.
  destruct (digits2_bounds m) as [H1 H2].
  set (d := Z.pos (digits2_pos m)) in *.
  assert (Hd : 1 <= d) by (unfold d; lia).
  apply inject_Z_le in H1. apply inject_Z_lt in H2.
  rewrite <- pow2_Z in H1, H2 by lia.
  pose proof (pow2_pos e). unfold mag.
  replace (d + e - 1) with ((d - 1) + e) by lia.
  rewrite !pow2_add. split.
  - apply Qmult_le_compat_r; lra.
  - apply Qmult_lt_compat_r; lra.
Qed.

(** ** Records of a right shift *)

Lemma inject_Z_xO p : (inject_Z (Z.pos p~0) == 2 * inject_Z (Z.pos p))%Q.
Proof. rewrite <- (inject_Z_mult 2). reflexivity. Qed.

Lemma inject_Z_xI p : (inject_Z (Z.pos p~1) == 2 * inject_Z (Z.pos p) + 1)%Q.
Proof.
  rewrite <- (inject_Z_mult 2), <- (inject_Z_plus _ 1). reflexivity.
Qed.

Lemma pow2_m1 : (pow2 (-1) == 1 # 2)%Q.
Proof. reflexivity. Qed.

Lemma located_ext mrs x y : (x == y)%Q -> located mrs x -> located mrs y.
Proof.
  intros E. unfold located. destruct (shr_r _), (shr_s _); now rewrite E.
Qed.

Lemma located_shr_1 mrs x :
  0 <= shr_m mrs -> located mrs x ->
  0 <= shr_m (shr_1 mrs) /\ located (shr_1 mrs) (x * (1 # 2)).
Proof.
  destruct mrs as [m r s]. cbn [shr_m]. intros Hm.
  destruct m as [|p|p]; [| |lia]; unfold located.
  - destruct r, s; cbn [shr_1 shr_m shr_r shr_s orb];
      change (inject_Z 0) with 0%Q; intros H; (split; [lia|]); lra.
  - destruct p as [p|p|]; destruct r, s; cbn [shr_1 shr_m shr_r shr_s orb];
      rewrite ?inject_Z_xO, ?inject_Z_xI; change (inject_Z 1) with 1%Q;
      change (inject_Z 0) with 0%Q;
      intros H; (split; [lia|]); lra.
Qed.

Lemma located_iter p : forall mrs x,
  0 <= shr_m mrs -> located mrs x ->
  0 <= shr_m (SpecFloat.iter_pos shr_1 p mrs)
  /\ located (SpecFloat.iter_pos shr_1 p mrs) (x * pow2 (- Z.pos p)).
Proof.
  induction p as [p IH|p IH|]; intros mrs x Hm Hx; cbn [SpecFloat.iter_pos].
  - destruct (located_shr_1 _ _ Hm Hx) as [H1 H2].
    destruct (IH _ _ H1 H2) as [H3 H4].
    destruct (IH _ _ H3 H4) as [H5 H6]. split; [assumption|].
    revert H6. apply located_ext.
    replace (- Z.pos p~1) with (-1 + (- Z.pos p + - Z.pos p)) by lia.
    rewrite !pow2_add, pow2_m1. ring.
  - destruct (IH _ _ Hm Hx) as [H3 H4].
    destruct (IH _ _ H3 H4) as [H5 H6]. split; [assumption|].
    revert H6. apply located_ext.
    replace (- Z.pos p~0) with (- Z.pos p + - Z.pos p) by lia.
    rewrite !pow2_add. ring.
  - destruct (located_shr_1 _ _ Hm Hx) as [H1 H2]. split; [assumption|].
    revert H2. apply located_ext. reflexivity.
Qed.

(** ** Rounding to the nearest integer, ties to even *)

Lemma rne_located mrs x :
  0 <= shr_m mrs -> located mrs x ->
  rne_spec (round_nearest_even (shr_m mrs) (loc_of_shr_record mrs)) x
  /\ 0 <= round_nearest_even (shr_m mrs) (loc_of_shr_record mrs).
Proof.
  destruct mrs as [m r s]. cbn [shr_m]. unfold located, rne_spec.
  cbn [shr_m shr_r shr_s loc_of_shr_record].
  intros Hm. destruct r, s; cbn [round_nearest_even]; intros H.
  - rewrite inject_Z_plus. change (inject_Z 1) with 1%Q.
    split; [|lia]. split; [lra|]. split; intros; lra.
  - destruct (Z.even m) eqn:E.
    + split; [|lia]. split; [lra|]. split; [easy | intros; lra].
    + split; [|lia]. rewrite inject_Z_plus. change (inject_Z 1) with 1%Q.
      split; [lra|]. split; [intros; lra|]. intros _.
      rewrite Z.add_1_r, Z.even_succ, <- Z.negb_even, E. reflexivity.
  - split; [|lia]. split; [lra|]. split; intros; lra.
  - split; [|lia]. split; [lra|]. split; intros; lra.
Qed.

Lemma rne_mono q p x y :
  rne_spec q x -> rne_spec p y -> (x <= y)%Q -> q <= p.
Proof.
  intros (Hq & Hq1 & Hq2) (Hp & Hp1 & Hp2) Hxy.
  destruct (Z_le_gt_dec q p) as [|Hgt]; [assumption|]. exfalso.
  assert (H : (inject_Z (p + 1) <= inject_Z q)%Q) by (apply inject_Z_le; lia).
  rewrite inject_Z_plus in H. change (inject_Z 1) with 1%Q in H.
  assert (Hx : (x == inject_Z q - (1 # 2))%Q) by lra.
  assert (Hy : (y == inject_Z p + (1 # 2))%Q) by lra.
  assert (Heq : (inject_Z q == inject_Z (p + 1))%Q).
  { rewrite inject_Z_plus. change (inject_Z 1) with 1%Q. lra. }
  rewrite inject_Z_injective in Heq. subst q.
  specialize (Hq2 Hx). specialize (Hp1 Hy).
  rewrite Z.add_1_r, Z.even_succ, <- Z.negb_even, Hp1 in Hq2. discriminate.
Qed.

Lemma rne_Z k : rne_spec k (inject_Z k).
Proof. split; [lra|]. split; intros; lra. Qed.

Lemma rne_unique q p x : rne_spec q x -> rne_spec p x -> q = p.
Proof.
  intros H1 H2.
  pose proof (rne_mono _ _ _ _ H1 H2 (Qle_refl x)).
  pose proof (rne_mono _ _ _ _ H2 H1 (Qle_refl x)). lia.
Qed.

(** ** Rounding to the format *)

Lemma fexp_eq e : SpecFloat.fexp prec emax e = fexp64 e.
Proof. reflexivity. Qed.

Lemma located_bounds mrs x :
  located mrs x ->
  (inject_Z (shr_m mrs) <= x < inject_Z (shr_m mrs) + 1)%Q.
Proof. unfold located. destruct (shr_r mrs), (shr_s mrs); intros; lra. Qed.

Lemma shr_m_of_loc m l : shr_m (shr_record_of_loc m l) = m.
Proof. destruct l as [|[]]; reflexivity. Qed.

Lemma mul_pow2_cancel X e : (X * pow2 (- e) * pow2 e == X)%Q.
Proof.
  rewrite <- Qmult_assoc, <- pow2_add.
  replace (- e + e) with 0 by lia. rewrite pow2_0. ring.
Qed.

Lemma mul_pow2_cancel' X e : (X * pow2 e * pow2 (- e) == X)%Q.
Proof.
  rewrite <- Qmult_assoc, <- pow2_add.
  replace (e + - e) with 0 by lia. rewrite pow2_0. ring.
Qed.

Lemma located_exact m x :
  (x == inject_Z m)%Q -> located (shr_record_of_loc m loc_Exact) x.
Proof. intros H. exact H. Qed.

Lemma shr_located mrs e n X :
  0 <= shr_m mrs -> located mrs (X * pow2 (- e)) -> 0 <= n ->
  let out := shr mrs e n in
  0 <= shr_m (fst out) /\ located (fst out) (X * pow2 (- (e + n)))
  /\ snd out = e + n.
Proof.
  intros Hm Hx Hn. destruct n as [|p|p]; [| |lia]; cbn [shr fst snd].
  - rewrite Z.add_0_r. auto.
  - destruct (located_iter p _ _ Hm Hx) as [H1 H2].
    split; [assumption|]. split; [|reflexivity].
    revert H2. apply located_ext.
    replace (- (e + Z.pos p)) with (- e + - Z.pos p) by lia.
    rewrite pow2_add. ring.
Qed.

Lemma digits_le_53 p : Z.pos p < 2 ^ 53 -> Z.pos (digits2_pos p) <= 53.
Proof.
  intros H. destruct (digits2_bounds p) as [H1 _].
  destruct (Z_le_gt_dec (Z.pos (digits2_pos p)) 53) as [|Hgt]; [assumption|].
  exfalso. assert (2 ^ 53 <= 2 ^ (Z.pos (digits2_pos p) - 1))
    by (apply Z.pow_le_mono_r; lia). lia.
Qed.

Lemma bra_spec s m e l X g :
  0 <= m -> located (shr_record_of_loc m l) (X * pow2 (- e)) ->
  mag g X -> e <= fexp64 g ->
  exists q,
    rne_spec q (X * pow2 (- fexp64 g)) /\ 0 <= q <= 2 ^ 53
    /\ binary_round_aux prec emax s m e l = finalize s q (fexp64 g).
Proof.
  intros Hm Hloc Hmag He.
  pose proof (located_bounds _ _ Hloc) as Hb. rewrite shr_m_of_loc in Hb.
  pose proof (pow2_pos e) as Hpe.
  assert (HX : (X == X * pow2 (- e) * pow2 e)%Q) by now rewrite mul_pow2_cancel.
  assert (Hfexp : SpecFloat.fexp prec emax (Zdigits2 m + e) = fexp64 g).
  { rewrite fexp_eq. destruct m as [|p|p]; [| |lia].
    - cbn [Zdigits2]. change (inject_Z 0) with 0%Q in Hb.
      assert (X < pow2 e)%Q by nra.
      destruct Hmag as [Hg _].
      assert (g - 1 < e) by (apply pow2_lt_inv; lra).
      unfold fexp64 in *. lia.
    - cbn [Zdigits2]. f_equal. eapply mag_unique; [|exact Hmag].
      destruct (mag_digits p e) as [H1 H2].
      destruct (digits2_bounds p) as [_ H3].
      assert (H4 : (inject_Z (Z.pos p) + 1 <= pow2 (Z.pos (digits2_pos p)))%Q).
      { rewrite pow2_Z by lia. rewrite <- (inject_Z_plus _ 1).
        apply inject_Z_le. lia. }
      split.
      + rewrite HX. eapply Qle_trans; [exact H1|].
        apply Qmult_le_compat_r; lra.
      + rewrite HX, pow2_add.
        apply Qlt_le_trans with ((inject_Z (Z.pos p) + 1) * pow2 e)%Q.
        * apply Qmult_lt_compat_r; lra.
        * apply Qmult_le_compat_r; lra. }
  unfold binary_round_aux, shr_fexp. rewrite Hfexp.
  set (E := fexp64 g) in *.
  assert (HE : -1074 <= E /\ g - 53 <= E) by (unfold E, fexp64; lia).
  destruct (shr_located (shr_record_of_loc m l) e (E - e) X)
    as (Hm1 & Hl1 & He1); [now rewrite shr_m_of_loc | assumption | lia |].
  destruct (shr (shr_record_of_loc m l) e (E - e)) as [mrs' e'].
  cbn [fst snd] in *. replace (e + (E - e)) with E in * by lia. subst e'.
  destruct (rne_located _ _ Hm1 Hl1) as [Hrne Hq0].
  set (q := round_nearest_even (shr_m mrs') (loc_of_shr_record mrs')) in *.
  assert (Hq53 : q <= 2 ^ 53).
  { apply (rne_mono _ _ _ _ Hrne (rne_Z (2 ^ 53))).
    rewrite <- pow2_Z by lia. destruct Hmag as [_ Hg].
    apply Qle_trans with (pow2 g * pow2 (- E))%Q.
    - apply Qmult_le_compat_r; [lra | apply Qlt_le_weak, pow2_pos].
    - rewrite <- pow2_add. apply pow2_le. lia. }
  exists q. split; [assumption|]. split; [lia|].
  destruct q as [|p|p] eqn:Eq; [| |lia].
  - cbn [Zdigits2 shr_record_of_loc]. rewrite fexp_eq.
    assert (Hn : fexp64 (0 + E) - E <= 0) by (unfold fexp64; lia).
    destruct (fexp64 (0 + E) - E) as [|n|n]; [reflexivity | lia | reflexivity].
  - cbn [Zdigits2 shr_record_of_loc finalize]. rewrite fexp_eq.
    destruct (Z.eqb_spec (Z.pos p) (2 ^ 53)) as [E53|N53].
    + assert (Hp : p = (2 ^ 53)%positive) by lia. subst p.
      replace (Z.pos (digits2_pos (2 ^ 53))) with 54
        by (vm_compute; reflexivity).
      replace (fexp64 (54 + E) - E) with 1 by (unfold fexp64; lia).
      reflexivity.
    + assert (Hd : Z.pos (digits2_pos p) <= 53) by (apply digits_le_53; lia).
      assert (Hn : fexp64 (Z.pos (digits2_pos p) + E) - E <= 0)
        by (unfold fexp64; lia).
      destruct (fexp64 (Z.pos (digits2_pos p) + E) - E) as [|n|n];
        [reflexivity | lia | reflexivity].
Qed.

(** ** Order on specification floats through keys *)

Lemma SFleb_key f1 f2 :
  SFleb f1 f2 = true
  <-> exists a b, SFkey f1 = Some a /\ SFkey f2 = Some b /\ lex_le a b.
Proof.
  unfold SFleb. rewrite SFcompare_key.
  destruct (SFkey f1) as [a|], (SFkey f2) as [b|];
    try (split; [discriminate | intros (? & ? & ? & ? & _); discriminate]).
  pose proof (lex_cmp_spec a b) as H. unfold lex_le. destruct (lex_cmp a b); split;
    try discriminate; try reflexivity; try (intros _; eauto 6; fail).
  intros (? & ? & [= <-] & [= <-] & [Hlt| ->]).
  - now apply lex_lt_asym in Hlt.
  - now apply lex_lt_irrefl in H.
Qed.

Lemma SFleb_trans f1 f2 f3 :
  SFleb f1 f2 = true -> SFleb f2 f3 = true -> SFleb f1 f3 = true.
Proof.
  rewrite !SFleb_key.
  intros (a & b & Ha & Hb & H1) (b' & c & Hb' & Hc & H2).
  rewrite Hb in Hb'. injection Hb' as <-.
  exists a, c. split; [assumption|]. split; [assumption|].
  destruct H1 as [H1| ->]; [|assumption].
  destruct H2 as [H2| <-]; [|now left]. left. eapply lex_lt_trans; eassumption.
Qed.

Lemma SFleb_opp f1 f2 : SFleb (SFopp f1) (SFopp f2) = SFleb f2 f1.
Proof.
  apply Bool.eq_true_iff_eq. rewrite !SFleb_key.
  assert (Hk : forall f, SFkey (SFopp f)
                         = option_map (fun '(a, b, c) => (- a, - b, - c)) (SFkey f)).
  { intros [[]|[]| |[] m e]; cbn; try reflexivity. now rewrite Z.opp_involutive. }
  rewrite !Hk. unfold lex_le.
  destruct (SFkey f1) as [[[a1 a2] a3]|], (SFkey f2) as [[[b1 b2] b3]|]; cbn;
    split; intros (a & b & Ha & Hb & H); try discriminate;
    injection Ha as <-; injection Hb as <-; eexists _, _;
    (split; [reflexivity|]); (split; [reflexivity|]); cbn in *;
    (destruct H as [H|H]; [left; lia | right; injection H as ? ? ?; f_equal; [f_equal|]; lia]).
Qed.

Lemma finalize_opp q E : finalize true q E = SFopp (finalize false q E).
Proof.
  unfold finalize. destruct q; try reflexivity.
  destruct (_ =? _); [destruct (_ <=? _) | destruct (_ <=? _)]; reflexivity.
Qed.

Lemma SFkey_finalize q E :
  0 <= q ->
  SFkey (finalize false q E)
  = Some (if q =? 0 then (0, 0, 0)
          else if q =? 2 ^ 53 then
                 if E + 1 <=? 971 then (1, E + 1, 2 ^ 52) else (2, 0, 0)
          else if E <=? 971 then (1, E, q) else (2, 0, 0)).
Proof.
  intros Hq. unfold finalize. destruct q as [|p|p]; [reflexivity| |lia].
  change (Z.pos p =? 0) with false. cbv iota.
  destruct (_ =? _); [destruct (_ <=? _) | destruct (_ <=? _)]; reflexivity.
Qed.

(** ** Rounding a positive rational *)

Lemma mag_scaled g X :
  mag g X ->
  (X * pow2 (- fexp64 g) < inject_Z (2 ^ 53))%Q
  /\ (0 < X * pow2 (- fexp64 g))%Q
  /\ (-1074 < fexp64 g -> (inject_Z (2 ^ 52) <= X * pow2 (- fexp64 g))%Q).
Proof.
  intros [H1 H2]. pose proof (pow2_pos (- fexp64 g)) as Hp.
  pose proof (pow2_pos (g - 1)) as Hg.
  split; [|split].
  - rewrite <- pow2_Z by lia.
    apply Qlt_le_trans with (pow2 g * pow2 (- fexp64 g))%Q.
    + apply Qmult_lt_compat_r; lra.
    + rewrite <- pow2_add. apply pow2_le. unfold fexp64. lia.
  - apply Qmult_lt_0_compat; lra.
  - intros HE. rewrite <- pow2_Z by lia.
    apply Qle_trans with (pow2 (g - 1) * pow2 (- fexp64 g))%Q.
    + rewrite <- pow2_add. apply pow2_le. unfold fexp64 in *. lia.
    + apply Qmult_le_compat_r; lra.
Qed.

Lemma rounds_q_bounds g q X :
  mag g X -> rne_spec q (X * pow2 (- fexp64 g)) ->
  0 <= q <= 2 ^ 53 /\ (-1074 < fexp64 g -> 2 ^ 52 <= q).
Proof.
  intros Hmag Hq. destruct (mag_scaled _ _ Hmag) as (H1 & H2 & H3).
  split; [split|].
  - apply (rne_mono _ _ _ _ (rne_Z 0) Hq). change (inject_Z 0) with 0%Q. lra.
  - apply (rne_mono _ _ _ _ Hq (rne_Z (2 ^ 53))). lra.
  - intros HE. apply (rne_mono _ _ _ _ (rne_Z (2 ^ 52)) Hq). auto.
Qed.

Lemma fexp64_mono a b : a <= b -> fexp64 a <= fexp64 b.
Proof. unfold fexp64. lia. Qed.

Lemma rounds_to_pos_mono X1 X2 f1 f2 :
  rounds_to_pos false X1 f1 -> rounds_to_pos false X2 f2 ->
  (X1 <= X2)%Q -> SFleb f1 f2 = true.
Proof.
  intros (g1 & q1 & Hg1 & Hq1 & ->) (g2 & q2 & Hg2 & Hq2 & ->) HX.
  pose proof (mag_le _ _ _ _ Hg1 Hg2 HX) as Hg.
  pose proof (fexp64_mono _ _ Hg) as HE.
  destruct (rounds_q_bounds _ _ _ Hg1 Hq1) as [Hb1 Hn1].
  destruct (rounds_q_bounds _ _ _ Hg2 Hq2) as [Hb2 Hn2].
  assert (Hq : fexp64 g1 = fexp64 g2 -> q1 <= q2).
  { intros E. rewrite E in Hq1. apply (rne_mono _ _ _ _ Hq1 Hq2).
    apply Qmult_le_compat_r; [assumption|].
    apply Qlt_le_weak, pow2_pos. }
  assert (HE1 : -1074 <= fexp64 g1) by (unfold fexp64; lia).
  apply SFleb_key. rewrite !SFkey_finalize by lia.
  eexists _, _. split; [reflexivity|]. split; [reflexivity|].
  set (E1 := fexp64 g1) in *. set (E2 := fexp64 g2) in *.
  destruct (Z.eqb_spec q1 0), (Z.eqb_spec q2 0), (Z.eqb_spec q1 (2 ^ 53)),
    (Z.eqb_spec q2 (2 ^ 53)), (Z.leb_spec (E1 + 1) 971),
    (Z.leb_spec (E2 + 1) 971), (Z.leb_spec E1 971), (Z.leb_spec E2 971);
    apply lex_le_intro; lia.
Qed.

Lemma mag_ext g X Y : (X == Y)%Q -> mag g X -> mag g Y.
Proof. unfold mag. intros E. now rewrite E. Qed.

Lemma rne_ext q x y : (x == y)%Q -> rne_spec q x -> rne_spec q y.
Proof. unfold rne_spec. intros E. now rewrite E. Qed.

Lemma rounds_to_pos_ext s X Y f :
  (X == Y)%Q -> rounds_to_pos s X f -> rounds_to_pos s Y f.
Proof.
  intros E (g & q & Hg & Hq & ->). exists g, q.
  split; [now apply (mag_ext _ X)|]. split; [|reflexivity].
  revert Hq. apply rne_ext. now rewrite E.
Qed.

Lemma rounds_to_ext V W f : (V == W)%Q -> rounds_to V f -> rounds_to W f.
Proof.
  intros E [[H0 Hs]|[[Hp Hr]|[Hn Hr]]].
  - left. split; [now rewrite <- E | assumption].
  - right. left. split; [now rewrite <- E|].
    now apply (rounds_to_pos_ext _ V).
  - right. right. split; [now rewrite <- E|].
    apply (rounds_to_pos_ext _ (- V)); [now rewrite E | assumption].
Qed.

Lemma rounds_to_pos_sign s X f :
  rounds_to_pos s X f ->
  if s then SFleb f (S754_zero false) = true
  else SFleb (S754_zero false) f = true.
Proof.
  intros (g & q & Hg & Hq & ->).
  destruct (rounds_q_bounds _ _ _ Hg Hq) as [Hb _].
  assert (H : SFleb (S754_zero false) (finalize false q (fexp64 g)) = true).
  { apply SFleb_key. rewrite SFkey_finalize by lia.
    eexists _, _. split; [reflexivity|]. split; [reflexivity|].
    destruct (q =? 0); [|destruct (q =? 2 ^ 53)];
      repeat match goal with |- context [if ?b then _ else _] => destruct b end;
      apply lex_le_intro; lia. }
  destruct s; [|assumption].
  rewrite finalize_opp. change (S754_zero false) with (SFopp (S754_zero true)).
  rewrite SFleb_opp. revert H. destruct (finalize false q (fexp64 g)) as [[]|[]| |[]]; easy.
Qed.

Lemma rounds_to_pos_true X f :
  rounds_to_pos true X f <-> rounds_to_pos false X (SFopp f).
Proof.
  split; intros (g & q & Hg & Hq & H); exists g, q;
    (split; [assumption|]); (split; [assumption|]).
  - rewrite H, finalize_opp. now destruct (finalize false q (fexp64 g)) as [[]|[]| |[]].
  - rewrite finalize_opp, <- H. now destruct f as [[]|[]| |[]].
Qed.

Lemma rounds_to_mono V1 V2 f1 f2 :
  rounds_to V1 f1 -> rounds_to V2 f2 -> (V1 <= V2)%Q -> SFleb f1 f2 = true.
Proof.
  intros [[H1 [s1 ->]]|[[H1 R1]|[H1 R1]]] [[H2 [s2 ->]]|[[H2 R2]|[H2 R2]]] HV;
    try lra.
  - reflexivity.
  - apply rounds_to_pos_sign in R2.
    apply (SFleb_trans _ (S754_zero false)); [reflexivity | assumption].
  - now apply (rounds_to_pos_mono V1 V2).
  - apply rounds_to_pos_sign in R1.
    apply (SFleb_trans _ (S754_zero false)); [assumption | reflexivity].
  - apply rounds_to_pos_sign in R1, R2.
    now apply (SFleb_trans _ (S754_zero false)).
  - apply rounds_to_pos_true in R1, R2. rewrite <- SFleb_opp.
    apply (rounds_to_pos_mono (- V2) (- V1)); [assumption | assumption | lra].
Qed.

(** ** Floats are their own rounding *)

Lemma bounded_facts m e :
  bounded prec emax m e = true ->
  fexp64 (Z.pos (digits2_pos m) + e) = e /\ e <= 971
  /\ Z.pos (digits2_pos m) <= 53 /\ Z.pos m < 2 ^ 53.
Proof.
  unfold bounded, canonical_mantissa. rewrite Bool.andb_true_iff, fexp_eq.
  intros [H1 H2]. apply Z.eqb_eq in H1. apply Z.leb_le in H2.
  change (emax - prec) with 971 in H2.
  assert (Hd : Z.pos (digits2_pos m) <= 53) by (unfold fexp64 in H1; lia).
  repeat split; try assumption.
  destruct (digits2_bounds m) as [_ H].
  eapply Z.lt_le_trans; [exact H|]. apply Z.pow_le_mono_r; lia.
Qed.

Lemma rounds_exact s m e :
  bounded prec emax m e = true ->
  rounds_to_pos s (inject_Z (Z.pos m) * pow2 e) (S754_finite s m e).
Proof.
  intros Hb. destruct (bounded_facts _ _ Hb) as (HE & He & Hd & Hm).
  exists (Z.pos (digits2_pos m) + e), (Z.pos m).
  split; [apply mag_digits|]. rewrite HE. split.
  - apply (rne_ext _ (inject_Z (Z.pos m))); [|apply rne_Z].
    now rewrite mul_pow2_cancel'.
  - unfold finalize.
    destruct (Z.eqb_spec (Z.pos m) (2 ^ 53)); [lia|].
    destruct (Z.leb_spec e 971); [reflexivity | lia].
Qed.

Lemma rounds_val f :
  valid_binary f = true -> SFfinite f = true -> rounds_to (SFval f) f.
Proof.
  destruct f as [s| | |s m e]; try discriminate; intros Hv _.
  - left. split; [reflexivity | eauto].
  - cbn [valid_binary SpecFloat.valid_binary] in Hv. cbn [SFval].
    pose proof (pow2_pos e).
    assert (0 < inject_Z (Z.pos m))%Q by (apply (inject_Z_lt 0); lia).
    destruct s.
    + right. right. split; [nra|].
      apply (rounds_to_pos_ext _ (inject_Z (Z.pos m) * pow2 e));
        [ring | now apply rounds_exact].
    + right. left. split; [nra | now apply rounds_exact].
Qed.

(** ** The rounding functions of the specification *)

Lemma iter_xO m k : Z.pos (Pos.iter xO m k) = Z.pos m * 2 ^ Z.pos k.
Proof.
  induction k as [|k IH] using Pos.peano_ind.
  - cbn [Pos.iter]. lia.
  - rewrite Pos.iter_succ, Pos2Z.inj_xO, IH, Pos2Z.inj_succ, Z.pow_succ_r by lia.
    lia.
Qed.

Lemma shl_align_val m e e' :
  e' <= e ->
  (inject_Z (Z.pos (fst (shl_align m e e'))) * pow2 (snd (shl_align m e e'))
   == inject_Z (Z.pos m) * pow2 e)%Q
  /\ snd (shl_align m e e') = e'
  /\ Z.pos (fst (shl_align m e e')) = Z.pos m * 2 ^ (e - e').
Proof.
  intros He. unfold shl_align.
  destruct (e' - e) as [|k|k] eqn:E; [| lia |]; cbn [fst snd].
  - assert (e' = e) by lia. subst.
    replace (e - e) with 0 by lia. split; [reflexivity|]. split; lia.
  - assert (Hk : e - e' = Z.pos k) by lia. rewrite Hk.
    rewrite iter_xO. split; [|split; reflexivity].
    rewrite inject_Z_mult, <- pow2_Z by lia.
    rewrite <- Qmult_assoc, <- pow2_add.
    now replace (Z.pos k + e') with e by lia.
Qed.

Lemma binary_round_rounds s m e :
  rounds_to_pos s (inject_Z (Z.pos m) * pow2 e) (binary_round prec emax s m e).
Proof.
  unfold binary_round. rewrite fexp_eq.
  set (g := Z.pos (digits2_pos m) + e).
  set (X := (inject_Z (Z.pos m) * pow2 e)%Q).
  assert (Hmag : mag g X) by apply mag_digits.
  destruct (Z_le_gt_dec (fexp64 g) e) as [Hle|Hgt].
  - destruct (shl_align_val m e (fexp64 g) Hle) as (Hv & He' & _).
    destruct (shl_align m e (fexp64 g)) as [mz ez]. cbn [fst snd] in *.
    subst ez.
    destruct (bra_spec s (Z.pos mz) (fexp64 g) loc_Exact X g)
      as (q & Hq & _ & ->); [lia| |assumption|lia|].
    + apply located_exact. unfold X. rewrite <- Hv. apply mul_pow2_cancel'.
    + exists g, q. auto.
  - unfold shl_align.
    destruct (fexp64 g - e) as [|k|k] eqn:E; [lia| |lia].
    destruct (bra_spec s (Z.pos m) e loc_Exact X g)
      as (q & Hq & _ & ->); [lia| |assumption|lia|].
    + apply located_exact. unfold X. apply mul_pow2_cancel'.
    + exists g, q. auto.
Qed.

Lemma binary_normalize_rounds z e szero :
  rounds_to (inject_Z z * pow2 e) (binary_normalize prec emax z e szero).
Proof.
  pose proof (pow2_pos e). destruct z as [|p|p]; cbn [binary_normalize].
  - left. split; [ring | eauto].
  - right. left.
    assert (0 < inject_Z (Z.pos p))%Q by (apply (inject_Z_lt 0); lia).
    split; [nra | apply binary_round_rounds].
  - right. right.
    assert (inject_Z (Z.neg p) == - inject_Z (Z.pos p))%Q as E
      by (rewrite <- inject_Z_opp; reflexivity).
    assert (0 < inject_Z (Z.pos p))%Q by (apply (inject_Z_lt 0); lia).
    split; [rewrite E; nra|].
    apply (rounds_to_pos_ext _ (inject_Z (Z.pos p) * pow2 e));
      [rewrite E; ring | apply binary_round_rounds].
Qed.

Lemma cond_Zopp_val s m e e' :
  e' <= e ->
  (inject_Z (cond_Zopp s (Z.pos (fst (shl_align m e e')))) * pow2 e'
   == SFval (S754_finite s m e))%Q.
Proof.
  intros He. destruct (shl_align_val m e e' He) as (Hv & He' & _).
  rewrite He' in Hv. cbn [SFval]. destruct s; cbn [cond_Zopp].
  - rewrite inject_Z_opp. lra.
  - exact Hv.
Qed.

Lemma SFadd_rounds x y :
  valid_binary x = true -> valid_binary y = true ->
  SFfinite x = true -> SFfinite y = true ->
  rounds_to (SFval x + SFval y) (SFadd prec emax x y).
Proof.
  intros Hx Hy Fx Fy.
  destruct x as [sx| | |sx mx ex], y as [sy| | |sy my ey]; try discriminate.
  - left. split; [reflexivity|]. destruct sx, sy; cbn; eauto.
  - apply (rounds_to_ext (SFval (S754_finite sy my ey))); [cbn; ring|].
    now apply rounds_val.
  - apply (rounds_to_ext (SFval (S754_finite sx mx ex))); [cbn; ring|].
    now apply rounds_val.
  - cbn [SFadd].
    eapply rounds_to_ext; [|apply binary_normalize_rounds].
    rewrite inject_Z_plus, Qmult_plus_distr_l.
    rewrite !cond_Zopp_val by lia. reflexivity.
Qed.

Lemma SFsub_rounds x y :
  valid_binary x = true -> valid_binary y = true ->
  SFfinite x = true -> SFfinite y = true ->
  rounds_to (SFval x - SFval y) (SFsub prec emax x y).
Proof.
  intros Hx Hy Fx Fy.
  destruct x as [sx| | |sx mx ex], y as [sy| | |sy my ey]; try discriminate.
  - left. split; [reflexivity|]. destruct sx, sy; cbn; eauto.
  - apply (rounds_to_ext (SFval (S754_finite (negb sy) my ey))).
    + cbn. destruct sy; cbn; ring.
    + now apply rounds_val.
  - apply (rounds_to_ext (SFval (S754_finite sx mx ex))); [cbn; ring|].
    now apply rounds_val.
  - cbn [SFsub].
    eapply rounds_to_ext; [|apply binary_normalize_rounds].
    pose proof (cond_Zopp_val sx mx ex (Z.min ex ey) ltac:(lia)) as Ex.
    pose proof (cond_Zopp_val sy my ey (Z.min ex ey) ltac:(lia)) as Ey.
    unfold Z.sub. rewrite inject_Z_plus, inject_Z_opp. lra.
Qed.

Lemma digits_mul mx my :
  Z.pos (digits2_pos mx) + Z.pos (digits2_pos my) - 1
  <= Z.pos (digits2_pos (mx * my)).
Proof.
  destruct (digits2_bounds mx) as [Hx _], (digits2_bounds my) as [Hy _],
    (digits2_bounds (mx * my)) as [_ Hxy].
  set (dx := Z.pos (digits2_pos mx)) in *.
  set (dy := Z.pos (digits2_pos my)) in *.
  set (d := Z.pos (digits2_pos (mx * my))) in *.
  assert (Hdx : 1 <= dx) by (unfold dx; lia).
  assert (Hdy : 1 <= dy) by (unfold dy; lia).
  assert (H : 2 ^ (dx - 1 + (dy - 1)) < 2 ^ d).
  { rewrite Z.pow_add_r by lia. rewrite Pos2Z.inj_mul in Hxy. nia. }
  apply Z.pow_lt_mono_r_iff in H; lia.
Qed.

Lemma SFmul_rounds x y :
  valid_binary x = true -> valid_binary y = true ->
  SFfinite x = true -> SFfinite y = true ->
  rounds_to (SFval x * SFval y) (SFmul prec emax x y).
Proof.
  intros Hx Hy Fx Fy.
  destruct x as [sx| | |sx mx ex], y as [sy| | |sy my ey]; try discriminate;
    try (left; split; [cbn; ring | cbn; eauto]).
  cbn [SFmul valid_binary SpecFloat.valid_binary] in *.
  destruct (bounded_facts _ _ Hx) as (HEx & _ & Hdx & _).
  destruct (bounded_facts _ _ Hy) as (HEy & _ & Hdy & _).
  pose proof (digits_mul mx my) as Hd.
  set (X := (inject_Z (Z.pos (mx * my)) * pow2 (ex + ey))%Q).
  set (g := Z.pos (digits2_pos (mx * my)) + (ex + ey)).
  assert (Hmag : mag g X) by apply mag_digits.
  assert (HX : (0 < X)%Q).
  { destruct Hmag as [H _]. pose proof (pow2_pos (g - 1)). lra. }
  destruct (bra_spec (xorb sx sy) (Z.pos (mx * my)) (ex + ey) loc_Exact X g)
    as (q & Hq & _ & ->); [lia| |assumption| |].
  - apply located_exact. unfold X. apply mul_pow2_cancel'.
  - unfold g, fexp64 in *. lia.
  - assert (Hr : rounds_to_pos (xorb sx sy) X
                   (finalize (xorb sx sy) q (fexp64 g)))
      by (exists g, q; auto).
    assert (HV : (inject_Z (Z.pos mx) * pow2 ex * (inject_Z (Z.pos my) * pow2 ey)
                  == X)%Q).
    { unfold X. rewrite Pos2Z.inj_mul, inject_Z_mult, pow2_add. ring. }
    cbn [SFval]. destruct sx, sy; cbn [xorb] in *.
    + right. left. split; [rewrite <- HV in HX; lra|].
      revert Hr. apply rounds_to_pos_ext. rewrite <- HV. ring.
    + right. right.
      split; [rewrite <- HV in HX; lra|].
      revert Hr. apply rounds_to_pos_ext. rewrite <- HV. ring.
    + right. right.
      split; [rewrite <- HV in HX; lra|].
      revert Hr. apply rounds_to_pos_ext. rewrite <- HV. ring.
    + right. left. split; [rewrite <- HV in HX; lra|].
      revert Hr. apply rounds_to_pos_ext. rewrite <- HV. ring.
Qed.

Lemma mag_shift g X k : mag g X -> mag (g + k) (X * pow2 k).
Proof.
  intros [H1 H2]. pose proof (pow2_pos k). unfold mag.
  replace (g + k - 1) with ((g - 1) + k) by lia. rewrite !pow2_add. split.
  - apply Qmult_le_compat_r; lra.
  - apply Qmult_lt_compat_r; lra.
Qed.

Lemma mag_quotient a b :
  exists g,
    mag g (inject_Z (Z.pos a) / inject_Z (Z.pos b))
    /\ Z.pos (digits2_pos a) - Z.pos (digits2_pos b) <= g.
Proof.
  destruct (digits2_bounds a) as [Ha1 Ha2], (digits2_bounds b) as [Hb1 Hb2].
  set (da := Z.pos (digits2_pos a)) in *.
  set (db := Z.pos (digits2_pos b)) in *.
  assert (Hda : 1 <= da) by (unfold da; lia).
  assert (Hdb : 1 <= db) by (unfold db; lia).
  apply inject_Z_le in Ha1, Hb1. apply inject_Z_lt in Ha2, Hb2.
  rewrite <- pow2_Z in Ha1, Ha2, Hb1, Hb2 by lia.
  set (A := inject_Z (Z.pos a)) in *. set (B := inject_Z (Z.pos b)) in *.
  assert (HB : (0 < B)%Q) by (apply (inject_Z_lt 0); lia).
  pose proof (pow2_pos (da - 1)). pose proof (pow2_pos (db - 1)).
  pose proof (pow2_pos db). pose proof (pow2_pos da).
  assert (Hlo : (pow2 (da - db - 1) <= A / B)%Q).
  { apply Qle_shift_div_l; [assumption|].
    apply Qle_trans with (pow2 (da - db - 1) * pow2 db)%Q.
    - apply Qmult_le_l; [apply pow2_pos | lra].
    - rewrite <- pow2_add. replace (da - db - 1 + db) with (da - 1) by lia.
      assumption. }
  assert (Hhi : (A / B < pow2 (da - db + 1))%Q).
  { apply Qlt_shift_div_r; [assumption|].
    apply Qlt_le_trans with (pow2 (da - db + 1) * pow2 (db - 1))%Q.
    - rewrite <- pow2_add. replace (da - db + 1 + (db - 1)) with da by lia.
      assumption.
    - apply Qmult_le_l; [apply pow2_pos | lra]. }
  destruct (Qlt_le_dec (A / B) (pow2 (da - db))) as [Hlt|Hge].
  - exists (da - db). split; [split; assumption | lia].
  - exists (da - db + 1). split; [|lia]. split; [|assumption].
    now replace (da - db + 1 - 1) with (da - db) by lia.
Qed.

Lemma new_location_located q b r :
  0 <= q -> 0 <= r < b ->
  located (shr_record_of_loc q (new_location b r))
          (inject_Z q + inject_Z r / inject_Z b).
Proof.
  intros Hq Hr.
  assert (HB : (0 < inject_Z b)%Q) by (apply (inject_Z_lt 0); lia).
  set (rho := (inject_Z r / inject_Z b)%Q).
  assert (Hrho : (rho * inject_Z b == inject_Z r)%Q)
    by (unfold rho; field; lra).
  assert (Hlt : forall c : Z, c * r < b -> (inject_Z c * rho < 1)%Q).
  { intros c Hc. apply inject_Z_lt in Hc. rewrite inject_Z_mult in Hc.
    rewrite <- Hrho in Hc. nra. }
  assert (Hgt : forall c : Z, b < c * r -> (1 < inject_Z c * rho)%Q).
  { intros c Hc. apply inject_Z_lt in Hc. rewrite inject_Z_mult in Hc.
    rewrite <- Hrho in Hc. nra. }
  assert (Heq : forall c : Z, c * r = b -> (inject_Z c * rho == 1)%Q).
  { intros c Hc.
    assert (Hc' : (inject_Z (c * r) == inject_Z b)%Q) by now rewrite Hc.
    rewrite inject_Z_mult, <- Hrho in Hc'.
    apply Qmult_inj_r with (inject_Z b); [lra|]. lra. }
  assert (H0 : 0 < r -> (0 < rho)%Q).
  { intros H. apply (inject_Z_lt 0) in H. rewrite <- Hrho in H.
    change (inject_Z 0) with 0%Q in H. nra. }
  assert (H1 : (rho < 1)%Q).
  { specialize (Hlt 1). change (inject_Z 1) with 1%Q in Hlt.
    rewrite Qmult_1_l in Hlt. apply Hlt. lia. }
  change (inject_Z 2) with 2%Q in *.
  assert (Hex : r = 0 -> forall l,
            located (shr_record_of_loc q (if r =? 0 then loc_Exact else l))
                    (inject_Z q + rho)).
  { intros -> l. apply located_exact.
    assert (rho == 0)%Q as E
      by (unfold rho; change (inject_Z 0) with 0%Q; field; lra).
    rewrite E. ring. }
  unfold new_location, new_location_even, new_location_odd.
  destruct (Z.even b) eqn:Eb; (destruct (Z.eq_dec r 0) as [Hr0|Hr0];
    [now apply Hex|]); apply Z.eqb_neq in Hr0 as Hr0'; rewrite Hr0';
    assert (Hrp : 0 < r) by lia; specialize (H0 Hrp); unfold located.
  - destruct (Z.compare_spec (2 * r) b) as [E|E|E];
      cbn [shr_record_of_loc shr_m shr_r shr_s].
    + specialize (Heq 2 E). change (inject_Z 2) with 2%Q in Heq. lra.
    + specialize (Hlt 2 E). change (inject_Z 2) with 2%Q in Hlt. lra.
    + specialize (Hgt 2 E). change (inject_Z 2) with 2%Q in Hgt. lra.
  - assert (Hodd : b <> 2 * r).
    { intros ->. rewrite Z.even_mul in Eb. discriminate. }
    destruct (Z.compare_spec (2 * r + 1) b) as [E|E|E];
      cbn [shr_record_of_loc shr_m shr_r shr_s].
    + assert (E' : 2 * r < b) by lia.
      specialize (Hlt 2 E'). change (inject_Z 2) with 2%Q in Hlt. lra.
    + assert (E' : 2 * r < b) by lia.
      specialize (Hlt 2 E'). change (inject_Z 2) with 2%Q in Hlt. lra.
    + assert (E' : b < 2 * r) by lia.
      specialize (Hgt 2 E'). change (inject_Z 2) with 2%Q in Hgt. lra.
Qed.

Lemma SFdiv_core_spec mx ex my ey :
  let X := (inject_Z (Z.pos mx) / inject_Z (Z.pos my) * pow2 (ex - ey))%Q in
  let '(q, e', l) := SFdiv_core_binary prec emax (Z.pos mx) ex (Z.pos my) ey in
  exists g,
    mag g X /\ e' <= fexp64 g /\ 0 <= q
    /\ located (shr_record_of_loc q l) (X * pow2 (- e')).
Proof.
  cbv zeta. unfold SFdiv_core_binary. cbn [Zdigits2]. rewrite fexp_eq.
  set (d1 := Z.pos (digits2_pos mx)). set (d2 := Z.pos (digits2_pos my)).
  set (e' := Z.min (fexp64 (d1 + ex - (d2 + ey))) (ex - ey)).
  set (s := ex - ey - e').
  assert (Hs : 0 <= s) by (unfold s, e'; lia).
  set (m' := match s with
             | 0 => Z.pos mx
             | Z.pos _ => Z.shiftl (Z.pos mx) s
             | Z.neg _ => 0
             end).
  assert (Hm' : m' = Z.pos mx * 2 ^ s).
  { unfold m'. destruct s as [|p|p] eqn:E; [lia| |lia].
    now rewrite Z.shiftl_mul_pow2 by lia. }
  pose proof (Z_div_mod m' (Z.pos my) eq_refl) as Hdiv.
  destruct (Z.div_eucl m' (Z.pos my)) as [q r]. destruct Hdiv as [Hqr Hr].
  destruct (mag_quotient mx my) as (g0 & Hg0 & Hd).
  exists (g0 + (ex - ey)). split; [now apply mag_shift|].
  split; [unfold e'; fold d1 d2 in Hd;
          etransitivity; [apply Z.le_min_l | apply fexp64_mono; lia]|].
  assert (Hq : 0 <= q) by nia. split; [assumption|].
  eapply located_ext; [|apply (new_location_located q (Z.pos my) r); lia].
  assert (HB : (0 < inject_Z (Z.pos my))%Q) by (apply (inject_Z_lt 0); lia).
  assert (E1 : (inject_Z (Z.pos mx) * pow2 s
                == inject_Z (Z.pos my) * inject_Z q + inject_Z r)%Q).
  { rewrite pow2_Z by lia.
    rewrite <- !inject_Z_mult, <- inject_Z_plus, <- Hm', Hqr. reflexivity. }
  rewrite <- Qmult_assoc, <- pow2_add.
  replace (ex - ey + - e') with s by (unfold s; lia).
  field_simplify_eq; [|lra]. lra.
Qed.

Lemma SFdiv_rounds x sy my ey :
  valid_binary x = true -> SFfinite x = true ->
  rounds_to (SFval x / SFval (S754_finite sy my ey))
            (SFdiv prec emax x (S754_finite sy my ey)).
Proof.
  intros Hx Fx. destruct x as [sx| | |sx mx ex]; try discriminate.
  { left. split; [cbn [SFval]; unfold Qdiv; ring | cbn; eauto]. }
  cbn [SFdiv]. pose proof (SFdiv_core_spec mx ex my ey) as H. cbv zeta in H.
  destruct (SFdiv_core_binary prec emax (Z.pos mx) ex (Z.pos my) ey)
    as [[q e'] l].
  destruct H as (g & Hmag & He & Hq & Hloc).
  set (X := (inject_Z (Z.pos mx) / inject_Z (Z.pos my) * pow2 (ex - ey))%Q) in *.
  assert (HX : (0 < X)%Q).
  { destruct Hmag as [H _]. pose proof (pow2_pos (g - 1)). lra. }
  destruct (bra_spec (xorb sx sy) q e' l X g) as (q' & Hq' & _ & ->);
    try assumption.
  assert (Hr : rounds_to_pos (xorb sx sy) X
                 (finalize (xorb sx sy) q' (fexp64 g)))
    by (exists g, q'; auto).
  assert (HA : (0 < inject_Z (Z.pos mx))%Q) by (apply (inject_Z_lt 0); lia).
  assert (HB : (0 < inject_Z (Z.pos my))%Q) by (apply (inject_Z_lt 0); lia).
  pose proof (pow2_pos ey) as Hpy. pose proof (pow2_pos ex) as Hpx.
  assert (HV : (inject_Z (Z.pos mx) * pow2 ex / (inject_Z (Z.pos my) * pow2 ey)
                == X)%Q).
  { unfold X. rewrite pow2_sub. field. lra. }
  cbn [SFval]. destruct sx, sy; cbn [xorb] in *.
  - right. left.
    assert (E : (- inject_Z (Z.pos mx) * pow2 ex
                 / (- inject_Z (Z.pos my) * pow2 ey) == X)%Q)
      by (rewrite <- HV; field; lra).
    split; [now rewrite E | revert Hr; apply rounds_to_pos_ext; now rewrite E].
  - right. right.
    assert (E : (- inject_Z (Z.pos mx) * pow2 ex
                 / (inject_Z (Z.pos my) * pow2 ey) == - X)%Q)
      by (rewrite <- HV; field; lra).
    split; [rewrite E; lra|].
    revert Hr. apply rounds_to_pos_ext. rewrite E. ring.
  - right. right.
    assert (E : (inject_Z (Z.pos mx) * pow2 ex
                 / (- inject_Z (Z.pos my) * pow2 ey) == - X)%Q)
      by (rewrite <- HV; field; lra).
    split; [rewrite E; lra|].
    revert Hr. apply rounds_to_pos_ext. rewrite E. ring.
  - right. left.
    split; [now rewrite HV | revert Hr; apply rounds_to_pos_ext; now rewrite HV].
Qed.

(** ** Extended reals *)

Lemma rounds_to_pos_class s X f :
  rounds_to_pos s X f ->
  f = S754_zero s \/ f = S754_infinity s \/ exists m e, f = S754_finite s m e.
Proof.
  intros (g & q & Hg & Hq & ->).
  destruct (rounds_q_bounds _ _ _ Hg Hq) as [Hb _].
  unfold finalize. destruct q as [|p|p]; [auto| |lia].
  destruct (_ =? _); destruct (_ <=? _); eauto.
Qed.

Lemma rounds_to_key V f : rounds_to V f -> exists k, SFkey f = Some k.
Proof.
  intros [[_ [s ->]]|[[_ H]|[_ H]]]; [cbn; eauto| |];
    apply rounds_to_pos_class in H as [->|[->|(m & e & ->)]]; cbn; eauto.
Qed.

Lemma xrounds_key v f : xrounds v f -> exists k, SFkey f = Some k.
Proof.
  destruct v; cbn; [intros ->; cbn; eauto | apply rounds_to_key | intros ->; cbn; eauto].
Qed.

Lemma SFleb_inf_r f k : SFkey f = Some k -> SFleb f (S754_infinity false) = true.
Proof. destruct f as [[]|[]| |[]]; cbn; intros; try reflexivity; discriminate. Qed.

Lemma SFleb_inf_l f k : SFkey f = Some k -> SFleb (S754_infinity true) f = true.
Proof. destruct f as [[]|[]| |[]]; cbn; intros; try reflexivity; discriminate. Qed.

Lemma xrounds_mono v w f1 f2 :
  xrounds v f1 -> xrounds w f2 -> xle v w -> SFleb f1 f2 = true.
Proof.
  intros H1 H2 Hle.
  destruct (xrounds_key _ _ H1) as [k1 Hk1], (xrounds_key _ _ H2) as [k2 Hk2].
  destruct v as [|p|], w as [|q|]; cbn in *; subst; try easy;
    try (eapply SFleb_inf_l; eassumption);
    try (eapply SFleb_inf_r; eassumption).
  eapply rounds_to_mono; eassumption.
Qed.

Lemma SFx_rounds f v : valid_binary f = true -> SFx f = Some v -> xrounds v f.
Proof.
  intros Hv. destruct f as [s|[]| |s m e]; cbn [SFx]; intros [= <-];
    try reflexivity; exact (rounds_val _ Hv eq_refl).
Qed.

Lemma SFkey_eq_SFx f1 f2 k v1 v2 :
  SFkey f1 = Some k -> SFkey f2 = Some k ->
  SFx f1 = Some v1 -> SFx f2 = Some v2 -> xeq v1 v2.
Proof.
  destruct f1 as [[]|[]| |[] m1 e1], f2 as [[]|[]| |[] m2 e2]; cbn;
    intros H1 H2 [= <-] [= <-]; try discriminate; try easy;
    rewrite <- H1 in H2; try discriminate;
    injection H2; intros; assert (e1 = e2) by lia; subst; reflexivity.
Qed.

Lemma xle_total a b : xle a b \/ xle b a.
Proof.
  destruct a as [|p|], b as [|q|]; cbn; auto.
  destruct (Qlt_le_dec p q); [left; lra | right; lra].
Qed.

Lemma xeq_le a b : xeq a b -> xle a b.
Proof. destruct a, b; cbn; try easy. intros ->. apply Qle_refl. Qed.

Lemma SFleb_xle f1 f2 :
  valid_binary f1 = true -> valid_binary f2 = true ->
  (SFleb f1 f2 = true
   <-> exists v1 v2, SFx f1 = Some v1 /\ SFx f2 = Some v2 /\ xle v1 v2).
Proof.
  intros V1 V2. split.
  - intros H. pose proof H as Hk. apply SFleb_key in Hk.
    destruct Hk as (k1 & k2 & Hk1 & Hk2 & Hle).
    assert (exists v1, SFx f1 = Some v1) as [v1 Hv1]
      by (destruct f1 as [|[]| |]; try discriminate; cbn; eauto).
    assert (exists v2, SFx f2 = Some v2) as [v2 Hv2]
      by (destruct f2 as [|[]| |]; try discriminate; cbn; eauto).
    exists v1, v2. split; [assumption|]. split; [assumption|].
    destruct (xle_total v1 v2) as [|Hge]; [assumption|].
    assert (H' : SFleb f2 f1 = true).
    { eapply xrounds_mono; [| |exact Hge]; now apply SFx_rounds. }
    apply SFleb_key in H'. destruct H' as (k2' & k1' & Hk2' & Hk1' & Hle').
    rewrite Hk1 in Hk1'. rewrite Hk2 in Hk2'.
    injection Hk1' as <-. injection Hk2' as <-.
    assert (k1 = k2).
    { destruct Hle as [Hlt|]; [|assumption].
      destruct Hle' as [Hlt'|]; [|congruence].
      now apply lex_lt_asym in Hlt. }
    subst k2. apply xeq_le.
    exact (SFkey_eq_SFx f1 f2 k1 v1 v2 Hk1 Hk2 Hv1 Hv2).
  - intros (v1 & v2 & H1 & H2 & Hle).
    eapply xrounds_mono; [| |exact Hle]; now apply SFx_rounds.
Qed.

Lemma SFval_pos m e : (0 < SFval (S754_finite false m e))%Q.
Proof.
  cbn. pose proof (pow2_pos e).
  assert (0 < inject_Z (Z.pos m))%Q by (apply (inject_Z_lt 0); lia). nra.
Qed.

Lemma SFval_neg m e : (SFval (S754_finite true m e) < 0)%Q.
Proof.
  cbn. pose proof (pow2_pos e).
  assert (0 < inject_Z (Z.pos m))%Q by (apply (inject_Z_lt 0); lia). nra.
Qed.

Lemma xscale_pos a q : (0 < q)%Q -> xscale a q = Some a.
Proof.
  intros H. unfold xscale. apply Qgt_alt in H.
  change ((q ?= 0)%Q = Gt) in H. now rewrite H.
Qed.

Lemma xscale_neg a q : (q < 0)%Q -> xscale a q = Some (xopp a).
Proof.
  intros H. unfold xscale. apply Qlt_alt in H.
  change ((q ?= 0)%Q = Lt) in H. now rewrite H.
Qed.

Lemma xscale_zero a : xscale a 0 = None.
Proof. reflexivity. Qed.

Ltac sf_special :=
  cbn [SFx]; intros; repeat match goal with
  | H : Some _ = Some _ |- _ => injection H as <-
  | H : None = Some _ |- _ => discriminate H
  end;
  cbn [xadd xsub xopp xmul xdiv];
  rewrite ?xscale_zero;
  rewrite ?xscale_pos by apply (SFval_pos _ _);
  rewrite ?xscale_neg by apply (SFval_neg _ _);
  cbn [xopp xrounds]; try reflexivity.

Lemma SFadd_x x y a b :
  valid_binary x = true -> valid_binary y = true ->
  SFx x = Some a -> SFx y = Some b ->
  match xadd a b with
  | Some v => xrounds v (SFadd prec emax x y)
  | None => SFadd prec emax x y = S754_nan
  end.
Proof.
  intros Vx Vy.
  destruct x as [sx|[]| |sx mx ex], y as [sy|[]| |sy my ey]; sf_special;
    match goal with
    | |- context [SFadd prec emax ?x ?y] =>
        exact (SFadd_rounds x y Vx Vy eq_refl eq_refl)
    end.
Qed.

Lemma SFsub_x x y a b :
  valid_binary x = true -> valid_binary y = true ->
  SFx x = Some a -> SFx y = Some b ->
  match xsub a b with
  | Some v => xrounds v (SFsub prec emax x y)
  | None => SFsub prec emax x y = S754_nan
  end.
Proof.
  intros Vx Vy.
  destruct x as [sx|[]| |sx mx ex], y as [sy|[]| |sy my ey]; sf_special;
    match goal with
    | |- context [SFsub prec emax ?x ?y] =>
        exact (SFsub_rounds x y Vx Vy eq_refl eq_refl)
    end.
Qed.

Lemma SFmul_x x y a b :
  valid_binary x = true -> valid_binary y = true ->
  SFx x = Some a -> SFx y = Some b ->
  match xmul a b with
  | Some v => xrounds v (SFmul prec emax x y)
  | None => SFmul prec emax x y = S754_nan
  end.
Proof.
  intros Vx Vy.
  destruct x as [sx|[]| |[] mx ex], y as [sy|[]| |[] my ey]; sf_special;
    match goal with
    | |- context [SFmul prec emax ?x ?y] =>
        exact (SFmul_rounds x y Vx Vy eq_refl eq_refl)
    end.
Qed.

Lemma SFdiv_x x y a b :
  valid_binary x = true -> valid_binary y = true ->
  SFx x = Some a -> SFx y = Some b -> SFeqb y (S754_zero false) = false ->
  match xdiv a b with
  | Some v => xrounds v (SFdiv prec emax x y)
  | None => SFdiv prec emax x y = S754_nan
  end.
Proof.
  intros Vx Vy.
  destruct x as [sx|[]| |[] mx ex], y as [sy|[]| |[] my ey]; sf_special;
    try discriminate;
    try (left; split; [reflexivity | cbn [SFdiv]; eauto]; fail);
    match goal with
    | |- context [SFdiv prec emax ?x (S754_finite ?s ?m ?e)] =>
        exact (SFdiv_rounds x s m e Vx eq_refl)
    end.
Qed.

(** ** Validity of rounded results *)

Lemma digits_53 q : 2 ^ 52 <= Z.pos q < 2 ^ 53 -> Z.pos (digits2_pos q) = 53.
Proof.
  intros [H1 H2]. destruct (digits2_bounds q) as [H3 H4].
  assert (Hd := digits_le_53 q H2).
  destruct (Z_lt_le_dec (Z.pos (digits2_pos q)) 53) as [Hlt|]; [|lia].
  exfalso. assert (2 ^ Z.pos (digits2_pos q) <= 2 ^ 52)
    by (apply Z.pow_le_mono_r; lia). lia.
Qed.

Lemma rounds_to_pos_valid s X f : rounds_to_pos s X f -> valid_binary f = true.
Proof.
  intros (g & q & Hg & Hq & ->).
  destruct (rounds_q_bounds _ _ _ Hg Hq) as [Hb Hn].
  assert (HE : -1074 <= fexp64 g) by (unfold fexp64; lia).
  set (E := fexp64 g) in *. unfold finalize.
  destruct q as [|p|p]; [reflexivity| |lia].
  destruct (Z.eqb_spec (Z.pos p) (2 ^ 53)) as [E53|N53].
  - destruct (Z.leb_spec (E + 1) 971); [|reflexivity].
    cbn [valid_binary SpecFloat.valid_binary]. unfold bounded, canonical_mantissa.
    rewrite fexp_eq.
    replace (Z.pos (digits2_pos (2 ^ 52))) with 53 by (vm_compute; reflexivity).
    apply Bool.andb_true_iff. split.
    + apply Z.eqb_eq. unfold fexp64. lia.
    + apply Z.leb_le. change (emax - prec) with 971. lia.
  - destruct (Z.leb_spec E 971); [|reflexivity].
    cbn [valid_binary SpecFloat.valid_binary]. unfold bounded, canonical_mantissa.
    rewrite fexp_eq. apply Bool.andb_true_iff. split.
    + apply Z.eqb_eq.
      destruct (Z.eq_dec E (-1074)) as [Ee|Ne].
      * assert (Z.pos (digits2_pos p) <= 53) by (apply digits_le_53; lia).
        unfold fexp64. lia.
      * rewrite (digits_53 p) by lia. unfold fexp64. lia.
    + apply Z.leb_le. change (emax - prec) with 971. lia.
Qed.

Lemma rounds_to_valid V f : rounds_to V f -> valid_binary f = true.
Proof.
  intros [[_ [s ->]]|[[_ H]|[_ H]]]; [reflexivity| |];
    eapply rounds_to_pos_valid; eassumption.
Qed.

(** ** Primitive floats *)

Lemma fx_nan a : fx a = None <-> is_nan a = true.
Proof.
  unfold is_nan, fx. rewrite FloatAxioms.eqb_spec. unfold SFeqb.
  destruct (Prim2SF a) as [[]|[]| |[] m e]; cbn;
    rewrite ?Z.compare_refl, ?Pos.compare_cont_refl; cbn; split; congruence.
Qed.

Lemma fx_not_nan a : (exists v, fx a = Some v) <-> is_nan a = false.
Proof.
  rewrite <- Bool.not_true_iff_false, <- fx_nan.
  destruct (fx a); split; intros H; try congruence; eauto.
  now destruct H.
Qed.

Lemma leb_fx a b :
  (a <=? b)%float = true
  <-> exists va vb, fx a = Some va /\ fx b = Some vb /\ xle va vb.
Proof. rewrite FloatAxioms.leb_spec. apply SFleb_xle; apply Prim2SF_valid. Qed.

Lemma fx_rounds a v : fx a = Some v -> xrounds v (Prim2SF a).
Proof. apply SFx_rounds, Prim2SF_valid. Qed.

Lemma xrounds_leb v w a b :
  xrounds v (Prim2SF a) -> xrounds w (Prim2SF b) -> xle v w ->
  (a <=? b)%float = true.
Proof. rewrite FloatAxioms.leb_spec. apply xrounds_mono. Qed.

Lemma xrounds_fx v a : xrounds v (Prim2SF a) -> exists w, fx a = Some w.
Proof.
  intros H. destruct (xrounds_key _ _ H) as [k Hk]. unfold fx.
  destruct (Prim2SF a) as [|[]| |]; cbn in *; try discriminate; eauto.
Qed.

Lemma add_fx a b va vb :
  fx a = Some va -> fx b = Some vb ->
  match xadd va vb with
  | Some v => xrounds v (Prim2SF (a + b))
  | None => fx (a + b) = None
  end.
Proof.
  intros Ha Hb. unfold fx. rewrite FloatAxioms.add_spec.
  pose proof (SFadd_x _ _ _ _ (Prim2SF_valid a) (Prim2SF_valid b) Ha Hb) as H.
  destruct (xadd va vb); [assumption|]. unfold SF64add. now rewrite H.
Qed.

Lemma sub_fx a b va vb :
  fx a = Some va -> fx b = Some vb ->
  match xsub va vb with
  | Some v => xrounds v (Prim2SF (a - b))
  | None => fx (a - b) = None
  end.
Proof.
  intros Ha Hb. unfold fx. rewrite FloatAxioms.sub_spec.
  pose proof (SFsub_x _ _ _ _ (Prim2SF_valid a) (Prim2SF_valid b) Ha Hb) as H.
  destruct (xsub va vb); [assumption|]. unfold SF64sub. now rewrite H.
Qed.

Lemma mul_fx a b va vb :
  fx a = Some va -> fx b = Some vb ->
  match xmul va vb with
  | Some v => xrounds v (Prim2SF (a * b))
  | None => fx (a * b) = None
  end.
Proof.
  intros Ha Hb. unfold fx. rewrite FloatAxioms.mul_spec.
  pose proof (SFmul_x _ _ _ _ (Prim2SF_valid a) (Prim2SF_valid b) Ha Hb) as H.
  destruct (xmul va vb); [assumption|]. unfold SF64mul. now rewrite H.
Qed.

Lemma div_fx a b va vb :
  fx a = Some va -> fx b = Some vb -> (b =? 0)%float = false ->
  match xdiv va vb with
  | Some v => xrounds v (Prim2SF (a / b))
  | None => fx (a / b) = None
  end.
Proof.
  intros Ha Hb Hz. unfold fx. rewrite FloatAxioms.div_spec. rewrite FloatAxioms.eqb_spec in Hz.
  pose proof (SFdiv_x _ _ _ _ (Prim2SF_valid a) (Prim2SF_valid b) Ha Hb Hz)
    as H.
  destruct (xdiv va vb); [assumption|]. unfold SF64div. now rewrite H.
Qed.

Lemma op_nan a b :
  fx a = None \/ fx b = None ->
  fx (a + b) = None /\ fx (a - b) = None /\ fx (a * b) = None
  /\ fx (a / b) = None.
Proof.
  unfold fx. rewrite FloatAxioms.add_spec, FloatAxioms.sub_spec, FloatAxioms.mul_spec, FloatAxioms.div_spec.
  destruct (Prim2SF a) as [|[]| |], (Prim2SF b) as [|[]| |]; cbn;
    intros [H|H]; try discriminate; auto.
Qed.

(** ** Order facts on primitive floats *)

Lemma lex_le_antisym a b : lex_le a b -> lex_le b a -> a = b.
Proof.
  intros [H1|H1] [H2|H2]; try congruence. now apply lex_lt_asym in H1.
Qed.

Lemma lex_total a b : lex_lt a b \/ a = b \/ lex_lt b a.
Proof.
  pose proof (lex_cmp_spec a b). destruct (lex_cmp a b); auto.
Qed.

Lemma eqb_leb a b :
  (a =? b)%float = true
  <-> (a <=? b)%float = true /\ (b <=? a)%float = true.
Proof.
  rewrite eqb_key, !leb_key. split.
  - intros (k & Ha & Hb). split; exists k, k; (split; [assumption|]);
      (split; [assumption|]); now right.
  - intros [(k1 & k2 & Ha & Hb & H1) (k2' & k1' & Hb' & Ha' & H2)].
    rewrite Ha in Ha'. rewrite Hb in Hb'. injection Ha' as <-. injection Hb' as <-.
    assert (k1 = k2) by now apply lex_le_antisym. subst. eauto.
Qed.

Lemma ltb_leb a b :
  (a <? b)%float = true
  <-> (a <=? b)%float = true /\ (b <=? a)%float = false.
Proof.
  rewrite ltb_key, !leb_key, <- Bool.not_true_iff_false, leb_key. split.
  - intros (k1 & k2 & Ha & Hb & Hlt). split; [exists k1, k2; repeat split; auto; now left|].
    intros (k2' & k1' & Hb' & Ha' & Hle).
    rewrite Ha in Ha'. rewrite Hb in Hb'. injection Ha' as <-. injection Hb' as <-.
    destruct Hle as [Hle| ->]; [now apply lex_lt_asym in Hlt|].
    now apply lex_lt_irrefl in Hlt.
  - intros [(k1 & k2 & Ha & Hb & Hle) Hn]. exists k1, k2.
    split; [assumption|]. split; [assumption|].
    destruct Hle as [Hlt| ->]; [assumption|]. exfalso. apply Hn.
    exists k2, k2. repeat split; auto. now right.
Qed.

Lemma leb_refl a : is_nan a = false -> (a <=? a)%float = true.
Proof.
  intros H. apply is_nan_key in H as [k Hk]. apply leb_key.
  exists k, k. repeat split; auto. now right.
Qed.

Lemma leb_total a b :
  is_nan a = false -> is_nan b = false ->
  (a <? b)%float = false -> (b <=? a)%float = true.
Proof.
  intros Ha Hb. apply is_nan_key in Ha as [k1 H1]. apply is_nan_key in Hb as [k2 H2].
  rewrite <- Bool.not_true_iff_false, ltb_key, leb_key. intros Hn.
  exists k2, k1. split; [assumption|]. split; [assumption|].
  destruct (lex_total k1 k2) as [H|[->|H]]; [|now right|now left].
  exfalso. apply Hn. eauto.
Qed.

Lemma leb_not_nan a b :
  (a <=? b)%float = true -> is_nan a = false /\ is_nan b = false.
Proof.
  rewrite leb_key, !is_nan_key. intros (k1 & k2 & H1 & H2 & _). eauto.
Qed.

Lemma ltb_not_nan a b :
  (a <? b)%float = true -> is_nan a = false /\ is_nan b = false.
Proof. rewrite ltb_leb. intros [H _]. now apply leb_not_nan. Qed.

Lemma ltb_leb_weak a b : (a <? b)%float = true -> (a <=? b)%float = true.
Proof. rewrite ltb_leb. tauto. Qed.

Lemma ltb_trans a b c :
  (a <? b)%float = true -> (b <? c)%float = true -> (a <? c)%float = true.
Proof.
  rewrite !ltb_key.
  intros (k1 & k2 & H1 & H2 & Hlt) (k2' & k3 & H2' & H3 & Hlt').
  rewrite H2 in H2'. injection H2' as <-.
  exists k1, k3. repeat split; auto. eapply lex_lt_trans; eassumption.
Qed.

Lemma leb_ltb_trans a b c :
  (a <=? b)%float = true -> (b <? c)%float = true -> (a <? c)%float = true.
Proof.
  rewrite leb_key, !ltb_key.
  intros (k1 & k2 & H1 & H2 & Hle) (k2' & k3 & H2' & H3 & Hlt').
  rewrite H2 in H2'. injection H2' as <-.
  exists k1, k3. repeat split; auto.
  destruct Hle as [Hlt| ->]; [eapply lex_lt_trans; eassumption | assumption].
Qed.

Lemma ltb_leb_trans a b c :
  (a <? b)%float = true -> (b <=? c)%float = true -> (a <? c)%float = true.
Proof.
  rewrite leb_key, !ltb_key.
  intros (k1 & k2 & H1 & H2 & Hlt) (k2' & k3 & H2' & H3 & Hle).
  rewrite H2 in H2'. injection H2' as <-.
  exists k1, k3. repeat split; auto.
  destruct Hle as [Hlt'| <-]; [eapply lex_lt_trans; eassumption | assumption].
Qed.

Lemma eqb_not_nan a b :
  (a =? b)%float = true -> is_nan a = false /\ is_nan b = false.
Proof. rewrite eqb_leb. intros [H _]. now apply leb_not_nan. Qed.

(** ** Arithmetic of the extended reals *)

Lemma xle_refl a : xle a a.
Proof. destruct a; cbn; auto. apply Qle_refl. Qed.

Lemma xle_trans a b c : xle a b -> xle b c -> xle a c.
Proof. destruct a, b, c; cbn; try easy. apply Qle_trans. Qed.

Lemma xsub_mono_l a b c u v :
  xle a b -> xsub a c = Some u -> xsub b c = Some v -> xle u v.
Proof.
  destruct a, b, c; cbn; intros H [= <-] [= <-]; cbn; try easy. lra.
Qed.

Lemma xsub_nonneg a c u : xle c a -> xsub a c = Some u -> xle (Fin 0) u.
Proof. destruct a, c; cbn; intros H [= <-]; cbn; try easy. lra. Qed.

Lemma xdiv_unit a b v :
  xle (Fin 0) a -> xle a b -> ~ xeq b (Fin 0) -> xdiv a b = Some v ->
  xle (Fin 0) v /\ xle v (Fin 1).
Proof.
  destruct a as [|p|], b as [|q|]; cbn; try easy.
  - intros Hp Hpq Hq [= <-]. cbn.
    assert (0 < q)%Q.
    { destruct (Qlt_le_dec 0 q); [assumption|]. exfalso. apply Hq. lra. }
    split; [apply Qle_shift_div_l; lra | apply Qle_shift_div_r; lra].
  - intros _ _ _ [= <-]. cbn. lra.
Qed.

Lemma xmul_unit n w v :
  xle (Fin 0) n -> xle n (Fin 1) -> (0 <= w)%Q -> xmul n (Fin w) = Some v ->
  xle (Fin 0) v /\ xle v (Fin w).
Proof.
  destruct n as [|p|]; cbn; try easy. intros H0 H1 Hw [= <-]. cbn. split; nra.
Qed.

Lemma xadd_mono a a' b b' u v :
  xle a a' -> xle b b' -> xadd a b = Some u -> xadd a' b' = Some v -> xle u v.
Proof.
  destruct a, a', b, b'; cbn; intros H1 H2 [= <-] [= <-]; cbn; try easy. lra.
Qed.

Lemma xadd_nonneg a b :
  xle (Fin 0) a -> xle (Fin 0) b ->
  exists u, xadd a b = Some u /\ xle (Fin 0) u.
Proof.
  destruct a, b; cbn; try easy; intros; eexists; (split; [reflexivity|]); cbn; auto.
  lra.
Qed.

(** ** Arithmetic of primitive floats *)

Lemma fx_0 : fx 0 = Some (Fin 0).
Proof. reflexivity. Qed.

Lemma fx_1 : exists q, fx 1 = Some (Fin q) /\ (q == 1)%Q.
Proof. eexists. split; [vm_compute; reflexivity | reflexivity]. Qed.

Lemma leb_0_fx a :
  (0 <=? a)%float = true <-> exists v, fx a = Some v /\ xle (Fin 0) v.
Proof.
  rewrite leb_fx. rewrite fx_0. split.
  - intros (va & vb & [= <-] & Hb & H). eauto.
  - intros (v & Hv & H). eauto.
Qed.

Lemma leb_fx_1 a :
  (a <=? 1)%float = true <-> exists v, fx a = Some v /\ xle v (Fin 1).
Proof.
  rewrite leb_fx. destruct fx_1 as (q & Hq & Eq). rewrite Hq. split.
  - intros (va & vb & Ha & [= <-] & H). exists va. split; [assumption|].
    eapply xle_trans; [exact H|]. cbn. lra.
  - intros (v & Hv & H). exists v, (Fin q). repeat split; auto.
    eapply xle_trans; [exact H|]. cbn. lra.
Qed.

Lemma fx_leb_0 a v : fx a = Some v -> xle (Fin 0) v -> (0 <=? a)%float = true.
Proof. intros. apply leb_0_fx. eauto. Qed.

Lemma xrounds_ge_0 v a :
  xrounds v (Prim2SF a) -> xle (Fin 0) v -> (0 <=? a)%float = true.
Proof. intros H Hv. eapply xrounds_leb; [apply fx_rounds, fx_0 | exact H | exact Hv]. Qed.

Lemma xrounds_le_1 v a :
  xrounds v (Prim2SF a) -> xle v (Fin 1) -> (a <=? 1)%float = true.
Proof.
  intros H Hv. destruct fx_1 as (q & Hq & Eq).
  eapply xrounds_leb; [exact H | apply fx_rounds, Hq |].
  eapply xle_trans; [exact Hv|]. cbn. lra.
Qed.

Lemma fx_is_nan a : fx a = None -> is_nan a = true.
Proof. apply fx_nan. Qed.

(** The normalized score lies in [0, 1] unless it is nan. *)
Lemma norm_unit lo raw hi :
  (lo <=? raw)%float = true -> (raw <=? hi)%float = true ->
  ((hi - lo) =? 0)%float = false ->
  let v := ((raw - lo) / (hi - lo))%float in
  is_nan v = true \/ ((0 <=? v)%float = true /\ (v <=? 1)%float = true).
Proof.
  intros H1 H2 Hz. cbv zeta.
  apply leb_fx in H1 as (vlo & vraw & Hlo & Hraw & Hle1).
  apply leb_fx in H2 as (vraw' & vhi & Hraw' & Hhi & Hle2).
  rewrite Hraw in Hraw'. injection Hraw' as <-.
  pose proof (sub_fx raw lo _ _ Hraw Hlo) as Ha.
  pose proof (sub_fx hi lo _ _ Hhi Hlo) as Hb.
  destruct (xsub vraw vlo) as [va|] eqn:Ea;
    [|left; apply fx_is_nan, op_nan; now left].
  destruct (xsub vhi vlo) as [vb|] eqn:Eb;
    [|left; apply fx_is_nan, op_nan; now right].
  pose proof (xsub_nonneg _ _ _ Hle1 Ea) as Ha0.
  pose proof (xsub_mono_l _ _ _ _ _ Hle2 Ea Eb) as Hab.
  pose proof (xrounds_ge_0 _ _ Ha Ha0) as La.
  pose proof (xrounds_leb _ _ _ _ Ha Hb Hab) as Lab.
  apply leb_0_fx in La as (wa & Hwa & Hwa0).
  apply leb_fx in Lab as (wa' & wb & Hwa' & Hwb & Hwab).
  rewrite Hwa in Hwa'. injection Hwa' as <-.
  assert (Hnz : ~ xeq wb (Fin 0)).
  { intros E. rewrite <- Bool.not_true_iff_false in Hz. apply Hz.
    apply eqb_leb. split; apply leb_fx; rewrite fx_0.
    - exists wb, (Fin 0). repeat split; auto. now apply xeq_le.
    - exists (Fin 0), wb. repeat split; auto.
      destruct wb; cbn in *; try easy. lra. }
  pose proof (div_fx _ _ _ _ Hwa Hwb Hz) as Hd.
  destruct (xdiv wa wb) as [v|] eqn:Ed; [|left; now apply fx_is_nan].
  destruct (xdiv_unit _ _ _ Hwa0 Hwab Hnz Ed) as [Hv0 Hv1].
  right. split; [eapply xrounds_ge_0 | eapply xrounds_le_1]; eassumption.
Qed.

(** ** No underflow in a difference *)

Lemma SFval_grid f :
  valid_binary f = true ->
  exists k, (SFval f == inject_Z k * pow2 (-1074))%Q.
Proof.
  destruct f as [s| | |s m e]; intros Hv;
    try (exists 0; cbn [SFval]; change (inject_Z 0) with 0%Q; ring).
  cbn [valid_binary SpecFloat.valid_binary] in Hv.
  destruct (bounded_facts _ _ Hv) as (HE & _).
  assert (He : -1074 <= e) by (unfold fexp64 in HE; lia).
  assert (Hp : (pow2 e == inject_Z (2 ^ (e + 1074)) * pow2 (-1074))%Q).
  { rewrite <- pow2_Z, <- pow2_add by lia. now replace (e + 1074 + -1074) with e by lia. }
  cbn [SFval]. destruct s.
  - exists (- (Z.pos m * 2 ^ (e + 1074))).
    rewrite inject_Z_opp, inject_Z_mult, Hp. ring.
  - exists (Z.pos m * 2 ^ (e + 1074)).
    rewrite inject_Z_mult, Hp. ring.
Qed.

Lemma finalize_zero s s' q E : finalize s q E = S754_zero s' -> q = 0.
Proof.
  unfold finalize. destruct q; [reflexivity| |discriminate].
  destruct (_ =? _); destruct (_ <=? _); discriminate.
Qed.

Lemma rounds_to_pos_zero s s' X k :
  (0 < X)%Q -> (X == inject_Z k * pow2 (-1074))%Q ->
  ~ rounds_to_pos s X (S754_zero s').
Proof.
  intros HX Hk (g & q & Hg & Hq & Hf).
  symmetry in Hf. apply finalize_zero in Hf. subst q.
  destruct (rounds_q_bounds _ _ _ Hg Hq) as [_ Hn].
  assert (HE : fexp64 g = -1074) by (unfold fexp64 in *; lia).
  rewrite HE in Hq. destruct Hq as [[_ Hq] _].
  change (inject_Z 0) with 0%Q in Hq.
  assert (Hk1 : 1 <= k).
  { destruct (Z_lt_le_dec k 1) as [Hlt|]; [|assumption]. exfalso.
    assert (inject_Z k <= 0)%Q by (apply (inject_Z_le k 0); lia).
    pose proof (pow2_pos (-1074)). rewrite Hk in HX. nra. }
  apply (inject_Z_le 1) in Hk1. change (inject_Z 1) with 1%Q in Hk1.
  assert (E : (X * pow2 (- -1074) == inject_Z k)%Q)
    by (rewrite Hk; apply mul_pow2_cancel').
  rewrite E in Hq. lra.
Qed.

Lemma rounds_to_zero V s k :
  (V == inject_Z k * pow2 (-1074))%Q -> rounds_to V (S754_zero s) -> (V == 0)%Q.
Proof.
  intros Hk [[H0 _]|[[Hp Hr]|[Hn Hr]]]; [assumption| |]; exfalso.
  - eapply rounds_to_pos_zero; eassumption.
  - eapply (rounds_to_pos_zero _ _ (- V) (- k)); [lra| |eassumption].
    rewrite inject_Z_opp, Hk. ring.
Qed.

Lemma SFx_zero f q :
  SFx f = Some (Fin q) -> (q == 0)%Q -> exists s, f = S754_zero s.
Proof.
  destruct f as [s|[]| |[] m e]; cbn [SFx]; intros [= <-] Hq; try discriminate.
  - eauto.
  - pose proof (SFval_neg m e) as H. cbn [SFval] in *. lra.
  - pose proof (SFval_pos m e) as H. cbn [SFval] in *. lra.
Qed.

Lemma fx_Fin_val a q : fx a = Some (Fin q) -> q = SFval (Prim2SF a).
Proof.
  unfold fx. destruct (Prim2SF a) as [s|[]| |s m e]; cbn [SFx]; congruence.
Qed.

Lemma sub_eq_zero a b :
  ((a - b) =? 0)%float = true -> (a =? b)%float = true.
Proof.
  intros H. apply eqb_leb in H as [H1 H2].
  apply leb_fx in H1 as (w & z & Hw & Hz & Hle1).
  apply leb_fx in H2 as (z' & w' & Hz' & Hw' & Hle2).
  rewrite fx_0 in Hz, Hz'. injection Hz as <-. injection Hz' as <-.
  rewrite Hw in Hw'. injection Hw' as <-.
  destruct (fx a) as [va|] eqn:Ha;
    [|assert (fx (a - b) = None) by (apply op_nan; now left); congruence].
  destruct (fx b) as [vb|] eqn:Hb;
    [|assert (fx (a - b) = None) by (apply op_nan; now right); congruence].
  pose proof (sub_fx a b _ _ Ha Hb) as Hs.
  destruct (xsub va vb) as [u|] eqn:Eu; [|congruence].
  destruct w as [|q|]; cbn in Hle1, Hle2; try easy.
  assert (Hq : (q == 0)%Q) by lra.
  destruct (SFx_zero _ _ Hw Hq) as [s Hzero].
  rewrite Hzero in Hs.
  destruct u as [|d|]; cbn [xrounds] in Hs; try discriminate.
  destruct va as [|p|], vb as [|r|]; cbn in Eu; try discriminate.
  injection Eu as <-.
  destruct (SFval_grid (Prim2SF a) (Prim2SF_valid a)) as [ka Hka].
  destruct (SFval_grid (Prim2SF b) (Prim2SF_valid b)) as [kb Hkb].
  rewrite <- (fx_Fin_val _ _ Ha) in Hka. rewrite <- (fx_Fin_val _ _ Hb) in Hkb.
  assert (Hd : (p + - r == 0)%Q).
  { apply (rounds_to_zero _ s (ka - kb)); [|assumption].
    unfold Z.sub. rewrite inject_Z_plus, inject_Z_opp, Hka, Hkb. ring. }
  apply eqb_leb. split; apply leb_fx.
  - exists (Fin p), (Fin r). repeat split; auto. cbn. lra.
  - exists (Fin r), (Fin p). repeat split; auto. cbn. lra.
Qed.

(** ** Conversion of integers *)

Lemma of_Z_rounds z : xrounds (Fin (inject_Z z)) (Prim2SF (of_Z z)).
Proof.
  unfold of_Z. pose proof (binary_normalize_rounds z 0 false) as H.
  rewrite Prim2SF_SF2Prim by (eapply rounds_to_valid; exact H).
  cbn [xrounds]. revert H. apply rounds_to_ext. rewrite pow2_0. ring.
Qed.

Lemma ltb_neq a b : (a <? b)%float = true -> (b =? a)%float = false.
Proof.
  intros H. apply ltb_leb in H as [_ H].
  apply Bool.not_true_iff_false. intros E. apply eqb_leb in E as [E _]. congruence.
Qed.

Lemma of_Z_ge_1 z : 1 <= z -> (1 <=? of_Z z)%float = true.
Proof.
  intros Hz. destruct fx_1 as (q & Hq & Eq).
  eapply xrounds_leb; [apply fx_rounds, Hq | apply of_Z_rounds |].
  cbn. rewrite Eq. apply (inject_Z_le 1). assumption.
Qed.

Lemma of_Z_pos z : 1 <= z -> (0 <? of_Z z)%float = true.
Proof.
  intros Hz. eapply ltb_leb_trans; [|apply of_Z_ge_1, Hz]. reflexivity.
Qed.

Lemma of_Z_nonzero z : 1 <= z -> (of_Z z =? 0)%float = false.
Proof. intros Hz. apply ltb_neq, of_Z_pos, Hz. Qed.

(** ** Products and sums of non-negative floats *)

Lemma mul_unit n w :
  (0 <=? n)%float = true -> (n <=? 1)%float = true ->
  (0 <=? w)%float = true -> finite64 w ->
  (0 <=? n * w)%float = true /\ (n * w <=? w)%float = true.
Proof.
  intros H0 H1 Hw [q Hq].
  apply leb_0_fx in H0 as (vn & Hn & Hn0).
  apply leb_fx_1 in H1 as (vn' & Hn' & Hn1).
  rewrite Hn in Hn'. injection Hn' as <-.
  apply leb_0_fx in Hw as (vw & Hw & Hw0).
  rewrite Hq in Hw. injection Hw as <-. cbn in Hw0.
  pose proof (mul_fx n w _ _ Hn Hq) as Hm.
  destruct vn as [|p|]; cbn in Hn0, Hn1; try easy.
  cbn [xmul] in Hm.
  destruct (xmul_unit (Fin p) q _ Hn0 Hn1 Hw0 eq_refl) as [Hv0 Hv1].
  split.
  - eapply xrounds_ge_0; eassumption.
  - eapply xrounds_leb; [exact Hm | apply fx_rounds, Hq | exact Hv1].
Qed.

Lemma add_bounds a a' b b' :
  (0 <=? a)%float = true -> (a <=? a')%float = true ->
  (0 <=? b)%float = true -> (b <=? b')%float = true ->
  (0 <=? a + b)%float = true /\ (a + b <=? a' + b')%float = true.
Proof.
  intros Ha0 Ha Hb0 Hb.
  apply leb_0_fx in Ha0 as (va & Hva & Hva0).
  apply leb_fx in Ha as (va1 & va' & Hva1 & Hva' & Hle_a).
  rewrite Hva in Hva1. injection Hva1 as <-.
  apply leb_0_fx in Hb0 as (vb & Hvb & Hvb0).
  apply leb_fx in Hb as (vb1 & vb' & Hvb1 & Hvb' & Hle_b).
  rewrite Hvb in Hvb1. injection Hvb1 as <-.
  destruct (xadd_nonneg _ _ Hva0 Hvb0) as (u & Eu & Hu0).
  destruct (xadd_nonneg va' vb') as (u' & Eu' & Hu'0);
    [exact (xle_trans _ _ _ Hva0 Hle_a) | exact (xle_trans _ _ _ Hvb0 Hle_b)|].
  pose proof (add_fx a b _ _ Hva Hvb) as H1. rewrite Eu in H1.
  pose proof (add_fx a' b' _ _ Hva' Hvb') as H2. rewrite Eu' in H2.
  split.
  - eapply xrounds_ge_0; eassumption.
  - eapply xrounds_leb; [exact H1 | exact H2 |].
    exact (xadd_mono _ _ _ _ _ _ Hle_a Hle_b Eu Eu').
Qed.

Lemma add_le_r a b :
  (0 <=? a)%float = true -> (0 <=? b)%float = true ->
  (a <=? a + b)%float = true.
Proof.
  intros Ha0 Hb0.
  apply leb_0_fx in Ha0 as (va & Hva & Hva0).
  apply leb_0_fx in Hb0 as (vb & Hvb & Hvb0).
  destruct (xadd_nonneg _ _ Hva0 Hvb0) as (u & Eu & Hu0).
  pose proof (add_fx a b _ _ Hva Hvb) as H1. rewrite Eu in H1.
  eapply xrounds_leb; [apply fx_rounds, Hva | exact H1 |].
  destruct va, vb; cbn in *; try easy; injection Eu as <-; cbn; try easy. lra.
Qed.

Lemma add_le_l a b :
  (0 <=? a)%float = true -> (0 <=? b)%float = true ->
  (b <=? a + b)%float = true.
Proof.
  intros Ha0 Hb0.
  apply leb_0_fx in Ha0 as (va & Hva & Hva0).
  apply leb_0_fx in Hb0 as (vb & Hvb & Hvb0).
  destruct (xadd_nonneg _ _ Hva0 Hvb0) as (u & Eu & Hu0).
  pose proof (add_fx a b _ _ Hva Hvb) as H1. rewrite Eu in H1.
  eapply xrounds_leb; [apply fx_rounds, Hvb | exact H1 |].
  destruct va, vb; cbn in *; try easy; injection Eu as <-; cbn; try easy. lra.
Qed.

Lemma finite64_le a b :
  (0 <=? a)%float = true -> (a <=? b)%float = true -> finite64 b -> finite64 a.
Proof.
  intros Ha0 Hab [q Hq].
  apply leb_0_fx in Ha0 as (va & Hva & Hva0).
  apply leb_fx in Hab as (va' & vb & Hva' & Hvb & Hle).
  rewrite Hva in Hva'. injection Hva' as <-.
  rewrite Hq in Hvb. injection Hvb as <-.
  destruct va as [|p|]; cbn in *; try easy. now exists p.
Qed.

Lemma abs_inf a : fx a = Some PosInf -> fx (abs a) = Some PosInf.
Proof.
  unfold fx. rewrite FloatAxioms.abs_spec.
  destruct (Prim2SF a) as [s|[]| |s m e]; cbn; congruence.
Qed.

Lemma sub_inf a b :
  fx a = Some PosInf -> finite64 b -> fx (a - b) = Some PosInf.
Proof.
  intros Ha [q Hb]. pose proof (sub_fx a b _ _ Ha Hb) as H. cbn in H.
  unfold fx. now rewrite H.
Qed.

Lemma ltb_finite a b : (a <? b)%float = true -> finite64 b ->
  (0 <=? a)%float = true -> finite64 a.
Proof.
  intros H Hb Ha. apply ltb_leb_weak in H. eapply finite64_le; eassumption.
Qed.

(** * The ranker on binary64 *)

(** ** Binary64: helpers *)

Lemma is_nan_op a b :
  is_nan a = true \/ is_nan b = true ->
  is_nan (a + b) = true /\ is_nan (a - b) = true
  /\ is_nan (a * b) = true /\ is_nan (a / b) = true.
Proof.
  intros H.
  assert (Hfx : fx a = None \/ fx b = None)
    by (destruct H as [H|H]; [left | right]; now apply fx_nan).
  destruct (op_nan a b Hfx) as (H1 & H2 & H3 & H4).
  repeat split; now apply fx_is_nan.
Qed.

Lemma finite64_not_nan a : finite64 a -> is_nan a = false.
Proof. intros [q Hq]. apply fx_not_nan. eauto. Qed.

Lemma item_has_key64 key r :
  has_key64 key r -> B64.item r key = Ok (raw64 key r).
Proof. intros [v Hv]. unfold B64.item, raw64. now rewrite Hv. Qed.

Lemma mapM_item64 key (l : list B64.rec) :
  Forall (has_key64 key) l ->
  mapM (fun r => B64.item r key) l = Ok (map (raw64 key) l).
Proof.
  intros H. apply mapM_Ok. eapply Forall_impl; [exact H|].
  intros r Hr. now apply item_has_key64.
Qed.

Lemma py_div_Ok a b :
  (b =? 0)%float = false -> B64.py_div a b = Ok (a / b)%float.
Proof. intros H. unfold B64.py_div. now rewrite H. Qed.

Lemma sub_nonzero a b :
  (a =? b)%float = false -> ((a - b) =? 0)%float = false.
Proof.
  intros H. destruct ((a - b) =? 0)%float eqn:E; [|reflexivity].
  apply sub_eq_zero in E. congruence.
Qed.

(** ** Binary64: min and max *)

Lemma py_min_nan xs : forall x, is_nan x = true -> B64.py_min x xs = x.
Proof.
  unfold B64.py_min. induction xs as [|y xs IH]; intros x Hx; simpl; auto.
  destruct (y <? x)%float eqn:E.
  - apply ltb_not_nan in E as [_ E]. congruence.
  - now apply IH.
Qed.

Lemma py_max_nan xs : forall x, is_nan x = true -> B64.py_max x xs = x.
Proof.
  unfold B64.py_max. induction xs as [|y xs IH]; intros x Hx; simpl; auto.
  destruct (x <? y)%float eqn:E.
  - apply ltb_not_nan in E as [E _]. congruence.
  - now apply IH.
Qed.

Lemma py_min_In xs : forall x, In (B64.py_min x xs) (x :: xs).
Proof.
  unfold B64.py_min. induction xs as [|y xs IH]; intros x; simpl; auto.
  destruct (y <? x)%float.
  - right. apply IH.
  - destruct (IH x) as [H|H]; [now left | now right; right].
Qed.

Lemma py_max_In xs : forall x, In (B64.py_max x xs) (x :: xs).
Proof.
  unfold B64.py_max. induction xs as [|y xs IH]; intros x; simpl; auto.
  destruct (x <? y)%float.
  - right. apply IH.
  - destruct (IH x) as [H|H]; [now left | now right; right].
Qed.

(** Unless it is nan, the result of [min] is below every element that is
    not nan. *)
Lemma py_min_lower xs : forall x,
  is_nan (B64.py_min x xs) = true
  \/ Forall (fun v => is_nan v = true \/ (B64.py_min x xs <=? v)%float = true)
            (x :: xs).
Proof.
  induction xs as [|y xs IH]; intros x.
  - unfold B64.py_min. simpl. destruct (is_nan x) eqn:Ex; [now left|].
    right. constructor; [|constructor]. right. now apply leb_refl.
  - change (B64.py_min x (y :: xs))
      with (B64.py_min (if (y <? x)%float then y else x) xs).
    destruct (y <? x)%float eqn:E.
    + destruct (IH y) as [H|H]; [now left|]. right.
      apply Forall_cons in H as [Hy Hrest].
      constructor; [|constructor; assumption].
      destruct (ltb_not_nan _ _ E) as [Ny Nx].
      destruct Hy as [Hy|Hy]; [congruence|]. right.
      apply ltb_leb_weak. eapply leb_ltb_trans; eauto.
    + destruct (is_nan x) eqn:Ex.
      { left. now rewrite py_min_nan. }
      destruct (IH x) as [H|H]; [now left|]. right.
      apply Forall_cons in H as [Hx Hrest].
      constructor; [assumption|]. constructor; [|assumption].
      destruct (is_nan y) eqn:Ey; [now left|]. right.
      destruct Hx as [Hx|Hx]; [congruence|].
      eapply leb_trans; [exact Hx|]. now apply leb_total.
Qed.

Lemma py_max_upper xs : forall x,
  is_nan (B64.py_max x xs) = true
  \/ Forall (fun v => is_nan v = true \/ (v <=? B64.py_max x xs)%float = true)
            (x :: xs).
Proof.
  induction xs as [|y xs IH]; intros x.
  - unfold B64.py_max. simpl. destruct (is_nan x) eqn:Ex; [now left|].
    right. constructor; [|constructor]. right. now apply leb_refl.
  - change (B64.py_max x (y :: xs))
      with (B64.py_max (if (x <? y)%float then y else x) xs).
    destruct (x <? y)%float eqn:E.
    + destruct (IH y) as [H|H]; [now left|]. right.
      apply Forall_cons in H as [Hy Hrest].
      constructor; [|constructor; assumption].
      destruct (ltb_not_nan _ _ E) as [Nx Ny].
      destruct Hy as [Hy|Hy]; [congruence|]. right.
      apply ltb_leb_weak. eapply ltb_leb_trans; eauto.
    + destruct (is_nan x) eqn:Ex.
      { left. now rewrite py_max_nan. }
      destruct (IH x) as [H|H]; [now left|]. right.
      apply Forall_cons in H as [Hx Hrest].
      constructor; [assumption|]. constructor; [|assumption].
      destruct (is_nan y) eqn:Ey; [now left|]. right.
      destruct Hx as [Hx|Hx]; [congruence|].
      eapply leb_trans; [|exact Hx]. now apply leb_total.
Qed.

(** On scores without nan, [min] and [max] return a least and a greatest
    element. *)
Lemma py_min_max_spec x xs :
  no_nan (x :: xs) ->
  (In (B64.py_min x xs) (x :: xs)
   /\ Forall (fun v => (B64.py_min x xs <=? v)%float = true) (x :: xs))
  /\ (In (B64.py_max x xs) (x :: xs)
      /\ Forall (fun v => (v <=? B64.py_max x xs)%float = true) (x :: xs)).
Proof.
  intros Hnn. unfold no_nan in Hnn. rewrite List.Forall_forall in Hnn.
  split; split; try apply py_min_In; try apply py_max_In.
  - destruct (py_min_lower xs x) as [H|H].
    + rewrite (Hnn _ (py_min_In xs x)) in H. discriminate.
    + rewrite List.Forall_forall in H. rewrite List.Forall_forall.
      intros v Hv. destruct (H v Hv) as [H'|H']; [|assumption].
      rewrite (Hnn _ Hv) in H'. discriminate.
  - destruct (py_max_upper xs x) as [H|H].
    + rewrite (Hnn _ (py_max_In xs x)) in H. discriminate.
    + rewrite List.Forall_forall in H. rewrite List.Forall_forall.
      intros v Hv. destruct (H v Hv) as [H'|H']; [|assumption].
      rewrite (Hnn _ Hv) in H'. discriminate.
Qed.

(** ** Binary64: dictionaries filled from candidates *)

Section DictFacts64.
Context {V : Type}.
Implicit Types (d : dict V) (k : Z) (v : V).

Lemma fill64_keys (g : B64.rec -> V) recs : forall d k,
  In k (keys (fill64 g recs d))
  <-> In k (keys d) \/ In k (map B64.movieId recs).
Proof.
  unfold fill64. induction recs as [|r recs IH]; intros d k; simpl.
  - tauto.
  - rewrite IH, In_keys_set. intuition.
Qed.

Lemma fill64_get_other (g : B64.rec -> V) recs : forall d k,
  ~ In k (map B64.movieId recs) -> dict_get k (fill64 g recs d) = dict_get k d.
Proof.
  unfold fill64. induction recs as [|r recs IH]; intros d k Hk; simpl; auto.
  simpl in Hk. rewrite IH by tauto. apply dict_get_set_ne. tauto.
Qed.

Lemma fill64_get_last (g : B64.rec -> V) pre r post d :
  ~ In (B64.movieId r) (map B64.movieId post) ->
  dict_get (B64.movieId r) (fill64 g (pre ++ r :: post) d) = Some (g r).
Proof.
  intros Hpost. unfold fill64. rewrite fold_left_app. simpl.
  pose proof (fill64_get_other g post) as Hother. unfold fill64 in Hother.
  rewrite Hother by assumption. apply dict_get_set_eq.
Qed.

Lemma fill64_get_inv (g : B64.rec -> V) recs : forall d k v,
  dict_get k (fill64 g recs d) = Some v ->
  dict_get k d = Some v
  \/ exists r, In r recs /\ B64.movieId r = k /\ v = g r.
Proof.
  unfold fill64. induction recs as [|r recs IH]; intros d k v H; simpl in *.
  - now left.
  - apply IH in H as [H|(r' & Hin & Hid & Hv)].
    + destruct (Z.eq_dec (B64.movieId r) k) as [<-|Hne].
      * rewrite dict_get_set_eq in H. injection H as <-. right. eauto.
      * rewrite dict_get_set_ne in H by assumption. now left.
    + right. eauto.
Qed.

Lemma fill64_const (c : V) recs : forall d r,
  In r recs ->
  dict_get (B64.movieId r) (fill64 (fun _ => c) recs d) = Some c.
Proof.
  intros d r Hin. apply in_split in Hin as (pre & post & ->).
  revert pre r. induction post as [|p post IH] using rev_ind; intros pre r.
  - now apply (fill64_get_last (fun _ => c)).
  - replace (pre ++ r :: post ++ [p])
      with ((pre ++ r :: post) ++ [p]) by now rewrite <- app_assoc.
    unfold fill64. rewrite fold_left_app. simpl.
    destruct (Z.eq_dec (B64.movieId p) (B64.movieId r)) as [Heq|Hne].
    + rewrite Heq. apply dict_get_set_eq.
    + rewrite dict_get_set_ne by assumption. apply IH.
Qed.
End DictFacts64.

(** ** Binary64: the normalizer *)

Lemma normalize_loop_fill64 key lo hi recs : forall d,
  Forall (has_key64 key) recs ->
  ((hi - lo) =? 0)%float = false ->
  B64.Ranker.normalize_loop recs key lo hi d
  = Ok (fill64 (fun r => ((raw64 key r - lo) / (hi - lo))%float) recs d).
Proof.
  induction recs as [|r recs IH]; intros d Hk Hne; simpl; [reflexivity|].
  apply Forall_cons in Hk as [Hr Hk].
  rewrite (item_has_key64 _ _ Hr). cbn [Py.bind].
  rewrite (py_div_Ok _ _ Hne). cbn [Py.bind]. now apply IH.
Qed.

Lemma normalize_scores_fill64 key recs :
  Forall (has_key64 key) recs ->
  B64.Ranker.normalize_scores recs key = Ok (normalized_of64 key recs).
Proof.
  intros Hk. unfold B64.Ranker.normalize_scores, normalized_of64,
    unit_or_scaled64.
  destruct recs as [|r recs]; [reflexivity|].
  rewrite (mapM_item64 _ _ Hk). cbn [Py.bind map].
  destruct (_ =? _)%float eqn:E; [reflexivity|].
  rewrite normalize_loop_fill64; auto using sub_nonzero.
Qed.

Lemma in_unit_1 : in_unit 1.
Proof. split; reflexivity. Qed.

(** The stored value is nan or a number of [0,1]. *)
Lemma unit_or_scaled64_range key recs r :
  In r recs ->
  is_nan (unit_or_scaled64 key recs r) = true
  \/ in_unit (unit_or_scaled64 key recs r).
Proof.
  intros Hin. unfold unit_or_scaled64.
  destruct (map (raw64 key) recs) as [|s0 ss] eqn:E;
    [right; apply in_unit_1|].
  destruct (_ =? _)%float eqn:Eq; [right; apply in_unit_1|].
  assert (Hraw : In (raw64 key r) (s0 :: ss))
    by (rewrite <- E; now apply in_map).
  set (lo := B64.py_min s0 ss) in *. set (hi := B64.py_max s0 ss) in *.
  destruct (py_min_lower ss s0) as [Hlo|Hlo].
  { left. fold lo in Hlo.
    apply is_nan_op. left. apply is_nan_op. now right. }
  destruct (py_max_upper ss s0) as [Hhi|Hhi].
  { left. fold hi in Hhi.
    apply is_nan_op. right. apply is_nan_op. now left. }
  rewrite List.Forall_forall in Hlo, Hhi.
  destruct (Hlo _ Hraw) as [Hn|Hlo'].
  { left. apply is_nan_op. left. apply is_nan_op. now left. }
  destruct (Hhi _ Hraw) as [Hn|Hhi'].
  { left. apply is_nan_op. left. apply is_nan_op. now left. }
  apply norm_unit; auto using sub_nonzero.
Qed.

Lemma div_finite a b :
  finite64 a -> finite64 b -> (b =? 0)%float = false ->
  is_nan (a / b) = false.
Proof.
  intros [p Hp] [q Hq] Hne.
  pose proof (div_fx a b _ _ Hp Hq Hne) as H. cbn [xdiv] in H.
  apply fx_not_nan. eapply xrounds_fx, H.
Qed.

Lemma sub_bounds lo raw hi :
  (lo <=? raw)%float = true -> (raw <=? hi)%float = true ->
  finite64 (hi - lo) ->
  (0 <=? raw - lo)%float = true /\ (raw - lo <=? hi - lo)%float = true.
Proof.
  intros H1 H2 Hfin.
  apply leb_fx in H1 as (vlo & vraw & Hlo & Hraw & Hle1).
  apply leb_fx in H2 as (vraw' & vhi & Hraw' & Hhi & Hle2).
  rewrite Hraw in Hraw'. injection Hraw' as <-.
  pose proof (sub_fx raw lo _ _ Hraw Hlo) as Hs1.
  pose proof (sub_fx hi lo _ _ Hhi Hlo) as Hs2.
  destruct Hfin as [q Hq].
  destruct (xsub vhi vlo) as [u2|] eqn:E2; [|congruence].
  destruct (xsub vraw vlo) as [u1|] eqn:E1.
  - split.
    + eapply xrounds_ge_0; [exact Hs1|].
      exact (xsub_nonneg _ _ _ Hle1 E1).
    + eapply xrounds_leb; [exact Hs1 | exact Hs2|].
      exact (xsub_mono_l _ _ _ _ _ Hle2 E1 E2).
  - exfalso.
    destruct vraw, vlo, vhi; cbn in E1, E2, Hle1, Hle2; try discriminate;
      try contradiction; injection E2 as <-; cbn in Hs2; unfold fx in Hq;
      rewrite Hs2 in Hq; discriminate.
Qed.

(** On finite scores whose range is finite the stored value is a number
    of [0,1]. *)
Lemma unit_or_scaled64_unit key recs r :
  in_range64 key recs -> In r recs -> in_unit (unit_or_scaled64 key recs r).
Proof.
  intros [Hfin Hrange] Hin.
  pose proof (unit_or_scaled64_range key recs r Hin) as Hr.
  destruct Hr as [Hnan|Hunit]; [|assumption]. exfalso.
  unfold unit_or_scaled64 in Hnan.
  destruct (map (raw64 key) recs) as [|s0 ss] eqn:E; [discriminate|].
  specialize (Hrange _ _ eq_refl).
  destruct (_ =? _)%float eqn:Eq; [discriminate|].
  assert (Hraw : In (raw64 key r) (s0 :: ss))
    by (rewrite <- E; now apply in_map).
  assert (Hnn : no_nan (s0 :: ss)).
  { eapply Forall_impl; [exact Hfin|]. apply finite64_not_nan. }
  destruct (py_min_max_spec s0 ss Hnn) as [[_ Hlo] [_ Hhi]].
  rewrite List.Forall_forall in Hlo, Hhi.
  destruct (sub_bounds _ _ _ (Hlo _ Hraw) (Hhi _ Hraw) Hrange) as [H0 H1].
  rewrite div_finite in Hnan; [discriminate| |assumption|].
  - eapply finite64_le; eauto.
  - now apply sub_nonzero.
Qed.

Lemma normalized_of64_keys key recs id :
  In id (keys (normalized_of64 key recs)) <-> In id (map B64.movieId recs).
Proof. unfold normalized_of64. rewrite fill64_keys. simpl. tauto. Qed.

Lemma normalized_of64_range key recs id v :
  dict_get id (normalized_of64 key recs) = Some v ->
  is_nan v = true \/ in_unit v.
Proof.
  intros Hget. apply fill64_get_inv in Hget as [H|(r & Hin & _ & ->)].
  - discriminate.
  - now apply unit_or_scaled64_range.
Qed.

Lemma normalized_of64_unit key recs :
  in_range64 key recs -> unit_valued64 (normalized_of64 key recs).
Proof.
  intros Hr id v Hget. apply fill64_get_inv in Hget as [H|(r & Hin & _ & ->)].
  - discriminate.
  - now apply unit_or_scaled64_unit.
Qed.

(** C3, as amended. On candidates that carry the score key the normalizer
    returns: the empty map on empty input, and otherwise a map whose keys
    are the candidates' movie ids. On scores without nan, [min] and [max]
    are a least and a greatest raw score. When they are equal, every
    movieId is mapped to exactly 1.0; otherwise each movieId is mapped to
    the binary64 value of (raw - min) / (max - min), raw being the score
    of the last candidate with that id. Every value of the map is nan or
    lies in [0,1]; it lies in [0,1] when the raw scores are finite and
    max - min is finite. *)
Theorem normalize_scores_min_max (recommendations : list B64.rec)
    (score_key : string) :
  Forall (has_key64 score_key) recommendations ->
  exists normalized,
    B64.Ranker.normalize_scores recommendations score_key = Ok normalized
    /\ (recommendations = [] -> normalized = [])
    /\ (forall id,
          In id (keys normalized)
          <-> In id (map B64.movieId recommendations))
    /\ (forall s0 ss,
          map (raw64 score_key) recommendations = s0 :: ss ->
          let lo := B64.py_min s0 ss in
          let hi := B64.py_max s0 ss in
          (no_nan (s0 :: ss) ->
           (In lo (s0 :: ss)
            /\ Forall (fun v => (lo <=? v)%float = true) (s0 :: ss))
           /\ (In hi (s0 :: ss)
               /\ Forall (fun v => (v <=? hi)%float = true) (s0 :: ss)))
          /\ ((hi =? lo)%float = true ->
              forall r, In r recommendations ->
                        dict_get (B64.movieId r) normalized = Some 1%float)
          /\ ((hi =? lo)%float = false ->
              forall pre r post,
                recommendations = pre ++ r :: post ->
                ~ In (B64.movieId r) (map B64.movieId post) ->
                dict_get (B64.movieId r) normalized
                = Some ((raw64 score_key r - lo) / (hi - lo))%float))
    /\ (forall id v,
          dict_get id normalized = Some v -> is_nan v = true \/ in_unit v)
    /\ (in_range64 score_key recommendations ->
        forall id v, dict_get id normalized = Some v -> in_unit v).
Proof.
  intros Hk. eexists. split; [now apply normalize_scores_fill64|].
  split; [intros ->; reflexivity|].
  split; [apply normalized_of64_keys|].
  split; [|split; [apply normalized_of64_range|]].
  - intros s0 ss E lo hi.
    split; [apply py_min_max_spec|].
    unfold normalized_of64, unit_or_scaled64. rewrite E. fold lo hi.
    split; intros Heq; rewrite Heq.
    + intros r Hin. now apply fill64_const.
    + intros pre r post -> Hpost.
      exact (fill64_get_last
               (fun r => ((raw64 score_key r - lo) / (hi - lo))%float)
               pre r post [] Hpost).
  - intros Hr id v. now apply normalized_of64_unit.
Qed.

Lemma normalize_scores_min_max_witness :
  exists normalized,
    B64.Ranker.normalize_scores
      [cand 1 "Drama" "score" 4.5; cand 2 "Drama" "score" 3;
       cand 3 "Drama" "score" 3.5]%float "score" = Ok normalized
    /\ forall id v, dict_get id normalized = Some v ->
                    is_nan v = true \/ in_unit v.
Proof.
  destruct (normalize_scores_min_max
              [cand 1 "Drama" "score" 4.5; cand 2 "Drama" "score" 3;
               cand 3 "Drama" "score" 3.5]%float "score")
    as (normalized & Hn & _ & _ & _ & Hrange & _).
  - has_keys64.
  - exists normalized. split; assumption.
Defined.

(** C3, as stated, fails on finite scores whose range is not a finite
    float: with the raw scores 1e308 and -1e308 the difference max - min
    overflows to infinity, the greatest score is normalized to
    inf / inf = nan, and nan is no number of [0,1]. *)
Lemma normalize_scores_overflow :
  let recs := [cand 1 "Drama" "score" 1e308;
               cand 2 "Drama" "score" (-1e308)]%float in
  Forall finite64 (map (raw64 "score") recs)
  /\ B64.Ranker.normalize_scores recs "score"
     = Ok [(1, nan); (2, 0%float)]
  /\ is_nan nan = true
  /\ (0 <=? nan)%float = false /\ (nan <=? 1)%float = false.
Proof.
  cbn zeta. split.
  - repeat constructor; eexists; vm_compute; reflexivity.
  - repeat split; vm_compute; reflexivity.
Qed.

(** Scenario B: equal raw scores all normalize to 1.0. *)
Example scenario_B :
  B64.Ranker.normalize_scores
    [cand 1 "Drama" "score" 3.5; cand 2 "Drama" "score" 3.5]%float "score"
  = Ok [(1, 1%float); (2, 1%float)].
Proof. vm_compute. reflexivity. Qed.

(** ** Binary64: the sort *)

(** The insertion sort orders a list on which the comparison is total. *)
Lemma sorted_desc_sorted_on {A} (ge : A -> A -> bool) (P : A -> Prop) l :
  (forall a b, P a -> P b -> ge a b = false -> ge b a = true) ->
  (forall a b c, ge a b = true -> ge b c = true -> ge a c = true) ->
  Forall P l ->
  StronglySorted (fun a b => ge a b = true) (sorted_desc ge l).
Proof.
  intros Htot Htrans. induction 1 as [|x l Hx Hl IH]; simpl; [constructor|].
  assert (HP : Forall P (sorted_desc ge l)).
  { rewrite List.Forall_forall. intros y Hy.
    apply (Permutation_in _ (sorted_desc_perm ge l)) in Hy.
    rewrite List.Forall_forall in Hl. now apply Hl. }
  revert IH HP. generalize (sorted_desc ge l). clear l Hl.
  induction 1 as [|y l Hs IH Hy]; intros HP; simpl.
  - repeat constructor.
  - apply Forall_cons in HP as [Py HP]. destruct (ge x y) eqn:E.
    + constructor; [now constructor|].
      constructor; [assumption|].
      eapply Forall_impl; [exact Hy|]. intros z Hz. eauto.
    + constructor; [auto|].
      rewrite List.Forall_forall. intros z Hz.
      apply (Permutation_in _ (insert_desc_perm ge x l)) in Hz.
      destruct Hz as [<-|Hz]; [now apply Htot|].
      rewrite List.Forall_forall in Hy. now apply Hy.
Qed.

Lemma non_increasing64_no_nan l :
  (2 <= length l)%nat -> non_increasing64 l -> no_nan l.
Proof.
  intros Hlen Hs. unfold non_increasing64 in Hs.
  destruct l as [|a [|b l]]; simpl in Hlen; try lia.
  apply StronglySorted_inv in Hs as [Hs Ha].
  apply Forall_cons in Ha as [Hba Ha].
  constructor; [apply (leb_not_nan _ _ Hba)|].
  constructor; [apply (leb_not_nan _ _ Hba)|].
  eapply Forall_impl; [exact Ha|]. intros v Hv. apply (leb_not_nan _ _ Hv).
Qed.

Lemma sorted_by_item_desc64_Ok py_sorted key xs :
  py_sorted_ok py_sorted ->
  Forall (has_key64 key) xs ->
  exists out,
    B64.Ranker.sorted_by_item_desc py_sorted key xs = Ok out
    /\ Permutation out xs
    /\ (no_nan (map (raw64 key) xs) ->
        out = map snd (stable_sort (map (fun x => (raw64 key x, x)) xs))
        /\ non_increasing64 (map (raw64 key) out)).
Proof.
  intros Hsort Hk. unfold B64.Ranker.sorted_by_item_desc.
  rewrite (mapM_Ok _ (fun x => (raw64 key x, x))).
  2:{ eapply Forall_impl; [exact Hk|]. intros x Hx. simpl.
      now rewrite (item_has_key64 _ _ Hx). }
  cbn [Py.bind]. eexists. split; [reflexivity|].
  set (keyed := map (fun x => (raw64 key x, x)) xs).
  destruct (Hsort keyed) as [Hperm Hstable].
  assert (Hsnd : map snd keyed = xs).
  { unfold keyed. rewrite map_map. simpl. apply map_id. }
  assert (Hfst : map fst keyed = map (raw64 key) xs).
  { unfold keyed. rewrite map_map. reflexivity. }
  split.
  - rewrite Hperm. now rewrite Hsnd.
  - intros Hnn. rewrite Hstable by now rewrite Hfst.
    split; [reflexivity|].
    unfold stable_sort.
    set (ge := fun a b : float * B64.rec => (fst b <=? fst a)%float).
    assert (Hs : StronglySorted (fun a b => ge a b = true)
                                (sorted_desc ge keyed)).
    { apply (sorted_desc_sorted_on ge (fun p => is_nan (fst p) = false)).
      - unfold ge. intros a b Ha Hb Hab.
        apply leb_total; auto.
        destruct (fst b <? fst a)%float eqn:E; [|reflexivity].
        apply ltb_leb_weak in E. congruence.
      - unfold ge. intros a b c Hab Hbc. eapply leb_trans; eauto.
      - rewrite <- Hfst in Hnn. unfold no_nan in Hnn.
        rewrite List.Forall_forall in Hnn. rewrite List.Forall_forall.
        intros p Hp. apply Hnn. now apply in_map. }
    assert (Hkey : Forall (fun p => fst p = raw64 key (snd p))
                          (sorted_desc ge keyed)).
    { rewrite (sorted_desc_perm ge keyed). unfold keyed.
      rewrite List.Forall_forall. intros p Hp.
      apply in_map_iff in Hp as (x & <- & _). reflexivity. }
    revert Hkey Hs. generalize (sorted_desc ge keyed). clear.
    unfold non_increasing64.
    induction l as [|p l IH]; intros Hkey Hs; simpl; [constructor|].
    apply Forall_cons in Hkey as [Hp Hkey].
    apply StronglySorted_inv in Hs as [Hs Hall].
    constructor; [auto|].
    rewrite List.Forall_forall in Hall, Hkey.
    rewrite List.Forall_forall. intros y Hy.
    apply in_map_iff in Hy as (v & <- & Hv).
    apply in_map_iff in Hv as (q & <- & Hq).
    specialize (Hall _ Hq). unfold ge in Hall.
    now rewrite <- Hp, <- (Hkey q Hq).
Qed.

(** ** Binary64: the merge *)

Lemma first_match64_Some recs id r :
  first_match64 recs id = Some r ->
  B64.movieId r = id /\
  exists pre post, recs = pre ++ r :: post
                   /\ ~ In id (map B64.movieId pre).
Proof.
  unfold first_match64. induction recs as [|x recs IH]; simpl; [discriminate|].
  destruct (B64.movieId x =? id) eqn:E.
  - intros [= ->]. apply Z.eqb_eq in E. split; [assumption|].
    exists [], recs. split; [reflexivity | simpl; tauto].
  - intros H. apply IH in H as (Hid & pre & post & -> & Hpre).
    split; [assumption|]. exists (x :: pre), post. split; [reflexivity|].
    simpl. apply Z.eqb_neq in E. tauto.
Qed.

Lemma first_match64_is_Some recs id :
  In id (map B64.movieId recs) -> is_Some (first_match64 recs id).
Proof.
  unfold first_match64. induction recs as [|x recs IH]; simpl; [tauto|].
  destruct (B64.movieId x =? id) eqn:E; [eauto|].
  apply Z.eqb_neq in E. intros [H|H]; [congruence | auto].
Qed.

Section MergeFacts64.
Context (collab_recs content_recs stats_recs : list B64.rec).
Context (cn tn sn : dict float) (cw tw sw : float).

Local Abbreviation all_recs64 :=
  (collab_recs ++ content_recs ++ stats_recs).
Local Abbreviation step64 :=
  (B64.Ranker.merge_step collab_recs content_recs stats_recs
                         cn tn sn cw tw sw).
Local Abbreviation entries64 :=
  (merged_entries64 collab_recs content_recs stats_recs cn tn sn cw tw sw).

Lemma merge_loop64 ids : forall st,
  NoDup ids ->
  (forall id, In id ids -> ~ In id (keys (snd st))) ->
  snd (fold_left step64 ids st) = snd st ++ entries64 ids.
Proof.
  induction ids as [|id ids IH]; intros [cs md] Hnd Hfresh; simpl.
  - now rewrite app_nil_r.
  - apply NoDup_cons in Hnd as [Hid Hnd]. rewrite list_elem_of_In in Hid.
    simpl in Hfresh. unfold first_match64.
    destruct (List.find _ _) as [r|] eqn:E.
    + rewrite IH; [|assumption|].
      * simpl. rewrite dict_set_fresh by (apply Hfresh; now left).
        now rewrite <- app_assoc.
      * intros x Hx. simpl. rewrite In_keys_set.
        intros [->|H]; [tauto|]. eapply Hfresh; eauto.
    + rewrite IH; [reflexivity | assumption |].
      intros x Hx. simpl. apply Hfresh. now right.
Qed.

Lemma merged_entries64_all ids :
  (forall id, In id ids -> In id (map B64.movieId all_recs64)) ->
  map (fun e => B64.movieId (snd e)) (entries64 ids) = ids
  /\ forall e, In e (entries64 ids) ->
               In (fst e) ids /\
               exists r, first_match64 all_recs64 (fst e) = Some r
                         /\ snd e = B64.Ranker.details (fst e) r
                              (B64.Ranker.combined cn tn sn cw tw sw (fst e)).
Proof.
  unfold merged_entries64. induction ids as [|id ids IH]; intros Hin; simpl.
  - split; [reflexivity | tauto].
  - destruct IH as [IH1 IH2]; [intros; apply Hin; now right|].
    destruct (first_match64_is_Some all_recs64 id) as [r Hr];
      [apply Hin; now left|].
    rewrite Hr. simpl. split; [now rewrite IH1|].
    intros e [<-|He]; simpl.
    + split; [now left | eauto].
    + destruct (IH2 _ He) as [H1 H2]. split; [now right | assumption].
Qed.
End MergeFacts64.

Lemma details64_combined_score id r s :
  B64.num (B64.Ranker.details id r s) !! "combined_score" = Some s.
Proof. unfold B64.Ranker.details. simpl. apply lookup_singleton_eq. Qed.

Section MergeResult64.
Context (set_iter : list Z -> list Z) (Hiter : set_iter_ok set_iter).
Context (py_sorted : list (float * B64.rec) -> list (float * B64.rec)).
Context (Hsort : py_sorted_ok py_sorted).
Context (collab_recs content_recs stats_recs : list B64.rec).
Context (cw tw sw : float).
Hypothesis Hc : Forall (has_key64 "predicted_rating") collab_recs.
Hypothesis Ht : Forall (has_key64 "score") content_recs.
Hypothesis Hs : Forall (has_key64 "weighted_rating") stats_recs.
Hypothesis Hw : B64.Ranker.weights_ok [cw; tw; sw] = true.

Let cn := normalized_of64 "predicted_rating" collab_recs.
Let tn := normalized_of64 "score" content_recs.
Let sn := normalized_of64 "weighted_rating" stats_recs.
Let ids := set_iter (keys cn ++ keys tn ++ keys sn).
Let all_recs := collab_recs ++ content_recs ++ stats_recs.

Lemma merge_ids_matched64 id :
  In id ids -> In id (map B64.movieId all_recs).
Proof.
  unfold ids, all_recs.
  destruct (Hiter (keys cn ++ keys tn ++ keys sn)) as [_ H].
  rewrite H, !in_app_iff, !map_app, !in_app_iff.
  unfold cn, tn, sn. rewrite !normalized_of64_keys. tauto.
Qed.

Lemma merge_and_rank64_Ok :
  exists ranked,
    B64.Ranker.merge_and_rank set_iter py_sorted collab_recs content_recs
                              stats_recs [cw; tw; sw] = Ok ranked
    /\ Permutation ranked
         (values (merged_entries64 collab_recs content_recs stats_recs
                                   cn tn sn cw tw sw ids))
    /\ (no_nan (map (raw64 "combined_score") ranked) ->
        non_increasing64 (map (raw64 "combined_score") ranked)).
Proof.
  unfold B64.Ranker.merge_and_rank. rewrite Hw. cbn [negb].
  rewrite (normalize_scores_fill64 _ _ Hc), (normalize_scores_fill64 _ _ Ht),
          (normalize_scores_fill64 _ _ Hs).
  cbn [Py.bind]. fold cn tn sn. fold ids.
  pose proof (merge_loop64 collab_recs content_recs stats_recs
                           cn tn sn cw tw sw ids ([], [])) as Hloop.
  match goal with
  | |- context [fold_left ?f ids ?a] =>
      destruct (fold_left f ids a) as [cs md]
  end.
  simpl in Hloop. rewrite Hloop.
  2:{ apply Hiter. }
  2:{ simpl. tauto. }
  match goal with
  | |- context [B64.Ranker.sorted_by_item_desc _ _ ?xs] =>
      destruct (sorted_by_item_desc64_Ok py_sorted "combined_score" xs Hsort)
        as (out & Hout & Hperm & Hsorted)
  end.
  { destruct (merged_entries64_all collab_recs content_recs stats_recs
                cn tn sn cw tw sw ids merge_ids_matched64) as [_ Hall].
    rewrite List.Forall_forall. intros x Hx.
    apply in_map_iff in Hx as (e & <- & He).
    destruct (Hall _ He) as (_ & r & _ & ->).
    unfold has_key64. rewrite details64_combined_score. eauto. }
  exists out. split; [assumption|]. split; [assumption|].
  intros Hnn. apply Hsorted.
  unfold no_nan in *. rewrite List.Forall_forall in Hnn.
  rewrite List.Forall_forall. intros v Hv. apply Hnn.
  eapply Permutation_in; [|exact Hv]. apply Permutation_map.
  now symmetry.
Qed.

Lemma merge_and_rank64_entries :
  exists ranked,
    B64.Ranker.merge_and_rank set_iter py_sorted collab_recs content_recs
                              stats_recs [cw; tw; sw] = Ok ranked
    /\ Permutation (map B64.movieId ranked) ids
    /\ (forall r, In r ranked ->
          exists src,
            first_match64 all_recs (B64.movieId r) = Some src
            /\ r = B64.Ranker.details (B64.movieId r) src
                     (B64.Ranker.combined cn tn sn cw tw sw (B64.movieId r)))
    /\ (no_nan (map (raw64 "combined_score") ranked) ->
        non_increasing64 (map (raw64 "combined_score") ranked)).
Proof.
  destruct merge_and_rank64_Ok as (ranked & Hm & Hperm & Hsorted).
  destruct (merged_entries64_all collab_recs content_recs stats_recs
              cn tn sn cw tw sw ids merge_ids_matched64) as [Hids Hall].
  exists ranked. split; [assumption|]. split; [|split; [|assumption]].
  - rewrite Hperm. unfold values. rewrite map_map. now rewrite Hids.
  - intros r Hr. apply (Permutation_in _ Hperm) in Hr.
    apply in_map_iff in Hr as (e & <- & He).
    destruct (Hall _ He) as (_ & src & Hsrc & Hsnd).
    rewrite Hsnd. simpl. eauto.
Qed.
End MergeResult64.

Lemma stable_sort_ok : py_sorted_ok stable_sort.
Proof.
  intros l. split; [apply sorted_desc_perm | reflexivity].
Qed.

(** C2, as amended. For three candidate lists carrying their score keys
    and a weight triple that passes the check, the merge returns one entry
    per distinct movieId of the union of the three normalized maps; the
    combined score of an entry is the binary64 sum, started at 0.0 and
    taken in the order collaborative, content, statistical, of normalized
    score times weight over the sources that hold its movieId (a source
    without the movie adds nothing); and when no combined score is nan the
    entries are in non-increasing order of combined score. *)
Theorem merge_and_rank_weighted_union (set_iter : list Z -> list Z)
    (py_sorted : list (float * B64.rec) -> list (float * B64.rec))
    (collab_recs content_recs stats_recs : list B64.rec)
    (cw tw sw : float) :
  set_iter_ok set_iter ->
  py_sorted_ok py_sorted ->
  Forall (has_key64 "predicted_rating") collab_recs ->
  Forall (has_key64 "score") content_recs ->
  Forall (has_key64 "weighted_rating") stats_recs ->
  B64.Ranker.weights_ok [cw; tw; sw] = true ->
  exists cn tn sn ranked,
    B64.Ranker.normalize_scores collab_recs "predicted_rating" = Ok cn
    /\ B64.Ranker.normalize_scores content_recs "score" = Ok tn
    /\ B64.Ranker.normalize_scores stats_recs "weighted_rating" = Ok sn
    /\ B64.Ranker.merge_and_rank set_iter py_sorted collab_recs content_recs
                                 stats_recs [cw; tw; sw] = Ok ranked
    /\ NoDup (map B64.movieId ranked)
    /\ (forall id, In id (map B64.movieId ranked)
                   <-> In id (keys cn) \/ In id (keys tn) \/ In id (keys sn))
    /\ (forall r, In r ranked ->
          let id := B64.movieId r in
          let share d w score :=
            match dict_get id d with
            | Some v => (score + v * w)%float
            | None => score
            end in
          B64.num r !! "combined_score"
          = Some (share sn sw (share tn tw (share cn cw 0%float))))
    /\ (no_nan (map (raw64 "combined_score") ranked) ->
        non_increasing64 (map (raw64 "combined_score") ranked)).
Proof.
  intros Hiter Hsort Hc Ht Hs Hw.
  destruct (merge_and_rank64_entries set_iter Hiter py_sorted Hsort
              _ _ _ _ _ _ Hc Ht Hs Hw)
    as (ranked & Hm & Hperm & Hall & Hsorted).
  exists (normalized_of64 "predicted_rating" collab_recs),
         (normalized_of64 "score" content_recs),
         (normalized_of64 "weighted_rating" stats_recs), ranked.
  match type of Hperm with Permutation _ (set_iter ?l) =>
    destruct (Hiter l) as [Hnd Hmem]
  end.
  do 3 (split; [now apply normalize_scores_fill64|]).
  split; [assumption|]. split; [|split; [|split; [|assumption]]].
  - now rewrite Hperm.
  - intros id. rewrite <- !in_app_iff, <- Hmem.
    split; apply Permutation_in; [assumption | now symmetry].
  - intros r Hr. destruct (Hall _ Hr) as (src & _ & Heq).
    cbn zeta. rewrite Heq at 1. apply details64_combined_score.
Qed.

Lemma merge_and_rank_weighted_union_witness :
  exists ranked,
    B64.Ranker.merge_and_rank insertion_order stable_sort
      [cand 1 "Drama" "predicted_rating" 4.5;
       cand 2 "Comedy" "predicted_rating" 3]%float
      [cand 2 "Comedy" "score" 0.9; cand 3 "Action" "score" 0.4]%float
      [cand 1 "Drama" "weighted_rating" 4.1;
       cand 3 "Action" "weighted_rating" 3.9]%float
      [0.5; 0.3; 0.2]%float = Ok ranked
    /\ NoDup (map B64.movieId ranked).
Proof.
  destruct (merge_and_rank_weighted_union insertion_order stable_sort
      [cand 1 "Drama" "predicted_rating" 4.5;
       cand 2 "Comedy" "predicted_rating" 3]%float
      [cand 2 "Comedy" "score" 0.9; cand 3 "Action" "score" 0.4]%float
      [cand 1 "Drama" "weighted_rating" 4.1;
       cand 3 "Action" "weighted_rating" 3.9]%float
      0.5 0.3 0.2)%float
    as (cn & tn & sn & ranked & _ & _ & _ & Hm & Hnd & _).
  - apply insertion_order_ok.
  - apply stable_sort_ok.
  - has_keys64.
  - has_keys64.
  - has_keys64.
  - reflexivity.
  - exists ranked. split; assumption.
Defined.

(** Scenario A: movie 1 gets 0.5, movie 2 gets 0.3, movie 3 gets 0.2. *)
Example scenario_A_ranking :
  option_map ranking64
    (returned (B64.Ranker.merge_and_rank insertion_order stable_sort
       [cand 1 "Drama" "predicted_rating" 4.5] [cand 2 "Drama" "score" 0.9]
       [cand 3 "Drama" "weighted_rating" 4.1] [0.5; 0.3; 0.2])%float)
  = Some [(1, Some 0.5%float); (2, Some 0.3%float); (3, Some 0.2%float)].
Proof. vm_compute. reflexivity. Qed.

(** C2, as stated, fails on the order of the output when a combined score
    is nan, which finite raw scores can produce: the collaborative scores
    1e308 and -1e308 normalize to nan and 0.0, movie 1 gets the combined
    score nan, and since nan is neither above nor below any number no
    arrangement of the five entries is in non-increasing order, whatever
    [sorted] returns. *)
Lemma merge_order_lost_on_overflow :
  let collab := [cand 1 "Drama" "predicted_rating" 1e308;
                 cand 2 "Drama" "predicted_rating" (-1e308)]%float in
  let content := [cand 3 "Drama" "score" 1; cand 4 "Drama" "score" 0.5;
                  cand 5 "Drama" "score" 0]%float in
  B64.Ranker.weights_ok [0.5; 0.3; 0.2]%float = true
  /\ Forall finite64 (map (raw64 "predicted_rating") collab)
  /\ forall py_sorted, py_sorted_ok py_sorted ->
       exists ranked,
         B64.Ranker.merge_and_rank insertion_order py_sorted collab content
                                   [] [0.5; 0.3; 0.2]%float = Ok ranked
         /\ In (1, Some nan) (ranking64 ranked)
         /\ ~ non_increasing64 (map (raw64 "combined_score") ranked).
Proof.
  cbn zeta. split; [reflexivity|]. split.
  { repeat constructor; eexists; vm_compute; reflexivity. }
  intros py_sorted Hsort.
  destruct (merge_and_rank64_Ok insertion_order insertion_order_ok
              py_sorted Hsort
              [cand 1 "Drama" "predicted_rating" 1e308;
               cand 2 "Drama" "predicted_rating" (-1e308)]%float
              [cand 3 "Drama" "score" 1; cand 4 "Drama" "score" 0.5;
               cand 5 "Drama" "score" 0]%float
              [] 0.5 0.3 0.2)%float as (ranked & Hm & Hperm & _);
    try has_keys64; try reflexivity.
  exists ranked. split; [assumption|].
  assert (Hin : In (1, Some nan) (ranking64 ranked)).
  { unfold ranking64.
    eapply Permutation_in; [apply Permutation_map; symmetry; exact Hperm|].
    vm_compute. auto. }
  split; [assumption|].
  intros Hs. apply non_increasing64_no_nan in Hs.
  - unfold ranking64 in Hin. apply in_map_iff in Hin as (r & Hr & Hin).
    injection Hr as _ Hr. unfold no_nan in Hs.
    rewrite List.Forall_forall in Hs.
    specialize (Hs (raw64 "combined_score" r) (in_map _ _ _ Hin)).
    unfold raw64 in Hs. rewrite Hr in Hs. discriminate.
  - rewrite length_map, (Permutation_length Hperm). vm_compute. lia.
Qed.

(** ** Binary64: bounds on the combined score *)

Lemma leb_0_0 : (0 <=? 0)%float = true.
Proof. reflexivity. Qed.

Lemma leb_refl_of a b : (a <=? b)%float = true -> (b <=? b)%float = true.
Proof. intros H. apply leb_refl. apply (leb_not_nan _ _ H). Qed.

(** Weights that are not negative and pass the check are finite, and so
    is their sum. *)
Lemma weights_finite cw tw sw :
  (0 <=? cw)%float = true -> (0 <=? tw)%float = true ->
  (0 <=? sw)%float = true ->
  B64.Ranker.weights_ok [cw; tw; sw] = true ->
  finite64 cw /\ finite64 tw /\ finite64 sw.
Proof.
  intros Hc Ht Hs Hw. unfold B64.Ranker.weights_ok, B64.py_sum in Hw.
  cbn [fold_left] in Hw.
  destruct (add_bounds 0 0 cw cw leb_0_0 leb_0_0 Hc (leb_refl_of _ _ Hc))
    as [H1 _].
  destruct (add_bounds _ _ tw tw H1 (leb_refl_of _ _ H1) Ht
              (leb_refl_of _ _ Ht)) as [H2 _].
  destruct (add_bounds _ _ sw sw H2 (leb_refl_of _ _ H2) Hs
              (leb_refl_of _ _ Hs)) as [H3 _].
  set (S1 := (0 + cw)%float) in *. set (S2 := (S1 + tw)%float) in *.
  set (S3 := (S2 + sw)%float) in *.
  assert (F3 : finite64 S3).
  { apply leb_0_fx in H3 as (v & Hv & Hle).
    destruct v as [|q|]; [contradiction | now exists q |].
    exfalso. destruct fx_1 as (q1 & Hq1 & _).
    assert (Hinf : fx (abs (S3 - 1)) = Some PosInf).
    { apply abs_inf. apply sub_inf; [assumption | now exists q1]. }
    apply ltb_leb_weak, leb_fx in Hw as (va & vb & Ha & Hb & Hle').
    rewrite Hinf in Ha. injection Ha as <-.
    assert (Hb' : exists q, fx 0.01 = Some (Fin q))
      by (eexists; vm_compute; reflexivity).
    destruct Hb' as [q Hb']. rewrite Hb' in Hb. injection Hb as <-.
    exact Hle'. }
  assert (F2 : finite64 S2).
  { apply (finite64_le _ S3); auto. now apply add_le_r. }
  assert (F1 : finite64 S1).
  { apply (finite64_le _ S2); auto. now apply add_le_r. }
  split; [|split].
  - apply (finite64_le _ S1); auto. apply add_le_l; auto.
  - apply (finite64_le _ S2); auto. now apply add_le_l.
  - apply (finite64_le _ S3); auto. now apply add_le_l.
Qed.

(** One source's share in a combined score, against the running sum of
    the weights. *)
Lemma share_bounds (d : dict float) (w : float) (id : Z) (a a' : float) :
  unit_valued64 d -> (0 <=? w)%float = true -> finite64 w ->
  (0 <=? a)%float = true -> (a <=? a')%float = true ->
  let a2 := match dict_get id d with
            | Some v => (a + v * w)%float
            | None => a
            end in
  (0 <=? a2)%float = true /\ (a2 <=? a' + w)%float = true.
Proof.
  intros Hd Hw Fw Ha Haa'. cbn zeta.
  destruct (dict_get id d) as [v|] eqn:E.
  - destruct (Hd _ _ E) as [Hv0 Hv1].
    destruct (mul_unit v w Hv0 Hv1 Hw Fw) as [Hm0 Hm1].
    now apply add_bounds.
  - split; [assumption|].
    eapply leb_trans; [exact Haa'|]. apply add_le_r; [|assumption].
    eapply leb_trans; eauto.
Qed.

Lemma share_range (d : dict float) (w : float) (id : Z) (a a' : float) :
  (forall v, dict_get id d = Some v -> is_nan v = true \/ in_unit v) ->
  (0 <=? w)%float = true -> finite64 w ->
  is_nan a = true \/ ((0 <=? a)%float = true /\ (a <=? a')%float = true) ->
  let a2 := match dict_get id d with
            | Some v => (a + v * w)%float
            | None => a
            end in
  is_nan a2 = true
  \/ ((0 <=? a2)%float = true /\ (a2 <=? a' + w)%float = true).
Proof.
  intros Hd Hw Fw Ha. cbn zeta.
  destruct Ha as [Ha|[Ha Haa']].
  { left. destruct (dict_get id d); [|assumption].
    apply is_nan_op. now left. }
  destruct (dict_get id d) as [v|] eqn:E.
  - destruct (Hd _ eq_refl) as [Hv|[Hv0 Hv1]].
    + left. apply is_nan_op. right. apply is_nan_op. now left.
    + right. destruct (mul_unit v w Hv0 Hv1 Hw Fw) as [Hm0 Hm1].
      now apply add_bounds.
  - right. split; [assumption|].
    eapply leb_trans; [exact Haa'|]. apply add_le_r; [|assumption].
    eapply leb_trans; eauto.
Qed.

Lemma combined_bounds64 cn tn sn cw tw sw id :
  unit_valued64 cn -> unit_valued64 tn -> unit_valued64 sn ->
  (0 <=? cw)%float = true -> (0 <=? tw)%float = true ->
  (0 <=? sw)%float = true ->
  finite64 cw -> finite64 tw -> finite64 sw ->
  (0 <=? B64.Ranker.combined cn tn sn cw tw sw id)%float = true
  /\ (B64.Ranker.combined cn tn sn cw tw sw id
      <=? B64.py_sum [cw; tw; sw])%float = true.
Proof.
  intros Hcn Htn Hsn Hcw Htw Hsw Fc Ft Fs.
  unfold B64.Ranker.combined, B64.py_sum. cbn [fold_left].
  destruct (share_bounds cn cw id 0 0 Hcn Hcw Fc leb_0_0 leb_0_0)
    as [A0 A1].
  destruct (share_bounds tn tw id _ _ Htn Htw Ft A0 A1) as [B0 B1].
  exact (share_bounds sn sw id _ _ Hsn Hsw Fs B0 B1).
Qed.

Lemma combined_range64 cn tn sn cw tw sw id :
  (forall v, dict_get id cn = Some v -> is_nan v = true \/ in_unit v) ->
  (forall v, dict_get id tn = Some v -> is_nan v = true \/ in_unit v) ->
  (forall v, dict_get id sn = Some v -> is_nan v = true \/ in_unit v) ->
  (0 <=? cw)%float = true -> (0 <=? tw)%float = true ->
  (0 <=? sw)%float = true ->
  finite64 cw -> finite64 tw -> finite64 sw ->
  let s := B64.Ranker.combined cn tn sn cw tw sw id in
  is_nan s = true
  \/ ((0 <=? s)%float = true
      /\ (s <=? B64.py_sum [cw; tw; sw])%float = true).
Proof.
  intros Hcn Htn Hsn Hcw Htw Hsw Fc Ft Fs.
  unfold B64.Ranker.combined, B64.py_sum. cbn [fold_left].
  pose proof (share_range cn cw id 0 0 Hcn Hcw Fc
                (or_intror (conj leb_0_0 leb_0_0))) as A.
  pose proof (share_range tn tw id _ _ Htn Htw Ft A) as B.
  exact (share_range sn sw id _ _ Hsn Hsw Fs B).
Qed.

(** C8, as amended. For every triple of weights that are not negative
    and pass the check, and every three maps of normalized scores lying
    in [0,1], the combined score of every movieId lies between 0.0 and
    the binary64 sum of the weights, whichever sources hold it; hence in
    [0,1] when that sum is at most 1.0. Every combined score the merge
    returns is nan or lies in that range, and lies in it when the raw
    scores of every source are finite with a finite range. *)
Theorem combined_score_convex (cw tw sw : float) :
  (0 <=? cw)%float = true -> (0 <=? tw)%float = true ->
  (0 <=? sw)%float = true ->
  B64.Ranker.weights_ok [cw; tw; sw] = true ->
  let total := B64.py_sum [cw; tw; sw] in
  (forall cn tn sn id,
     unit_valued64 cn -> unit_valued64 tn -> unit_valued64 sn ->
     let s := B64.Ranker.combined cn tn sn cw tw sw id in
     (0 <=? s)%float = true /\ (s <=? total)%float = true
     /\ ((total <=? 1)%float = true -> (s <=? 1)%float = true))
  /\ (forall set_iter py_sorted collab_recs content_recs stats_recs,
        set_iter_ok set_iter -> py_sorted_ok py_sorted ->
        Forall (has_key64 "predicted_rating") collab_recs ->
        Forall (has_key64 "score") content_recs ->
        Forall (has_key64 "weighted_rating") stats_recs ->
        exists ranked,
          B64.Ranker.merge_and_rank set_iter py_sorted collab_recs
            content_recs stats_recs [cw; tw; sw] = Ok ranked
          /\ (forall r, In r ranked ->
                exists s,
                  B64.num r !! "combined_score" = Some s
                  /\ (is_nan s = true
                      \/ ((0 <=? s)%float = true
                          /\ (s <=? total)%float = true)))
          /\ (in_range64 "predicted_rating" collab_recs ->
              in_range64 "score" content_recs ->
              in_range64 "weighted_rating" stats_recs ->
              forall r, In r ranked ->
                exists s,
                  B64.num r !! "combined_score" = Some s
                  /\ (0 <=? s)%float = true /\ (s <=? total)%float = true)).
Proof.
  intros Hcw Htw Hsw Hw. cbn zeta.
  destruct (weights_finite cw tw sw Hcw Htw Hsw Hw) as (Fc & Ft & Fs).
  split.
  - intros cn tn sn id Hcn Htn Hsn.
    destruct (combined_bounds64 cn tn sn cw tw sw id) as [H0 H1]; auto.
    split; [assumption|]. split; [assumption|].
    intros H. eapply leb_trans; eauto.
  - intros set_iter py_sorted c t s Hiter Hsort Hc Ht Hs.
    destruct (merge_and_rank64_entries set_iter Hiter py_sorted Hsort
                _ _ _ _ _ _ Hc Ht Hs Hw) as (ranked & Hm & _ & Hall & _).
    exists ranked. split; [assumption|]. split.
    + intros r Hr. destruct (Hall _ Hr) as (src & _ & Heq).
      eexists. split; [rewrite Heq at 1; apply details64_combined_score|].
      apply combined_range64; auto; intros v; apply normalized_of64_range.
    + intros Rc Rt Rs r Hr. destruct (Hall _ Hr) as (src & _ & Heq).
      eexists. split; [rewrite Heq at 1; apply details64_combined_score|].
      apply combined_bounds64; auto using normalized_of64_unit.
Qed.

Lemma combined_score_convex_witness :
  let s := B64.Ranker.combined [(1, 1%float)] [] [(1, 0.5%float)]
                               0.5 0.3 0.2 1 in
  (0 <=? s)%float = true /\ (s <=? 1)%float = true.
Proof.
  cbn zeta.
  destruct (proj1 (combined_score_convex 0.5 0.3 0.2 eq_refl eq_refl eq_refl
                     eq_refl)
                  [(1, 1%float)] [] [(1, 0.5%float)] 1) as (H0 & _ & H1).
  - intros id v. simpl. destruct (id =? 1); intros [= <-]. split; reflexivity.
  - intros id v. discriminate.
  - intros id v. simpl. destruct (id =? 1); intros [= <-]. split; reflexivity.
  - split; [exact H0 | apply H1; reflexivity].
Defined.

(** C8, as stated, fails twice. A weight triple that sums to 1.0 may hold
    negative weights, the check of the merge lets it pass, and a movie
    held by the collaborative source alone then gets the score 1.5. And
    with the weights 0.34, 0.56, 0.1, none negative, the products are
    added in binary64: a movie that is the only candidate of each of the
    three sources gets 1.0000000000000002, which is above 1. *)
Lemma combined_score_above_one :
  (let weights := [1.5; -0.25; -0.25]%float in
   B64.py_sum weights = 1%float
   /\ B64.Ranker.weights_ok weights = true
   /\ option_map ranking64
        (returned (B64.Ranker.merge_and_rank insertion_order stable_sort
                     [cand 1 "Drama" "predicted_rating" 5] [] [] weights))
      = Some [(1, Some 1.5%float)]
   /\ (1.5 <=? 1)%float = false)
  /\ (let weights := [0.34; 0.56; 0.1]%float in
      Forall (fun w => (0 <=? w)%float = true) weights
      /\ B64.Ranker.weights_ok weights = true
      /\ option_map ranking64
           (returned (B64.Ranker.merge_and_rank insertion_order stable_sort
                        [cand 1 "Drama" "predicted_rating" 5]
                        [cand 1 "Drama" "score" 0.9]
                        [cand 1 "Drama" "weighted_rating" 4.1] weights))
         = Some [(1, Some 1.0000000000000002%float)]
      /\ (1.0000000000000002 <=? 1)%float = false).
Proof.
  cbn zeta. split.
  - repeat split; vm_compute; reflexivity.
  - split; [repeat constructor|]. repeat split; vm_compute; reflexivity.
Qed.

(** ** Binary64: the weight check *)





(** ** Binary64: what a merge ends in *)

Lemma has_or_lacks64 key (l : list B64.rec) :
  Forall (has_key64 key) l \/ Exists (lacks_key64 key) l.
Proof.
  induction l as [|r l [IH|IH]].
  - left. constructor.
  - destruct (B64.num r !! key) as [v|] eqn:E.
    + left. constructor; [unfold has_key64; rewrite E; eauto | assumption].
    + right. now apply Exists_cons_hd.
  - right. now apply Exists_cons_tl.
Qed.

Lemma has_and_lacks64 key (l : list B64.rec) :
  Forall (has_key64 key) l -> Exists (lacks_key64 key) l -> False.
Proof.
  intros Hall Hex. apply List.Exists_exists in Hex as (r & Hr & Hnone).
  rewrite List.Forall_forall in Hall. destruct (Hall r Hr) as [v Hv].
  unfold lacks_key64 in Hnone. congruence.
Qed.

Lemma mapM_item_lacks64 key (l : list B64.rec) :
  Exists (lacks_key64 key) l ->
  mapM (fun r => B64.item r key) l = Raise KeyError.
Proof.
  induction 1 as [r l Hr|r l Hl IH]; cbn [mapM].
  - unfold B64.item. rewrite Hr. reflexivity.
  - rewrite IH. unfold B64.item. now destruct (B64.num r !! key).
Qed.

Lemma normalize_scores_lacks64 key recs :
  Exists (lacks_key64 key) recs ->
  B64.Ranker.normalize_scores recs key = Raise KeyError.
Proof.
  intros Hex. unfold B64.Ranker.normalize_scores.
  destruct recs as [|r recs]; [inversion Hex|].
  now rewrite (mapM_item_lacks64 _ _ Hex).
Qed.

Lemma merge_fold_keys64 c t s cn tn sn cw tw sw ids : forall st,
  Forall (has_key64 "combined_score") (values (snd st)) ->
  Forall (has_key64 "combined_score")
         (values (snd (fold_left
                         (B64.Ranker.merge_step c t s cn tn sn cw tw sw)
                         ids st))).
Proof.
  induction ids as [|id ids IH]; intros [cs md] Hst; [assumption|].
  cbn [fold_left]. apply IH. unfold B64.Ranker.merge_step.
  destruct (List.find _ _) as [r|]; cbn [snd] in *; [|assumption].
  apply Forall_values_dict_set; [|assumption].
  unfold has_key64. rewrite details64_combined_score. eauto.
Qed.

Lemma sorted_by_item_desc64_returns py_sorted key xs :
  Forall (has_key64 key) xs ->
  exists out, B64.Ranker.sorted_by_item_desc py_sorted key xs = Ok out.
Proof.
  intros Hk. unfold B64.Ranker.sorted_by_item_desc.
  rewrite (mapM_Ok _ (fun x => (raw64 key x, x))).
  - cbn [Py.bind]. eauto.
  - eapply Forall_impl; [exact Hk|]. intros x Hx. simpl.
    now rewrite (item_has_key64 _ _ Hx).
Qed.

Lemma merge_and_rank64_cases set_iter py_sorted c t s weights :
  match B64.Ranker.merge_and_rank set_iter py_sorted c t s weights with
  | Raise AssertionError => B64.Ranker.weights_ok weights = false
  | Raise ValueError =>
      B64.Ranker.weights_ok weights = true /\ length weights <> 3%nat
  | Raise KeyError =>
      B64.Ranker.weights_ok weights = true /\ length weights = 3%nat
      /\ (Exists (lacks_key64 "predicted_rating") c
          \/ Exists (lacks_key64 "score") t
          \/ Exists (lacks_key64 "weighted_rating") s)
  | Raise IndexError | Raise ZeroDivisionError => False
  | Ok _ =>
      B64.Ranker.weights_ok weights = true /\ length weights = 3%nat
      /\ Forall (has_key64 "predicted_rating") c
      /\ Forall (has_key64 "score") t
      /\ Forall (has_key64 "weighted_rating") s
  end.
Proof.
  unfold B64.Ranker.merge_and_rank.
  destruct (B64.Ranker.weights_ok weights) eqn:Hw; cbn [negb]; [|reflexivity].
  destruct weights as [|cw [|tw [|sw [|w ws]]]];
    try (split; [reflexivity | simpl; lia]).
  destruct (has_or_lacks64 "predicted_rating" c) as [Hc|Hc].
  2:{ rewrite (normalize_scores_lacks64 _ _ Hc). cbn [Py.bind]. auto. }
  rewrite (normalize_scores_fill64 _ _ Hc). cbn [Py.bind].
  destruct (has_or_lacks64 "score" t) as [Ht|Ht].
  2:{ rewrite (normalize_scores_lacks64 _ _ Ht). cbn [Py.bind]. auto. }
  rewrite (normalize_scores_fill64 _ _ Ht). cbn [Py.bind].
  destruct (has_or_lacks64 "weighted_rating" s) as [Hs|Hs].
  2:{ rewrite (normalize_scores_lacks64 _ _ Hs). cbn [Py.bind]. auto. }
  rewrite (normalize_scores_fill64 _ _ Hs). cbn [Py.bind].
  match goal with
  | |- context [fold_left (B64.Ranker.merge_step c t s ?cn ?tn ?sn cw tw sw)
                          ?ids ?a] =>
      pose proof (merge_fold_keys64 c t s cn tn sn cw tw sw ids a) as Hkeys;
      destruct (fold_left (B64.Ranker.merge_step c t s cn tn sn cw tw sw)
                          ids a) as [cs md]
  end.
  cbn [snd] in Hkeys.
  destruct (sorted_by_item_desc64_returns py_sorted "combined_score"
              (values md)) as (out & ->); [apply Hkeys; constructor|].
  auto.
Qed.

(** X2. A merge of candidates built as the engines build them (with
    movieId, title and genres) checks the sum of the weights first,
    whatever their number, then that there are three of them, then the
    score keys of the candidates. It raises [AssertionError] exactly
    when the test abs(sum(weights) - 1.0) < 0.01 fails in binary64,
    [ValueError] exactly when the test passes and the weights are not
    three, [KeyError] exactly when three weights pass and some candidate
    lacks the key of its source, and returns a ranking in every other
    case, whatever the order in which the set of ids is iterated,
    whatever [sorted] does and whatever scores the candidates carry: no
    division by zero is raised. *)
Theorem merge_and_rank_outcomes (set_iter : list Z -> list Z)
    (py_sorted : list (float * B64.rec) -> list (float * B64.rec))
    (collab_recs content_recs stats_recs : list B64.rec)
    (weights : list float) :
  let outcome :=
    B64.Ranker.merge_and_rank set_iter py_sorted collab_recs content_recs
                              stats_recs weights in
  let passes := (abs (B64.py_sum weights - 1) <? 0.01)%float = true in
  (outcome = Raise AssertionError <-> ~ passes)
  /\ (outcome = Raise ValueError <-> passes /\ length weights <> 3%nat)
  /\ (outcome = Raise KeyError
      <-> passes /\ length weights = 3%nat
          /\ (Exists (lacks_key64 "predicted_rating") collab_recs
              \/ Exists (lacks_key64 "score") content_recs
              \/ Exists (lacks_key64 "weighted_rating") stats_recs))
  /\ ((exists ranked, outcome = Ok ranked)
      <-> passes /\ length weights = 3%nat
          /\ Forall (has_key64 "predicted_rating") collab_recs
          /\ Forall (has_key64 "score") content_recs
          /\ Forall (has_key64 "weighted_rating") stats_recs)
  /\ outcome <> Raise ZeroDivisionError /\ outcome <> Raise IndexError.
Proof.
  cbn zeta.
  pose proof (merge_and_rank64_cases set_iter py_sorted collab_recs
                content_recs stats_recs weights) as H.
  pose proof (has_and_lacks64 "predicted_rating" collab_recs) as Xc.
  pose proof (has_and_lacks64 "score" content_recs) as Xt.
  pose proof (has_and_lacks64 "weighted_rating" stats_recs) as Xs.
  change ((abs (B64.py_sum weights - 1) <? 0.01)%float)
    with (B64.Ranker.weights_ok weights).
  destruct (B64.Ranker.merge_and_rank set_iter py_sorted collab_recs
              content_recs stats_recs weights) as [ranked|[]];
    repeat split; intros; (repeat match goal with
    | H : exists _, _ |- _ => destruct H
    | H : _ /\ _ |- _ => destruct H
    end); try discriminate; try congruence; try tauto; eauto.
Qed.

(** ** Binary64: metadata and the order of the sources *)

(** The ids of a merge are those of its candidates, each once. *)
Lemma merge_and_rank64_ids set_iter py_sorted c t s cw tw sw :
  set_iter_ok set_iter -> py_sorted_ok py_sorted ->
  Forall (has_key64 "predicted_rating") c ->
  Forall (has_key64 "score") t ->
  Forall (has_key64 "weighted_rating") s ->
  B64.Ranker.weights_ok [cw; tw; sw] = true ->
  exists ranked,
    B64.Ranker.merge_and_rank set_iter py_sorted c t s [cw; tw; sw]
    = Ok ranked
    /\ NoDup (map B64.movieId ranked)
    /\ (forall id, In id (map B64.movieId ranked)
                   <-> In id (map B64.movieId (c ++ t ++ s)))
    /\ (forall r, In r ranked ->
          exists src,
            first_match64 (c ++ t ++ s) (B64.movieId r) = Some src
            /\ B64.title r = B64.title src
            /\ B64.genres r = B64.genres src
            /\ B64.tmdbId r = B64.tmdbId src).
Proof.
  intros Hiter Hsort Hc Ht Hs Hw.
  destruct (merge_and_rank64_entries set_iter Hiter py_sorted Hsort
              _ _ _ _ _ _ Hc Ht Hs Hw)
    as (ranked & Hm & Hperm & Hall & _).
  exists ranked. split; [assumption|].
  match type of Hperm with Permutation _ (set_iter ?l) =>
    destruct (Hiter l) as [Hnd Hmem]
  end.
  split; [now rewrite Hperm|]. split.
  - intros id. transitivity (In id (set_iter
        (keys (normalized_of64 "predicted_rating" c)
         ++ keys (normalized_of64 "score" t)
         ++ keys (normalized_of64 "weighted_rating" s)))).
    + split; apply Permutation_in; [assumption | now symmetry].
    + rewrite Hmem, !in_app_iff, !map_app, !in_app_iff,
        !normalized_of64_keys. tauto.
  - intros r Hr. destruct (Hall _ Hr) as (src & Hsrc & Heq).
    exists src. split; [assumption|]. rewrite Heq. auto.
Qed.

Lemma present64_has_key key s : Forall (has_key64 key) (present64 key s).
Proof.
  unfold present64. rewrite List.Forall_forall. intros r Hr.
  apply in_map_iff in Hr as (c & <- & _). unfold has_key64. simpl.
  rewrite lookup_insert_eq. eauto.
Qed.

Lemma present64_ids key s :
  map B64.movieId (present64 key s)
  = map (fun c => B64.movieId (fst c)) (candidates64 s).
Proof. unfold present64. rewrite map_map. reflexivity. Qed.

Lemma ids_present64 s1 s2 s3 id :
  In id (map B64.movieId (present64 "predicted_rating" s1
                          ++ present64 "score" s2
                          ++ present64 "weighted_rating" s3))
  <-> exists s, In s [s1; s2; s3]
                /\ In id (map (fun c => B64.movieId (fst c)) (candidates64 s)).
Proof.
  rewrite !map_app, !in_app_iff, !present64_ids. simpl. split.
  - intros [H|[H|H]]; eauto 6.
  - intros (s & [<-|[<-|[<-|[]]]] & H); tauto.
Qed.

(** C4, as amended. Every entry of the merge output takes its title,
    genres and tmdbId from the first candidate with its movieId in the
    collaborative list followed by the content list followed by the
    statistical list. Passing the three sources (with their weights) at
    other positions, or reordering the candidates inside the sources,
    leaves the movieIds of the output unchanged, each coming once; it
    does not leave the combined scores or the order unchanged. *)
Theorem merge_metadata_priority_and_source_order
    (set_iter : list Z -> list Z)
    (py_sorted : list (float * B64.rec) -> list (float * B64.rec)) :
  set_iter_ok set_iter ->
  py_sorted_ok py_sorted ->
  (forall collab_recs content_recs stats_recs cw tw sw,
     Forall (has_key64 "predicted_rating") collab_recs ->
     Forall (has_key64 "score") content_recs ->
     Forall (has_key64 "weighted_rating") stats_recs ->
     B64.Ranker.weights_ok [cw; tw; sw] = true ->
     exists ranked,
       B64.Ranker.merge_and_rank set_iter py_sorted collab_recs content_recs
                                 stats_recs [cw; tw; sw] = Ok ranked
       /\ forall r, In r ranked ->
             exists pre src post,
               collab_recs ++ content_recs ++ stats_recs = pre ++ src :: post
               /\ ~ In (B64.movieId r) (map B64.movieId pre)
               /\ B64.movieId src = B64.movieId r
               /\ B64.title r = B64.title src
               /\ B64.genres r = B64.genres src
               /\ B64.tmdbId r = B64.tmdbId src)
  /\ (forall s1 s2 s3 t1 t2 t3,
        Permutation [s1; s2; s3] [t1; t2; t3] ->
        B64.Ranker.weights_ok [weight64 s1; weight64 s2; weight64 s3] = true ->
        B64.Ranker.weights_ok [weight64 t1; weight64 t2; weight64 t3] = true ->
        exists ranked ranked',
          merge_sources64 set_iter py_sorted s1 s2 s3 = Ok ranked
          /\ merge_sources64 set_iter py_sorted t1 t2 t3 = Ok ranked'
          /\ NoDup (map B64.movieId ranked)
          /\ NoDup (map B64.movieId ranked')
          /\ forall id, In id (map B64.movieId ranked)
                        <-> In id (map B64.movieId ranked'))
  /\ (forall c t s c' t' s' cw tw sw,
        Forall (has_key64 "predicted_rating") c ->
        Forall (has_key64 "score") t ->
        Forall (has_key64 "weighted_rating") s ->
        B64.Ranker.weights_ok [cw; tw; sw] = true ->
        Permutation c c' -> Permutation t t' -> Permutation s s' ->
        exists ranked ranked',
          B64.Ranker.merge_and_rank set_iter py_sorted c t s [cw; tw; sw]
          = Ok ranked
          /\ B64.Ranker.merge_and_rank set_iter py_sorted c' t' s'
                                       [cw; tw; sw] = Ok ranked'
          /\ NoDup (map B64.movieId ranked)
          /\ NoDup (map B64.movieId ranked')
          /\ forall id, In id (map B64.movieId ranked)
                        <-> In id (map B64.movieId ranked')).
Proof.
  intros Hiter Hsort. split; [|split].
  - intros c t s cw tw sw Hc Ht Hs Hw.
    destruct (merge_and_rank64_ids set_iter py_sorted c t s cw tw sw)
      as (ranked & Hm & _ & _ & Hmeta); auto.
    exists ranked. split; [assumption|]. intros r Hr.
    destruct (Hmeta _ Hr) as (src & Hsrc & Htitle & Hgenres & Htmdb).
    apply first_match64_Some in Hsrc as (Hid & pre & post & Heq & Hpre).
    exists pre, src, post. auto 8.
  - intros s1 s2 s3 t1 t2 t3 Hp Hw Hw'. unfold merge_sources64.
    destruct (merge_and_rank64_ids set_iter py_sorted
                (present64 "predicted_rating" s1) (present64 "score" s2)
                (present64 "weighted_rating" s3)
                (weight64 s1) (weight64 s2) (weight64 s3))
      as (ranked & Hm & Hnd & Hids & _); auto using present64_has_key.
    destruct (merge_and_rank64_ids set_iter py_sorted
                (present64 "predicted_rating" t1) (present64 "score" t2)
                (present64 "weighted_rating" t3)
                (weight64 t1) (weight64 t2) (weight64 t3))
      as (ranked' & Hm' & Hnd' & Hids' & _); auto using present64_has_key.
    exists ranked, ranked'. repeat (split; [assumption|]).
    intros id. rewrite Hids, Hids', !ids_present64.
    split; intros (s & Hs & Hid); exists s; split; auto.
    + now apply (Permutation_in _ Hp).
    + now apply (Permutation_in _ (Permutation_sym Hp)).
  - intros c t s c' t' s' cw tw sw Hc Ht Hs Hw Pc Pt Ps.
    destruct (merge_and_rank64_ids set_iter py_sorted c t s cw tw sw)
      as (ranked & Hm & Hnd & Hids & _); auto.
    destruct (merge_and_rank64_ids set_iter py_sorted c' t' s' cw tw sw)
      as (ranked' & Hm' & Hnd' & Hids' & _); auto.
    1-3: eapply Forall_perm; [symmetry; eassumption | assumption].
    exists ranked, ranked'. repeat (split; [assumption|]).
    intros id. rewrite Hids, Hids'.
    assert (Hp : Permutation (c ++ t ++ s) (c' ++ t' ++ s'))
      by (repeat apply Permutation_app; assumption).
    split; apply Permutation_in, Permutation_map; [assumption|].
    now symmetry.
Qed.

Lemma merge_metadata_priority_and_source_order_witness :
  exists ranked ranked',
    merge_sources64 insertion_order stable_sort source_a source_b source_c
    = Ok ranked
    /\ merge_sources64 insertion_order stable_sort source_c source_b source_a
       = Ok ranked'
    /\ forall id, In id (map B64.movieId ranked)
                  <-> In id (map B64.movieId ranked').
Proof.
  destruct (proj1 (proj2 (merge_metadata_priority_and_source_order
                            insertion_order stable_sort insertion_order_ok
                            stable_sort_ok))
                  source_a source_b source_c source_c source_b source_a)
    as (ranked & ranked' & H1 & H2 & _ & _ & H3).
  - apply Permutation_rev.
  - reflexivity.
  - reflexivity.
  - exists ranked, ranked'. auto.
Defined.

(** C4, as stated, fails on the scores and on the order of the output.
    The products are added in the order of the positions, in binary64:
    with the weights 0.2, 0.6, 0.2, passing the first and the third
    source at each other's position turns the scores 0.9 and
    0.8999999999999999 of the movies 1 and 2 into 0.8999999999999999 and
    0.9, and the ranking 1, 2, 3 into 2, 1, 3. The sort has no second
    key, so entries with equal combined scores come in the order in which
    the set of ids is iterated, which can follow the order of insertion
    (for the ids 1 and 9 it does in CPython): exchanging two sources that
    both give 0.5 turns the ranking 1, 9 into 9, 1. And inside a source
    that holds a movieId twice the last candidate is the one normalized:
    exchanging the two candidates of movie 1 moves it from the last
    place, with score 0, to the first, with score 1. *)
Lemma merge_result_depends_on_source_order :
  (Permutation [source_a; source_b; source_c] [source_c; source_b; source_a]
   /\ option_map ranking64
        (returned (merge_sources64 insertion_order stable_sort
                                   source_a source_b source_c))
      = Some [(1, Some 0.9%float); (2, Some 0.8999999999999999%float);
              (3, Some 0%float)]
   /\ option_map ranking64
        (returned (merge_sources64 insertion_order stable_sort
                                   source_c source_b source_a))
      = Some [(2, Some 0.9%float); (1, Some 0.8999999999999999%float);
              (3, Some 0%float)])
  /\ (Permutation [source_one64; source_nine64; source_none64]
                  [source_nine64; source_one64; source_none64]
      /\ option_map ranking64
           (returned (merge_sources64 insertion_order stable_sort
                        source_one64 source_nine64 source_none64))
         = Some [(1, Some 0.5%float); (9, Some 0.5%float)]
      /\ option_map ranking64
           (returned (merge_sources64 insertion_order stable_sort
                        source_nine64 source_one64 source_none64))
         = Some [(9, Some 0.5%float); (1, Some 0.5%float)])
  /\ (let high := cand 1 "Drama" "predicted_rating" 4%float in
      let low := cand 1 "Drama" "predicted_rating" 2%float in
      let other := cand 2 "Comedy" "predicted_rating" 3%float in
      Permutation [high; low; other] [low; high; other]
      /\ option_map ranking64
           (returned (B64.Ranker.merge_and_rank insertion_order stable_sort
                        [high; low; other] [] [] [1; 0; 0]%float))
         = Some [(2, Some 0.5%float); (1, Some 0%float)]
      /\ option_map ranking64
           (returned (B64.Ranker.merge_and_rank insertion_order stable_sort
                        [low; high; other] [] [] [1; 0; 0]%float))
         = Some [(1, Some 1%float); (2, Some 0.5%float)]).
Proof.
  cbn zeta. split; [|split].
  - split; [apply Permutation_rev|]. split; vm_compute; reflexivity.
  - split; [apply perm_swap|]. split; vm_compute; reflexivity.
  - split; [apply perm_swap|]. split; vm_compute; reflexivity.
Qed.

(** ** Binary64: the diversity reranker *)

Lemma split_not_nil sep s : split sep s <> [].
Proof.
  destruct s as [|c s]; simpl; [discriminate|].
  destruct (Ascii.eqb c sep); [discriminate|].
  destruct (split sep s); discriminate.
Qed.

Lemma genre_set_size64 r : (0 < size (B64.Ranker.genre_set r))%nat.
Proof.
  unfold B64.Ranker.genre_set.
  destruct (split "|" (B64.genres r)) as [|g gs] eqn:E.
  - now apply split_not_nil in E.
  - apply Nat.neq_0_lt_0. apply size_non_empty_iff.
    intros Hempty. assert (g ∈ (∅ : gset string)) as H; [|set_solver].
    rewrite <- Hempty. apply elem_of_list_to_set. now left.
Qed.

(** The division of a round never fails: a genre set has an element. *)
Lemma adjusted_score_Ok df seen r :
  B64.Ranker.adjusted_score df seen r = Ok (adjusted64 df seen r).
Proof.
  unfold B64.Ranker.adjusted_score, adjusted64, base_score64, raw64.
  case_bool_decide as Hnew.
  - rewrite py_div_Ok.
    + now destruct (B64.num r !! "combined_score").
    + apply of_Z_nonzero. pose proof (genre_set_size64 r). lia.
  - now destruct (B64.num r !! "combined_score").
Qed.

Lemma adjusted64_seen df seen r :
  B64.Ranker.genre_set r ⊆ seen -> adjusted64 df seen r = base_score64 r.
Proof.
  intros Hsub. unfold adjusted64.
  assert (Hnone : B64.Ranker.genre_set r ∖ seen = ∅).
  { apply elem_of_equiv_empty_L. intros g Hg.
    apply elem_of_difference in Hg as [Hin Hout]. now apply Hout, Hsub. }
  rewrite Hnone. now rewrite bool_decide_eq_false_2 by (intros Hne; now apply Hne).
Qed.

Lemma adjusted64_unseen df seen r :
  ~ B64.Ranker.genre_set r ⊆ seen ->
  adjusted64 df seen r
  = (base_score64 r
     + df * of_Z (Z.of_nat (size (B64.Ranker.genre_set r ∖ seen)))
       / of_Z (Z.of_nat (size (B64.Ranker.genre_set r))))%float.
Proof.
  intros Hsub. unfold adjusted64.
  rewrite bool_decide_eq_true_2; [reflexivity|].
  intros Hempty. apply Hsub. intros g Hg.
  destruct (decide (g ∈ seen)) as [|Hout]; [assumption|].
  assert (g ∈ B64.Ranker.genre_set r ∖ seen) as H
    by (apply elem_of_difference; auto).
  rewrite Hempty in H. set_solver.
Qed.

(** Counts below 2^63 are converted to finite floats. *)
Lemma of_Z_finite z : 1 <= z < 2 ^ 63 -> finite64 (of_Z z).
Proof.
  intros Hz. apply (finite64_le _ (of_Z (2 ^ 63))).
  - apply ltb_leb_weak, of_Z_pos. lia.
  - eapply xrounds_leb; [apply of_Z_rounds | apply of_Z_rounds |].
    cbn. apply inject_Z_le. lia.
  - eexists. vm_compute. reflexivity.
Qed.

Lemma ltb_0_fx b :
  (0 <? b)%float = true -> finite64 b ->
  exists q, fx b = Some (Fin q) /\ (0 < q)%Q.
Proof.
  intros Hlt [q Hq]. exists q. split; [assumption|].
  apply ltb_leb in Hlt as [Hle Hnle].
  apply leb_fx in Hle as (v0 & vb & H0 & Hb & Hle).
  rewrite fx_0 in H0. injection H0 as <-. rewrite Hq in Hb.
  injection Hb as <-. cbn in Hle.
  destruct (Qlt_le_dec 0 q) as [|Hq0]; [assumption|]. exfalso.
  assert ((b <=? 0)%float = true); [|congruence].
  apply leb_fx. exists (Fin q), (Fin 0). rewrite fx_0. auto.
Qed.

Lemma mul_nonneg a b :
  (0 <=? a)%float = true -> (0 <? b)%float = true -> finite64 b ->
  (0 <=? a * b)%float = true.
Proof.
  intros Ha Hb Fb. destruct (ltb_0_fx b Hb Fb) as (q & Hq & Hpos).
  apply leb_0_fx in Ha as (va & Hva & Hle).
  pose proof (mul_fx a b _ _ Hva Hq) as H.
  destruct va as [|p|]; [contradiction| |].
  - cbn [xmul] in H. eapply xrounds_ge_0; [exact H|]. cbn in *.
    now apply Qmult_le_0_compat; [|apply Qlt_le_weak].
  - cbn [xmul] in H. rewrite xscale_pos in H by assumption.
    eapply xrounds_ge_0; [exact H|]. exact I.
Qed.

Lemma div_nonneg a b :
  (0 <=? a)%float = true -> (0 <? b)%float = true -> finite64 b ->
  (0 <=? a / b)%float = true.
Proof.
  intros Ha Hb Fb. destruct (ltb_0_fx b Hb Fb) as (q & Hq & Hpos).
  apply leb_0_fx in Ha as (va & Hva & Hle).
  pose proof (div_fx a b _ _ Hva Hq (ltb_neq _ _ Hb)) as H.
  destruct va as [|p|]; [contradiction| |].
  - cbn [xdiv] in H. eapply xrounds_ge_0; [exact H|]. cbn in *.
    apply Qle_shift_div_l; [assumption|]. rewrite Qmult_0_l. exact Hle.
  - cbn [xdiv] in H. rewrite xscale_pos in H by assumption.
    eapply xrounds_ge_0; [exact H|]. exact I.
Qed.

Lemma adjusted64_nonneg df seen r :
  (0 <=? df)%float = true -> (0 <=? base_score64 r)%float = true ->
  Z.of_nat (size (B64.Ranker.genre_set r)) < 2 ^ 63 ->
  (0 <=? adjusted64 df seen r)%float = true.
Proof.
  intros Hdf Hbase Hsize. unfold adjusted64.
  case_bool_decide as Hnew; [|assumption].
  pose proof (genre_set_size64 r) as Hpos.
  assert (Hn : (0 < size (B64.Ranker.genre_set r ∖ seen))%nat).
  { apply Nat.neq_0_lt_0, size_non_empty_iff. intros He. apply Hnew.
    now apply leibniz_equiv. }
  assert (Hle : (size (B64.Ranker.genre_set r ∖ seen)
                 <= size (B64.Ranker.genre_set r))%nat).
  { apply subseteq_size, subseteq_difference_l. reflexivity. }
  assert (Hboost : (0 <=? df * of_Z (Z.of_nat (size (B64.Ranker.genre_set r
                                                      ∖ seen)))
                          / of_Z (Z.of_nat (size (B64.Ranker.genre_set r))))
                   %float = true).
  { apply div_nonneg; [|apply of_Z_pos; lia | apply of_Z_finite; lia].
    apply mul_nonneg; [assumption | apply of_Z_pos; lia
                       | apply of_Z_finite; lia]. }
  apply (add_bounds _ _ _ _ Hbase (leb_refl_of _ _ Hbase) Hboost
           (leb_refl_of _ _ Hboost)).
Qed.

Lemma ltb_irrefl a : (a <? a)%float = false.
Proof.
  destruct (a <? a)%float eqn:E; [|reflexivity].
  apply ltb_leb in E as [H1 H2]. congruence.
Qed.

Lemma ltb_asym a b : (a <? b)%float = true -> (b <? a)%float = false.
Proof.
  intros H. destruct (b <? a)%float eqn:E; [|reflexivity].
  apply ltb_leb in H as [_ H]. apply ltb_leb_weak in E. congruence.
Qed.

(** What the scan of one round leaves in [(best_score, best_idx)], from
    the start [(b, i0)] at position [s]: either nothing beat [b], or the
    leftmost candidate that no other beats was kept. *)
Lemma scan_spec64 df seen l : forall s b i0,
  let adj := adjusted64 df seen in
  exists out,
    B64.Ranker.scan df seen (combine (seq s (length l)) l) (b, i0) = Ok out
    /\ ((out = (b, i0) /\ forall r, In r l -> (b <? adj r)%float = false)
        \/ (exists k r,
              snd out = (s + k)%nat /\ l !! k = Some r /\ fst out = adj r
              /\ (b <? adj r)%float = true
              /\ (forall r', In r' l -> (adj r <? adj r')%float = false)
              /\ (forall j r', (j < k)%nat -> l !! j = Some r' ->
                    (adj r' <? adj r)%float = true
                    \/ is_nan (adj r') = true))).
Proof.
  cbn zeta. induction l as [|x l IH]; intros s b i0.
  - exists (b, i0). split; [reflexivity|]. left. simpl. tauto.
  - cbn [length seq combine B64.Ranker.scan].
    unfold B64.Ranker.scan_step. rewrite adjusted_score_Ok. cbn [Py.bind].
    destruct (b <? adjusted64 df seen x)%float eqn:E.
    + destruct (IH (S s) (adjusted64 df seen x) s)
        as (out & Hout & [[-> Hall]|(k & r & Hk & Hr & Hfst & Hlt & Hmax
                                     & Hleft)]).
      * exists (adjusted64 df seen x, s). split; [assumption|].
        right. exists 0%nat, x. simpl. rewrite Nat.add_0_r.
        repeat split; auto.
        -- intros r' [<-|Hin]; [apply ltb_irrefl | auto].
        -- intros j r' Hj. lia.
      * exists out. split; [assumption|].
        right. exists (S k), r. rewrite Hk, Hfst.
        split; [lia|]. split; [assumption|]. split; [reflexivity|].
        split; [eapply ltb_trans; eauto|]. split.
        -- intros r' [<-|Hin]; [now apply ltb_asym | auto].
        -- intros [|j] r' Hj Hr'; simpl in Hr'.
           ++ injection Hr' as <-. now left.
           ++ apply (Hleft j); [lia | assumption].
    + destruct (IH (S s) b i0)
        as (out & Hout & [[-> Hall]|(k & r & Hk & Hr & Hfst & Hlt & Hmax
                                     & Hleft)]).
      * exists (b, i0). split; [assumption|].
        left. split; [reflexivity|]. intros r' [<-|Hin]; auto.
      * exists out. split; [assumption|].
        right. exists (S k), r. rewrite Hk, Hfst.
        split; [lia|]. split; [assumption|]. split; [reflexivity|].
        split; [assumption|]. split.
        -- intros r' [<-|Hin]; [|auto].
           destruct (adjusted64 df seen r <? adjusted64 df seen x)%float
             eqn:E'; [|reflexivity].
           rewrite (ltb_trans _ _ _ Hlt E') in E. discriminate.
        -- intros [|j] r' Hj Hr'; simpl in Hr'.
           ++ injection Hr' as <-.
              destruct (is_nan (adjusted64 df seen x)) eqn:En;
                [now right | left].
              eapply leb_ltb_trans; [|exact Hlt].
              apply leb_total; auto. apply (ltb_not_nan _ _ Hlt).
           ++ apply (Hleft j); [lia | assumption].
Qed.

Lemma rerank_loop64_step fuel df result seen remaining bs bi chosen :
  B64.Ranker.select_best df seen remaining = Ok (bs, bi) ->
  remaining !! bi = Some chosen ->
  B64.Ranker.rerank_loop (S fuel) df result seen remaining
  = B64.Ranker.rerank_loop fuel df (result ++ [chosen])
      (seen ∪ B64.Ranker.genre_set chosen) (delete bi remaining).
Proof.
  intros Hsel Hchosen. destruct remaining as [|x l]; [discriminate|].
  cbn [B64.Ranker.rerank_loop]. rewrite Hsel.
  unfold B64.Ranker.pop. now rewrite Hchosen.
Qed.

(** C7, as amended. In a round of the rerank the genre set of a candidate
    is the set of the pieces of its genres string between "|", which is
    never empty, so the division never fails; the adjusted score of a
    candidate with a genre that is not seen yet is the binary64 value of
    base + factor * |genres - seen| / |genres|, and it is the base score
    when the genres are all seen; it is not negative when the factor and
    the base score are not. Provided some remaining candidate has an
    adjusted score above -1, the round selects a candidate that none
    beats, before which every candidate has a smaller adjusted score (or
    nan), moves it to the end of the result and adds its genres to the
    seen ones; when no adjusted score is above -1 the round selects the
    first remaining candidate. *)
Theorem rerank_round (diversity_factor : float) (seen_genres : gset string)
    (result remaining : list B64.rec) (fuel : nat) :
  let adj := adjusted64 diversity_factor seen_genres in
  (forall r,
     let genres := B64.Ranker.genre_set r in
     (0 < size genres)%nat
     /\ B64.Ranker.adjusted_score diversity_factor seen_genres r = Ok (adj r)
     /\ (~ genres ⊆ seen_genres ->
         adj r = (base_score64 r
                  + diversity_factor
                    * of_Z (Z.of_nat (size (genres ∖ seen_genres)))
                    / of_Z (Z.of_nat (size genres)))%float)
     /\ (genres ⊆ seen_genres -> adj r = base_score64 r)
     /\ ((0 <=? diversity_factor)%float = true ->
         (0 <=? base_score64 r)%float = true ->
         Z.of_nat (size genres) < 2 ^ 63 ->
         (0 <=? adj r)%float = true))
  /\ ((exists r, In r remaining /\ (-1 <? adj r)%float = true) ->
      exists best_idx chosen,
        remaining !! best_idx = Some chosen
        /\ (forall r, In r remaining -> (adj chosen <? adj r)%float = false)
        /\ (forall j r, (j < best_idx)%nat -> remaining !! j = Some r ->
                        (adj r <? adj chosen)%float = true
                        \/ is_nan (adj r) = true)
        /\ B64.Ranker.rerank_loop (S fuel) diversity_factor result
                                  seen_genres remaining
           = B64.Ranker.rerank_loop fuel diversity_factor (result ++ [chosen])
               (seen_genres ∪ B64.Ranker.genre_set chosen)
               (delete best_idx remaining))
  /\ ((forall r, In r remaining -> (-1 <? adj r)%float = false) ->
      forall chosen rest, remaining = chosen :: rest ->
        B64.Ranker.rerank_loop (S fuel) diversity_factor result
                               seen_genres remaining
        = B64.Ranker.rerank_loop fuel diversity_factor (result ++ [chosen])
            (seen_genres ∪ B64.Ranker.genre_set chosen) rest).
Proof.
  cbn zeta. split; [|split].
  - intros r. split; [apply genre_set_size64|].
    split; [apply adjusted_score_Ok|].
    split; [apply adjusted64_unseen|].
    split; [apply adjusted64_seen | apply adjusted64_nonneg].
  - intros (r0 & Hin0 & Hr0).
    destruct (scan_spec64 diversity_factor seen_genres remaining 0
                          (-1)%float 0)
      as (out & Hout & [[_ Hall]|(k & r & Hk & Hr & _ & _ & Hmax & Hleft)]).
    { rewrite (Hall _ Hin0) in Hr0. discriminate. }
    exists k, r. split; [assumption|]. split; [assumption|].
    split; [assumption|].
    destruct out as [bs bi]. simpl in Hk. subst bi.
    now apply (rerank_loop64_step _ _ _ _ _ bs).
  - intros Hall chosen rest ->.
    destruct (scan_spec64 diversity_factor seen_genres (chosen :: rest) 0
                          (-1)%float 0)
      as (out & Hout & [[-> _]|(k & r & _ & Hr & _ & Hlt & _)]).
    + exact (rerank_loop64_step fuel diversity_factor result seen_genres
               (chosen :: rest) (-1)%float 0%nat chosen Hout eq_refl).
    + apply list_elem_of_lookup_2, list_elem_of_In in Hr.
      rewrite (Hall _ Hr) in Hlt. discriminate.
Qed.

Lemma rerank_round_witness :
  let remaining := [cand 1 "Drama|Crime" "combined_score" 0.5;
                    cand 2 "Drama" "combined_score" 0.5;
                    cand 3 "Comedy" "combined_score" 0.25]%float in
  exists best_idx chosen,
    remaining !! best_idx = Some chosen
    /\ forall r, In r remaining ->
                 (adjusted64 0.3 ∅ chosen <? adjusted64 0.3 ∅ r)%float = false.
Proof.
  cbn zeta.
  destruct (proj1 (proj2 (rerank_round 0.3 ∅ []
              [cand 1 "Drama|Crime" "combined_score" 0.5;
               cand 2 "Drama" "combined_score" 0.5;
               cand 3 "Comedy" "combined_score" 0.25]%float 3)))
    as (best_idx & chosen & Hchosen & Hmax & _).
  - exists (cand 1 "Drama|Crime" "combined_score" 0.5%float).
    split; [now left | vm_compute; reflexivity].
  - exists best_idx, chosen. split; assumption.
Defined.

(** The rerank of three candidates: movie 3 overtakes movie 2, whose
    only genre is seen once movie 1 is chosen. *)
Example rerank_example :
  option_map (fun o => match o with Ok l => map B64.movieId l | Raise _ => [] end)
    (B64.Ranker.rerank_with_diversity
       [cand 1 "Drama|Crime" "combined_score" 0.5;
        cand 2 "Drama" "combined_score" 0.5;
        cand 3 "Comedy" "combined_score" 0.25]%float 0.3)
  = Some [1; 3; 2].
Proof. vm_compute. reflexivity. Qed.

(** The boost of a candidate whose genres are all new is
    factor * n / n, which is not always the factor: 0.2 * 3 / 3 is
    0.20000000000000004. Of two candidates with the base score 0.5, the
    second, with three new genres, gets 0.7000000000000001 against 0.7
    and is selected first. *)
Example rerank_rounding :
  let one := cand 1 "Drama" "combined_score" 0.5%float in
  let three := cand 2 "Action|Comedy|Crime" "combined_score" 0.5%float in
  B64.Ranker.adjusted_score 0.2 ∅ one = Ok 0.7%float
  /\ B64.Ranker.adjusted_score 0.2 ∅ three = Ok 0.7000000000000001%float
  /\ option_map (fun o => match o with
                          | Ok l => map B64.movieId l
                          | Raise _ => []
                          end)
       (B64.Ranker.rerank_with_diversity [one; three] 0.2)
     = Some [2; 1].
Proof. cbn zeta. repeat split; vm_compute; reflexivity. Qed.

(** Scenario D: two candidates with disjoint genres, the first with the
    higher score, keep their order. *)
Example scenario_D :
  option_map (fun o => match o with Ok l => map B64.movieId l | Raise _ => [] end)
    (B64.Ranker.rerank_with_diversity
       [cand 1 "Drama" "combined_score" 0.75;
        cand 2 "Comedy" "combined_score" 0.5]%float 0.3)
  = Some [1; 2].
Proof. vm_compute. reflexivity. Qed.

(** C7, as stated, fails in two places. A candidate with no genre (the
    empty genres string) has the one-element genre set of the empty
    string and is boosted in full, not by zero. And when no adjusted
    score exceeds the starting value -1 of the scan, the first remaining
    candidate is selected, not the one of highest adjusted score. *)
Lemma rerank_round_edge_cases :
  (let r := cand 1 "" "combined_score" 0.25%float in
   size (B64.Ranker.genre_set r) = 1%nat
   /\ base_score64 r = 0.25%float
   /\ B64.Ranker.adjusted_score 0.5 ∅ r = Ok 0.75%float)
  /\ (let low := cand 1 "Drama" "combined_score" (-3)%float in
      let high := cand 2 "Drama" "combined_score" (-2)%float in
      option_map snd (returned (B64.Ranker.select_best 0 ∅ [low; high]))
      = Some 0%nat
      /\ B64.Ranker.adjusted_score 0 ∅ low = Ok (-3)%float
      /\ B64.Ranker.adjusted_score 0 ∅ high = Ok (-2)%float
      /\ (-3 <? -2)%float = true
      /\ option_map
           (fun o => match o with
                     | Ok l => map B64.movieId l
                     | Raise _ => []
                     end)
           (B64.Ranker.rerank_with_diversity [low; high] 0)
         = Some [1; 2]).
Proof.
  cbn zeta. repeat split; vm_compute; reflexivity.
Qed.
